(** * 2048 TD-learning: board engine, symmetry catalog, N-tuple network,
      weight persistence and move selection, embedded from the JavaScript
      sources and checked against the specification. *)

From Stdlib Require Import ZArith List Bool Lia Arith PeanoNat Permutation.
From Stdlib Require Import Ascii.
From Stdlib Require String DecimalString DecimalZ.
From Stdlib Require Import SpecFloat.
Import ListNotations.

Open Scope Z_scope.

(* ===================================================================== *)
(** * JavaScript integer helpers *)
(* ===================================================================== *)

(** ToInt32: the signed 32-bit wrap-around applied to the result of [<<]. *)
Definition to_int32 (z : Z) : Z := (z + 2 ^ 31) mod 2 ^ 32 - 2 ^ 31.

(** [a << b]: the shift count is taken modulo 32, the result wraps to int32. *)
Definition js_shl (a b : Z) : Z := to_int32 (Z.shiftl a (Z.land b 31)).

(** A store into a [Uint8Array] keeps the value modulo 256. *)
Definition u8 (v : Z) : Z := v mod 256.

(** Typed-array element read and write on a small array held as a list.
    A write out of range is ignored, as typed arrays do; a read out of
    range yields 0, which is what [line[i] = board[j]] stores for an
    [undefined] operand.  The comparisons of [canMove], [maxTile] and
    [emptyCount] read inside the board when it has [TOTAL] cells, which
    the theorems about them assume. *)
Definition aget (a : list Z) (i : nat) : Z := nth i a 0.

Fixpoint aset (a : list Z) (i : nat) (v : Z) : list Z :=
  match a, i with
  | [], _ => []
  | _ :: t, O => u8 v :: t
  | h :: t, S j => h :: aset t j v
  end.

(* ===================================================================== *)
(** * Board engine (engine4x4.js, and the 5x5 engine, which differs only
      in [SIZE]) *)
(* ===================================================================== *)

Section Engine.

Variable SIZE : nat.

Definition TOTAL : nat := (SIZE * SIZE)%nat.

Definition cloneBoard (board : list Z) : list Z := board.

(** [tileValue(log2val)]. *)
Definition tileValue (log2val : Z) : Z :=
  if log2val =? 0 then 0 else js_shl 1 log2val.

(** First and third loop of [slideLine]: move the non-zero cells to the
    front, in place.  [n] counts the remaining iterations. *)
Fixpoint compact_loop (n i write : nat) (line : list Z) : nat * list Z :=
  match n with
  | O => (write, line)
  | S n' =>
      if negb (aget line i =? 0)
      then compact_loop n' (S i) (S write) (aset line write (aget line i))
      else compact_loop n' (S i) write line
  end.

(** [for (let i = write; i < size; i++) line[i] = 0]. *)
Fixpoint zero_loop (n i : nat) (line : list Z) : list Z :=
  match n with
  | O => line
  | S n' => zero_loop n' (S i) (aset line i 0)
  end.

Definition compact (line : list Z) (size : nat) : list Z :=
  let '(write, line1) := compact_loop size 0 0 line in
  zero_loop (size - write) write line1.

(** Second loop of [slideLine]: one pass of merges; the index advances by
    two after a merge.  [fuel] bounds the number of iterations. *)
Fixpoint merge_loop (fuel i size : nat) (line : list Z) (reward : Z)
  : list Z * Z :=
  match fuel with
  | O => (line, reward)
  | S fuel' =>
      if (i <? size - 1)%nat then
        if negb (aget line i =? 0) && (aget line i =? aget line (S i)) then
          let line1 := aset line i (aget line i + 1) in
          let reward1 := reward + js_shl 1 (aget line1 i) in
          let line2 := aset line1 (S i) 0 in
          merge_loop fuel' (S (S i)) size line2 reward1
        else merge_loop fuel' (S i) size line reward
      else (line, reward)
  end.

(** [slideLine(line, size)]: the array after the call and the reward. *)
Definition slideLine (line : list Z) (size : nat) : list Z * Z :=
  let line1 := compact line size in
  let '(line2, reward) := merge_loop size 0 size line1 0 in
  (compact line2 size, reward).

(** The [switch (dir)] of [move]: the board index of position [i] of line
    [k]; no case matches a direction outside 0..3. *)
Definition line_index (dir : Z) (k i : nat) : option nat :=
  match dir with
  | 0 => Some (i * SIZE + k)%nat
  | 1 => Some (k * SIZE + (SIZE - 1 - i))%nat
  | 2 => Some ((SIZE - 1 - i) * SIZE + k)%nat
  | 3 => Some (k * SIZE + i)%nat
  | _ => None
  end.

Fixpoint read_line (n i : nat) (dir : Z) (k : nat) (board line : list Z)
  : list Z :=
  match n with
  | O => line
  | S n' =>
      read_line n' (S i) dir k board
        (match line_index dir k i with
         | Some j => aset line i (aget board j)
         | None => line
         end)
  end.

Fixpoint write_line (n i : nat) (dir : Z) (k : nat) (board line : list Z)
  : list Z :=
  match n with
  | O => board
  | S n' =>
      write_line n' (S i) dir k
        (match line_index dir k i with
         | Some j => aset board j (aget line i)
         | None => board
         end) line
  end.

(** [for (...) if (line[i] !== orig[i]) { moved = true; break; }]. *)
Fixpoint differs (n i : nat) (line orig : list Z) : bool :=
  match n with
  | O => false
  | S n' =>
      if negb (aget line i =? aget orig i) then true
      else differs n' (S i) line orig
  end.

Record move_state := {
  ms_board : list Z;
  ms_line : list Z;
  ms_reward : Z;
  ms_moved : bool
}.

(** One iteration of the outer loop of [move], for line [k]. *)
Definition move_step (dir : Z) (k : nat) (st : move_state) : move_state :=
  let line := read_line SIZE 0 dir k (ms_board st) (ms_line st) in
  let orig := line in
  let '(line', r) := slideLine line SIZE in
  {| ms_board := write_line SIZE 0 dir k (ms_board st) line';
     ms_line := line';
     ms_reward := ms_reward st + r;
     ms_moved := if differs SIZE 0 line' orig then true else ms_moved st |}.

Fixpoint move_loop (n k : nat) (dir : Z) (st : move_state) : move_state :=
  match n with
  | O => st
  | S n' => move_loop n' (S k) dir (move_step dir k st)
  end.

Record move_result := {
  mr_board : list Z;
  moved : bool;
  reward : Z
}.

(** [move(board, dir)]: the board after the in-place update, with the
    returned [{ moved, reward }]. *)
Definition move (board : list Z) (dir : Z) : move_result :=
  let st := move_loop SIZE 0 dir
              {| ms_board := board; ms_line := repeat 0 SIZE;
                 ms_reward := 0; ms_moved := false |} in
  {| mr_board := ms_board st; moved := ms_moved st; reward := ms_reward st |}.

(** [moveClone(board, dir)]. *)
Definition moveClone (board : list Z) (dir : Z) : move_result :=
  move (cloneBoard board) dir.

(** A loop [for (i = lo; i < lo + n; i++) if (f i) return true]. *)
Fixpoint any_from (n i : nat) (f : nat -> bool) : bool :=
  match n with
  | O => false
  | S n' => if f i then true else any_from n' (S i) f
  end.

(** [canMove(board)]. *)
Definition canMove (board : list Z) : bool :=
  if any_from TOTAL 0 (fun i => aget board i =? 0) then true
  else
    any_from SIZE 0 (fun r =>
      any_from SIZE 0 (fun c =>
        let v := aget board (r * SIZE + c) in
        if (c <? SIZE - 1)%nat && (v =? aget board (r * SIZE + c + 1))
        then true
        else (r <? SIZE - 1)%nat && (v =? aget board ((r + 1) * SIZE + c)))).

(** [maxTile(board)]. *)
Fixpoint maxTile_loop (n i : nat) (board : list Z) (max : Z) : Z :=
  match n with
  | O => max
  | S n' =>
      maxTile_loop n' (S i) board
        (if aget board i >? max then aget board i else max)
  end.

Definition maxTile (board : list Z) : Z := maxTile_loop TOTAL 0 board 0.

(** [emptyCount(board)]. *)
Fixpoint emptyCount_loop (n i : nat) (board : list Z) (count : Z) : Z :=
  match n with
  | O => count
  | S n' =>
      emptyCount_loop n' (S i) board
        (if aget board i =? 0 then count + 1 else count)
  end.

Definition emptyCount (board : list Z) : Z := emptyCount_loop TOTAL 0 board 0.

End Engine.

(* ===================================================================== *)
(** * Specification-side vocabulary for the engine *)
(* ===================================================================== *)

(** The tiles of a line, in slide order. *)
Definition nonzero (l : list Z) : list Z :=
  filter (fun x => negb (x =? 0)) l.

(** The merge pass as a function on the whole line: what the second loop
    of [slideLine] leaves in the array. *)
Fixpoint merge_inplace (l : list Z) : list Z :=
  match l with
  | [] => []
  | a :: t =>
      match t with
      | [] => [a]
      | b :: r =>
          if negb (a =? 0) && (a =? b)
          then u8 (a + 1) :: 0 :: merge_inplace r
          else a :: merge_inplace t
      end
  end.

(** The reward the merge pass accumulates. *)
Fixpoint merge_gain (l : list Z) : Z :=
  match l with
  | [] => 0
  | a :: t =>
      match t with
      | [] => 0
      | b :: r =>
          if negb (a =? 0) && (a =? b)
          then js_shl 1 (u8 (a + 1)) + merge_gain r
          else merge_gain t
      end
  end.

(** Tiles created by merges, from the specification: scanning the tiles of
    a line from the front, a tile merges with its immediate successor when
    the codes match, the pair is consumed, and a tile of the next code is
    created. *)
Fixpoint created_tiles (tiles : list Z) : list Z :=
  match tiles with
  | [] => []
  | a :: t =>
      match t with
      | [] => []
      | b :: r =>
          if a =? b then (a + 1) :: created_tiles r else created_tiles t
      end
  end.

(** The actual value of a tile of code [k > 0] is [2^k]; an empty cell
    counts for nothing. *)
Definition actual_value (code : Z) : Z := if code =? 0 then 0 else 2 ^ code.

Definition sumZ (l : list Z) : Z := fold_right Z.add 0 l.

(** Total of the actual values on a board or line. *)
Definition total_value (cells : list Z) : Z := sumZ (map actual_value cells).

(** The same total, computed with the engine's own [tileValue]. *)
Definition total_tileValue (cells : list Z) : Z := sumZ (map tileValue cells).

(** Rows of a 4x4 board, top to bottom, each left to right. *)
Definition rows4 (b : list Z) : list (list Z) :=
  [firstn 4 b; firstn 4 (skipn 4 b); firstn 4 (skipn 8 b);
   firstn 4 (skipn 12 b)].

(** Columns of a 4x4 board, left to right, each top to bottom. *)
Definition cols4 (b : list Z) : list (list Z) :=
  map (fun k => map (fun r => nth k r 0) (rows4 b)) [0; 1; 2; 3]%nat.

(** The lines of the board as an action slides them: each line is listed
    starting from the edge the tiles move toward.  Directions are
    0 = up, 1 = right, 2 = down, 3 = left; another number names no line. *)
Definition lines_toward (dir : Z) (b : list Z) : list (list Z) :=
  match dir with
  | 0 => cols4 b
  | 1 => map (@rev Z) (rows4 b)
  | 2 => map (@rev Z) (cols4 b)
  | 3 => rows4 b
  | _ => []
  end.

(** Codes of all tiles created by merges in one move. *)
Definition tiles_created_by_move (dir : Z) (b : list Z) : list Z :=
  flat_map (fun line => created_tiles (nonzero line)) (lines_toward dir b).

(** A well-formed board: a [Uint8Array] of 16 cells. *)
Definition byte_cells (l : list Z) : Prop := Forall (fun c => 0 <= c < 256) l.

Definition board4 (b : list Z) : Prop := length b = 16%nat /\ byte_cells b.

Definition codes_at_most (n : Z) (l : list Z) : Prop := Forall (fun c => c <= n) l.

(** The cell of row [r] and column [c] of a 4x4 board. *)
Definition cell4 (b : list Z) (r c : nat) : Z := nth (r * 4 + c) b 0.

(** Specification of [canMove]: some cell is empty, or two horizontally
    or vertically adjacent cells hold equal non-zero codes. *)
Definition has_empty_cell (b : list Z) : Prop :=
  exists i, (i < 16)%nat /\ nth i b 0 = 0.

Definition has_equal_neighbours (b : list Z) : Prop :=
  (exists r c, (r < 4)%nat /\ (c < 3)%nat /\
               cell4 b r c <> 0 /\ cell4 b r c = cell4 b r (c + 1)) \/
  (exists r c, (r < 3)%nat /\ (c < 4)%nat /\
               cell4 b r c <> 0 /\ cell4 b r c = cell4 b (r + 1) c).

(* ===================================================================== *)
(** * JavaScript numbers and 32-bit floats *)
(* ===================================================================== *)

(** A JavaScript number is an IEEE-754 binary64 value.  It is modelled by
    the standard library's [spec_float], with the binary64 operations
    ([prec = 53], [emax = 1024]). *)
Definition number := spec_float.

Definition num_add (x y : number) : number := SFadd 53 1024 x y.
Definition num_mul (x y : number) : number := SFmul 53 1024 x y.
Definition num_div (x y : number) : number := SFdiv 53 1024 x y.

(** The canonical binary64 representative of a value ([SFcompare] orders
    canonical representatives). *)
Definition canon64 (x : number) : number :=
  match x with
  | S754_finite s m e => binary_round 53 1024 s m e
  | _ => x
  end.

(** [x > y]; false when either side is NaN. *)
Definition num_gt (x y : number) : bool :=
  SFltb (canon64 y) (canon64 x).

Definition is_nan (x : number) : bool :=
  match x with S754_nan => true | _ => false end.

(** An integer as a number. *)
Definition num_of_Z (z : Z) : number := binary_normalize 53 1024 z 0 false.

Definition pos_zero : number := S754_zero false.
Definition neg_infinity : number := S754_infinity true.
Definition pos_infinity : number := S754_infinity false.
(** The literals [0.9] and [0.1]. *)
Definition num_0_9 : number := S754_finite false 8106479329266893 (-53).
Definition num_0_1 : number := S754_finite false 7205759403792794 (-56).
(** The literal [0.2], the double of [0.1]. *)
Definition num_0_2 : number := S754_finite false 7205759403792794 (-55).

(** An element of a [Float32Array] is held as its 32-bit pattern:
    sign (1 bit), biased exponent (8 bits), fraction (23 bits). *)
Definition f32_sign (w : Z) : bool := 2 ^ 31 <=? w.
Definition f32_expo (w : Z) : Z := (w / 2 ^ 23) mod 256.
Definition f32_frac (w : Z) : Z := w mod 2 ^ 23.

(** The value read from an element. *)
Definition f32_decode (w : Z) : number :=
  let s := f32_sign w in
  let e := f32_expo w in
  let m := f32_frac w in
  if e =? 0 then
    if m =? 0 then S754_zero s else S754_finite s (Z.to_pos m) (-149)
  else if e =? 255 then
    if m =? 0 then S754_infinity s else S754_nan
  else S754_finite s (Z.to_pos (m + 2 ^ 23)) (e - 150).

(** Rounding of a number to binary32, to nearest, ties to even. *)
Definition f32_round (x : number) : number :=
  match x with
  | S754_finite s m e => binary_round 24 128 s m e
  | _ => x
  end.

Definition sign_bit (s : bool) : Z := if s then 2 ^ 31 else 0.

(** The bit pattern of a binary32 value; NaN is stored as the quiet NaN. *)
Definition f32_encode (x : number) : Z :=
  match x with
  | S754_zero s => sign_bit s
  | S754_infinity s => sign_bit s + 255 * 2 ^ 23
  | S754_nan => 255 * 2 ^ 23 + 2 ^ 22
  | S754_finite s m e =>
      if Z.pos m <? 2 ^ 23
      then sign_bit s + Z.pos m
      else sign_bit s + ((e + 150) mod 256) * 2 ^ 23 + Z.pos m mod 2 ^ 23
  end.

(** The bit pattern stored when a number is written to an element. *)
Definition f32_store (x : number) : Z := f32_encode (f32_round x).

(** ** Typed arrays and buffers too large to list

    A [Float32Array], a byte buffer or a JSON array is a length with the
    element at each index; an index outside [0, length) has no element. *)
Record jsarray (A : Type) := {
  arr_length : Z;
  arr_at : Z -> A
}.
Arguments arr_length {A} _.
Arguments arr_at {A} _ _.

Definition in_range {A} (a : jsarray A) (i : Z) : bool :=
  (0 <=? i) && (i <? arr_length a).

(** [a[i]], [None] standing for [undefined]. *)
Definition arr_get {A} (a : jsarray A) (i : Z) : option A :=
  if in_range a i then Some (arr_at a i) else None.

(** [a[i] = v] on a typed array: ignored out of range. *)
Definition arr_set {A} (a : jsarray A) (i : Z) (v : A) : jsarray A :=
  if in_range a i
  then {| arr_length := arr_length a;
          arr_at := fun j => if j =? i then v else arr_at a j |}
  else a.

Definition Float32Array := jsarray Z.

(** [new Float32Array(size)]: all elements [+0]. *)
Definition new_Float32Array (size : Z) : Float32Array :=
  {| arr_length := size; arr_at := fun _ => 0 |}.

(* ===================================================================== *)
(** * Symmetries of the 4x4 board (symmetry4x4.js) *)
(* ===================================================================== *)

Module Symmetry4.

Definition SIZE : Z := 4.

(** A store into an [Int32Array] held as a list. *)
Fixpoint iset (a : list Z) (i : nat) (v : Z) : list Z :=
  match a, i with
  | [], _ => []
  | _ :: t, O => to_int32 v :: t
  | h :: t, S j => h :: iset t j v
  end.

(** [buildMap(transformFn)]: the two nested loops, [map[r*SIZE+c] =
    nr*SIZE+nc]. *)
Definition buildMap (transformFn : Z -> Z -> Z * Z) : list Z :=
  fold_left
    (fun map r =>
       fold_left
         (fun map c =>
            let '(nr, nc) := transformFn r c in
            iset map (Z.to_nat (r * SIZE + c)) (nr * SIZE + nc))
         [0; 1; 2; 3] map)
    [0; 1; 2; 3] (repeat 0 (Z.to_nat (SIZE * SIZE))).

Definition identity := buildMap (fun r c => (r, c)).
Definition rot90 := buildMap (fun r c => (c, SIZE - 1 - r)).
Definition rot180 := buildMap (fun r c => (SIZE - 1 - r, SIZE - 1 - c)).
Definition rot270 := buildMap (fun r c => (SIZE - 1 - c, r)).
Definition flipH := buildMap (fun r c => (r, SIZE - 1 - c)).
Definition flipH_rot90 :=
  buildMap (fun r c => let r1 := r in let c1 := SIZE - 1 - c in
                       (c1, SIZE - 1 - r1)).
Definition flipH_rot180 :=
  buildMap (fun r c => let r1 := r in let c1 := SIZE - 1 - c in
                       (SIZE - 1 - r1, SIZE - 1 - c1)).
Definition flipH_rot270 :=
  buildMap (fun r c => let r1 := r in let c1 := SIZE - 1 - c in
                       (SIZE - 1 - c1, r1)).

Definition SYMMETRY_MAPS : list (list Z) :=
  [identity; rot90; rot180; rot270;
   flipH; flipH_rot90; flipH_rot180; flipH_rot270].

End Symmetry4.

(** An element of a pattern or of a transformed pattern: a number, or
    [undefined] ([None]) when a symmetry map was read out of range. *)
Definition cell_index := option Z.

(** [symMap[idx]]. *)
Definition map_get (symMap : list Z) (idx : cell_index) : cell_index :=
  match idx with
  | Some i => if 0 <=? i then nth_error symMap (Z.to_nat i) else None
  | None => None
  end.

(** [applySymmetry(pattern, symMap)]. *)
Definition applySymmetry (pattern : list cell_index) (symMap : list Z)
  : list cell_index :=
  map (fun idx => map_get symMap idx) pattern.

(** The string of a number inside [join]; [undefined] gives the empty
    string. *)
Definition render (x : cell_index) : String.string :=
  match x with
  | Some z => DecimalString.NilZero.string_of_int (Z.to_int z)
  | None => String.EmptyString
  end.

(** [xs.join(',')]. *)
Fixpoint join (xs : list String.string) : String.string :=
  match xs with
  | [] => String.EmptyString
  | [x] => x
  | x :: rest => String.append x (String.String ","%char (join rest))
  end.

Definition key_of (transformed : list cell_index) : String.string :=
  join (map render transformed).

(** [seen.has(key)] on the set of the keys added so far. *)
Definition set_has (seen : list String.string) (key : String.string) : bool :=
  existsb (String.eqb key) seen.

(** The body of the loop of [allSymmetries]. *)
Definition allSymmetries_step (pattern : list cell_index)
    (st : list String.string * list (list cell_index)) (symMap : list Z)
  : list String.string * list (list cell_index) :=
  let '(seen, variants) := st in
  let transformed := applySymmetry pattern symMap in
  let key := key_of transformed in
  if negb (set_has seen key)
  then (key :: seen, variants ++ [transformed])
  else (seen, variants).

(** [allSymmetries(pattern)] over a list of symmetry maps. *)
Definition allSymmetries_over (maps : list (list Z))
    (pattern : list cell_index) : list (list cell_index) :=
  snd (fold_left (allSymmetries_step pattern) maps ([], [])).

Definition allSymmetries (pattern : list cell_index)
  : list (list cell_index) :=
  allSymmetries_over Symmetry4.SYMMETRY_MAPS pattern.

(** Specification: the tuples of [ts] that do not occur earlier in [ts],
    in the order of [ts]. *)
Definition cell_index_list_eq_dec :
  forall x y : list cell_index, {x = y} + {x <> y}.
Proof. repeat decide equality. Defined.

Definition first_occurrences (ts : list (list cell_index))
  : list (list cell_index) :=
  flat_map
    (fun i =>
       match nth_error ts i with
       | Some t =>
           if in_dec cell_index_list_eq_dec t (firstn i ts) then [] else [t]
       | None => []
       end)
    (seq 0 (length ts)).

(* ===================================================================== *)
(** * Patterns of the 4x4 board (patterns4x4.js) *)
(* ===================================================================== *)

Module Patterns4.

Definition SIZE : Z := 4.
Definition idx (r c : Z) : cell_index := Some (r * SIZE + c).

Definition rect_2x3 := [idx 0 0; idx 0 1; idx 0 2; idx 1 0; idx 1 1; idx 1 2].
Definition rect_3x2 := [idx 0 0; idx 0 1; idx 1 0; idx 1 1; idx 2 0; idx 2 1].
Definition corner_L := [idx 0 0; idx 0 1; idx 0 2; idx 1 0; idx 1 1; idx 2 0].
Definition line4_h := [idx 0 0; idx 0 1; idx 0 2; idx 0 3].
Definition sq2x2 := [idx 0 0; idx 0 1; idx 1 0; idx 1 1].
Definition stair4 := [idx 0 0; idx 0 1; idx 1 1; idx 1 2].
Definition lshape4 := [idx 0 0; idx 1 0; idx 2 0; idx 2 1].

Definition BASE_PATTERNS : list (list cell_index) :=
  [rect_2x3; rect_3x2; corner_L; line4_h; sq2x2; stair4; lshape4].

Definition NUM_VALUES : Z := 16.

(** [lutSize(tupleLength) = NUM_VALUES ** tupleLength]. *)
Definition lutSize (tupleLength : Z) : Z := NUM_VALUES ^ tupleLength.

End Patterns4.

(* ===================================================================== *)
(** * N-tuple network (ntuple4x4.js) *)
(* ===================================================================== *)

(** One element of [this.patterns]. *)
Record pattern_entry := {
  tupleLen : Z;
  variants : list (list cell_index);
  lut : Float32Array
}.

(** The state of an [NTupleNetwork]: [this.patterns]. *)
Definition network := list pattern_entry.

(** The constructor, over a list of base patterns. *)
Definition NTupleNetwork_over (base : list (list cell_index)) : network :=
  map (fun basePattern =>
         let size := Patterns4.lutSize (Z.of_nat (length basePattern)) in
         {| tupleLen := Z.of_nat (length basePattern);
            variants := allSymmetries basePattern;
            lut := new_Float32Array size |})
      base.

(** [new NTupleNetwork()]. *)
Definition NTupleNetwork_new : network :=
  NTupleNetwork_over Patterns4.BASE_PATTERNS.

(** [board[pattern[i]]] on a [Uint8Array] board. *)
Definition board_get (board : list Z) (i : cell_index) : option Z :=
  match i with
  | Some j => if 0 <=? j then nth_error board (Z.to_nat j) else None
  | None => None
  end.

(** The loop of [_index]; [None] is NaN, which an [undefined] operand
    produces and every later step keeps.  The index is an integer: with
    byte codes and the tuple lengths of the catalog it stays far below
    [2^53], where the arithmetic of numbers is exact. *)
Fixpoint index_loop (board : list Z) (pattern : list cell_index)
    (idx : option Z) : option Z :=
  match pattern with
  | [] => idx
  | p :: rest =>
      index_loop board rest
        (match idx, board_get board p with
         | Some i, Some c => Some (i * Patterns4.NUM_VALUES + c)
         | _, _ => None
         end)
  end.

(** [_index(board, pattern)]. *)
Definition _index (board : list Z) (pattern : list cell_index) : option Z :=
  index_loop board pattern (Some 0).

(** [lut[idx]]. *)
Definition lut_get (l : Float32Array) (idx : option Z) : option Z :=
  match idx with
  | Some i => arr_get l i
  | None => None
  end.

(** [value += lut[idx]]; adding [undefined] gives NaN. *)
Definition add_lookup (board : list Z) (l : Float32Array) (value : number)
    (variant : list cell_index) : number :=
  match lut_get l (_index board variant) with
  | Some w => num_add value (f32_decode w)
  | None => S754_nan
  end.

(** [evaluate(board)]. *)
Definition evaluate (net : network) (board : list Z) : number :=
  fold_left
    (fun value p => fold_left (add_lookup board (lut p)) (variants p) value)
    net pos_zero.

(** The element after [lut[i] += delta]. *)
Definition f32_accumulate (w : Z) (delta : number) : Z :=
  f32_store (num_add (f32_decode w) delta).

(** [lut[idx] += delta]; nothing is stored out of range. *)
Definition lut_add (board : list Z) (delta : number) (l : Float32Array)
    (variant : list cell_index) : Float32Array :=
  match _index board variant with
  | Some i =>
      match arr_get l i with
      | Some w => arr_set l i (f32_accumulate w delta)
      | None => l
      end
  | None => l
  end.

Definition update_pattern (board : list Z) (delta : number)
    (p : pattern_entry) : pattern_entry :=
  {| tupleLen := tupleLen p;
     variants := variants p;
     lut := fold_left (lut_add board delta) (variants p) (lut p) |}.

(** [update(board, delta)]. *)
Definition update (net : network) (board : list Z) (delta : number)
  : network :=
  map (update_pattern board delta) net.

(* ===================================================================== *)
(** * Weight files *)
(* ===================================================================== *)

Inductive js_error :=
| PatternCountMismatch (fileCount networkCount : Z)
| LutSizeMismatch (i : nat)
| RangeError
| TypeError.

(** How a call ends. *)
Inductive outcome :=
| Returned
| Thrown (e : js_error).

Definition with_lut (p : pattern_entry) (l : Float32Array) : pattern_entry :=
  {| tupleLen := tupleLen p; variants := variants p; lut := l |}.

(** ** Text form *)

(** An element of a JSON array of numbers: a number or [null]. *)
Definition json_value := option number.

Record saved_pattern := {
  sp_tupleLen : Z;
  sp_numVariants : Z;
  sp_lutSize : Z;
  sp_lut : jsarray json_value
}.

(** The object a weight file in text form parses to. *)
Record weight_data := {
  wd_version : Z;
  wd_boardSize : Z;
  wd_numPatterns : Z;
  wd_patterns : list saved_pattern
}.

(** What [JSON.parse] reads back for a number written by
    [JSON.stringify]: a finite number is written with digits that read
    back to the same number, negative zero is written [0], and NaN and
    the infinities are written [null]. *)
Definition json_number (x : number) : json_value :=
  match x with
  | S754_finite _ _ _ => Some x
  | S754_zero _ => Some pos_zero
  | _ => None
  end.

(** [save(filepath)]: the data of the file written, as [JSON.parse] reads
    it back. *)
Definition save (net : network) : weight_data :=
  {| wd_version := 1;
     wd_boardSize := 4;
     wd_numPatterns := Z.of_nat (length net);
     wd_patterns :=
       map (fun p =>
              {| sp_tupleLen := tupleLen p;
                 sp_numVariants := Z.of_nat (length (variants p));
                 sp_lutSize := arr_length (lut p);
                 sp_lut :=
                   {| arr_length := arr_length (lut p);
                      arr_at := fun i =>
                        json_number (f32_decode (arr_at (lut p) i)) |} |})
           net |}.

(** [lut.set(array)]: a source longer than the target throws a RangeError
    before anything is stored; [null] is stored as [+0]. *)
Definition f32_set_array (target : Float32Array) (src : jsarray json_value)
  : option Float32Array :=
  if arr_length target <? arr_length src then None
  else Some
    {| arr_length := arr_length target;
       arr_at := fun j =>
         if in_range src j
         then f32_store (match arr_at src j with
                         | Some x => x
                         | None => pos_zero
                         end)
         else arr_at target j |}.

(** The loop of [load] from pattern [i] on; the patterns not reached keep
    their tables. *)
Fixpoint load_from (data : weight_data) (i : nat) (todo : list pattern_entry)
  : outcome * list pattern_entry :=
  match todo with
  | [] => (Returned, [])
  | p :: rest =>
      match nth_error (wd_patterns data) i with
      | None => (Thrown TypeError, todo)
      | Some saved =>
          if negb (sp_lutSize saved =? arr_length (lut p))
          then (Thrown (LutSizeMismatch i), todo)
          else
            match f32_set_array (lut p) (sp_lut saved) with
            | None => (Thrown RangeError, todo)
            | Some l =>
                let '(o, rest') := load_from data (S i) rest in
                (o, with_lut p l :: rest')
            end
      end
  end.

(** [load(filepath)] on the parsed data: how the call ends and the
    network afterwards. *)
Definition load (data : weight_data) (net : network) : outcome * network :=
  if negb (wd_numPatterns data =? Z.of_nat (length net))
  then (Thrown (PatternCountMismatch (wd_numPatterns data)
                                     (Z.of_nat (length net))), net)
  else load_from data 0 net.

(** ** Binary form *)

(** A file or an [ArrayBuffer]: bytes. *)
Definition bytes := jsarray Z.

(** Byte [k] of the little-endian two's complement form of an integer. *)
Definition le_byte (v k : Z) : Z := (v / 2 ^ (8 * k)) mod 256.

(** The unsigned 32-bit word of four little-endian bytes at [off]. *)
Definition le_word (buf : bytes) (off : Z) : Z :=
  arr_at buf off + arr_at buf (off + 1) * 2 ^ 8
  + arr_at buf (off + 2) * 2 ^ 16 + arr_at buf (off + 3) * 2 ^ 24.

(** [view.setInt32(offset, v, true)]. *)
Definition setInt32 (buf : bytes) (offset v : Z) : bytes :=
  {| arr_length := arr_length buf;
     arr_at := fun i =>
       if (offset <=? i) && (i <? offset + 4)
       then le_byte v (i - offset)
       else arr_at buf i |}.

(** [view.getInt32(offset, true)]; a read past the end throws. *)
Definition getInt32 (buf : bytes) (offset : Z) : option Z :=
  if (0 <=? offset) && (offset + 4 <=? arr_length buf)
  then Some (to_int32 (le_word buf offset))
  else None.

(** [new Uint8Array(p.lut.buffer, p.lut.byteOffset, p.lut.byteLength)]:
    the bytes of a table, each element in little-endian order. *)
Definition lut_bytes (l : Float32Array) : bytes :=
  {| arr_length := arr_length l * 4;
     arr_at := fun j => le_byte (arr_at l (j / 4)) (j mod 4) |}.

(** [new Uint8Array(buffer, offset, src.byteLength).set(src)]. *)
Definition set_bytes (buf : bytes) (offset : Z) (src : bytes) : bytes :=
  {| arr_length := arr_length buf;
     arr_at := fun i =>
       if (offset <=? i) && (i <? offset + arr_length src)
       then arr_at src (i - offset)
       else arr_at buf i |}.

(** The size computed at the start of [saveBinary]. *)
Definition totalSize (net : network) : Z :=
  fold_left (fun total p => total + (8 + arr_length (lut p) * 4)) net 8.

(** The body of the loop of [saveBinary]. *)
Definition saveBinary_step (st : bytes * Z) (p : pattern_entry) : bytes * Z :=
  let '(buffer, offset) := st in
  let buffer := setInt32 buffer offset (tupleLen p) in
  let offset := offset + 4 in
  let buffer := setInt32 buffer offset (arr_length (lut p)) in
  let offset := offset + 4 in
  let src := lut_bytes (lut p) in
  let buffer := set_bytes buffer offset src in
  (buffer, offset + arr_length src).

(** [saveBinary(filepath)]: the bytes of the file written. *)
Definition saveBinary (net : network) : bytes :=
  let buffer := {| arr_length := totalSize net; arr_at := fun _ => 0 |} in
  let buffer := setInt32 buffer 0 1 in
  let buffer := setInt32 buffer 4 (Z.of_nat (length net)) in
  fst (fold_left saveBinary_step net (buffer, 8)).

(** [new Float32Array(buf.buffer, buf.byteOffset + offset, lutLen)], the
    file being the whole buffer: a view that is misaligned or runs past
    the end throws a RangeError. *)
Definition f32_view (buf : bytes) (offset lutLen : Z) : option Float32Array :=
  if (offset mod 4 =? 0) && (0 <=? lutLen)
     && (offset + lutLen * 4 <=? arr_length buf)
  then Some {| arr_length := lutLen;
               arr_at := fun j => le_word buf (offset + 4 * j) |}
  else None.

(** [lut.set(src)] from a [Float32Array] no longer than the target: the
    elements are copied bit for bit. *)
Definition f32_set_typed (target src : Float32Array) : Float32Array :=
  {| arr_length := arr_length target;
     arr_at := fun j => if in_range src j then arr_at src j
                        else arr_at target j |}.

(** The loop of [loadBinary] from pattern [i] on, at byte [offset]. *)
Fixpoint loadBinary_from (buf : bytes) (i : nat) (offset : Z)
    (todo : list pattern_entry) : outcome * list pattern_entry :=
  match todo with
  | [] => (Returned, [])
  | p :: rest =>
      match getInt32 buf offset with
      | None => (Thrown RangeError, todo)
      | Some _ =>
          match getInt32 buf (offset + 4) with
          | None => (Thrown RangeError, todo)
          | Some lutLen =>
              if negb (lutLen =? arr_length (lut p))
              then (Thrown (LutSizeMismatch i), todo)
              else
                match f32_view buf (offset + 8) lutLen with
                | None => (Thrown RangeError, todo)
                | Some src =>
                    let '(o, rest') :=
                      loadBinary_from buf (S i) (offset + 8 + lutLen * 4)
                                      rest in
                    (o, with_lut p (f32_set_typed (lut p) src) :: rest')
                end
          end
      end
  end.

(** [loadBinary(filepath)] on the bytes of the file. *)
Definition loadBinary (buf : bytes) (net : network) : outcome * network :=
  match getInt32 buf 0 with
  | None => (Thrown RangeError, net)
  | Some _ =>
      match getInt32 buf 4 with
      | None => (Thrown RangeError, net)
      | Some numPatterns =>
          if negb (numPatterns =? Z.of_nat (length net))
          then (Thrown (PatternCountMismatch numPatterns
                                             (Z.of_nat (length net))), net)
          else loadBinary_from buf 0 8 net
      end
  end.

(* ===================================================================== *)
(** * Move selection (td-learning.js, greedy.js, expectimax.js) *)
(* ===================================================================== *)

(** [Math.random()] is an oracle: the state is the stream of the draws to
    come, and [Math.floor(Math.random() * n)] takes the next draw into
    [0, n). *)
Definition rng := list nat.

Definition random_below (n : nat) (g : rng) : nat * rng :=
  match g with
  | [] => (0%nat, [])
  | r :: g' => ((r mod n)%nat, g')
  end.

Section Selection.

(** The board size of the engine in use and the network's [evaluate]. *)
Variable SIZE : nat.
Variable network_evaluate : list Z -> number.

(** The variables of the selection loop of [playEpisode]. *)
Record choice := {
  bestDir : Z;
  bestValue : number;
  bestAfterstate : option (list Z);
  bestReward : Z
}.

Definition no_choice : choice :=
  {| bestDir := -1; bestValue := neg_infinity;
     bestAfterstate := None; bestReward := 0 |}.

(** [result.reward + network.evaluate(after)]. *)
Definition action_value (board : list Z) (dir : Z) : number :=
  let result := move SIZE (cloneBoard board) dir in
  num_add (num_of_Z (reward result)) (network_evaluate (mr_board result)).

(** The body of [for (let dir = 0; dir < 4; dir++)] in [playEpisode]. *)
Definition select_step (board : list Z) (st : choice) (dir : Z) : choice :=
  let after := cloneBoard board in
  let result := move SIZE after dir in
  if negb (moved result) then st
  else
    let value := num_add (num_of_Z (reward result))
                         (network_evaluate (mr_board result)) in
    if num_gt value (bestValue st)
    then {| bestDir := dir; bestValue := value;
            bestAfterstate := Some (mr_board result);
            bestReward := reward result |}
    else st.

(** The move selection of the learning loop. *)
Definition select_best (board : list Z) : choice :=
  fold_left (select_step board) [0; 1; 2; 3] no_choice.

(** ** GreedyPlayer *)

Definition greedy_step (board : list Z) (st : Z * number) (dir : Z)
  : Z * number :=
  let '(bestDir, bestValue) := st in
  let after := cloneBoard board in
  let result := move SIZE after dir in
  if negb (moved result) then st
  else
    let value := num_add (num_of_Z (reward result))
                         (network_evaluate (mr_board result)) in
    if num_gt value bestValue then (dir, value) else st.

(** [GreedyPlayer.selectMove(board)]. *)
Definition Greedy_selectMove (board : list Z) : Z :=
  fst (fold_left (greedy_step board) [0; 1; 2; 3] (-1, neg_infinity)).

(** ** ExpectimaxPlayer *)

(** The cells with [board[i] === 0], in increasing order. *)
Definition empty_cells (board : list Z) : list nat :=
  filter (fun i => aget board i =? 0) (seq 0 (TOTAL SIZE)).

Definition swap_cells (l : list nat) (i j : nat) : list nat :=
  let xi := nth i l 0%nat in
  let xj := nth j l 0%nat in
  map (fun k => if (k =? i)%nat then xj
                else if (k =? j)%nat then xi else nth k l 0%nat)
      (seq 0 (length l)).

(** The loop of [sampleCells], for [i] from [i] down to 1. *)
Fixpoint shuffle_loop (i : nat) (n : nat) (sampled : list nat) (g : rng)
  : list nat * rng :=
  match i with
  | O => (sampled, g)
  | S i' =>
      if (n <? length sampled)%nat then
        let '(j, g') := random_below (S i) g in
        shuffle_loop i' n (swap_cells sampled i j) g'
      else (sampled, g)
  end.

(** [sampleCells(cells, n)]. *)
Definition sampleCells (cells : list nat) (n : nat) (g : rng)
  : list nat * rng :=
  let '(sampled, g') := shuffle_loop (length cells - 1) n cells g in
  (firstn n sampled, g').

(** [_playerNode(board, depth)], given the chance node of the next level. *)
Definition playerNode_with
    (chance : list Z -> Z -> rng -> number * rng)
    (board : list Z) (depth : Z) (g : rng) : number * rng :=
  let '(bestValue, anyMoved, g') :=
    fold_left
      (fun (st : number * bool * rng) dir =>
         let '(bestValue, anyMoved, g) := st in
         let after := cloneBoard board in
         let result := move SIZE after dir in
         if negb (moved result) then st
         else
           let '(v, g1) := chance (mr_board result) (depth - 1) g in
           let value := num_add (num_of_Z (reward result)) v in
           (if num_gt value bestValue then value else bestValue, true, g1))
      [0; 1; 2; 3] (neg_infinity, false, g) in
  (if anyMoved then bestValue else network_evaluate board, g').

(** [_chanceNode(board, depth)].  [fuel] bounds the nesting of the mutual
    recursion; each level lowers [depth] by one and the recursion stops at
    [depth <= 0], so [fuel >= depth] is never used up. *)
Fixpoint chanceNode (fuel : nat) (board : list Z) (depth : Z) (g : rng)
  : number * rng :=
  if depth <=? 0 then (network_evaluate board, g)
  else
    match fuel with
    | O => (network_evaluate board, g)
    | S fuel' =>
        let empty := empty_cells board in
        if (length empty =? 0)%nat then (network_evaluate board, g)
        else
          let '(cells, g0) :=
            if (length empty <=? 8)%nat then (empty, g)
            else sampleCells empty 8 g in
          let '(total, g') :=
            fold_left
              (fun (st : number * rng) idx =>
                 let '(total, g) := st in
                 let '(v1, g1) :=
                   playerNode_with (chanceNode fuel') (aset board idx 1)
                                   depth g in
                 let total := num_add total (num_mul num_0_9 v1) in
                 let '(v2, g2) :=
                   playerNode_with (chanceNode fuel') (aset board idx 2)
                                   depth g1 in
                 let total := num_add total (num_mul num_0_1 v2) in
                 (total, g2))
              cells (pos_zero, g0) in
          (num_div total (num_of_Z (Z.of_nat (length cells))), g')
    end.

Definition expectimax_step (depth : Z) (board : list Z)
    (st : Z * number * rng) (dir : Z) : Z * number * rng :=
  let '(bestDir, bestValue, g) := st in
  let after := cloneBoard board in
  let result := move SIZE after dir in
  if negb (moved result) then st
  else
    let '(v, g') :=
      chanceNode (Z.to_nat depth) (mr_board result) (depth - 1) g in
    let value := num_add (num_of_Z (reward result)) v in
    if num_gt value bestValue then (dir, value, g') else (bestDir, bestValue, g').

(** [ExpectimaxPlayer.selectMove(board)] of a player built with [depth]:
    the direction returned and the random stream left. *)
Definition Expectimax_selectMove (depth : Z) (board : list Z) (g : rng)
  : Z * rng :=
  let '(bestDir, _, g') :=
    fold_left (expectimax_step depth board) [0; 1; 2; 3]
              (-1, neg_infinity, g) in
  (bestDir, g').

End Selection.

(** Specification vocabulary for the selection: an action is legal on a
    board when the move changes a cell. *)
Definition legal (SIZE : nat) (board : list Z) (dir : Z) : Prop :=
  In dir [0; 1; 2; 3] /\ moved (move SIZE (cloneBoard board) dir) = true.

(** The catalog of a network: what the constructor fixes and no method
    changes (tuple lengths, variants and table lengths). *)
Definition catalog (net : network) : list (Z * list (list cell_index) * Z) :=
  map (fun p => (tupleLen p, variants p, arr_length (lut p))) net.

(** ** Mismatches between a weight file and a network *)










(** Element [j] of the table of pattern [k]. *)
Definition lut_word (net : network) (k : nat) (j : Z) : option Z :=
  match nth_error net k with
  | Some p => arr_get (lut p) j
  | None => None
  end.

(** The elements of a [Float32Array] are 32-bit words. *)
Definition lut_words_ok (net : network) : Prop :=
  forall p j, In p net -> in_range (lut p) j = true ->
              0 <= arr_at (lut p) j < 2 ^ 32.

(** Two networks with the same catalog and the same table contents. *)
Definition same_tables (net net' : network) : Prop :=
  catalog net = catalog net' /\
  forall k j, lut_word net k j = lut_word net' k j.

(** The literal [2]. *)
Definition num_2 : number := num_of_Z 2.

(** The pattern count and the table lengths fit the 32-bit signed fields
    of the binary format, as those of the constructor do. *)
Definition int32_sized (net : network) : Prop :=
  Z.of_nat (length net) < 2 ^ 31 /\
  forall p, In p net -> 0 <= arr_length (lut p) < 2 ^ 31.

(** Every table element is finite and is not the negative zero. *)
Definition finite_tables (net : network) : Prop :=
  forall p j, In p net -> in_range (lut p) j = true ->
              f32_expo (arr_at (lut p) j) <> 255 /\
              arr_at (lut p) j <> 2 ^ 31.

(** ** Concrete inputs used below *)

(** An afterstate with a single tile of value 4 in the corner. *)
Definition corner_board : list Z :=
  [2; 0; 0; 0; 0; 0; 0; 0; 0; 0; 0; 0; 0; 0; 0; 0].

(** A network after one update. *)
Definition trained_network : network :=
  update NTupleNetwork_new corner_board num_0_1.




(** A network whose tables hold an infinity, as a diverged training run
    leaves them. *)
Definition overflowed_network : network :=
  update NTupleNetwork_new corner_board pos_infinity.

(** ** Predicates and functions used in the statements of the lemmas *)

Definition all_nonzero (l : list Z) : Prop := Forall (fun c => c <> 0) l.

(** Keep the elements of [ts] that are not in [acc] and not earlier in
    [ts]. *)
Fixpoint dedup_after {A : Type}
    (A_eq_dec : forall x y : A, {x = y} + {x <> y}) (acc ts : list A)
  : list A :=
  match ts with
  | [] => []
  | t :: rest =>
      if in_dec A_eq_dec t acc then dedup_after A_eq_dec acc rest
      else t :: dedup_after A_eq_dec (acc ++ [t]) rest
  end.

(** Strings without a comma. *)
Fixpoint comma_free (s : String.string) : bool :=
  match s with
  | String.EmptyString => true
  | String.String c r => negb (Ascii.eqb c ","%char) && comma_free r
  end.

(** What a symmetry map of the 4x4 board can return: a cell index of the
    board, or [undefined]. *)
Definition map_values : list cell_index :=
  None :: map (fun v => Some (Z.of_nat v)) (seq 0 16).

Definition cell_index_eqb (x y : cell_index) : bool :=
  match x, y with
  | Some a, Some b => a =? b
  | None, None => true
  | _, _ => false
  end.

Definition in_map_values (t : list cell_index) : Prop :=
  Forall (fun x => In x map_values) t.

(** A cell index of the 4x4 board. *)
Definition board_index (x : cell_index) : bool :=
  match x with
  | Some j => (0 <=? j) && (j <? 16)
  | None => false
  end.

(** The check of a catalog that the bound needs: every variant has the
    pattern's tuple length and holds cell indices of the board, and the
    table has [16^tupleLen] elements. *)
Definition catalog_entry_ok (e : Z * list (list cell_index) * Z) : bool :=
  let '(len, vs, size) := e in
  forallb (fun v => (Z.of_nat (length v) =? len) && forallb board_index v) vs
  && (size =? Patterns4.lutSize len) && (0 <=? len).

(** [x >= y]; false when either side is NaN. *)
Definition num_ge (x y : number) : bool := SFleb (canon64 y) (canon64 x).

(** What holds of the variables of the selection loop once the
    directions below [k] have been tried. *)
Definition selected (SIZE : nat) (ev : list Z -> number) (board : list Z)
    (k : Z) (st : choice) : Prop :=
  let val := action_value SIZE ev board in
  let after := move SIZE (cloneBoard board) in
  (bestDir st = -1 /\ bestValue st = neg_infinity /\
   forall e, 0 <= e < k -> moved (after e) = true ->
             num_gt (val e) neg_infinity = false)
  \/
  (0 <= bestDir st < k /\ moved (after (bestDir st)) = true /\
   bestValue st = val (bestDir st) /\
   bestAfterstate st = Some (mr_board (after (bestDir st))) /\
   bestReward st = reward (after (bestDir st)) /\
   (forall e, 0 <= e < k -> moved (after e) = true ->
              num_gt (val e) (bestValue st) = false) /\
   (forall e, 0 <= e < bestDir st -> moved (after e) = true ->
              num_ge (val e) (bestValue st) = false)).

(** Rounding a non-zero value whose exponent is not below [emin] gives a
    finite value or an infinity of the same sign. *)
Definition rounded_nonzero (prec emax : Z) (s : bool) (x : spec_float)
  : Prop :=
  match x with
  | S754_finite s' _ e' => s' = s /\ emin prec emax <= e'
  | S754_infinity s' => s' = s
  | _ => False
  end.

(** A finite number whose exponent is not below the least binary64
    exponent. *)
Definition exp_ok (x : number) : Prop :=
  match x with
  | S754_finite _ _ e => -1074 <= e
  | _ => True
  end.

(** Two numbers that are the same but for the sign of a zero. *)
Definition same_but_zero_sign (x y : number) : Prop :=
  x = y \/ exists s s', x = S754_zero s /\ y = S754_zero s'.

(** Variant [v] addresses element [j] of a table of length [len]. *)
Definition hits (board : list Z) (len : Z) (v : list cell_index) (j : Z)
  : bool :=
  match _index board v with
  | Some i => (i =? j) && (0 <=? i) && (i <? len)
  | None => false
  end.

Definition count_hits (board : list Z) (len : Z)
    (vs : list (list cell_index)) (j : Z) : nat :=
  length (filter (fun v => hits board len v j) vs).

Definition acc_ok (v : number) : Prop := v <> S754_zero true /\ exp_ok v.

(** Tables of one length whose elements read as the same values. *)
Definition same_values (l l' : Float32Array) : Prop :=
  arr_length l = arr_length l' /\
  forall j, in_range l j = true ->
            same_but_zero_sign (f32_decode (arr_at l j))
                               (f32_decode (arr_at l' j)).

(** The number [x] is the integer [a]: a zero when [a] is 0, or a finite
    [(-1)^s * m * 2^e] equal to [a] (the equation is cleared of the
    negative power of two). *)
Definition num_is_Z (x : number) (a : Z) : Prop :=
  match x with
  | S754_zero _ => a = 0
  | S754_finite s m e =>
      cond_Zopp s (Z.pos m) * 2 ^ Z.max e 0 = a * 2 ^ Z.max (- e) 0
  | _ => False
  end.

(** The exponent and the mantissa of the normal representation, with
    [prec] bits, of an integer [n] from 1 to [2^prec - 1]. *)
Definition int_exponent (prec n : Z) : Z := Z.log2 n + 1 - prec.

Definition int_mantissa (prec n : Z) : positive :=
  Z.to_pos (n * 2 ^ (prec - 1 - Z.log2 n)).

(** The representation of a non-zero integer. *)
Definition int_float (prec n : Z) : spec_float :=
  S754_finite (n <? 0) (int_mantissa prec (Z.abs n))
              (int_exponent prec (Z.abs n)).

(** [delta] is an integer [d], and every element an update of [board]
    addresses holds an integer [a] with [|a| + 2 * h * |d| < 2^24], [h]
    being the number of variants of the pattern that address the element
    on [board]. *)
Definition small_integer_sums (net : network) (board : list Z)
    (delta : number) : Prop :=
  exists d,
    num_is_Z delta d /\
    forall p j,
      In p net ->
      (0 < count_hits board (arr_length (lut p)) (variants p) j)%nat ->
      exists a,
        num_is_Z (f32_decode (arr_at (lut p) j)) a /\
        Z.abs a
        + 2 * Z.of_nat (count_hits board (arr_length (lut p))
                          (variants p) j) * Z.abs d < 2 ^ 24.

(** The four bytes at [off] are the little-endian bytes of [v]. *)
Definition bytes_are (buf : bytes) (off v : Z) : Prop :=
  forall t, 0 <= t < 4 -> arr_at buf (off + t) = le_byte v t.

Definition records_size (ps : list pattern_entry) : Z :=
  fold_right (fun p s => 8 + arr_length (lut p) * 4 + s) 0 ps.

(* ===================================================================== *)
(** * Board engine: value conversions, grids and random tiles
      (engine4x4.js) *)
(* ===================================================================== *)

(** The loop of [toLog2]: [while (v > 1) { v >>= 1; n++; }].  The shift
    takes [v] to int32 first; from then on [v] is below [2^30] and halves,
    so 32 iterations are never used up. *)
Fixpoint toLog2_loop (fuel : nat) (v n : Z) : Z :=
  match fuel with
  | O => n
  | S fuel' =>
      if v >? 1 then toLog2_loop fuel' (Z.shiftr (to_int32 v) 1) (n + 1)
      else n
  end.

(** [toLog2(val)] on an integer. *)
Definition toLog2 (val : Z) : Z :=
  if val =? 0 then 0 else toLog2_loop 32 val 0.

Section EngineGrid.

Variable SIZE : nat.

(** The inner loop of [fromGrid]: [board[r * SIZE + c] = toLog2(row[c])];
    for a missing cell [toLog2(undefined)] is 0. *)
Fixpoint fromGrid_cells (n c r : nat) (row board : list Z) : list Z :=
  match n with
  | O => board
  | S n' =>
      fromGrid_cells n' (S c) r row
        (aset board (r * SIZE + c)
              (match nth_error row c with
               | Some v => toLog2 v
               | None => 0
               end))
  end.

(** The outer loop of [fromGrid]; reading a cell of a missing row throws
    a TypeError ([None]). *)
Fixpoint fromGrid_rows (n r : nat) (grid : list (list Z)) (board : list Z)
  : option (list Z) :=
  match n with
  | O => Some board
  | S n' =>
      match nth_error grid r with
      | None => None
      | Some row =>
          fromGrid_rows n' (S r) grid (fromGrid_cells SIZE 0 r row board)
      end
  end.

(** [fromGrid(grid)]. *)
Definition fromGrid (grid : list (list Z)) : option (list Z) :=
  fromGrid_rows SIZE 0 grid (repeat 0 (TOTAL SIZE)).

(** [tileValue(board[i])]; for a cell outside the board,
    [tileValue(undefined)] is [1 << undefined = 1]. *)
Definition cell_value (board : list Z) (i : nat) : Z :=
  match nth_error board i with
  | Some code => tileValue code
  | None => 1
  end.

(** [toGrid(board)]. *)
Definition toGrid (board : list Z) : list (list Z) :=
  map (fun r => map (fun c => cell_value board (r * SIZE + c)) (seq 0 SIZE))
      (seq 0 SIZE).

(** [Math.random() < 0.9] on the next draw of the oracle. *)
Definition random_chance (g : rng) : bool * rng :=
  match g with
  | [] => (true, [])
  | r :: g' => ((r mod 10 <? 9)%nat, g')
  end.

(** [addRandomTile(board)]: the value returned, the board after the call
    and the random stream left. *)
Definition addRandomTile (board : list Z) (g : rng) : bool * list Z * rng :=
  let empty := empty_cells SIZE board in
  if (length empty =? 0)%nat then (false, board, g)
  else
    let '(k, g1) := random_below (length empty) g in
    let idx := nth k empty 0%nat in
    let '(small, g2) := random_chance g1 in
    (true, aset board idx (if small then 1 else 2), g2).

(** [createBoard()]. *)
Definition createBoard (g : rng) : list Z * rng :=
  let board := repeat 0 (TOTAL SIZE) in
  let '(_, board1, g1) := addRandomTile board g in
  let '(_, board2, g2) := addRandomTile board1 g1 in
  (board2, g2).

(** [RandomPlayer.selectMove(board)] of the benchmark. *)
Definition Random_selectMove (board : list Z) (g : rng) : Z * rng :=
  let dirs :=
    filter (fun dir => moved (move SIZE (cloneBoard board) dir)) [0; 1; 2; 3]
  in
  if (length dirs =? 0)%nat then (-1, g)
  else
    let '(k, g') := random_below (length dirs) g in
    (nth k dirs 0, g').

End EngineGrid.

(** ** Vocabulary of the statements about counts and symmetric images *)

(** The number of empty cells of a board or line. *)
Definition zero_count (cells : list Z) : Z :=
  sumZ (map (fun c => if c =? 0 then 1 else 0) cells).

(** The greatest code of a board or line. *)
Definition max_code (cells : list Z) : Z := fold_right Z.max 0 cells.

(** The image of a 4x4 board under a symmetry map: cell [j] of the image
    is cell [symMap[j]] of the board, so that a pattern reads on the image
    what its transformed variant reads on the board. *)
Definition transformed_board (symMap : list Z) (b : list Z) : list Z :=
  map (fun j => nth (Z.to_nat (nth j symMap 0)) b 0) (seq 0 16).

(** The direction on the board that corresponds to direction [dir] on the
    image of the board under the [k]-th symmetry map. *)
Definition transformed_dir (k : nat) (dir : Z) : Z :=
  match k with
  | 0%nat => dir
  | 1%nat => (dir + 1) mod 4
  | 2%nat => (dir + 2) mod 4
  | 3%nat => (dir + 3) mod 4
  | 4%nat => (4 - dir) mod 4
  | 5%nat => (5 - dir) mod 4
  | 6%nat => (6 - dir) mod 4
  | _ => (7 - dir) mod 4
  end.

(* ===================================================================== *)
(** * GIF encoder (gif/encoder.js) *)
(* ===================================================================== *)

(** The loop [while (size < colors.length) size *= 2] of
    [setGlobalPalette]; it doubles fewer times than the array has
    elements. *)
Fixpoint palette_size (fuel : nat) (size len : Z) : Z :=
  match fuel with
  | O => size
  | S fuel' =>
      if size <? len then palette_size fuel' (size * 2) len else size
  end.

(** [setGlobalPalette(colors)]: the palette stored, [colors[i] ||
    [0, 0, 0]] for each index below the padded size (an array is
    truthy). *)
Definition setGlobalPalette (colors : list (list Z)) : list (list Z) :=
  let size := palette_size (length colors) 2 (Z.of_nat (length colors)) in
  map (fun i => match nth_error colors i with
                | Some c => c
                | None => [0; 0; 0]
                end)
      (seq 0 (Z.to_nat size)).

(** The encoder object: [width], [height], the frames added (pixels and
    delay) and the palette, [None] while it is [null]. *)
Record GifEncoder := {
  width : Z;
  height : Z;
  frames : list (list Z * Z);
  globalPalette : option (list (list Z))
}.

Definition GifEncoder_new (w h : Z) : GifEncoder :=
  {| width := w; height := h; frames := []; globalPalette := None |}.

(** [addFrame(pixels, delay)]: [None] is the error thrown on a pixel count
    other than [width * height]; [new Uint8Array(pixels)] copies the
    pixels modulo 256. *)
Definition addFrame (enc : GifEncoder) (pixels : list Z) (delay : Z)
  : option GifEncoder :=
  if negb (Z.of_nat (length pixels) =? width enc * height enc)
  then None
  else Some {| width := width enc; height := height enc;
               frames := frames enc ++ [(map u8 pixels, delay)];
               globalPalette := globalPalette enc |}.

(** The bit buffer of [_lzwCompress] and the bytes pushed so far. *)
Record bit_writer := {
  bitBuffer : Z;
  bitsInBuffer : Z;
  output : list Z
}.

(** The loop [while (bitsInBuffer >= 8)] of [writeBits]. *)
Fixpoint drain (fuel : nat) (w : bit_writer) : bit_writer :=
  match fuel with
  | O => w
  | S fuel' =>
      if 8 <=? bitsInBuffer w
      then drain fuel'
             {| bitBuffer := Z.shiftr (bitBuffer w) 8;
                bitsInBuffer := bitsInBuffer w - 8;
                output := output w ++ [Z.land (bitBuffer w) 255] |}
      else w
  end.

(** [writeBits(code, size)]; an [undefined] code ([None]) is 0 under
    [<<].  The buffer starts at 0 and is an int32 after every [|=] and
    [>>=], on which [Z.lor] and [Z.shiftr] are the operators of
    JavaScript. *)
Definition writeBits (code : option Z) (size : Z) (w : bit_writer)
  : bit_writer :=
  let c := match code with Some c => c | None => 0 end in
  let bb := Z.lor (bitBuffer w) (js_shl c (bitsInBuffer w)) in
  let nb := bitsInBuffer w + size in
  drain (Z.to_nat (nb / 8))
        {| bitBuffer := bb; bitsInBuffer := nb; output := output w |}.

(** The [Map] from prefix strings to codes: the newest binding of a key is
    the one read. *)
Definition dictionary := list (String.string * Z).

Definition dict_has (d : dictionary) (key : String.string) : bool :=
  existsb (fun e => String.eqb (fst e) key) d.

Definition dict_get (d : dictionary) (key : String.string) : option Z :=
  option_map snd (find (fun e => String.eqb (fst e) key) d).

Definition dict_set (d : dictionary) (key : String.string) (v : Z)
  : dictionary :=
  (key, v) :: d.

(** [String(i)] for an integer. *)
Definition String_of (i : Z) : String.string :=
  DecimalString.NilZero.string_of_int (Z.to_int i).

(** The dictionary of the single pixels, [String(i) -> i] for
    [i < clearCode]. *)
Definition initial_dict (clearCode : Z) : dictionary :=
  fold_left (fun d i => dict_set d (String_of (Z.of_nat i)) (Z.of_nat i))
            (seq 0 (Z.to_nat clearCode)) [].

(** [String(undefined)]. *)
Definition undefined_string : String.string :=
  String.string_of_list_ascii
    ["u"; "n"; "d"; "e"; "f"; "i"; "n"; "e"; "d"]%char.

Definition clearCode_of (minCodeSize : Z) : Z := js_shl 1 minCodeSize.

Definition eoiCode_of (minCodeSize : Z) : Z := clearCode_of minCodeSize + 1.

Definition maxDictSize : Z := 4096.

(** The compression loop of [_lzwCompress], over the state that
    [writeBits] changes: [write] is [writeBits] in [_lzwCompress], and the
    function that records its arguments in [lzw_codes]. *)
Section Lzw.

Variable sink : Type.
Variable write : option Z -> Z -> sink -> sink.
Variable minCodeSize : Z.

Record lzw_state := {
  codeSize : Z;
  nextCode : Z;
  dict : dictionary;
  current : String.string;
  written : sink
}.

(** The body of the loop over [pixels[1..]]. *)
Definition lzw_step (st : lzw_state) (p : Z) : lzw_state :=
  let pixel := String_of p in
  let combined :=
    String.append (current st) (String.String ","%char pixel) in
  if dict_has (dict st) combined
  then {| codeSize := codeSize st; nextCode := nextCode st;
          dict := dict st; current := combined; written := written st |}
  else
    let w1 := write (dict_get (dict st) (current st)) (codeSize st)
                    (written st) in
    if nextCode st <? maxDictSize
    then
      let d1 := dict_set (dict st) combined (nextCode st) in
      let next1 := nextCode st + 1 in
      {| codeSize := if (js_shl 1 (codeSize st) <? next1)
                        && (codeSize st <? 12)
                     then codeSize st + 1 else codeSize st;
         nextCode := next1; dict := d1; current := pixel; written := w1 |}
    else
      {| codeSize := minCodeSize + 1;
         nextCode := eoiCode_of minCodeSize + 1;
         dict := initial_dict (clearCode_of minCodeSize);
         current := pixel;
         written := write (Some (clearCode_of minCodeSize)) (codeSize st)
                          w1 |}.

(** From the clear code at the start to the end-of-information code. *)
Definition lzw_run (pixels : list Z) (w0 : sink) : sink :=
  let st0 :=
    {| codeSize := minCodeSize + 1;
       nextCode := eoiCode_of minCodeSize + 1;
       dict := initial_dict (clearCode_of minCodeSize);
       current := match pixels with
                  | p :: _ => String_of p
                  | [] => undefined_string
                  end;
       written := write (Some (clearCode_of minCodeSize))
                        (minCodeSize + 1) w0 |} in
  let st := fold_left lzw_step (tl pixels) st0 in
  let w := write (dict_get (dict st) (current st)) (codeSize st)
                 (written st) in
  write (Some (eoiCode_of minCodeSize)) (codeSize st) w.

End Lzw.

Arguments codeSize {sink} _.
Arguments nextCode {sink} _.
Arguments dict {sink} _.
Arguments current {sink} _.
Arguments written {sink} _.

(** The bytes [output] of [_lzwCompress] after the remaining bits are
    flushed. *)
Definition lzw_output (pixels : list Z) (minCodeSize : Z) : list Z :=
  let w := lzw_run bit_writer writeBits minCodeSize pixels
                   {| bitBuffer := 0; bitsInBuffer := 0; output := [] |} in
  if 0 <? bitsInBuffer w
  then output w ++ [Z.land (bitBuffer w) 255]
  else output w.

(** The loop that packs [output] into sub-blocks of at most 255 bytes. *)
Fixpoint pack_blocks (fuel : nat) (bytes : list Z) : list Z :=
  match fuel with
  | O => []
  | S fuel' =>
      match bytes with
      | [] => []
      | _ :: _ =>
          let blockSize := Nat.min 255 (length bytes) in
          Z.of_nat blockSize
          :: firstn blockSize bytes
          ++ pack_blocks fuel' (skipn blockSize bytes)
      end
  end.

(** [_lzwCompress(pixels, minCodeSize)]: the bytes of the buffer
    returned; [Buffer.from] keeps each number modulo 256. *)
Definition _lzwCompress (pixels : list Z) (minCodeSize : Z) : list Z :=
  let out := lzw_output pixels minCodeSize in
  map u8 (pack_blocks (length out) out).

(** The calls of [writeBits] made by [_lzwCompress], in order: the codes
    with their sizes, recorded in place of the bits written. *)
Definition record_code (c : option Z) (s : Z) (l : list (option Z * Z))
  : list (option Z * Z) :=
  l ++ [(c, s)].

Definition lzw_codes (pixels : list Z) (minCodeSize : Z)
  : list (option Z * Z) :=
  lzw_run (list (option Z * Z)) record_code minCodeSize pixels [].

(** The number a list of bytes holds, least significant byte first, and
    the number a list of codes holds, first code in the lowest bits. *)
Definition le_value (bytes : list Z) : Z :=
  fold_right (fun b acc => b + 256 * acc) 0 bytes.

Definition code_of (c : option Z) : Z :=
  match c with Some v => v | None => 0 end.

Definition pack_value (codes : list (option Z * Z)) : Z :=
  fold_right (fun cs acc => code_of (fst cs) + 2 ^ snd cs * acc) 0 codes.

Definition total_bits (codes : list (option Z * Z)) : Z :=
  sumZ (map snd codes).

(** A written code fits its size. *)
Definition code_fits (cs : option Z * Z) : Prop :=
  exists v, fst cs = Some v /\ 0 <= v < 2 ^ snd cs.

(** The sub-blocks of a data stream: each a size byte followed by that
    many bytes. *)
Definition framed (chunks : list (list Z)) : list Z :=
  concat (map (fun c => Z.of_nat (length c) :: c) chunks).

(* ===================================================================== *)
(** * Board renderer (gif/board-renderer.js) *)
(* ===================================================================== *)

Module Renderer.

(** The 3x5 bitmap font: [FONT_3x5[ch]], [None] for a character with no
    bitmap. *)
Definition FONT_3x5 (ch : ascii) : option (list Z) :=
  if Ascii.eqb ch "0" then Some [7; 5; 5; 5; 7]
  else if Ascii.eqb ch "1" then Some [2; 6; 2; 2; 7]
  else if Ascii.eqb ch "2" then Some [7; 1; 7; 4; 7]
  else if Ascii.eqb ch "3" then Some [7; 1; 7; 1; 7]
  else if Ascii.eqb ch "4" then Some [5; 5; 7; 1; 1]
  else if Ascii.eqb ch "5" then Some [7; 4; 7; 1; 7]
  else if Ascii.eqb ch "6" then Some [7; 4; 7; 5; 7]
  else if Ascii.eqb ch "7" then Some [7; 1; 1; 1; 1]
  else if Ascii.eqb ch "8" then Some [7; 5; 7; 5; 7]
  else if Ascii.eqb ch "9" then Some [7; 5; 7; 1; 7]
  else if Ascii.eqb ch "k" then Some [5; 6; 4; 6; 5]
  else None.

(** [TILE_COLORS[tileLog2]] and [TEXT_COLOR[tileLog2]]: the keys are 0 to
    15. *)
Definition TILE_COLORS (tileLog2 : option Z) : option Z :=
  match tileLog2 with
  | Some t => if (0 <=? t) && (t <=? 15) then Some t else None
  | None => None
  end.

Definition TEXT_COLOR (tileLog2 : option Z) : option Z :=
  match tileLog2 with
  | Some t =>
      if (0 <=? t) && (t <=? 15)
      then Some (if (t =? 1) || (t =? 2) then 16 else 17)
      else None
  | None => None
  end.

(** [x || d] for a number or [undefined]: 0 is falsy. *)
Definition or_default (x : option Z) (d : Z) : Z :=
  match x with
  | Some v => if v =? 0 then d else v
  | None => d
  end.

Definition TILE_SIZE : Z := 20.
Definition GAP : Z := 2.
Definition PADDING : Z := 4.
Definition SCORE_HEIGHT : Z := 12.
Definition BOARD_SIZE : Z := 4.
Definition GRID_SIZE : Z :=
  PADDING * 2 + BOARD_SIZE * TILE_SIZE + (BOARD_SIZE - 1) * GAP.
Definition IMAGE_WIDTH : Z := GRID_SIZE.
Definition IMAGE_HEIGHT : Z := GRID_SIZE + SCORE_HEIGHT.

(** [pixels[i] = v] on the [Uint8Array]: ignored out of range. *)
Definition pset (pixels : list Z) (i v : Z) : list Z :=
  if i <? 0 then pixels else aset pixels (Z.to_nat i) v.

(** The integers from 0 to [n - 1], the values of a loop counter. *)
Definition upto (n : Z) : list Z := map Z.of_nat (seq 0 (Z.to_nat n)).

(** [drawChar(pixels, width, ch, x, y, colorIdx)]. *)
Definition drawChar (pixels : list Z) (width : Z) (ch : ascii)
    (x y colorIdx : Z) : list Z :=
  match FONT_3x5 ch with
  | None => pixels
  | Some bitmap =>
      fold_left
        (fun pixels row =>
           let bits := nth (Z.to_nat row) bitmap 0 in
           fold_left
             (fun pixels col =>
                if negb (Z.land bits (js_shl 1 (2 - col)) =? 0)
                then
                  let px := x + col in
                  let py := y + row in
                  if (0 <=? px) && (px <? width) && (0 <=? py)
                     && (py <? IMAGE_HEIGHT)
                  then pset pixels (py * width + px) colorIdx
                  else pixels
                else pixels)
             (upto 3) pixels)
        (upto 5) pixels
  end.

(** [drawText(pixels, width, text, cx, cy, colorIdx)]. *)
Definition drawText (pixels : list Z) (width : Z) (text : String.string)
    (cx cy colorIdx : Z) : list Z :=
  let charWidth := 4 in
  let totalWidth := Z.of_nat (String.length text) * charWidth - 1 in
  let startX := cx - totalWidth / 2 in
  let startY := cy - 2 in
  fst (fold_left
         (fun st ch =>
            let '(pixels, i) := st in
            (drawChar pixels width ch (startX + i * charWidth) startY
                      colorIdx, i + 1))
         (String.list_ascii_of_string text) (pixels, 0)).

(** The text drawn on a tile of code [tileLog2 > 0]. *)
Definition tile_text (tileLog2 : Z) : String.string :=
  let val := tileValue tileLog2 in
  if 1024 <=? val
  then String.append (String_of (val / 1024))
                     (String.String "k"%char String.EmptyString)
  else String_of val.

(** The body of the two loops over the tiles. *)
Definition draw_tile (board : list Z) (pixels : list Z) (r c : Z)
  : list Z :=
  let tileLog2 := nth_error board (Z.to_nat (r * BOARD_SIZE + c)) in
  let tileColorIdx := or_default (TILE_COLORS tileLog2) 0 in
  let textColorIdx := or_default (TEXT_COLOR tileLog2) 17 in
  let tileX := PADDING + c * (TILE_SIZE + GAP) in
  let tileY := SCORE_HEIGHT + PADDING + r * (TILE_SIZE + GAP) in
  let pixels :=
    fold_left
      (fun pixels dy =>
         fold_left
           (fun pixels dx =>
              pset pixels ((tileY + dy) * IMAGE_WIDTH + (tileX + dx))
                   tileColorIdx)
           (upto TILE_SIZE) pixels)
      (upto TILE_SIZE) pixels in
  match tileLog2 with
  | Some t =>
      if 0 <? t
      then drawText pixels IMAGE_WIDTH (tile_text t)
                    (tileX + TILE_SIZE / 2) (tileY + TILE_SIZE / 2)
                    textColorIdx
      else pixels
  | None => pixels
  end.

(** [renderBoard(board, score)], for a score that is an integer. *)
Definition renderBoard (board : list Z) (score : Z) : list Z :=
  let pixels := repeat 18 (Z.to_nat (IMAGE_WIDTH * IMAGE_HEIGHT)) in
  let pixels :=
    fold_left
      (fun pixels y =>
         fold_left (fun pixels x => pset pixels (y * IMAGE_WIDTH + x) 19)
                   (upto IMAGE_WIDTH) pixels)
      (upto SCORE_HEIGHT) pixels in
  let pixels :=
    drawText pixels IMAGE_WIDTH (String_of score) (IMAGE_WIDTH / 2)
             (SCORE_HEIGHT / 2) 20 in
  fold_left
    (fun pixels r =>
       fold_left (fun pixels c => draw_tile board pixels r c)
                 (upto BOARD_SIZE) pixels)
    (upto BOARD_SIZE) pixels.

(** [renderGameFrames(steps)]. *)
Definition renderGameFrames (steps : list (list Z * Z)) : list (list Z) :=
  map (fun step => renderBoard (fst step) (snd step)) steps.

End Renderer.

(** A frame of the renderer: as many pixels as the image has, each an
    index of the palette up to 20. *)
Definition frame_ok (pixels : list Z) : Prop :=
  Z.of_nat (length pixels) = Renderer.IMAGE_WIDTH * Renderer.IMAGE_HEIGHT /\
  Forall (fun p => 0 <= p <= 20) pixels.

(** ** Predicates and inputs used in the statements of the further lemmas *)

(** A tile value: 0 for an empty cell, or a power of two from 2 to
    [2^30]. *)
Definition tile_value (v : Z) : Prop :=
  v = 0 \/ exists k, 1 <= k <= 30 /\ v = 2 ^ k.

(** Two text files with the same pattern count and, pattern by pattern,
    the same LUT length and the same LUT. *)
Definition same_weights (data data' : weight_data) : Prop :=
  wd_numPatterns data = wd_numPatterns data' /\
  map (fun sp => (sp_lutSize sp, sp_lut sp)) (wd_patterns data)
  = map (fun sp => (sp_lutSize sp, sp_lut sp)) (wd_patterns data').

(** Two binary files of one length that differ at most in the four bytes
    of the version field. *)
Definition same_but_version (buf buf' : bytes) : Prop :=
  arr_length buf' = arr_length buf /\
  forall i, 4 <= i -> arr_at buf' i = arr_at buf i.

(** The text file [data] with another version and board size. *)
Definition with_version (data : weight_data) (v size : Z) : weight_data :=
  {| wd_version := v; wd_boardSize := size;
     wd_numPatterns := wd_numPatterns data;
     wd_patterns := wd_patterns data |}.

(** The check that a list of variants is closed under a symmetry map:
    every variant holds cell indices of the board, and the transformed
    variants are the variants again, each as often. *)
Definition closed_under (symMap : list Z) (vs : list (list cell_index))
  : bool :=
  forallb (forallb board_index) vs &&
  forallb
    (fun v =>
       (count_occ cell_index_list_eq_dec
                  (map (fun v => applySymmetry v symMap) vs) v
        =? count_occ cell_index_list_eq_dec vs v)%nat)
    (vs ++ map (fun v => applySymmetry v symMap) vs).

(** A board with two merges in its first row, and a full board on which
    no action moves anything. *)
Definition two_pairs_board : list Z :=
  [1; 1; 2; 2; 0; 0; 0; 0; 0; 3; 0; 0; 0; 0; 0; 0].

Definition stuck_board : list Z :=
  [1; 2; 1; 2; 2; 1; 2; 1; 1; 2; 1; 2; 2; 1; 2; 1].

(** A frame of twelve pixels in two colours. *)
Definition striped_frame : list Z := [0; 0; 0; 0; 1; 1; 1; 1; 0; 0; 0; 0].

(** [n] pixels, each a palette index up to 20. *)
Definition pixels_ok (n : nat) (pixels : list Z) : Prop :=
  length pixels = n /\ Forall (fun p => 0 <= p <= 20) pixels.

(** A number a byte can hold. *)
Definition byte (b : Z) : Prop := 0 <= b < 256.

(** Every chunk but the last is full. *)
Fixpoint full_but_last (chunks : list (list Z)) : Prop :=
  match chunks with
  | [] => True
  | [_] => True
  | c :: rest => length c = 255%nat /\ full_but_last rest
  end.

(** A code fits its size, and the size is one the encoder uses for the
    minimum code size [m]. *)
Definition code_ok (m : Z) (cs : option Z * Z) : Prop :=
  code_fits cs /\ m + 1 <= snd cs <= 12.

(** What the loop keeps true of its state, for pixels below [2^m]. *)
Definition lzw_inv (m : Z) (st : lzw_state (list (option Z * Z))) : Prop :=
  m + 1 <= codeSize st <= 12 /\
  2 ^ m + 2 <= nextCode st <= 2 ^ codeSize st /\
  (forall v, In v (map snd (dict st)) -> 0 <= v < nextCode st) /\
  (forall p, 0 <= p < 2 ^ m -> dict_has (dict st) (String_of p) = true) /\
  dict_has (dict st) (current st) = true /\
  Forall (code_ok m) (written st) /\
  exists rest, written st = (Some (2 ^ m), m + 1) :: rest.

(** A code is written with a size from 0 to 24, so that the shift stays
    within 32 bits. *)
Definition code_sized (cs : option Z * Z) : Prop :=
  code_fits cs /\ 0 <= snd cs <= 24.

(** The state of the bit buffer after [B] bits of value [V] were
    written. *)
Definition holds (w : bit_writer) (V B : Z) : Prop :=
  0 <= bitsInBuffer w < 8 /\
  0 <= bitBuffer w < 2 ^ bitsInBuffer w /\
  le_value (output w)
  + 256 ^ Z.of_nat (length (output w)) * bitBuffer w = V /\
  8 * Z.of_nat (length (output w)) + bitsInBuffer w = B.

(** The bit buffer and the list of codes written, side by side. *)
Definition packs (w : bit_writer) (l : list (option Z * Z)) : Prop :=
  Forall code_sized l -> holds w (pack_value l) (total_bits l).

(* ===================================================================== *)
(** * Part II: lemmas and theorems *)
(* ===================================================================== *)

(** ** Small arrays *)

Lemma u8_id (v : Z) : 0 <= v < 256 -> u8 v = v.
Proof. intros H. unfold u8. apply Z.mod_small. exact H. Qed.

Lemma u8_range (v : Z) : 0 <= u8 v < 256.
Proof. unfold u8. apply Z.mod_pos_bound. lia. Qed.

Lemma aset_length (a : list Z) (i : nat) (v : Z) :
  length (aset a i v) = length a.
Proof.
  revert i. induction a as [|h t IH]; intros [|j]; simpl; auto.
Qed.

Lemma aget_app_len (pre suf : list Z) :
  aget (pre ++ suf) (length pre) = aget suf 0.
Proof.
  unfold aget. rewrite app_nth2 by lia. now rewrite Nat.sub_diag.
Qed.

Lemma aget_app_len_S (pre : list Z) (x : Z) (suf : list Z) :
  aget (pre ++ x :: suf) (S (length pre)) = aget suf 0.
Proof.
  unfold aget. rewrite app_nth2 by lia.
  replace (S (length pre) - length pre)%nat with 1%nat by lia. reflexivity.
Qed.

Lemma aset_app_len (pre : list Z) (x : Z) (suf : list Z) (v : Z) :
  aset (pre ++ x :: suf) (length pre) v = pre ++ u8 v :: suf.
Proof. induction pre as [|h t IH]; simpl; [reflexivity | now rewrite IH]. Qed.

Lemma aset_app_r (pre suf : list Z) (j : nat) (v : Z) :
  aset (pre ++ suf) (length pre + j) v = pre ++ aset suf j v.
Proof. induction pre as [|h t IH]; simpl; [reflexivity | now rewrite IH]. Qed.

Lemma byte_cells_app (l1 l2 : list Z) :
  byte_cells (l1 ++ l2) <-> byte_cells l1 /\ byte_cells l2.
Proof. apply Forall_app. Qed.

Lemma byte_cells_aset (a : list Z) (i : nat) (v : Z) :
  byte_cells a -> byte_cells (aset a i v).
Proof.
  revert i. induction a as [|h t IH]; intros i H; [destruct i; exact H|].
  inversion H; subst. destruct i; simpl; constructor; auto using u8_range.
  now apply IH.
Qed.

Lemma byte_cells_repeat0 (n : nat) : byte_cells (repeat 0 n).
Proof. induction n; simpl; constructor; auto; lia. Qed.

(** ** Compaction *)

Lemma nonzero_app (l1 l2 : list Z) :
  nonzero (l1 ++ l2) = nonzero l1 ++ nonzero l2.
Proof. apply filter_app. Qed.

Lemma nonzero_repeat0 (n : nat) : nonzero (repeat 0 n) = [].
Proof. induction n; simpl; auto. Qed.

Lemma nonzero_length_le (l : list Z) : (length (nonzero l) <= length l)%nat.
Proof. apply filter_length_le. Qed.

Lemma nonzero_idem (l : list Z) : nonzero (nonzero l) = nonzero l.
Proof.
  induction l as [|a t IH]; simpl; [reflexivity|].
  destruct (a =? 0) eqn:E; simpl; [exact IH | now rewrite E, IH].
Qed.

Lemma nonzero_byte_cells (l : list Z) : byte_cells l -> byte_cells (nonzero l).
Proof.
  unfold byte_cells. rewrite !Forall_forall. intros H x Hx.
  apply filter_In in Hx. now apply H.
Qed.

(** The loop invariant of the in-place compaction: [kept] is the compacted
    prefix, [junk] the cells already read and no longer meaningful, [rest]
    the cells still to read. *)
Lemma compact_loop_spec (rest kept junk : list Z) :
  byte_cells rest ->
  exists junk',
    length junk' = (length junk + length rest - length (nonzero rest))%nat /\
    compact_loop (length rest) (length kept + length junk) (length kept)
                 (kept ++ junk ++ rest)
    = ((length kept + length (nonzero rest))%nat,
       kept ++ nonzero rest ++ junk').
Proof.
  revert kept junk.
  induction rest as [|a rest IH]; intros kept junk Hb.
  - exists junk. simpl. rewrite !Nat.add_0_r, app_nil_r.
    split; [lia | reflexivity].
  - inversion Hb as [|? ? Ha Hb']; subst.
    cbn [compact_loop length].
    assert (Hget : aget (kept ++ junk ++ a :: rest)
                        (length kept + length junk) = a).
    { rewrite app_assoc, <- length_app, aget_app_len. reflexivity. }
    rewrite Hget.
    destruct (a =? 0) eqn:Ea; cbn [negb].
    + apply Z.eqb_eq in Ea. subst a.
      destruct (IH kept (junk ++ [0]) Hb') as (junk' & Hl & Heq).
      exists junk'. rewrite length_app in Hl, Heq. cbn [length] in Hl, Heq.
      replace (S (length kept + length junk))
        with (length kept + (length junk + 1))%nat by lia.
      rewrite <- app_assoc in Heq. cbn [app] in Heq.
      simpl nonzero. split; [lia | exact Heq].
    + assert (Hnz : nonzero (a :: rest) = a :: nonzero rest).
      { unfold nonzero. simpl. now rewrite Ea. }
      rewrite Hnz. cbn [length].
      destruct junk as [|j junk].
      * cbn [app length]. rewrite Nat.add_0_r.
        rewrite aset_app_len, u8_id by exact Ha.
        destruct (IH (kept ++ [a]) [] Hb') as (junk' & Hl & Heq).
        exists junk'. rewrite length_app in Heq. cbn [length app] in Hl, Heq.
        rewrite Nat.add_0_r in Heq. rewrite <- app_assoc in Heq.
        cbn [app] in Heq.
        replace (S (length kept)) with (length kept + 1)%nat by lia.
        rewrite Heq. split; [lia|].
        f_equal; [lia|]. now rewrite <- app_assoc.
      * cbn [app]. rewrite aset_app_len, u8_id by exact Ha.
        destruct (IH (kept ++ [a]) (junk ++ [a]) Hb') as (junk' & Hl & Heq).
        exists junk'. rewrite !length_app in Heq. rewrite length_app in Hl.
        cbn [length] in Hl, Heq.
        cbn [length].
        replace (S (length kept + S (length junk)))
          with (length kept + 1 + (length junk + 1))%nat by lia.
        replace (S (length kept)) with (length kept + 1)%nat by lia.
        rewrite <- !app_assoc in Heq. cbn [app] in Heq.
        rewrite Heq. split; [lia|].
        f_equal. lia.
Qed.

Lemma zero_loop_spec (junk kept : list Z) :
  zero_loop (length junk) (length kept) (kept ++ junk)
  = kept ++ repeat 0 (length junk).
Proof.
  revert kept. induction junk as [|j junk IH]; intros kept; [reflexivity|].
  cbn [length zero_loop repeat].
  rewrite aset_app_len.
  change (u8 0) with 0.
  specialize (IH (kept ++ [0])).
  rewrite length_app in IH. cbn [length] in IH.
  replace (S (length kept)) with (length kept + 1)%nat by lia.
  rewrite <- !app_assoc in IH. exact IH.
Qed.

(** Compaction keeps the tiles in order and pads with empty cells. *)
Lemma compact_spec (line : list Z) :
  byte_cells line ->
  compact line (length line)
  = nonzero line ++ repeat 0 (length line - length (nonzero line)).
Proof.
  intros Hb. unfold compact.
  destruct (compact_loop_spec line [] [] Hb) as (junk' & Hl & Heq).
  cbn [length app Nat.add] in Hl, Heq. rewrite Heq.
  pose proof (nonzero_length_le line) as Hle.
  replace (length line - length (nonzero line))%nat with (length junk') by lia.
  apply zero_loop_spec.
Qed.

(** ** The merge pass *)

Lemma merge_loop_spec (fuel : nat) (pre suf : list Z) (r : Z) :
  (length suf <= fuel)%nat ->
  merge_loop fuel (length pre) (length pre + length suf) (pre ++ suf) r
  = (pre ++ merge_inplace suf, r + merge_gain suf).
Proof.
  revert pre suf r. induction fuel as [|fuel IH]; intros pre suf r Hf.
  - destruct suf; [|simpl in Hf; lia]. simpl. now rewrite Z.add_0_r.
  - cbn [merge_loop].
    destruct suf as [|a [|b rest]].
    + cbn [length]. rewrite Nat.add_0_r.
      replace (length pre <? length pre - 1)%nat with false
        by (symmetry; apply Nat.ltb_ge; lia).
      simpl. now rewrite Z.add_0_r.
    + cbn [length].
      replace (length pre <? length pre + 1 - 1)%nat with false
        by (symmetry; apply Nat.ltb_ge; lia).
      simpl. now rewrite Z.add_0_r.
    + cbn [length].
      replace (length pre <? length pre + S (S (length rest)) - 1)%nat
        with true by (symmetry; apply Nat.ltb_lt; lia).
      rewrite aget_app_len, aget_app_len_S.
      change (aget (a :: b :: rest) 0) with a.
      change (aget (b :: rest) 0) with b.
      cbn [merge_inplace merge_gain].
      destruct (negb (a =? 0) && (a =? b)) eqn:E.
      * rewrite aset_app_len. rewrite aget_app_len.
        change (aget (u8 (a + 1) :: b :: rest) 0) with (u8 (a + 1)).
        replace (pre ++ u8 (a + 1) :: b :: rest)
          with ((pre ++ [u8 (a + 1)]) ++ b :: rest)
          by (now rewrite <- app_assoc).
        replace (S (length pre)) with (length (pre ++ [u8 (a + 1)]))
          by (rewrite length_app; simpl; lia).
        rewrite aset_app_len. change (u8 0) with 0.
        specialize (IH ((pre ++ [u8 (a + 1)]) ++ [0]) rest
                       (r + js_shl 1 (u8 (a + 1)))).
        rewrite !length_app in IH. cbn [length] in IH.
        rewrite length_app. cbn [length].
        replace (S (length pre + 1)) with (length pre + 1 + 1)%nat by lia.
        replace (length pre + S (S (length rest)))%nat
          with (length pre + 1 + 1 + length rest)%nat by lia.
        replace ((pre ++ [u8 (a + 1)]) ++ 0 :: rest)
          with (((pre ++ [u8 (a + 1)]) ++ [0]) ++ rest)
          by (now rewrite <- !app_assoc).
        rewrite IH by (simpl in Hf; lia).
        rewrite <- !app_assoc. cbn [app]. f_equal. lia.
      * specialize (IH (pre ++ [a]) (b :: rest) r).
        rewrite length_app in IH. cbn [length] in IH.
        replace (S (length pre)) with (length pre + 1)%nat by lia.
        replace (length pre + S (S (length rest)))%nat
          with (length pre + 1 + S (length rest))%nat by lia.
        replace (pre ++ a :: b :: rest) with ((pre ++ [a]) ++ b :: rest)
          by (now rewrite <- app_assoc).
        rewrite IH by (simpl in Hf; lia).
        rewrite <- app_assoc. reflexivity.
Qed.

Lemma merge_inplace_cons2 (a b : Z) (r : list Z) :
  merge_inplace (a :: b :: r)
  = if negb (a =? 0) && (a =? b)
    then u8 (a + 1) :: 0 :: merge_inplace r
    else a :: merge_inplace (b :: r).
Proof. reflexivity. Qed.

Lemma merge_gain_cons2 (a b : Z) (r : list Z) :
  merge_gain (a :: b :: r)
  = if negb (a =? 0) && (a =? b)
    then js_shl 1 (u8 (a + 1)) + merge_gain r
    else merge_gain (b :: r).
Proof. reflexivity. Qed.

Lemma created_tiles_cons2 (a b : Z) (r : list Z) :
  created_tiles (a :: b :: r)
  = if a =? b then (a + 1) :: created_tiles r else created_tiles (b :: r).
Proof. reflexivity. Qed.

(** Induction following the recursion of the merge pass. *)
Lemma merge_ind (P : list Z -> Prop) :
  P [] ->
  (forall a, P [a]) ->
  (forall a b r, P r -> P (b :: r) -> P (a :: b :: r)) ->
  forall l, P l.
Proof.
  intros H0 H1 H2.
  assert (H : forall n l, (length l <= n)%nat -> P l).
  { induction n as [|n IH]; intros l Hl.
    - destruct l; [exact H0 | simpl in Hl; lia].
    - destruct l as [|a [|b rest]]; auto.
      apply H2; apply IH; simpl in Hl |- *; lia. }
  intros l. apply (H (length l)). lia.
Qed.

Lemma merge_inplace_length (l : list Z) :
  length (merge_inplace l) = length l.
Proof.
  induction l as [| a | a b r IHr IHt] using merge_ind; try reflexivity.
  rewrite merge_inplace_cons2.
  destruct (negb (a =? 0) && (a =? b)); cbn [length].
  - now rewrite IHr.
  - now rewrite IHt.
Qed.

Lemma merge_inplace_byte_cells (l : list Z) :
  byte_cells l -> byte_cells (merge_inplace l).
Proof.
  induction l as [| a | a b r IHr IHt] using merge_ind; intros Hb;
    try exact Hb.
  rewrite merge_inplace_cons2.
  inversion Hb as [|? ? Ha Hb1]; subst.
  inversion Hb1 as [|? ? Hb0 Hb2]; subst.
  destruct (negb (a =? 0) && (a =? b)).
  - constructor; [apply u8_range|]. constructor; [lia|]. now apply IHr.
  - constructor; [exact Ha|]. now apply IHt.
Qed.

(** [slideLine] as a function of the line. *)
Lemma slideLine_spec (line : list Z) :
  byte_cells line ->
  let padded := nonzero line
                ++ repeat 0 (length line - length (nonzero line)) in
  slideLine line (length line)
  = (nonzero (merge_inplace padded)
     ++ repeat 0 (length line - length (nonzero (merge_inplace padded))),
     merge_gain padded).
Proof.
  intros Hb padded. unfold slideLine.
  rewrite compact_spec by exact Hb. fold padded.
  assert (Hlen : length padded = length line).
  { unfold padded. rewrite length_app, repeat_length.
    pose proof (nonzero_length_le line). lia. }
  pose proof (merge_loop_spec (length line) [] padded 0) as Hm.
  cbn [length app Nat.add] in Hm. rewrite Hlen in Hm.
  rewrite Hm by lia. rewrite Z.add_0_l.
  f_equal.
  rewrite <- (merge_inplace_length padded) in Hlen.
  rewrite <- Hlen. apply compact_spec.
  apply merge_inplace_byte_cells. unfold padded.
  apply byte_cells_app. split;
    [now apply nonzero_byte_cells | apply byte_cells_repeat0].
Qed.

(** ** What the merge pass does to the tiles *)

Lemma js_shl_1_small (x : Z) : 0 <= x <= 30 -> js_shl 1 x = 2 ^ x.
Proof.
  intros H.
  assert (Hx : x = Z.of_nat (Z.to_nat x)) by lia.
  rewrite Hx. clear Hx.
  assert (Hn : (Z.to_nat x <= 30)%nat) by lia.
  revert Hn. generalize (Z.to_nat x). intros n Hn.
  do 31 (destruct n as [|n]; [vm_compute; reflexivity|]).
  lia.
Qed.

Lemma merge_inplace_zeros (n : nat) :
  merge_inplace (repeat 0 n) = repeat 0 n /\ merge_gain (repeat 0 n) = 0.
Proof.
  induction n as [|n [IH1 IH2]]; [split; reflexivity|].
  destruct n as [|n]; [split; reflexivity|].
  cbn [repeat] in *. rewrite merge_inplace_cons2, merge_gain_cons2.
  cbn [Z.eqb negb andb]. now rewrite IH1, IH2.
Qed.

Lemma nonzero_all_nonzero (l : list Z) : all_nonzero (nonzero l).
Proof.
  apply Forall_forall. intros x Hx. apply filter_In in Hx.
  destruct Hx as [_ Hx]. apply negb_true_iff, Z.eqb_neq in Hx. exact Hx.
Qed.

Lemma nonzero_of_all_nonzero (l : list Z) : all_nonzero l -> nonzero l = l.
Proof.
  induction 1 as [|a l Ha _ IH]; [reflexivity|].
  simpl. apply Z.eqb_neq in Ha. now rewrite Ha, IH.
Qed.

(** The reward of the merge pass on a compacted line is the sum of the
    32-bit shifts [1 << code] over the created tiles. *)
Lemma merge_gain_padded (tiles : list Z) (n : nat) :
  all_nonzero tiles ->
  merge_gain (tiles ++ repeat 0 n)
  = sumZ (map (fun t => js_shl 1 (u8 t)) (created_tiles tiles)).
Proof.
  induction tiles as [| a | a b r IHr IHt] using merge_ind; intros Hnz.
  - apply merge_inplace_zeros.
  - inversion Hnz as [|? ? Ha _]; subst. apply Z.eqb_neq in Ha.
    destruct n as [|n]; [reflexivity|].
    change ([a] ++ repeat 0 (S n)) with (a :: 0 :: repeat 0 n).
    rewrite merge_gain_cons2, Ha. cbn [negb andb].
    apply (merge_inplace_zeros (S n)).
  - inversion Hnz as [|? ? Ha Hnz1]; subst.
    inversion Hnz1 as [|? ? Hb Hnz2]; subst.
    apply Z.eqb_neq in Ha.
    cbn [app]. rewrite merge_gain_cons2, created_tiles_cons2, Ha.
    cbn [negb andb].
    destruct (a =? b).
    + cbn [map sumZ fold_right]. now rewrite IHr.
    + now apply IHt.
Qed.

(** A merge removes at least one tile from the line: either the pass
    earned nothing or the number of tiles went down. *)
Lemma merge_inplace_count_le (l : list Z) :
  (length (nonzero (merge_inplace l)) <= length (nonzero l))%nat.
Proof.
  induction l as [| a | a b r IHr IHt] using merge_ind; try (simpl; lia).
  rewrite merge_inplace_cons2.
  destruct (negb (a =? 0) && (a =? b)) eqn:E.
  - apply andb_true_iff in E. destruct E as [E1 E2].
    apply Z.eqb_eq in E2. subst b.
    apply negb_true_iff in E1.
    unfold nonzero in *. cbn [filter]. rewrite E1. cbn [negb Z.eqb length].
    destruct (negb (u8 (a + 1) =? 0)); cbn [length]; lia.
  - unfold nonzero in *. cbn [filter] in *.
    destruct (negb (a =? 0)); cbn [length] in *; lia.
Qed.

Lemma merge_gain_or_fewer (l : list Z) :
  merge_gain l = 0 \/
  (length (nonzero (merge_inplace l)) < length (nonzero l))%nat.
Proof.
  induction l as [| a | a b r IHr IHt] using merge_ind;
    try (left; reflexivity).
  rewrite merge_inplace_cons2, merge_gain_cons2.
  destruct (negb (a =? 0) && (a =? b)) eqn:E.
  - right. apply andb_true_iff in E. destruct E as [E1 E2].
    apply Z.eqb_eq in E2. subst b. apply negb_true_iff in E1.
    pose proof (merge_inplace_count_le r) as Hle.
    unfold nonzero in *. cbn [filter]. rewrite E1. cbn [negb Z.eqb length].
    destruct (negb (u8 (a + 1) =? 0)); cbn [length]; lia.
  - destruct IHt as [IHt | IHt]; [now left | right].
    unfold nonzero in *. cbn [filter] in *.
    destruct (negb (a =? 0)); cbn [length] in *; lia.
Qed.

(** A line that [slideLine] leaves as it was earns no reward. *)
Lemma slideLine_fixed_no_reward (line : list Z) :
  byte_cells line ->
  fst (slideLine line (length line)) = line ->
  snd (slideLine line (length line)) = 0.
Proof.
  intros Hb. rewrite (slideLine_spec line Hb). cbn [fst snd]. intros Hfix.
  set (padded := nonzero line
                 ++ repeat 0 (length line - length (nonzero line))) in *.
  destruct (merge_gain_or_fewer padded) as [H | H]; [exact H|].
  exfalso.
  assert (Hp : nonzero padded = nonzero line).
  { unfold padded. now rewrite nonzero_app, nonzero_repeat0, app_nil_r,
      nonzero_idem. }
  rewrite Hp in H.
  apply (f_equal nonzero) in Hfix.
  rewrite nonzero_app, nonzero_repeat0, app_nil_r, nonzero_idem in Hfix.
  rewrite Hfix in H. lia.
Qed.

Lemma slideLine_length (line : list Z) :
  byte_cells line ->
  length (fst (slideLine line (length line))) = length line.
Proof.
  intros Hb. rewrite (slideLine_spec line Hb). cbn [fst].
  set (padded := nonzero line
                 ++ repeat 0 (length line - length (nonzero line))).
  assert (Hlen : length padded = length line).
  { unfold padded. rewrite length_app, repeat_length.
    pose proof (nonzero_length_le line). lia. }
  rewrite length_app, repeat_length.
  pose proof (nonzero_length_le (merge_inplace padded)) as Hle.
  rewrite merge_inplace_length, Hlen in Hle. lia.
Qed.

Lemma slideLine_byte_cells (line : list Z) :
  byte_cells line -> byte_cells (fst (slideLine line (length line))).
Proof.
  intros Hb. rewrite (slideLine_spec line Hb). cbn [fst].
  apply byte_cells_app. split; [|apply byte_cells_repeat0].
  apply nonzero_byte_cells, merge_inplace_byte_cells, byte_cells_app.
  split; [now apply nonzero_byte_cells | apply byte_cells_repeat0].
Qed.

(** ** Values are conserved by a slide *)

Lemma sumZ_app (l1 l2 : list Z) : sumZ (l1 ++ l2) = sumZ l1 + sumZ l2.
Proof. induction l1 as [|a l IH]; simpl; lia. Qed.

Section Conservation.

(** [val] is a valuation of codes that is 0 on the empty cell and doubles
    from one code to the next, up to the code [top]. *)
Variable val : Z -> Z.
Variable top : Z.
Hypothesis top_nonneg : 0 <= top.
Hypothesis val_0 : val 0 = 0.
Hypothesis val_double :
  forall a, 0 < a <= top -> a + 1 < 256 /\ val (a + 1) = val a + val a.

Lemma tot_nonzero (l : list Z) :
  sumZ (map val (nonzero l)) = sumZ (map val l).
Proof.
  induction l as [|a l IH]; [reflexivity|].
  simpl. destruct (Z.eqb_spec a 0) as [->|Hne]; simpl; rewrite IH; lia.
Qed.

Lemma tot_repeat0 (n : nat) : sumZ (map val (repeat 0 n)) = 0.
Proof. induction n; simpl; lia. Qed.

Lemma tot_padded (l : list Z) (n : nat) :
  sumZ (map val (l ++ repeat 0 n)) = sumZ (map val l).
Proof. rewrite map_app, sumZ_app, tot_repeat0. lia. Qed.

Lemma tot_merge_inplace (l : list Z) :
  byte_cells l -> codes_at_most top l ->
  sumZ (map val (merge_inplace l)) = sumZ (map val l).
Proof.
  induction l as [| a | a b r IHr IHt] using merge_ind; intros Hb Hc;
    try reflexivity.
  rewrite merge_inplace_cons2.
  inversion Hb as [|? ? Ha Hb1]; subst.
  inversion Hb1 as [|? ? Hb0 Hb2]; subst.
  inversion Hc as [|? ? Hca Hc1]; subst.
  inversion Hc1 as [|? ? Hcb Hc2]; subst.
  destruct (negb (a =? 0) && (a =? b)) eqn:E.
  - apply andb_true_iff in E. destruct E as [E1 E2].
    apply Z.eqb_eq in E2. subst b.
    apply negb_true_iff, Z.eqb_neq in E1.
    destruct (val_double a) as [Hlt Hd]; [lia|].
    specialize (IHr Hb2 Hc2).
    unfold sumZ in *. cbn [map fold_right] in *.
    rewrite u8_id by lia. rewrite Hd, val_0. lia.
  - specialize (IHt Hb1 Hc1).
    unfold sumZ in *. cbn [map fold_right] in *. lia.
Qed.

Lemma tot_slideLine (line : list Z) :
  byte_cells line -> codes_at_most top line ->
  sumZ (map val (fst (slideLine line (length line)))) = sumZ (map val line).
Proof.
  intros Hb Hc. rewrite (slideLine_spec line Hb). cbn [fst].
  rewrite tot_padded, tot_nonzero, tot_merge_inplace.
  - rewrite tot_padded. apply tot_nonzero.
  - apply byte_cells_app. split;
      [now apply nonzero_byte_cells | apply byte_cells_repeat0].
  - apply Forall_app. split.
    + unfold codes_at_most in *. rewrite Forall_forall in *.
      intros x Hx. apply filter_In in Hx. now apply Hc.
    + apply Forall_forall. intros x Hx. apply repeat_spec in Hx. subst x.
      exact top_nonneg.
Qed.

End Conservation.

(** ** The 4x4 move, line by line *)

Lemma differs4_false (x0 x1 x2 x3 y0 y1 y2 y3 : Z) :
  differs 4 0 [x0; x1; x2; x3] [y0; y1; y2; y3] = false ->
  [x0; x1; x2; x3] = [y0; y1; y2; y3].
Proof.
  cbn [differs aget nth].
  destruct (Z.eqb_spec x0 y0); [subst | discriminate].
  destruct (Z.eqb_spec x1 y1); [subst | discriminate].
  destruct (Z.eqb_spec x2 y2); [subst | discriminate].
  destruct (Z.eqb_spec x3 y3); [subst | discriminate].
  reflexivity.
Qed.

Lemma length4_inv (l : list Z) :
  length l = 4%nat -> exists x0 x1 x2 x3, l = [x0; x1; x2; x3].
Proof.
  destruct l as [|x0 [|x1 [|x2 [|x3 [|x4 l]]]]]; try discriminate.
  intros _. now exists x0, x1, x2, x3.
Qed.

Lemma slideLine4_shape (y0 y1 y2 y3 : Z) :
  byte_cells [y0; y1; y2; y3] ->
  exists x0 x1 x2 x3,
    fst (slideLine [y0; y1; y2; y3] 4) = [x0; x1; x2; x3] /\
    byte_cells [x0; x1; x2; x3].
Proof.
  intros Hb.
  pose proof (slideLine_length [y0; y1; y2; y3] Hb) as Hl.
  pose proof (slideLine_byte_cells [y0; y1; y2; y3] Hb) as Hc.
  cbn [length] in Hl, Hc.
  destruct (length4_inv _ Hl) as (x0 & x1 & x2 & x3 & E).
  exists x0, x1, x2, x3. rewrite E in *. split; [reflexivity | exact Hc].
Qed.

Lemma board4_inv (b : list Z) :
  board4 b ->
  exists a0 a1 a2 a3 a4 a5 a6 a7 a8 a9 a10 a11 a12 a13 a14 a15,
    b = [a0; a1; a2; a3; a4; a5; a6; a7; a8; a9; a10; a11; a12; a13; a14; a15]
    /\ byte_cells b.
Proof.
  intros [Hl Hb].
  do 16 (destruct b as [|? b]; [discriminate|]).
  destruct b; [|discriminate].
  do 16 eexists. split; [reflexivity | exact Hb].
Qed.

Ltac byte_facts :=
  repeat match goal with
  | H : byte_cells (_ :: _) |- _ =>
      let H1 := fresh "Hc" in let H2 := fresh "Hb" in
      apply Forall_cons_iff in H; destruct H as [H1 H2]
  | H : Forall _ (_ :: _) |- _ =>
      let H1 := fresh "Hc" in let H2 := fresh "Hb" in
      apply Forall_cons_iff in H; destruct H as [H1 H2]
  | H : byte_cells [] |- _ => clear H
  | H : Forall _ [] |- _ => clear H
  end.

Ltac byte_goal :=
  repeat (apply Forall_cons; [lia|]); apply Forall_nil.

(** One iteration of the outer loop of [move] on a board and a line
    buffer given cell by cell: the state after the step is computed, with
    the slid line named cell by cell. *)
Ltac name_slid_line Est :=
  match type of Est with
  | context [slideLine [?y0; ?y1; ?y2; ?y3] 4] =>
      let x0 := fresh "x" in let x1 := fresh "x" in
      let x2 := fresh "x" in let x3 := fresh "x" in
      let E := fresh "E" in let Hx := fresh "Hx" in
      let s := fresh "s" in let g := fresh "g" in
      destruct (slideLine4_shape y0 y1 y2 y3 ltac:(byte_goal))
        as (x0 & x1 & x2 & x3 & E & Hx);
      remember (slideLine [y0; y1; y2; y3] 4) as sr in *;
      match goal with Esr : sr = _ |- _ => clear Esr end;
      destruct sr as [s g];
      cbn [fst snd] in E; subst s; byte_facts
  end.

Ltac step_once :=
  match goal with
  | |- context [move_step 4 ?d ?k
                  {| ms_board := ?b; ms_line := ?l;
                     ms_reward := ?r; ms_moved := ?m |}] =>
      remember (move_step 4 d k
                  {| ms_board := b; ms_line := l;
                     ms_reward := r; ms_moved := m |}) as st;
      match goal with
      | Est : st = _ |- _ =>
          unfold move_step in Est;
          cbn [read_line write_line line_index aset aget nth ms_board
               ms_line ms_reward ms_moved Nat.mul Nat.add Nat.sub] in Est;
          rewrite ?u8_id in Est by lia;
          name_slid_line Est;
          cbn [write_line line_index aset aget nth Nat.mul Nat.add Nat.sub]
            in Est;
          rewrite ?u8_id in Est by lia;
          subst st
      end
  end.

Lemma move4_by_lines (b : list Z) (dir : Z) :
  board4 b -> 0 <= dir <= 3 ->
  exists l0 l1 l2 l3,
    lines_toward dir b = [l0; l1; l2; l3] /\
    Forall (fun l => length l = 4%nat /\ byte_cells l) [l0; l1; l2; l3] /\
    (forall f, sumZ (map f b) = sumZ (map f (l0 ++ l1 ++ l2 ++ l3))) /\
    reward (move 4 b dir)
    = snd (slideLine l0 4) + snd (slideLine l1 4)
      + snd (slideLine l2 4) + snd (slideLine l3 4) /\
    (moved (move 4 b dir) = false ->
     fst (slideLine l0 4) = l0 /\ fst (slideLine l1 4) = l1 /\
     fst (slideLine l2 4) = l2 /\ fst (slideLine l3 4) = l3) /\
    (forall f, sumZ (map f (mr_board (move 4 b dir)))
               = sumZ (map f (fst (slideLine l0 4) ++ fst (slideLine l1 4)
                              ++ fst (slideLine l2 4) ++ fst (slideLine l3 4)))).
Proof.
  intros Hb Hdir.
  destruct (board4_inv b Hb) as
    (a0 & a1 & a2 & a3 & a4 & a5 & a6 & a7 & a8 & a9 & a10 & a11 & a12
     & a13 & a14 & a15 & -> & Hc).
  clear Hb. byte_facts.
  assert (Hd : dir = 0 \/ dir = 1 \/ dir = 2 \/ dir = 3) by lia.
  destruct Hd as [-> | [-> | [-> | ->]]].
  all: match goal with
       | |- context [lines_toward ?d ?b] =>
           let v := eval cbv in (lines_toward d b) in
           change (lines_toward d b) with v
       end;
    do 4 eexists; split; [reflexivity|];
    split; [repeat (apply Forall_cons; [split; [reflexivity | byte_goal]|]);
            apply Forall_nil|];
    split; [intros f; unfold sumZ; cbn [map app fold_right]; ring|].
  all: unfold move; cbn [move_loop repeat].
  all: do 4 step_once.
  all: cbn [mr_board moved reward ms_board ms_reward ms_moved fst snd].
  all: split; [lia|].
  all: split;
    [intros Hm;
     repeat match type of Hm with
     | (if differs 4 0 ?l ?o then true else ?rest) = false =>
         let D := fresh "D" in
         destruct (differs 4 0 l o) eqn:D; [discriminate|];
         apply differs4_false in D
     end; auto
    | intros f; unfold sumZ; cbn [map app fold_right]; ring].
Qed.

(** A direction outside 0..3 matches no case of the [switch]: nothing is
    read or written, and the zero-filled line buffer slides to itself. *)
Lemma line_index_none (SIZE : nat) (dir : Z) (k i : nat) :
  ~ (0 <= dir <= 3) -> line_index SIZE dir k i = None.
Proof.
  intros H. unfold line_index.
  destruct dir as [|p|p]; try lia; try reflexivity.
  destruct p as [[p|p|]|[p|p|]|]; try reflexivity; lia.
Qed.

Lemma read_line_none (SIZE : nat) (dir : Z) (n i k : nat)
    (board line : list Z) :
  ~ (0 <= dir <= 3) -> read_line SIZE n i dir k board line = line.
Proof.
  intros H. revert i line. induction n as [|n IH]; intros i line;
    [reflexivity|].
  cbn [read_line]. rewrite line_index_none by exact H. apply IH.
Qed.

Lemma write_line_none (SIZE : nat) (dir : Z) (n i k : nat)
    (board line : list Z) :
  ~ (0 <= dir <= 3) -> write_line SIZE n i dir k board line = board.
Proof.
  intros H. revert i board. induction n as [|n IH]; intros i board;
    [reflexivity|].
  cbn [write_line]. rewrite line_index_none by exact H. apply IH.
Qed.

Lemma move4_no_direction (b : list Z) (dir : Z) :
  ~ (0 <= dir <= 3) ->
  move 4 b dir = {| mr_board := b; moved := false; reward := 0 |}.
Proof.
  intros H. unfold move. cbn [move_loop repeat].
  assert (Hstep : forall k (st : move_state),
             ms_line st = [0; 0; 0; 0] ->
             move_step 4 dir k st
             = {| ms_board := ms_board st; ms_line := [0; 0; 0; 0];
                  ms_reward := ms_reward st + 0;
                  ms_moved := ms_moved st |}).
  { intros k st Hl. unfold move_step.
    rewrite read_line_none, Hl by exact H.
    change (slideLine [0; 0; 0; 0] 4) with ([0; 0; 0; 0], 0).
    cbv beta iota. rewrite write_line_none by exact H. reflexivity. }
  rewrite (Hstep 0%nat) by reflexivity.
  rewrite (Hstep 1%nat) by reflexivity.
  rewrite (Hstep 2%nat) by reflexivity.
  rewrite (Hstep 3%nat) by reflexivity.
  reflexivity.
Qed.

Lemma tiles_created_no_direction (b : list Z) (dir : Z) :
  ~ (0 <= dir <= 3) -> tiles_created_by_move dir b = [].
Proof.
  intros H. unfold tiles_created_by_move, lines_toward.
  destruct dir as [|p|p]; try lia; try reflexivity.
  destruct p as [[p|p|]|[p|p|]|]; try reflexivity; lia.
Qed.

Lemma created_tiles_bounds (lo hi : Z) (tiles : list Z) :
  Forall (fun c => lo <= c <= hi) tiles ->
  Forall (fun t => lo + 1 <= t <= hi + 1) (created_tiles tiles).
Proof.
  induction tiles as [| a | a b r IHr IHt] using merge_ind; intros H;
    try constructor.
  rewrite created_tiles_cons2.
  inversion H as [|? ? Ha H1]; subst. inversion H1 as [|? ? Hb H2]; subst.
  destruct (a =? b); [constructor; [lia | now apply IHr] | now apply IHt].
Qed.

(** The reward of one line whose codes are at most 29. *)
Lemma slideLine_reward (line : list Z) :
  byte_cells line -> codes_at_most 29 line ->
  snd (slideLine line (length line))
  = sumZ (map (fun c => 2 ^ c) (created_tiles (nonzero line))).
Proof.
  intros Hb Hc. rewrite (slideLine_spec line Hb). cbn [snd].
  rewrite merge_gain_padded by apply nonzero_all_nonzero.
  assert (Hr : Forall (fun c => 1 <= c <= 29) (nonzero line)).
  { apply Forall_forall. intros x Hx. apply filter_In in Hx.
    destruct Hx as [Hin Hnz]. apply negb_true_iff, Z.eqb_neq in Hnz.
    unfold byte_cells, codes_at_most in *. rewrite Forall_forall in Hb, Hc.
    specialize (Hb x Hin). specialize (Hc x Hin). lia. }
  apply created_tiles_bounds in Hr.
  induction Hr as [|t ts Ht _ IH]; [reflexivity|].
  cbn [map sumZ fold_right]. unfold sumZ in IH. rewrite IH.
  rewrite u8_id by lia. rewrite js_shl_1_small by lia. reflexivity.
Qed.

Lemma codes_at_most_perm_sum (n : Z) (l l' : list Z) :
  (forall f, sumZ (map f l) = sumZ (map f l')) ->
  codes_at_most n l -> codes_at_most n l'.
Proof.
  intros Hsum Hc.
  (* count the cells above [n] *)
  specialize (Hsum (fun c => if c <=? n then 0 else 1)).
  assert (H0 : forall l, codes_at_most n l ->
             sumZ (map (fun c => if c <=? n then 0 else 1) l) = 0).
  { clear. induction 1 as [|a l Ha _ IH]; [reflexivity|].
    cbn [map sumZ fold_right]. unfold sumZ in IH. rewrite IH.
    apply Z.leb_le in Ha. now rewrite Ha. }
  assert (H1 : forall l,
             0 <= sumZ (map (fun c => if c <=? n then 0 else 1) l)).
  { clear. induction l as [|a l IH]; [simpl; lia|].
    cbn [map sumZ fold_right]. unfold sumZ in IH.
    destruct (a <=? n); lia. }
  rewrite (H0 l Hc) in Hsum. clear Hc H0.
  induction l' as [|a l' IH]; [constructor|].
  cbn [map sumZ fold_right] in Hsum. pose proof (H1 l') as Hpos.
  unfold sumZ in Hsum, Hpos.
  destruct (Z.leb_spec a n) as [Hle|Hgt]; [|lia].
  constructor; [exact Hle | apply IH; unfold sumZ; lia].
Qed.

Lemma actual_value_doubles (a : Z) :
  0 < a <= 254 ->
  a + 1 < 256 /\ actual_value (a + 1) = actual_value a + actual_value a.
Proof.
  intros H. split; [lia|]. unfold actual_value.
  destruct (Z.eqb_spec (a + 1) 0) as [E|_]; [lia|].
  destruct (Z.eqb_spec a 0) as [E|_]; [lia|].
  rewrite Z.pow_add_r by lia. lia.
Qed.

Lemma tileValue_doubles (a : Z) :
  0 < a <= 29 ->
  a + 1 < 256 /\ tileValue (a + 1) = tileValue a + tileValue a.
Proof.
  intros H. split; [lia|]. unfold tileValue.
  destruct (Z.eqb_spec (a + 1) 0) as [E|_]; [lia|].
  destruct (Z.eqb_spec a 0) as [E|_]; [lia|].
  rewrite !js_shl_1_small by lia.
  rewrite Z.pow_add_r by lia. lia.
Qed.

Lemma codes_at_most_app (n : Z) (l1 l2 : list Z) :
  codes_at_most n (l1 ++ l2) <-> codes_at_most n l1 /\ codes_at_most n l2.
Proof. apply Forall_app. Qed.

(** The facts about a 4x4 move that the theorems below share. *)
Lemma move4_lines_summary (b : list Z) (dir : Z) (top : Z) :
  board4 b -> 0 <= dir <= 3 ->
  exists l0 l1 l2 l3,
    lines_toward dir b = [l0; l1; l2; l3] /\
    (length l0 = 4 /\ length l1 = 4 /\ length l2 = 4 /\ length l3 = 4)%nat /\
    (byte_cells l0 /\ byte_cells l1 /\ byte_cells l2 /\ byte_cells l3) /\
    (codes_at_most top b ->
     codes_at_most top l0 /\ codes_at_most top l1 /\
     codes_at_most top l2 /\ codes_at_most top l3) /\
    (forall f, sumZ (map f b) = sumZ (map f (l0 ++ l1 ++ l2 ++ l3))) /\
    reward (move 4 b dir)
    = snd (slideLine l0 4) + snd (slideLine l1 4)
      + snd (slideLine l2 4) + snd (slideLine l3 4) /\
    (moved (move 4 b dir) = false ->
     fst (slideLine l0 4) = l0 /\ fst (slideLine l1 4) = l1 /\
     fst (slideLine l2 4) = l2 /\ fst (slideLine l3 4) = l3) /\
    (forall f, sumZ (map f (mr_board (move 4 b dir)))
               = sumZ (map f (fst (slideLine l0 4) ++ fst (slideLine l1 4)
                              ++ fst (slideLine l2 4) ++ fst (slideLine l3 4)))).
Proof.
  intros Hb Hdir.
  destruct (move4_by_lines b dir Hb Hdir)
    as (l0 & l1 & l2 & l3 & Hl & Hshape & Hsum & Hr & Hm & Hsum').
  exists l0, l1, l2, l3.
  apply Forall_cons_iff in Hshape. destruct Hshape as [[L0 B0] Hshape].
  apply Forall_cons_iff in Hshape. destruct Hshape as [[L1 B1] Hshape].
  apply Forall_cons_iff in Hshape. destruct Hshape as [[L2 B2] Hshape].
  apply Forall_cons_iff in Hshape. destruct Hshape as [[L3 B3] _].
  split; [exact Hl|]. split; [auto|]. split; [auto|].
  split; [|auto].
  intros Hc.
  pose proof (codes_at_most_perm_sum top _ _ Hsum Hc) as Hall.
  apply codes_at_most_app in Hall. destruct Hall as [C0 Hall].
  apply codes_at_most_app in Hall. destruct Hall as [C1 Hall].
  apply codes_at_most_app in Hall. destruct Hall as [C2 C3].
  auto.
Qed.

(** C1 (amended): on every 4x4 board whose codes are at most 29, for every
    action, the reward returned by [move] is the sum of the actual values
    [2^code] of the tiles created by merges during the call; and on every
    4x4 board whatever its codes, the reward is 0 when the returned
    [moved] flag is false. *)
Theorem move_reward_sums_created_tiles (b : list Z) (dir : Z) :
  board4 b ->
  (moved (move 4 b dir) = false -> reward (move 4 b dir) = 0) /\
  (codes_at_most 29 b ->
   reward (move 4 b dir)
   = sumZ (map (fun c => 2 ^ c) (tiles_created_by_move dir b))).
Proof.
  intros Hb.
  destruct (Z_le_dec 0 dir) as [H0|H0];
    [destruct (Z_le_dec dir 3) as [H3|H3]|].
  2,3: rewrite move4_no_direction, tiles_created_no_direction by lia;
       split; reflexivity.
  destruct (move4_lines_summary b dir 29 Hb (conj H0 H3))
    as (l0 & l1 & l2 & l3 & Hl & (L0 & L1 & L2 & L3) & (B0 & B1 & B2 & B3)
        & Hc & _ & Hr & Hm & _).
  split.
  - intros Hmoved. destruct (Hm Hmoved) as (F0 & F1 & F2 & F3).
    rewrite Hr.
    rewrite <- L0 in F0 |- * at 1. rewrite <- L1 in F1 |- * at 1.
    rewrite <- L2 in F2 |- * at 1. rewrite <- L3 in F3 |- * at 1.
    rewrite (slideLine_fixed_no_reward l0 B0 F0).
    rewrite (slideLine_fixed_no_reward l1 B1 F1).
    rewrite (slideLine_fixed_no_reward l2 B2 F2).
    rewrite (slideLine_fixed_no_reward l3 B3 F3). reflexivity.
  - intros Hcodes. destruct (Hc Hcodes) as (C0 & C1 & C2 & C3).
    rewrite Hr. unfold tiles_created_by_move. rewrite Hl.
    cbn [flat_map]. rewrite app_nil_r, !map_app, !sumZ_app.
    rewrite <- (slideLine_reward l0 B0 C0), <- (slideLine_reward l1 B1 C1),
      <- (slideLine_reward l2 B2 C2), <- (slideLine_reward l3 B3 C3).
    rewrite L0, L1, L2, L3. lia.
Qed.

(** C9 (amended): for every 4x4 board whose codes are below 255 and every
    action, [move] preserves the total of the actual values [2^code] of
    the tiles; computed with the engine's 32-bit [tileValue], the total is
    preserved on boards whose codes are at most 29. *)
Theorem move_preserves_total_value (b : list Z) (dir : Z) :
  board4 b ->
  (codes_at_most 254 b ->
   total_value (mr_board (move 4 b dir)) = total_value b) /\
  (codes_at_most 29 b ->
   total_tileValue (mr_board (move 4 b dir)) = total_tileValue b).
Proof.
  intros Hb.
  destruct (Z_le_dec 0 dir) as [H0|H0];
    [destruct (Z_le_dec dir 3) as [H3|H3]|].
  2,3: rewrite move4_no_direction by lia; split; reflexivity.
  split; intros Hcodes.
  - destruct (move4_lines_summary b dir 254 Hb (conj H0 H3))
      as (l0 & l1 & l2 & l3 & _ & (L0 & L1 & L2 & L3) & (B0 & B1 & B2 & B3)
          & Hc & Hsum & _ & _ & Hsum').
    destruct (Hc Hcodes) as (C0 & C1 & C2 & C3).
    unfold total_value. rewrite Hsum, Hsum', !map_app, !sumZ_app.
    pose proof (tot_slideLine actual_value 254 ltac:(lia) eq_refl
                  actual_value_doubles) as T.
    rewrite <- (T l0 B0 C0), <- (T l1 B1 C1), <- (T l2 B2 C2),
      <- (T l3 B3 C3).
    now rewrite L0, L1, L2, L3.
  - destruct (move4_lines_summary b dir 29 Hb (conj H0 H3))
      as (l0 & l1 & l2 & l3 & _ & (L0 & L1 & L2 & L3) & (B0 & B1 & B2 & B3)
          & Hc & Hsum & _ & _ & Hsum').
    destruct (Hc Hcodes) as (C0 & C1 & C2 & C3).
    unfold total_tileValue. rewrite Hsum, Hsum', !map_app, !sumZ_app.
    pose proof (tot_slideLine tileValue 29 ltac:(lia) eq_refl
                  tileValue_doubles) as T.
    rewrite <- (T l0 B0 C0), <- (T l1 B1 C1), <- (T l2 B2 C2),
      <- (T l3 B3 C3).
    now rewrite L0, L1, L2, L3.
Qed.

(** C1, applied: a board on which moving left changes nothing, so that
    both parts of the theorem are exercised. *)
Lemma move_reward_sums_created_tiles_witness :
  let b := [1; 2; 0; 0; 3; 0; 0; 0; 0; 0; 0; 0; 2; 1; 2; 0] in
  board4 b /\ codes_at_most 29 b /\ moved (move 4 b 3) = false /\
  reward (move 4 b 3) = 0 /\
  reward (move 4 b 3)
  = sumZ (map (fun c => 2 ^ c) (tiles_created_by_move 3 b)).
Proof.
  intros b.
  assert (Hb : board4 b).
  { split; [reflexivity | repeat (apply Forall_cons; [lia|]); apply Forall_nil]. }
  assert (Hc : codes_at_most 29 b).
  { repeat (apply Forall_cons; [lia|]); apply Forall_nil. }
  assert (Hm : moved (move 4 b 3) = false) by reflexivity.
  split; [exact Hb|]. split; [exact Hc|]. split; [exact Hm|].
  split.
  - exact (proj1 (move_reward_sums_created_tiles b 3 Hb) Hm).
  - exact (proj2 (move_reward_sums_created_tiles b 3 Hb) Hc).
Defined.

(** C1 as stated fails on a board holding code 30: the merge creates a
    tile of code 31, whose value is [2^31], and the reward returned is
    [1 << 31 = -2^31]. *)
Lemma move_reward_counterexample :
  let b := [30; 30; 0; 0; 0; 0; 0; 0; 0; 0; 0; 0; 0; 0; 0; 0] in
  board4 b /\
  tiles_created_by_move 3 b = [31] /\
  reward (move 4 b 3) = - 2 ^ 31 /\
  reward (move 4 b 3)
  <> sumZ (map (fun c => 2 ^ c) (tiles_created_by_move 3 b)).
Proof.
  intros b. split.
  { split; [reflexivity | repeat (apply Forall_cons; [lia|]); apply Forall_nil]. }
  split; [reflexivity|]. split; [reflexivity|].
  vm_compute. discriminate.
Qed.

(** C9, applied to a board with two merges in one row. *)
Lemma move_preserves_total_value_witness :
  let b := [1; 1; 2; 2; 3; 0; 0; 0; 0; 0; 0; 0; 2; 1; 2; 0] in
  board4 b /\ codes_at_most 254 b /\ codes_at_most 29 b /\
  total_value (mr_board (move 4 b 3)) = total_value b /\
  total_tileValue (mr_board (move 4 b 3)) = total_tileValue b.
Proof.
  intros b.
  assert (Hb : board4 b).
  { split; [reflexivity | repeat (apply Forall_cons; [lia|]); apply Forall_nil]. }
  assert (Hc : codes_at_most 254 b).
  { repeat (apply Forall_cons; [lia|]); apply Forall_nil. }
  assert (Hc' : codes_at_most 29 b).
  { repeat (apply Forall_cons; [lia|]); apply Forall_nil. }
  split; [exact Hb|]. split; [exact Hc|]. split; [exact Hc'|].
  split.
  - exact (proj1 (move_preserves_total_value b 3 Hb) Hc).
  - exact (proj2 (move_preserves_total_value b 3 Hb) Hc').
Defined.

(** C9 as stated fails on a board holding code 255: the merged cell wraps
    to 0 in the [Uint8Array], and both tiles vanish. *)
Lemma move_total_value_counterexample :
  let b := [255; 255; 0; 0; 0; 0; 0; 0; 0; 0; 0; 0; 0; 0; 0; 0] in
  board4 b /\
  mr_board (move 4 b 3) = [0; 0; 0; 0; 0; 0; 0; 0; 0; 0; 0; 0; 0; 0; 0; 0] /\
  total_value (mr_board (move 4 b 3)) <> total_value b /\
  total_tileValue (mr_board (move 4 b 3)) <> total_tileValue b.
Proof.
  intros b. split.
  { split; [reflexivity | repeat (apply Forall_cons; [lia|]); apply Forall_nil]. }
  split; [reflexivity|].
  split; vm_compute; discriminate.
Qed.

(** ** canMove *)

Lemma any_from_true (n i : nat) (f : nat -> bool) :
  any_from n i f = true <-> exists j, (i <= j < i + n)%nat /\ f j = true.
Proof.
  revert i. induction n as [|n IH]; intros i; cbn [any_from].
  - split; [discriminate | intros (j & Hj & _); lia].
  - destruct (f i) eqn:E.
    + split; [intros _; exists i; split; [lia | exact E] | reflexivity].
    + rewrite IH. split; intros (j & Hj & Hf).
      * exists j. split; [lia | exact Hf].
      * exists j. split; [|exact Hf].
        destruct (Nat.eq_dec j i) as [->|]; [congruence | lia].
Qed.

(** C6: on every 4x4 board, [canMove] returns true exactly when some cell
    is empty or two horizontally or vertically adjacent cells hold equal
    non-zero codes; so it returns false on a full board with no equal
    adjacent pair. *)
Theorem canMove_iff (b : list Z) :
  board4 b ->
  (canMove 4 b = true <-> has_empty_cell b \/ has_equal_neighbours b) /\
  (~ has_empty_cell b -> ~ has_equal_neighbours b -> canMove 4 b = false).
Proof.
  intros _.
  assert (Hiff : canMove 4 b = true
                 <-> has_empty_cell b \/ has_equal_neighbours b).
  { unfold canMove, has_empty_cell, has_equal_neighbours, cell4, TOTAL, aget.
    change (4 * 4)%nat with 16%nat. change (4 - 1)%nat with 3%nat.
    destruct (any_from 16 0 (fun i => nth i b 0 =? 0)) eqn:E0.
    - split; [intros _ | reflexivity]. left.
      apply any_from_true in E0. destruct E0 as (i & Hi & Hz).
      exists i. split; [lia | now apply Z.eqb_eq].
    - assert (Hnz : forall i, (i < 16)%nat -> nth i b 0 <> 0).
      { intros i Hi Hz.
        assert (Ht : any_from 16 0 (fun i => nth i b 0 =? 0) = true).
        { apply any_from_true. exists i. split; [lia | now apply Z.eqb_eq]. }
        congruence. }
      rewrite any_from_true. split.
      + intros (r & Hr & Hrow). apply any_from_true in Hrow.
        destruct Hrow as (c & Hc & Hcell). right.
        destruct ((c <? 3)%nat && (nth (r * 4 + c) b 0
                                   =? nth (r * 4 + c + 1) b 0)) eqn:Eh.
        * apply andb_true_iff in Eh. destruct Eh as [Hc3 Heq].
          apply Nat.ltb_lt in Hc3. apply Z.eqb_eq in Heq.
          left. exists r, c.
          split; [lia|]. split; [lia|]. split; [apply Hnz; lia|].
          now rewrite Nat.add_assoc.
        * apply andb_true_iff in Hcell. destruct Hcell as [Hr3 Heq].
          apply Nat.ltb_lt in Hr3. apply Z.eqb_eq in Heq.
          right. exists r, c.
          split; [lia|]. split; [lia|]. split; [apply Hnz; lia|].
          exact Heq.
      + intros [(i & Hi & Hz) | [(r & c & Hr & Hc & Hne & Heq)
                                | (r & c & Hr & Hc & Hne & Heq)]].
        * exfalso. now apply (Hnz i).
        * exists r. split; [lia|]. apply any_from_true.
          exists c. split; [lia|].
          rewrite Nat.add_assoc in Heq. apply Z.eqb_eq in Heq. rewrite Heq.
          apply Nat.ltb_lt in Hc. now rewrite Hc.
        * exists r. split; [lia|]. apply any_from_true.
          exists c. split; [lia|].
          apply Z.eqb_eq in Heq. rewrite Heq.
          apply Nat.ltb_lt in Hr. rewrite Hr.
          destruct ((c <? 3)%nat && _); reflexivity. }
  split; [exact Hiff|].
  intros H1 H2. destruct (canMove 4 b) eqn:E; [|reflexivity].
  exfalso. destruct (proj1 Hiff eq_refl); auto.
Qed.

(** C6, applied to a full checkerboard, on which no move is possible. *)
Lemma canMove_iff_witness :
  let b := [1; 2; 1; 2; 2; 1; 2; 1; 1; 2; 1; 2; 2; 1; 2; 1] in
  board4 b /\ canMove 4 b = false /\
  ~ (has_empty_cell b \/ has_equal_neighbours b).
Proof.
  intros b.
  assert (Hb : board4 b).
  { split; [reflexivity | repeat (apply Forall_cons; [lia|]); apply Forall_nil]. }
  split; [exact Hb|]. split; [reflexivity|].
  intros H. apply (proj1 (canMove_iff b Hb)) in H. discriminate H.
Defined.

(** ** Symmetric variants *)

Section Dedup.

Variable A : Type.
Variable A_eq_dec : forall x y : A, {x = y} + {x <> y}.

Lemma dedup_after_length (acc ts : list A) :
  (length (dedup_after A_eq_dec acc ts) <= length ts)%nat.
Proof.
  revert acc. induction ts as [|t ts IH]; intros acc; simpl; [lia|].
  destruct (in_dec A_eq_dec t acc); simpl.
  - specialize (IH acc). lia.
  - specialize (IH (acc ++ [t])). lia.
Qed.

Lemma dedup_after_not_in (acc ts : list A) (x : A) :
  In x (dedup_after A_eq_dec acc ts) -> ~ In x acc /\ In x ts.
Proof.
  revert acc. induction ts as [|t ts IH]; intros acc; simpl; [tauto|].
  destruct (in_dec A_eq_dec t acc) as [Hin|Hnin].
  - intros H. destruct (IH _ H). tauto.
  - intros [<- | H]; [tauto|].
    destruct (IH _ H) as [H1 H2]. split; [|tauto].
    intros Hx. apply H1. apply in_or_app. now left.
Qed.

Lemma dedup_after_NoDup (acc ts : list A) : NoDup (dedup_after A_eq_dec acc ts).
Proof.
  revert acc. induction ts as [|t ts IH]; intros acc; simpl; [constructor|].
  destruct (in_dec A_eq_dec t acc) as [Hin|Hnin]; [apply IH|].
  constructor; [|apply IH].
  intros Hx. apply dedup_after_not_in in Hx. destruct Hx as [Hx _].
  apply Hx. apply in_or_app. right. now left.
Qed.

Lemma dedup_after_same_set (acc acc' ts : list A) :
  (forall x, In x acc <-> In x acc') ->
  dedup_after A_eq_dec acc ts = dedup_after A_eq_dec acc' ts.
Proof.
  revert acc acc'. induction ts as [|t ts IH]; intros acc acc' H;
    [reflexivity|].
  simpl.
  destruct (in_dec A_eq_dec t acc) as [Hin|Hnin];
    destruct (in_dec A_eq_dec t acc') as [Hin'|Hnin'].
  - now apply IH.
  - exfalso. apply Hnin'. now apply H.
  - exfalso. apply Hnin. now apply H.
  - f_equal. apply IH. intros x. rewrite !in_app_iff.
    specialize (H x). tauto.
Qed.

(** The elements of [ts] at the positions of [seq (length pre) ...] that
    do not occur earlier in [pre ++ ts]. *)
Lemma first_positions_dedup (pre ts : list A) :
  flat_map
    (fun i =>
       match nth_error (pre ++ ts) i with
       | Some t =>
           if in_dec A_eq_dec t (firstn i (pre ++ ts)) then [] else [t]
       | None => []
       end)
    (seq (length pre) (length ts))
  = dedup_after A_eq_dec pre ts.
Proof.
  revert pre. induction ts as [|t ts IH]; intros pre; [reflexivity|].
  cbn [length seq flat_map dedup_after].
  rewrite nth_error_app2, Nat.sub_diag by lia. cbn [nth_error].
  rewrite firstn_app, Nat.sub_diag, firstn_all. cbn [firstn].
  rewrite app_nil_r.
  specialize (IH (pre ++ [t])).
  rewrite length_app, <- app_assoc in IH. cbn [length app] in IH.
  rewrite Nat.add_1_r in IH. rewrite IH.
  destruct (in_dec A_eq_dec t pre) as [Hin|Hnin]; cbn [app]; [|reflexivity].
  apply dedup_after_same_set. intros x. rewrite in_app_iff. simpl.
  split; [intros [H | [<- | []]]; assumption | tauto].
Qed.

End Dedup.

Lemma first_occurrences_dedup (ts : list (list cell_index)) :
  first_occurrences ts = dedup_after cell_index_list_eq_dec [] ts.
Proof.
  unfold first_occurrences.
  exact (first_positions_dedup _ cell_index_list_eq_dec [] ts).
Qed.

Lemma append_comma_inj (x x' s s' : String.string) :
  comma_free x = true -> comma_free x' = true ->
  String.append x (String.String ","%char s)
  = String.append x' (String.String ","%char s') ->
  x = x' /\ s = s'.
Proof.
  revert x'. induction x as [|c x IH]; intros [|c' x'] Hx Hx' H;
    cbn [String.append comma_free] in *.
  - inversion H. auto.
  - inversion H; subst. rewrite Ascii.eqb_refl in Hx'. discriminate.
  - inversion H; subst. rewrite Ascii.eqb_refl in Hx. discriminate.
  - inversion H; subst.
    apply andb_true_iff in Hx, Hx'.
    destruct (IH x' (proj2 Hx) (proj2 Hx') H2) as [-> ->]. auto.
Qed.

Lemma cell_index_eqb_eq (x y : cell_index) :
  cell_index_eqb x y = true -> x = y.
Proof.
  destruct x, y; simpl; try discriminate; auto.
  intros H. apply Z.eqb_eq in H. now subst.
Qed.

Lemma render_map_values :
  forall x y, In x map_values -> In y map_values ->
    comma_free (render x) = true /\ (render x = render y -> x = y).
Proof.
  assert (H : forallb (fun x =>
                comma_free (render x)
                && forallb (fun y =>
                     implb (String.eqb (render x) (render y))
                           (cell_index_eqb x y)) map_values)
              map_values = true) by (vm_compute; reflexivity).
  intros x y Hx Hy. rewrite forallb_forall in H.
  specialize (H x Hx). apply andb_true_iff in H. destruct H as [H1 H2].
  split; [exact H1|]. intros E.
  rewrite forallb_forall in H2. specialize (H2 y Hy).
  apply String.eqb_eq in E. rewrite E in H2. now apply cell_index_eqb_eq.
Qed.

Lemma map_get_in_values (symMap : list Z) (idx : cell_index) :
  In symMap Symmetry4.SYMMETRY_MAPS -> In (map_get symMap idx) map_values.
Proof.
  intros Hs. unfold map_get.
  destruct idx as [i|]; [|now left].
  destruct (0 <=? i); [|now left].
  destruct (nth_error symMap (Z.to_nat i)) as [v|] eqn:E; [|now left].
  apply nth_error_In in E.
  assert (Hall : forallb (forallb (fun v => (0 <=? v) && (v <? 16)))
                         Symmetry4.SYMMETRY_MAPS = true)
    by (vm_compute; reflexivity).
  rewrite forallb_forall in Hall. specialize (Hall _ Hs).
  rewrite forallb_forall in Hall. specialize (Hall _ E).
  apply andb_true_iff in Hall. destruct Hall as [H0 H1].
  apply Z.leb_le in H0. apply Z.ltb_lt in H1.
  right. apply in_map_iff. exists (Z.to_nat v).
  split; [f_equal; lia | apply in_seq; lia].
Qed.

Lemma applySymmetry_in_values (pattern : list cell_index) (symMap : list Z) :
  In symMap Symmetry4.SYMMETRY_MAPS ->
  in_map_values (applySymmetry pattern symMap).
Proof.
  intros Hs. unfold applySymmetry, in_map_values.
  apply Forall_forall. intros x Hx. apply in_map_iff in Hx.
  destruct Hx as (idx & <- & _). now apply map_get_in_values.
Qed.

Lemma applySymmetry_length (pattern : list cell_index) (symMap : list Z) :
  length (applySymmetry pattern symMap) = length pattern.
Proof. apply length_map. Qed.

(** The key of a transformed tuple determines the tuple, among tuples of
    one length. *)
Lemma key_of_inj (t t' : list cell_index) :
  in_map_values t -> in_map_values t' -> length t = length t' ->
  key_of t = key_of t' -> t = t'.
Proof.
  unfold key_of. revert t'.
  induction t as [|x t IH]; intros [|x' t'] Ht Ht' Hl Hk;
    try discriminate; [reflexivity|].
  apply Forall_cons_iff in Ht, Ht'.
  destruct Ht as [Hx Ht], Ht' as [Hx' Ht'].
  destruct (render_map_values x x' Hx Hx') as [Hc Hinj].
  destruct (render_map_values x' x Hx' Hx) as [Hc' _].
  destruct t as [|y t], t' as [|y' t']; try discriminate.
  - cbn [map join] in Hk. now rewrite (Hinj Hk).
  - cbn [map join] in Hk. cbn [map] in IH.
    destruct (append_comma_inj _ _ _ _ Hc Hc' Hk) as [E1 E2].
    rewrite (Hinj E1). f_equal.
    apply IH; auto.
Qed.

(** The loop of [allSymmetries] on the transformed tuples: [seen] holds
    the keys of [variants]. *)
Lemma allSymmetries_fold (pattern : list cell_index) (maps : list (list Z))
    (seen : list String.string) (vars : list (list cell_index)) :
  (forall m, In m maps -> In m Symmetry4.SYMMETRY_MAPS) ->
  Forall (fun v => in_map_values v /\ length v = length pattern) vars ->
  (forall k, In k seen <-> exists v, In v vars /\ key_of v = k) ->
  snd (fold_left (allSymmetries_step pattern) maps (seen, vars))
  = vars ++ dedup_after cell_index_list_eq_dec vars
              (map (applySymmetry pattern) maps).
Proof.
  revert seen vars.
  induction maps as [|m maps IH]; intros seen vars Hmaps Hvars Hseen.
  - simpl. now rewrite app_nil_r.
  - cbn [fold_left map dedup_after]. unfold allSymmetries_step at 2.
    set (t := applySymmetry pattern m).
    assert (Ht : in_map_values t)
      by (apply applySymmetry_in_values, Hmaps; now left).
    assert (Hlt : length t = length pattern)
      by apply applySymmetry_length.
    assert (Hhas : set_has seen (key_of t) = true <-> In t vars).
    { unfold set_has. rewrite existsb_exists. split.
      - intros (k & Hk & Ek). apply String.eqb_eq in Ek. subst k.
        apply Hseen in Hk. destruct Hk as (v & Hv & Ekey).
        rewrite Forall_forall in Hvars. destruct (Hvars v Hv) as [Hv1 Hv2].
        rewrite <- (key_of_inj v t Hv1 Ht) ; [exact Hv | congruence | exact Ekey].
      - intros Hin. exists (key_of t). split; [|apply String.eqb_refl].
        apply Hseen. now exists t. }
    destruct (in_dec cell_index_list_eq_dec t vars) as [Hin|Hnin].
    + replace (set_has seen (key_of t)) with true
        by (symmetry; now apply Hhas).
      cbn [negb]. apply IH; auto.
      intros m' Hm'. apply Hmaps. now right.
    + replace (set_has seen (key_of t)) with false.
      2:{ symmetry. apply not_true_is_false. intros H. now apply Hnin, Hhas. }
      cbn [negb]. rewrite IH.
      * now rewrite <- app_assoc.
      * intros m' Hm'. apply Hmaps. now right.
      * apply Forall_app. split; [exact Hvars|].
        constructor; [split; assumption | constructor].
      * intros k. cbn [In]. rewrite Hseen. split.
        -- intros [<- | (v & Hv & Ek)].
           ++ exists t. split; [apply in_or_app; right; now left | reflexivity].
           ++ exists v. split; [apply in_or_app; now left | exact Ek].
        -- intros (v & Hv & Ek). apply in_app_or in Hv.
           destruct Hv as [Hv | [<- | []]]; [right; now exists v | now left].
Qed.

(** C7: for every base pattern, the variants are the first occurrences,
    in transform order, of the eight transformed tuples: between 1 and 8
    index lists, no two of them equal. *)
Theorem allSymmetries_first_occurrences (pattern : list cell_index) :
  let ts := map (applySymmetry pattern) Symmetry4.SYMMETRY_MAPS in
  length ts = 8%nat /\
  allSymmetries pattern = first_occurrences ts /\
  NoDup (allSymmetries pattern) /\
  (1 <= length (allSymmetries pattern) <= 8)%nat.
Proof.
  intros ts.
  assert (Hfo : allSymmetries pattern = first_occurrences ts).
  { unfold allSymmetries, allSymmetries_over.
    rewrite (allSymmetries_fold pattern Symmetry4.SYMMETRY_MAPS [] []).
    - now rewrite first_occurrences_dedup.
    - auto.
    - constructor.
    - intros k. split; [intros [] | intros (v & [] & _)]. }
  split; [reflexivity|]. split; [exact Hfo|].
  rewrite Hfo, first_occurrences_dedup.
  split; [apply dedup_after_NoDup|].
  split.
  - unfold ts. cbn [Symmetry4.SYMMETRY_MAPS map dedup_after].
    destruct (in_dec _ _ []) as [[]|_]. cbn [length]. lia.
  - pose proof (dedup_after_length _ cell_index_list_eq_dec [] ts) as H.
    exact H.
Qed.

(** ** Table indices *)

Lemma board_get_code (board : list Z) (x : cell_index) :
  board4 board -> codes_at_most 15 board -> board_index x = true ->
  exists c, board_get board x = Some c /\ 0 <= c <= 15.
Proof.
  intros [Hl Hb] Hc Hx. destruct x as [j|]; [|discriminate].
  cbn [board_index] in Hx. apply andb_true_iff in Hx.
  destruct Hx as [H0 H1]. apply Z.ltb_lt in H1.
  cbn [board_get]. rewrite H0. apply Z.leb_le in H0.
  destruct (nth_error board (Z.to_nat j)) as [c|] eqn:E.
  - exists c. split; [reflexivity|]. apply nth_error_In in E.
    unfold byte_cells, codes_at_most in *. rewrite Forall_forall in Hb, Hc.
    specialize (Hb c E). specialize (Hc c E). lia.
  - apply nth_error_None in E. lia.
Qed.

(** Horner's rule keeps the index below the power of 16 of the number of
    cells read. *)
Lemma index_loop_bound (board : list Z) (pattern : list cell_index)
    (acc k : Z) :
  board4 board -> codes_at_most 15 board ->
  forallb board_index pattern = true ->
  0 <= k -> 0 <= acc < 16 ^ k ->
  exists idx,
    index_loop board pattern (Some acc) = Some idx /\
    0 <= idx < 16 ^ (k + Z.of_nat (length pattern)).
Proof.
  intros Hb Hc. revert acc k.
  induction pattern as [|x pattern IH]; intros acc k Hp Hk Hacc.
  - exists acc. cbn [index_loop length]. rewrite Z.add_0_r. auto.
  - cbn [forallb] in Hp. apply andb_true_iff in Hp. destruct Hp as [Hx Hp].
    destruct (board_get_code board x Hb Hc Hx) as (c & Ec & Hcode).
    cbn [index_loop]. rewrite Ec.
    destruct (IH (acc * Patterns4.NUM_VALUES + c) (k + 1) Hp ltac:(lia))
      as (idx & Eidx & Hidx).
    + unfold Patterns4.NUM_VALUES. rewrite Z.pow_add_r by lia.
      change (16 ^ 1) with 16. lia.
    + exists idx. split; [exact Eidx|].
      replace (k + Z.of_nat (length (x :: pattern)))
        with (k + 1 + Z.of_nat (length pattern))
        by (cbn [length]; lia).
      exact Hidx.
Qed.

Lemma catalog_new_ok :
  forallb catalog_entry_ok (catalog NTupleNetwork_new) = true.
Proof. vm_compute. reflexivity. Qed.

(** C10: for every 4x4 board whose codes lie in 0..15, every network
    with the constructor's catalog, and every variant of every pattern,
    [_index] is a number in [0, 16^tupleLen), the range of the pattern's
    table. *)
Theorem index_within_table (net : network) (board : list Z)
    (p : pattern_entry) (variant : list cell_index) :
  catalog net = catalog NTupleNetwork_new ->
  board4 board -> codes_at_most 15 board ->
  In p net -> In variant (variants p) ->
  exists idx,
    _index board variant = Some idx /\
    0 <= idx < 16 ^ tupleLen p /\
    arr_length (lut p) = 16 ^ tupleLen p /\
    in_range (lut p) idx = true.
Proof.
  intros Hcat Hb Hc Hp Hv.
  pose proof catalog_new_ok as Hok. rewrite <- Hcat in Hok.
  rewrite forallb_forall in Hok.
  specialize (Hok (tupleLen p, variants p, arr_length (lut p))).
  assert (Hin : In (tupleLen p, variants p, arr_length (lut p)) (catalog net)).
  { unfold catalog. apply in_map_iff. now exists p. }
  specialize (Hok Hin). cbn [catalog_entry_ok] in Hok.
  apply andb_true_iff in Hok. destruct Hok as [Hok Hlen0].
  apply andb_true_iff in Hok. destruct Hok as [Hvs Hsize].
  rewrite forallb_forall in Hvs. specialize (Hvs variant Hv).
  apply andb_true_iff in Hvs. destruct Hvs as [Hlen Hidx].
  apply Z.eqb_eq in Hlen, Hsize. apply Z.leb_le in Hlen0.
  destruct (index_loop_bound board variant 0 0 Hb Hc Hidx ltac:(lia))
    as (idx & E & Hrange); [change (16 ^ 0) with 1; lia|].
  rewrite Z.add_0_l, Hlen in Hrange.
  exists idx. split; [exact E|]. split; [exact Hrange|].
  split; [exact Hsize|].
  unfold in_range. rewrite Hsize. unfold Patterns4.lutSize,
    Patterns4.NUM_VALUES.
  apply andb_true_iff. split; [apply Z.leb_le | apply Z.ltb_lt]; lia.
Qed.

(** C10, applied to the fresh network and a board of the game. *)
Lemma index_within_table_witness :
  let board := [1; 2; 0; 0; 3; 0; 0; 0; 0; 0; 15; 0; 2; 1; 2; 0] in
  exists p variant idx,
    In p NTupleNetwork_new /\ In variant (variants p) /\
    _index board variant = Some idx /\
    0 <= idx < 16 ^ tupleLen p /\
    in_range (lut p) idx = true.
Proof.
  intros board.
  assert (Hb : board4 board).
  { split; [reflexivity | repeat (apply Forall_cons; [lia|]); apply Forall_nil]. }
  assert (Hc : codes_at_most 15 board).
  { repeat (apply Forall_cons; [lia|]); apply Forall_nil. }
  assert (Hp : In (nth 3 NTupleNetwork_new
                       {| tupleLen := 0; variants := [];
                          lut := new_Float32Array 0 |})
                  NTupleNetwork_new).
  { right. right. right. left. reflexivity. }
  set (p := nth 3 NTupleNetwork_new
                {| tupleLen := 0; variants := []; lut := new_Float32Array 0 |})
    in *.
  assert (Hv : In [Some 0; Some 1; Some 2; Some 3] (variants p)).
  { left. reflexivity. }
  destruct (index_within_table NTupleNetwork_new board p
              [Some 0; Some 1; Some 2; Some 3] eq_refl Hb Hc Hp Hv)
    as (idx & E & Hr & _ & Hin).
  exists p, [Some 0; Some 1; Some 2; Some 3], idx. auto.
Defined.

(** ** Order of numbers *)

Lemma Pos_compare_cont_Eq (p q : positive) :
  Pos.compare_cont Eq p q = Pos.compare p q.
Proof. reflexivity. Qed.

Ltac order_cases :=
  repeat match goal with
  | H : context [Pos.compare_cont Eq ?p ?q] |- _ =>
      rewrite (Pos_compare_cont_Eq p q) in H
  | |- context [Pos.compare_cont Eq ?p ?q] =>
      rewrite (Pos_compare_cont_Eq p q)
  end;
  repeat match goal with
  | H : context [Z.compare ?a ?b] |- _ =>
      destruct (Z.compare_spec a b); cbn [CompOpp] in *
  | |- context [Z.compare ?a ?b] =>
      destruct (Z.compare_spec a b); cbn [CompOpp] in *
  | H : context [Pos.compare ?a ?b] |- _ =>
      destruct (Pos.compare_spec a b); cbn [CompOpp] in *
  | |- context [Pos.compare ?a ?b] =>
      destruct (Pos.compare_spec a b); cbn [CompOpp] in *
  end;
  subst; try discriminate; try reflexivity; try lia.

(** [SFcompare] is a strict order with its non-strict companion, on all
    representatives. *)
Lemma SFcompare_lt_le_trans (x y z : spec_float) :
  SFcompare x y = Some Lt ->
  (SFcompare y z = Some Lt \/ SFcompare y z = Some Eq) ->
  SFcompare x z = Some Lt.
Proof.
  intros Hxy [Hyz | Hyz];
    destruct x as [sx | sx | | sx mx ex], y as [sy | sy | | sy my ey],
      z as [sz | sz | | sz mz ez];
    cbn [SFcompare] in *; try discriminate; try reflexivity;
    repeat match goal with s : bool |- _ => destruct s end;
    try discriminate; try reflexivity;
    injection Hxy as Hxy; injection Hyz as Hyz; f_equal;
    order_cases.
Qed.

Lemma SFcompare_irrefl (x : spec_float) : SFcompare x x <> Some Lt.
Proof.
  destruct x as [s | s | | s m e]; cbn [SFcompare]; try discriminate.
  - destruct s; discriminate.
  - destruct s; rewrite Z.compare_refl, Pos_compare_cont_Eq,
      Pos.compare_refl; discriminate.
Qed.

Lemma num_gt_lt (x y : number) :
  num_gt x y = true <-> SFcompare (canon64 y) (canon64 x) = Some Lt.
Proof.
  unfold num_gt, SFltb.
  destruct (SFcompare (canon64 y) (canon64 x)) as [[| |]|];
    split; congruence.
Qed.

Lemma num_ge_le (x y : number) :
  num_ge x y = true <->
  SFcompare (canon64 y) (canon64 x) = Some Lt \/
  SFcompare (canon64 y) (canon64 x) = Some Eq.
Proof.
  unfold num_ge, SFleb.
  destruct (SFcompare (canon64 y) (canon64 x)) as [[| |]|];
    split; try tauto; try congruence; intros [H|H]; congruence.
Qed.

Lemma num_gt_irrefl (x : number) : num_gt x x = false.
Proof.
  apply not_true_is_false. rewrite num_gt_lt. apply SFcompare_irrefl.
Qed.

(** [x > y] and [z >= x] give [z > y]. *)
Lemma num_gt_ge_trans (x y z : number) :
  num_gt x y = true -> num_ge z x = true -> num_gt z y = true.
Proof.
  rewrite !num_gt_lt, num_ge_le. apply SFcompare_lt_le_trans.
Qed.

Lemma num_gt_trans (x y z : number) :
  num_gt x y = true -> num_gt z x = true -> num_gt z y = true.
Proof.
  rewrite !num_gt_lt. intros H1 H2.
  apply (SFcompare_lt_le_trans _ _ _ H1). now left.
Qed.

(** ** Move selection *)

Section SelectionFacts.

Variable SIZE : nat.
Variable ev : list Z -> number.
Variable board : list Z.

Lemma selected_start : selected SIZE ev board 0 no_choice.
Proof. left. repeat split. intros e He. lia. Qed.

Lemma selected_step (k : Z) (st : choice) :
  0 <= k -> selected SIZE ev board k st ->
  selected SIZE ev board (k + 1) (select_step SIZE ev board st k).
Proof.
  intros Hk Hst. unfold selected in *. cbv zeta in *.
  unfold select_step.
  destruct (moved (move SIZE (cloneBoard board) k)) eqn:Em; cbn [negb].
  - change (num_add (num_of_Z (reward (move SIZE (cloneBoard board) k)))
                     (ev (mr_board (move SIZE (cloneBoard board) k))))
      with (action_value SIZE ev board k).
    destruct (num_gt (action_value SIZE ev board k) (bestValue st)) eqn:Eg.
    + (* the new direction becomes the best *)
      right. cbn [bestDir bestValue bestAfterstate bestReward].
      split; [lia|]. split; [exact Em|]. split; [reflexivity|].
      split; [reflexivity|]. split; [reflexivity|].
      assert (Hold : forall e, 0 <= e < k ->
                moved (move SIZE (cloneBoard board) e) = true ->
                num_gt (action_value SIZE ev board e) (bestValue st)
                = false).
      { destruct Hst as [(_ & Hv & H) | (_ & _ & _ & _ & _ & H & _)].
        - rewrite Hv. exact H.
        - exact H. }
      split.
      * intros e He Hm. destruct (Z.eq_dec e k) as [->|Hne];
          [apply num_gt_irrefl|].
        apply not_true_is_false. intros Hgt.
        pose proof (num_gt_trans _ _ _ Eg Hgt) as Hc.
        rewrite Hold in Hc by (auto; lia). discriminate.
      * intros e He Hm. apply not_true_is_false. intros Hge.
        pose proof (num_gt_ge_trans _ _ _ Eg Hge) as Hc.
        rewrite Hold in Hc by (auto; lia). discriminate.
    + (* the best so far stays *)
      destruct Hst as [(Hd & Hv & H) | (Hd & Hm & Hv & Ha & Hr & H & H')].
      * left. split; [exact Hd|]. split; [exact Hv|].
        intros e He Hme. destruct (Z.eq_dec e k) as [->|Hne].
        -- now rewrite <- Hv.
        -- apply H; [lia | exact Hme].
      * right. split; [lia|]. split; [exact Hm|]. split; [exact Hv|].
        split; [exact Ha|]. split; [exact Hr|]. split; [|exact H'].
        intros e He Hme. destruct (Z.eq_dec e k) as [->|Hne].
        -- exact Eg.
        -- apply H; [lia | exact Hme].
  - (* the direction does not move the board *)
    destruct Hst as [(Hd & Hv & H) | (Hd & Hm & Hv & Ha & Hr & H & H')].
    + left. split; [exact Hd|]. split; [exact Hv|].
      intros e He Hme. destruct (Z.eq_dec e k) as [->|Hne];
        [congruence | apply H; [lia | exact Hme]].
    + right. split; [lia|]. split; [exact Hm|]. split; [exact Hv|].
      split; [exact Ha|]. split; [exact Hr|]. split; [|exact H'].
      intros e He Hme. destruct (Z.eq_dec e k) as [->|Hne];
        [congruence | apply H; [lia | exact Hme]].
Qed.

Lemma selected_end : selected SIZE ev board 4 (select_best SIZE ev board).
Proof.
  unfold select_best. cbn [fold_left].
  apply (selected_step 3); [lia|]. apply (selected_step 2); [lia|].
  apply (selected_step 1); [lia|]. apply (selected_step 0); [lia|].
  apply selected_start.
Qed.

End SelectionFacts.

Lemma legal_range (SIZE : nat) (board : list Z) (d : Z) :
  legal SIZE board d <->
  0 <= d < 4 /\ moved (move SIZE (cloneBoard board) d) = true.
Proof.
  unfold legal. cbn [In]. split; intros [H1 H2]; (split; [|exact H2]); lia.
Qed.

(** C5 (amended): in the move selection of the learning loop, for every
    board with a legal action whose value [reward + evaluate(afterstate)]
    is greater than [-Infinity] (so, not NaN), the chosen action is legal,
    no legal action has a greater value, and no legal action earlier in
    the order up, right, down, left has a value greater than or equal to
    the chosen one's. *)
Theorem select_best_first_maximum (SIZE : nat) (ev : list Z -> number)
    (board : list Z) :
  (exists d, legal SIZE board d /\
             num_gt (action_value SIZE ev board d) neg_infinity = true) ->
  let c := select_best SIZE ev board in
  legal SIZE board (bestDir c) /\
  bestValue c = action_value SIZE ev board (bestDir c) /\
  bestAfterstate c
  = Some (mr_board (move SIZE (cloneBoard board) (bestDir c))) /\
  bestReward c = reward (move SIZE (cloneBoard board) (bestDir c)) /\
  (forall d, legal SIZE board d ->
             num_gt (action_value SIZE ev board d) (bestValue c) = false) /\
  (forall d, legal SIZE board d -> d < bestDir c ->
             num_ge (action_value SIZE ev board d) (bestValue c) = false).
Proof.
  intros (d & Hd & Hgt) c.
  apply legal_range in Hd. destruct Hd as [Hd Hm].
  destruct (selected_end SIZE ev board)
    as [(_ & _ & H) | (Hc & Hmc & Hv & Ha & Hr & H & H')].
  - rewrite (H d Hd Hm) in Hgt. discriminate.
  - fold c in Hc, Hmc, Hv, Ha, Hr, H, H'.
    split; [apply legal_range; split; [lia | exact Hmc]|].
    split; [exact Hv|]. split; [exact Ha|]. split; [exact Hr|].
    split.
    + intros e He. apply legal_range in He. destruct He as [He Hme].
      now apply H.
    + intros e He Hlt. apply legal_range in He. destruct He as [He Hme].
      apply H'; [lia | exact Hme].
Qed.

(** C5, applied: two actions tie for the best value on this board under
    the fresh network, and the first of them is chosen. *)
Lemma select_best_first_maximum_witness :
  let board := [1; 0; 0; 0; 0; 0; 0; 0; 0; 0; 0; 0; 0; 0; 0; 0] in
  let c := select_best 4 (evaluate NTupleNetwork_new) board in
  legal 4 board 1 /\
  num_gt (action_value 4 (evaluate NTupleNetwork_new) board 1) neg_infinity
  = true /\
  bestDir c = 1 /\
  legal 4 board (bestDir c) /\
  (forall d, legal 4 board d ->
     num_gt (action_value 4 (evaluate NTupleNetwork_new) board d)
            (bestValue c) = false).
Proof.
  intros board c.
  assert (Hl : legal 4 board 1).
  { split; [right; left; reflexivity | reflexivity]. }
  assert (Hg : num_gt (action_value 4 (evaluate NTupleNetwork_new) board 1)
                      neg_infinity = true) by reflexivity.
  split; [exact Hl|]. split; [exact Hg|]. split; [reflexivity|].
  destruct (select_best_first_maximum 4 (evaluate NTupleNetwork_new) board
              (ex_intro _ 1 (conj Hl Hg))) as (H1 & _ & _ & _ & H2 & _).
  split; [exact H1 | exact H2].
Defined.

(** C5 as stated fails when no legal action has a value above
    [-Infinity]: every comparison [value > bestValue] is false and no
    action is chosen.  First the 5x5 engine with a network that evaluates
    to NaN; then the 4x4 engine with the fresh N-tuple network on a board
    carrying tile code 16 in a corner, where every table index is out of
    range and [evaluate] is NaN. *)
Lemma select_best_counterexample :
  (let board := [1; 1; 0; 0; 0; 0; 0; 0; 0; 0; 0; 0; 0; 0; 0; 0; 0; 0; 0; 0;
                 0; 0; 0; 0; 0] in
   let nan_network := fun _ : list Z => S754_nan in
   legal 5 board 3 /\
   bestDir (select_best 5 nan_network board) = -1 /\
   ~ legal 5 board (bestDir (select_best 5 nan_network board))) /\
  (let board := [16; 0; 0; 0; 0; 0; 0; 0; 0; 0; 0; 0; 0; 0; 0; 1] in
   legal 4 board 0 /\
   action_value 4 (evaluate NTupleNetwork_new) board 0 = S754_nan /\
   bestDir (select_best 4 (evaluate NTupleNetwork_new) board) = -1 /\
   ~ legal 4 board
       (bestDir (select_best 4 (evaluate NTupleNetwork_new) board))).
Proof.
  split.
  - intros board nan_network.
    split; [split; [do 3 right; left; reflexivity | reflexivity]|].
    split; [reflexivity|].
    intros [Hin _]. vm_compute in Hin.
    destruct Hin as [H | [H | [H | [H | []]]]]; discriminate.
  - intros board.
    split; [split; [left; reflexivity | reflexivity]|].
    split; [reflexivity|]. split; [reflexivity|].
    intros [Hin _]. vm_compute in Hin.
    destruct Hin as [H | [H | [H | [H | []]]]]; discriminate.
Qed.

(** At depth 0 or below the chance node is the static evaluation. *)
Lemma chanceNode_leaf (SIZE : nat) (ev : list Z -> number) (fuel : nat)
    (board : list Z) (depth : Z) (g : rng) :
  depth <= 0 -> chanceNode SIZE ev fuel board depth g = (ev board, g).
Proof.
  intros H. apply Z.leb_le in H.
  destruct fuel; cbn [chanceNode]; now rewrite H.
Qed.

(** An expectimax player of depth at most 1 takes the steps of the greedy
    player and leaves the random stream untouched. *)
Lemma expectimax_shallow_step (SIZE : nat) (ev : list Z -> number)
    (depth : Z) (board : list Z) (bestDir : Z) (bestValue : number)
    (g : rng) (dir : Z) :
  depth <= 1 ->
  expectimax_step SIZE ev depth board (bestDir, bestValue, g) dir
  = (greedy_step SIZE ev board (bestDir, bestValue) dir, g).
Proof.
  intros H. unfold expectimax_step, greedy_step.
  destruct (moved (move SIZE (cloneBoard board) dir)); cbn [negb];
    [|reflexivity].
  rewrite chanceNode_leaf by lia.
  destruct (num_gt _ bestValue); reflexivity.
Qed.

Lemma expectimax_shallow (SIZE : nat) (ev : list Z -> number)
    (depth : Z) (board : list Z) (g : rng) :
  depth <= 1 ->
  Expectimax_selectMove SIZE ev depth board g
  = (Greedy_selectMove SIZE ev board, g).
Proof.
  intros H. unfold Expectimax_selectMove, Greedy_selectMove.
  cbn [fold_left].
  destruct (greedy_step SIZE ev board (-1, neg_infinity) 0)
    as [d0 v0] eqn:E0.
  rewrite (expectimax_shallow_step _ _ _ _ _ _ _ _ H), E0.
  destruct (greedy_step SIZE ev board (d0, v0) 1) as [d1 v1] eqn:E1.
  rewrite (expectimax_shallow_step _ _ _ _ _ _ _ _ H), E1.
  destruct (greedy_step SIZE ev board (d1, v1) 2) as [d2 v2] eqn:E2.
  rewrite (expectimax_shallow_step _ _ _ _ _ _ _ _ H), E2.
  destruct (greedy_step SIZE ev board (d2, v2) 3) as [d3 v3] eqn:E3.
  rewrite (expectimax_shallow_step _ _ _ _ _ _ _ _ H), E3.
  reflexivity.
Qed.

Lemma greedy_no_move (SIZE : nat) (ev : list Z -> number) (board : list Z) :
  (forall d, ~ legal SIZE board d) -> Greedy_selectMove SIZE ev board = -1.
Proof.
  intros H. unfold Greedy_selectMove. cbn [fold_left].
  assert (Hs : forall d st, In d [0; 1; 2; 3] ->
                            greedy_step SIZE ev board st d = st).
  { intros d [bd bv] Hd. unfold greedy_step.
    destruct (moved (move SIZE (cloneBoard board) d)) eqn:E; [|reflexivity].
    exfalso. apply (H d). now split. }
  rewrite !Hs; cbn [In]; auto 6.
Qed.

(** C8: for every board, every network and every state of the random
    source, an expectimax player of depth 0 selects the action the greedy
    player selects, the no-move sentinel -1 included. *)
Theorem expectimax_depth0_is_greedy (SIZE : nat) (ev : list Z -> number)
    (board : list Z) (g : rng) :
  fst (Expectimax_selectMove SIZE ev 0 board g)
  = Greedy_selectMove SIZE ev board /\
  ((forall d, ~ legal SIZE board d) ->
   fst (Expectimax_selectMove SIZE ev 0 board g) = -1 /\
   Greedy_selectMove SIZE ev board = -1).
Proof.
  rewrite expectimax_shallow by lia. cbn [fst].
  split; [reflexivity|].
  intros H. split; now apply greedy_no_move.
Qed.

(** C8, applied to a board with no legal action. *)
Lemma expectimax_depth0_is_greedy_witness :
  let board := [1; 2; 1; 2; 2; 1; 2; 1; 1; 2; 1; 2; 2; 1; 2; 1] in
  (forall d, ~ legal 4 board d) /\
  fst (Expectimax_selectMove 4 (evaluate NTupleNetwork_new) 0 board [])
  = -1 /\
  Greedy_selectMove 4 (evaluate NTupleNetwork_new) board = -1.
Proof.
  intros board.
  assert (H : forall d, ~ legal 4 board d).
  { intros d [Hin Hm]. cbn [In] in Hin.
    destruct Hin as [<- | [<- | [<- | [<- | []]]]];
      vm_compute in Hm; discriminate Hm. }
  split; [exact H|].
  exact (proj2 (expectimax_depth0_is_greedy 4 (evaluate NTupleNetwork_new)
                  board []) H).
Defined.

(** ** Loading a mismatched file *)









(** ** The two mismatched files *)







(** ** Binary32 elements *)

Lemma digits2_pos_bounds (m : positive) :
  2 ^ (Z.pos (digits2_pos m) - 1) <= Z.pos m < 2 ^ Z.pos (digits2_pos m).
Proof.
  induction m as [m IH | m IH |]; cbn [digits2_pos].
  - rewrite Pos2Z.inj_succ.
    replace (Z.succ (Z.pos (digits2_pos m)) - 1)
      with (Z.succ (Z.pos (digits2_pos m) - 1)) by lia.
    rewrite !Z.pow_succ_r by lia. lia.
  - rewrite Pos2Z.inj_succ.
    replace (Z.succ (Z.pos (digits2_pos m)) - 1)
      with (Z.succ (Z.pos (digits2_pos m) - 1)) by lia.
    rewrite !Z.pow_succ_r by lia. lia.
  - simpl. lia.
Qed.

Lemma digits2_pos_unique (m : positive) (k : Z) :
  2 ^ (k - 1) <= Z.pos m < 2 ^ k -> Z.pos (digits2_pos m) = k.
Proof.
  intros H. pose proof (digits2_pos_bounds m) as B.
  set (d := Z.pos (digits2_pos m)) in *.
  assert (Hd : 0 < d) by (unfold d; lia).
  destruct (Z_lt_le_dec k 1) as [Hk|Hk].
  { assert (2 ^ k <= 1).
    { destruct (Z_lt_le_dec k 0) as [Hn|Hn].
      - rewrite Z.pow_neg_r by lia. lia.
      - replace k with 0 by lia. simpl. lia. }
    lia. }
  destruct (Z.lt_trichotomy d k) as [Hlt | [Heq | Hgt]]; [|exact Heq|].
  - assert (2 ^ d <= 2 ^ (k - 1)) by (apply Z.pow_le_mono_r; lia). lia.
  - assert (2 ^ k <= 2 ^ (d - 1)) by (apply Z.pow_le_mono_r; lia). lia.
Qed.

(** A canonical value rounds to itself. *)
Lemma binary_round_canonical (prec emax : Z) (s : bool) (m : positive)
    (e : Z) :
  canonical_mantissa prec emax m e = true -> e <= emax - prec ->
  binary_round prec emax s m e = S754_finite s m e.
Proof.
  unfold canonical_mantissa. intros Hc He. apply Z.eqb_eq in Hc.
  unfold binary_round, shl_align. rewrite Hc, Z.sub_diag.
  unfold binary_round_aux, shr_fexp. cbn [Zdigits2 shr_record_of_loc].
  rewrite Hc, Z.sub_diag. cbn [shr shr_m loc_of_shr_record
    round_nearest_even Zdigits2 shr_record_of_loc].
  rewrite Hc, Z.sub_diag. cbn [shr shr_m].
  apply Z.leb_le in He. now rewrite He.
Qed.

(** The fields of a 32-bit word. *)
Lemma f32_fields (w : Z) :
  0 <= w < 2 ^ 32 ->
  w = sign_bit (f32_sign w) + f32_expo w * 2 ^ 23 + f32_frac w /\
  0 <= f32_expo w < 256 /\ 0 <= f32_frac w < 2 ^ 23.
Proof.
  intros Hw. unfold f32_sign, f32_expo, f32_frac, sign_bit.
  pose proof (Z.div_mod w (2 ^ 23) ltac:(lia)) as H1.
  pose proof (Z.mod_pos_bound w (2 ^ 23) ltac:(lia)) as H2.
  pose proof (Z.div_mod (w / 2 ^ 23) 256 ltac:(lia)) as H3.
  pose proof (Z.mod_pos_bound (w / 2 ^ 23) 256 ltac:(lia)) as H4.
  assert (H5 : 0 <= w / 2 ^ 23 < 512).
  { split; [apply Z.div_pos; lia|].
    apply Z.div_lt_upper_bound; lia. }
  split; [|split; assumption].
  destruct (Z.leb_spec (2 ^ 31) w) as [Hs|Hs].
  - assert (256 <= w / 2 ^ 23) by (apply Z.div_le_lower_bound; lia).
    lia.
  - assert (w / 2 ^ 23 < 256) by (apply Z.div_lt_upper_bound; lia).
    lia.
Qed.

Lemma f32_store_range (x : number) : 0 <= f32_store x < 2 ^ 32.
Proof.
  unfold f32_store, f32_encode.
  destruct (f32_round x) as [s | s | | s m e]; unfold sign_bit.
  - destruct s; lia.
  - destruct s; lia.
  - lia.
  - pose proof (Z.mod_pos_bound (e + 150) 256 ltac:(lia)).
    pose proof (Z.mod_pos_bound (Z.pos m) (2 ^ 23) ltac:(lia)).
    destruct (Z.ltb_spec (Z.pos m) (2 ^ 23)); destruct s; lia.
Qed.

(** A finite element is stored back as the word it was read from. *)
Lemma f32_store_decode (w : Z) :
  0 <= w < 2 ^ 32 -> f32_expo w <> 255 -> f32_store (f32_decode w) = w.
Proof.
  intros Hw He. destruct (f32_fields w Hw) as (Hf & Hexp & Hfrac).
  unfold f32_store, f32_decode.
  set (s := f32_sign w) in *. set (e := f32_expo w) in *.
  set (m := f32_frac w) in *.
  destruct (Z.eqb_spec e 0) as [E0|E0].
  - destruct (Z.eqb_spec m 0) as [M0|M0].
    + cbn [f32_round f32_encode]. lia.
    + cbn [f32_round].
      assert (Hm : Z.pos (Z.to_pos m) = m) by (apply Z2Pos.id; lia).
      rewrite binary_round_canonical.
      * cbn [f32_encode]. rewrite Hm.
        destruct (Z.ltb_spec m (2 ^ 23)); lia.
      * unfold canonical_mantissa, fexp, emin. apply Z.eqb_eq.
        pose proof (digits2_pos_bounds (Z.to_pos m)) as B.
        rewrite Hm in B.
        assert (Z.pos (digits2_pos (Z.to_pos m)) <= 23).
        { destruct (Z_le_gt_dec (Z.pos (digits2_pos (Z.to_pos m))) 23);
            [assumption|].
          assert (2 ^ 23 <= 2 ^ (Z.pos (digits2_pos (Z.to_pos m)) - 1))
            by (apply Z.pow_le_mono_r; lia).
          lia. }
        lia.
      * lia.
  - destruct (Z.eqb_spec e 255) as [E1|E1]; [contradiction|].
    cbn [f32_round].
    assert (Hm : Z.pos (Z.to_pos (m + 2 ^ 23)) = m + 2 ^ 23)
      by (apply Z2Pos.id; lia).
    rewrite binary_round_canonical.
    + cbn [f32_encode]. rewrite Hm.
      destruct (Z.ltb_spec (m + 2 ^ 23) (2 ^ 23)); [lia|].
      replace (e - 150 + 150) with e by lia.
      rewrite (Z.mod_small e 256) by lia.
      replace ((m + 2 ^ 23) mod 2 ^ 23) with m; [lia|].
      apply Z.mod_unique with (q := 1); lia.
    + unfold canonical_mantissa, fexp, emin. apply Z.eqb_eq.
      rewrite (digits2_pos_unique (Z.to_pos (m + 2 ^ 23)) 24)
        by (rewrite Hm; change (2 ^ (24 - 1)) with (2 ^ 23);
            change (2 ^ 24) with (2 ^ 23 + 2 ^ 23); lia).
      lia.
    + lia.
Qed.

(** ** Addition never produces a negative zero from other operands *)

Lemma shr_1_m (r : shr_record) :
  0 <= shr_m r -> shr_m (shr_1 r) = shr_m r / 2.
Proof.
  destruct r as [m r s]. cbn [shr_m shr_1]. intros Hm.
  destruct m as [|[p|p|]|p]; cbn [shr_m]; try lia.
  - reflexivity.
  - rewrite Pos2Z.inj_xI. apply Z.div_unique with (r := 1); lia.
  - rewrite Pos2Z.inj_xO. apply Z.div_unique with (r := 0); lia.
  - reflexivity.
Qed.

Lemma iter_pos_shr_m (p : positive) (r : shr_record) :
  0 <= shr_m r ->
  shr_m (iter_pos shr_1 p r) = shr_m r / 2 ^ Z.pos p.
Proof.
  revert r. induction p as [p IH | p IH |]; intros r Hr; cbn [iter_pos].
  - assert (H1 : 0 <= shr_m (shr_1 r))
      by (rewrite shr_1_m by exact Hr; apply Z.div_pos; lia).
    assert (H2 : 0 <= shr_m (iter_pos shr_1 p (shr_1 r)))
      by (rewrite IH by exact H1; apply Z.div_pos; lia).
    rewrite IH by exact H2. rewrite IH by exact H1.
    rewrite shr_1_m by exact Hr.
    rewrite !Z.div_div by lia.
    f_equal. rewrite (Pos2Z.inj_xI p).
    replace (2 * Z.pos p + 1) with (1 + Z.pos p + Z.pos p) by lia.
    rewrite !Z.pow_add_r by lia. change (2 ^ 1) with 2. lia.
  - assert (H1 : 0 <= shr_m (iter_pos shr_1 p r))
      by (rewrite IH by exact Hr; apply Z.div_pos; lia).
    rewrite IH by exact H1. rewrite IH by exact Hr.
    rewrite Z.div_div by lia.
    f_equal. rewrite (Pos2Z.inj_xO p).
    replace (2 * Z.pos p) with (Z.pos p + Z.pos p) by lia.
    now rewrite Z.pow_add_r by lia.
  - rewrite shr_1_m by exact Hr. reflexivity.
Qed.

Lemma shr_record_of_loc_m (m : Z) (l : location) :
  shr_m (shr_record_of_loc m l) = m.
Proof. destruct l as [|[| |]]; reflexivity. Qed.

Section RoundingKeepsMantissa.

Variable prec emax : Z.
Hypothesis prec_pos : 0 < prec.

(** A right shift chosen by [fexp] keeps a positive mantissa positive
    when the exponent is not below [emin]. *)
Lemma shr_fexp_pos (m : positive) (e : Z) (l : location) :
  emin prec emax <= e ->
  0 < shr_m (fst (shr_fexp prec emax (Z.pos m) e l)) /\
  emin prec emax <= snd (shr_fexp prec emax (Z.pos m) e l).
Proof.
  intros He. unfold shr_fexp, shr. cbn [Zdigits2].
  pose proof (digits2_pos_bounds m) as B.
  set (d := Z.pos (digits2_pos m)) in *.
  destruct (fexp prec emax (d + e) - e) as [|p|p] eqn:En; cbn [fst snd].
  - rewrite shr_record_of_loc_m. lia.
  - rewrite iter_pos_shr_m by (rewrite shr_record_of_loc_m; lia).
    rewrite shr_record_of_loc_m.
    unfold fexp in En.
    assert (Hp : Z.pos p = d - prec) by lia.
    split; [|lia].
    apply Z.div_str_pos. split; [lia|].
    assert (2 ^ Z.pos p <= 2 ^ (d - 1))
      by (apply Z.pow_le_mono_r; lia).
    lia.
  - rewrite shr_record_of_loc_m. lia.
Qed.

Lemma round_nearest_even_pos (m : Z) (l : location) :
  0 < m -> 0 < round_nearest_even m l.
Proof.
  intros H. destruct l as [|[| |]]; cbn [round_nearest_even]; try lia.
  destruct (Z.even m); lia.
Qed.

Lemma binary_round_aux_nonzero (s : bool) (m : positive) (e : Z)
    (l : location) :
  emin prec emax <= e ->
  rounded_nonzero prec emax s (binary_round_aux prec emax s (Z.pos m) e l).
Proof.
  intros He. unfold binary_round_aux.
  destruct (shr_fexp_pos m e l He) as [H1 H2].
  destruct (shr_fexp prec emax (Z.pos m) e l) as [mrs' e'].
  cbn [fst snd] in H1, H2.
  pose proof (round_nearest_even_pos (shr_m mrs') (loc_of_shr_record mrs') H1)
    as H3.
  destruct (round_nearest_even (shr_m mrs') (loc_of_shr_record mrs'))
    as [|m2|m2]; try lia.
  destruct (shr_fexp_pos m2 e' loc_Exact H2) as [H4 H5].
  destruct (shr_fexp prec emax (Z.pos m2) e' loc_Exact) as [mrs'' e''].
  cbn [fst snd] in H4, H5.
  destruct (shr_m mrs'') as [|m3|m3]; try lia.
  destruct (e'' <=? emax - prec); cbn [rounded_nonzero]; auto.
Qed.

Lemma binary_round_nonzero (s : bool) (m : positive) (e : Z) :
  emin prec emax <= e ->
  rounded_nonzero prec emax s (binary_round prec emax s m e).
Proof.
  intros He. unfold binary_round, shl_align.
  assert (Hf : emin prec emax <= fexp prec emax (Z.pos (digits2_pos m) + e))
    by (unfold fexp; lia).
  destruct (fexp prec emax (Z.pos (digits2_pos m) + e) - e);
    apply binary_round_aux_nonzero; assumption.
Qed.

End RoundingKeepsMantissa.

Lemma num_add_no_negative_zero (a b : number) :
  exp_ok a -> exp_ok b -> a <> S754_zero true ->
  num_add a b <> S754_zero true /\ exp_ok (num_add a b).
Proof.
  intros Ha Hb Hnz. unfold num_add.
  destruct a as [sa | sa | | sa ma ea], b as [sb | sb | | sb mb eb];
    cbn [SFadd exp_ok] in *;
    try (split; [discriminate | exact I]);
    try (split; [discriminate | assumption]).
  - destruct sa; [congruence|]. destruct sb; split; (discriminate || exact I).
  - destruct sa, sb; split; (discriminate || exact I).
  - set (ez := Z.min ea eb).
    set (z := cond_Zopp sa (Z.pos (fst (shl_align ma ea ez)))
              + cond_Zopp sb (Z.pos (fst (shl_align mb eb ez)))).
    assert (Hez : emin 53 1024 <= ez) by (unfold emin, ez; lia).
    unfold binary_normalize.
    destruct z as [|p|p].
    + split; [discriminate | exact I].
    + pose proof (binary_round_nonzero 53 1024 ltac:(lia) false p ez Hez)
        as H.
      destruct (binary_round 53 1024 false p ez); cbn [rounded_nonzero] in H;
        try contradiction; split; try discriminate; try exact I.
      unfold emin in H. cbn [exp_ok]. lia.
    + pose proof (binary_round_nonzero 53 1024 ltac:(lia) true p ez Hez)
        as H.
      destruct (binary_round 53 1024 true p ez); cbn [rounded_nonzero] in H;
        try contradiction; split; try discriminate; try exact I.
      unfold emin in H. cbn [exp_ok]. lia.
Qed.

Lemma f32_decode_exp_ok (w : Z) : exp_ok (f32_decode w).
Proof.
  unfold f32_decode.
  pose proof (Z.mod_pos_bound (w / 2 ^ 23) 256 ltac:(lia)) as H.
  fold (f32_expo w) in H.
  destruct (Z.eqb_spec (f32_expo w) 0).
  - destruct (f32_frac w =? 0); cbn [exp_ok]; [exact I | lia].
  - destruct (f32_expo w =? 255).
    + destruct (f32_frac w =? 0); exact I.
    + cbn [exp_ok]. lia.
Qed.

Lemma num_add_zero_sign (v x y : number) :
  v <> S754_zero true -> same_but_zero_sign x y ->
  num_add v x = num_add v y.
Proof.
  intros Hv [-> | (s & s' & -> & ->)]; [reflexivity|].
  unfold num_add. destruct v as [sv | sv | | sv mv ev]; cbn [SFadd];
    try reflexivity.
  destruct sv; [congruence|]. destruct s, s'; reflexivity.
Qed.

(** ** Updates, element by element *)

Lemma lut_add_at (board : list Z) (delta : number) (l : Float32Array)
    (v : list cell_index) :
  arr_length (lut_add board delta l v) = arr_length l /\
  forall j,
    arr_at (lut_add board delta l v) j
    = if hits board (arr_length l) v j
      then f32_accumulate (arr_at l j) delta
      else arr_at l j.
Proof.
  unfold lut_add, hits, arr_get, arr_set.
  destruct (_index board v) as [i|]; [|split; reflexivity].
  destruct (in_range l i) eqn:Er; cbn [arr_length arr_at].
  - split; [reflexivity|]. intros j.
    unfold in_range in Er. rewrite <- andb_assoc, Er, andb_true_r.
    rewrite (Z.eqb_sym j i).
    destruct (Z.eqb_spec i j) as [->|]; reflexivity.
  - split; [reflexivity|]. intros j.
    unfold in_range in Er. now rewrite <- andb_assoc, Er, andb_false_r.
Qed.

Lemma lut_fold_at (board : list Z) (delta : number)
    (vs : list (list cell_index)) (l : Float32Array) :
  arr_length (fold_left (lut_add board delta) vs l) = arr_length l /\
  forall j,
    arr_at (fold_left (lut_add board delta) vs l) j
    = Nat.iter (count_hits board (arr_length l) vs j)
               (fun w => f32_accumulate w delta) (arr_at l j).
Proof.
  revert l. induction vs as [|v vs IH]; intros l; [split; reflexivity|].
  cbn [fold_left].
  destruct (lut_add_at board delta l v) as [Hl Ha].
  destruct (IH (lut_add board delta l v)) as [IHl IHa].
  split; [congruence|]. intros j.
  rewrite IHa, Hl, Ha. unfold count_hits. cbn [filter].
  destruct (hits board (arr_length l) v j); [|reflexivity].
  cbn [length]. now rewrite Nat.iter_succ_r.
Qed.

(** ** [evaluate] reads values, not signs of zeros *)

Lemma same_but_zero_sign_refl (x : number) : same_but_zero_sign x x.
Proof. now left. Qed.

Lemma same_but_zero_sign_trans (x y z : number) :
  same_but_zero_sign x y -> same_but_zero_sign y z ->
  same_but_zero_sign x z.
Proof.
  intros [Hxy | (s1 & s2 & Hx & Hy)] [Hyz | (s3 & s4 & Hy' & Hz)]; subst.
  - now left.
  - right. eauto.
  - right. eauto.
  - right. eauto.
Qed.

Lemma add_lookup_same (board : list Z) (l l' : Float32Array)
    (value : number) (v : list cell_index) :
  same_values l l' -> acc_ok value ->
  add_lookup board l value v = add_lookup board l' value v /\
  acc_ok (add_lookup board l value v).
Proof.
  intros [Hl Hv] [Hnz Hexp]. unfold add_lookup, lut_get, arr_get.
  destruct (_index board v) as [i|];
    [|split; [reflexivity | split; [discriminate | exact I]]].
  assert (Hr : in_range l' i = in_range l i)
    by (unfold in_range; now rewrite Hl).
  rewrite Hr. destruct (in_range l i) eqn:Er;
    [|split; [reflexivity | split; [discriminate | exact I]]].
  split.
  - apply num_add_zero_sign; [exact Hnz | now apply Hv].
  - apply num_add_no_negative_zero; auto using f32_decode_exp_ok.
Qed.

Lemma fold_add_lookup_same (board : list Z) (l l' : Float32Array)
    (vs : list (list cell_index)) (value : number) :
  same_values l l' -> acc_ok value ->
  fold_left (add_lookup board l) vs value
  = fold_left (add_lookup board l') vs value /\
  acc_ok (fold_left (add_lookup board l) vs value).
Proof.
  intros Hs. revert value. induction vs as [|v vs IH]; intros value Hok;
    [split; [reflexivity | exact Hok]|].
  cbn [fold_left].
  destruct (add_lookup_same board l l' value v Hs Hok) as [E Hok'].
  rewrite <- E. now apply IH.
Qed.

Lemma evaluate_same_values (net net' : network) (board : list Z) :
  Forall2 (fun p p' => variants p = variants p' /\
                       same_values (lut p) (lut p')) net net' ->
  evaluate net board = evaluate net' board.
Proof.
  unfold evaluate.
  assert (Hstart : acc_ok pos_zero) by (split; [discriminate | exact I]).
  revert Hstart. generalize pos_zero as value.
  intros value Hok H. revert value Hok.
  induction H as [|p p' net net' [Hv Hs] _ IH]; intros value Hok;
    [reflexivity|].
  cbn [fold_left]. rewrite <- Hv.
  destruct (fold_add_lookup_same board (lut p) (lut p') (variants p) value
              Hs Hok) as [E Hok'].
  rewrite <- E. now apply IH.
Qed.

(** ** An update by zero *)

Lemma f32_accumulate_range (w : Z) (delta : number) :
  0 <= f32_accumulate w delta < 2 ^ 32.
Proof. apply f32_store_range. Qed.

Lemma f32_decode_finite_expo (w : Z) (s : bool) (m : positive) (e : Z) :
  f32_decode w = S754_finite s m e -> f32_expo w <> 255.
Proof.
  unfold f32_decode. intros H E. rewrite E in H. cbn in H.
  destruct (f32_frac w =? 0); discriminate.
Qed.

(** Adding [+0] to an element keeps its value. *)
Lemma f32_accumulate_zero (w : Z) :
  0 <= w < 2 ^ 32 ->
  same_but_zero_sign (f32_decode w)
                     (f32_decode (f32_accumulate w pos_zero)).
Proof.
  intros Hw. unfold f32_accumulate, num_add, pos_zero.
  destruct (f32_decode w) as [s | s | | s m e] eqn:E.
  - right. exists s, false. split; [reflexivity|]. destruct s; reflexivity.
  - left. destruct s; reflexivity.
  - left. reflexivity.
  - left. cbn [SFadd]. rewrite <- E.
    rewrite f32_store_decode; [reflexivity | exact Hw|].
    exact (f32_decode_finite_expo w s m e E).
Qed.

Lemma iter_accumulate_zero (n : nat) (w : Z) :
  0 <= w < 2 ^ 32 ->
  same_but_zero_sign
    (f32_decode w)
    (f32_decode (Nat.iter n (fun x => f32_accumulate x pos_zero) w)) /\
  0 <= Nat.iter n (fun x => f32_accumulate x pos_zero) w < 2 ^ 32.
Proof.
  intros Hw. induction n as [|n [IH1 IH2]].
  - split; [apply same_but_zero_sign_refl | exact Hw].
  - cbn [Nat.iter]. split; [|apply f32_accumulate_range].
    eapply same_but_zero_sign_trans; [exact IH1|].
    now apply f32_accumulate_zero.
Qed.

Lemma update_zero_same_values (net : network) (board : list Z) :
  lut_words_ok net ->
  Forall2 (fun p p' => variants p = variants p' /\
                       same_values (lut p) (lut p'))
          (update net board pos_zero) net.
Proof.
  unfold update. intros Hok.
  induction net as [|p net IH]; [constructor|].
  cbn [map]. constructor.
  - cbn [update_pattern variants lut]. split; [reflexivity|].
    destruct (lut_fold_at board pos_zero (variants p) (lut p)) as [Hl Ha].
    split; [exact Hl|]. intros j Hj.
    rewrite Ha.
    assert (Hr : in_range (lut p) j = true)
      by (unfold in_range in *; now rewrite <- Hl).
    pose proof (Hok p j (or_introl eq_refl) Hr) as Hw.
    destruct (iter_accumulate_zero
                (count_hits board (arr_length (lut p)) (variants p) j)
                (arr_at (lut p) j) Hw) as [[E | (s & s' & E1 & E2)] _].
    + left. now symmetry.
    + right. exists s', s. auto.
  - apply IH. intros q j Hq. apply Hok. now right.
Qed.

Lemma catalog_update (net : network) (board : list Z) (delta : number) :
  catalog (update net board delta) = catalog net.
Proof.
  unfold catalog, update. rewrite map_map. apply map_ext. intros p.
  cbn [update_pattern tupleLen variants lut].
  now rewrite (proj1 (lut_fold_at board delta (variants p) (lut p))).
Qed.

(** ** Rounding a value that needs no rounding *)

Lemma shr_1_even (M : Z) :
  0 <= M ->
  shr_1 {| shr_m := 2 * M; shr_r := false; shr_s := false |}
  = {| shr_m := M; shr_r := false; shr_s := false |}.
Proof. intros H. destruct M as [|p|p]; [reflexivity | reflexivity | lia]. Qed.

Lemma iter_shr_exact (p : positive) (M : Z) :
  0 <= M ->
  iter_pos shr_1 p
    {| shr_m := M * 2 ^ Z.pos p; shr_r := false; shr_s := false |}
  = {| shr_m := M; shr_r := false; shr_s := false |}.
Proof.
  revert M. induction p as [p IH | p IH |]; intros M HM; cbn [iter_pos].
  - assert (HP : 0 < 2 ^ Z.pos p) by (apply Z.pow_pos_nonneg; lia).
    replace (M * 2 ^ Z.pos p~1)
      with (2 * ((M * 2 ^ Z.pos p) * 2 ^ Z.pos p)).
    + rewrite shr_1_even by nia. rewrite IH by nia. now apply IH.
    + rewrite (Pos2Z.inj_xI p).
      replace (2 * Z.pos p + 1) with (1 + Z.pos p + Z.pos p) by lia.
      rewrite !Z.pow_add_r by lia. change (2 ^ 1) with 2. lia.
  - assert (HP : 0 < 2 ^ Z.pos p) by (apply Z.pow_pos_nonneg; lia).
    replace (M * 2 ^ Z.pos p~0) with ((M * 2 ^ Z.pos p) * 2 ^ Z.pos p).
    + rewrite IH by nia. now apply IH.
    + rewrite (Pos2Z.inj_xO p).
      replace (2 * Z.pos p) with (Z.pos p + Z.pos p) by lia.
      rewrite Z.pow_add_r by lia. lia.
  - change (2 ^ 1) with 2. rewrite Z.mul_comm. now apply shr_1_even.
Qed.

Lemma pos_iter_xO (m d : positive) :
  Z.pos (Pos.iter xO m d) = Z.pos m * 2 ^ Z.pos d.
Proof.
  revert m. induction d as [d IH | d IH |]; intros m; cbn [Pos.iter].
  - rewrite Pos2Z.inj_xO, !IH, (Pos2Z.inj_xI d).
    replace (2 * Z.pos d + 1) with (1 + Z.pos d + Z.pos d) by lia.
    rewrite !Z.pow_add_r by lia. change (2 ^ 1) with 2. lia.
  - rewrite !IH, (Pos2Z.inj_xO d).
    replace (2 * Z.pos d) with (Z.pos d + Z.pos d) by lia.
    rewrite Z.pow_add_r by lia. lia.
  - rewrite Pos2Z.inj_xO. change (2 ^ 1) with 2. lia.
Qed.

Lemma shl_align_fst (m : positive) (e ez : Z) :
  ez <= e -> Z.pos (fst (shl_align m e ez)) = Z.pos m * 2 ^ (e - ez).
Proof.
  intros H. unfold shl_align.
  destruct (ez - e) as [|d|d] eqn:E; cbn [fst].
  - replace (e - ez) with 0 by lia. change (2 ^ 0) with 1. lia.
  - lia.
  - rewrite pos_iter_xO. f_equal. f_equal. lia.
Qed.

(** The digits of a mantissa shifted left. *)
Lemma digits2_pos_shifted (m m' : positive) (k : Z) :
  0 <= k -> Z.pos m = Z.pos m' * 2 ^ k ->
  Z.pos (digits2_pos m) = Z.pos (digits2_pos m') + k.
Proof.
  intros Hk E. apply digits2_pos_unique.
  pose proof (digits2_pos_bounds m') as B.
  set (d := Z.pos (digits2_pos m')) in *.
  assert (Hd : 0 < d) by (unfold d; lia).
  replace (d + k - 1) with ((d - 1) + k) by lia.
  rewrite !Z.pow_add_r by lia. rewrite E.
  assert (0 < 2 ^ k) by (apply Z.pow_pos_nonneg; lia).
  nia.
Qed.

(** A value [A * 2^e] written with a smaller exponent. *)
Lemma dyadic_shift (A a e ez : Z) :
  ez <= e ->
  A * 2 ^ Z.max e 0 = a * 2 ^ Z.max (- e) 0 ->
  (A * 2 ^ (e - ez)) * 2 ^ Z.max ez 0 = a * 2 ^ Z.max (- ez) 0.
Proof.
  intros Hle Hv.
  destruct (Z_le_gt_dec 0 ez) as [Hz|Hz].
  - rewrite Z.max_l, Z.max_r in Hv by lia.
    rewrite Z.max_l, Z.max_r by lia.
    rewrite <- Hv, <- Z.mul_assoc, <- Z.pow_add_r by lia.
    replace (e - ez + ez) with e by lia. reflexivity.
  - rewrite (Z.max_r ez 0), (Z.max_l (- ez) 0) by lia.
    change (2 ^ 0) with 1. rewrite Z.mul_1_r.
    destruct (Z_le_gt_dec 0 e) as [He|He].
    + rewrite Z.max_l, Z.max_r in Hv by lia.
      change (2 ^ 0) with 1 in Hv. rewrite Z.mul_1_r in Hv.
      rewrite <- Hv, <- Z.mul_assoc, <- Z.pow_add_r by lia.
      replace (e + - ez) with (e - ez) by lia. reflexivity.
    + rewrite Z.max_r, Z.max_l in Hv by lia.
      change (2 ^ 0) with 1 in Hv. rewrite Z.mul_1_r in Hv.
      rewrite Hv, <- Z.mul_assoc, <- Z.pow_add_r by lia.
      replace (- e + (e - ez)) with (- ez) by lia. reflexivity.
Qed.

Section ExactRounding.

Variable prec emax : Z.
Hypothesis prec_pos : 0 < prec.
Hypothesis prec_emax : prec <= emax.
Hypothesis emax_two : 2 <= emax.

(** A mantissa that is a canonical one shifted left by the bits the
    rounding drops is rounded to the canonical one. *)
Lemma binary_round_aux_exact (s : bool) (M : positive) (e : Z)
    (m' : positive) (e' : Z) :
  canonical_mantissa prec emax m' e' = true -> e' <= emax - prec ->
  e <= e' -> Z.pos M = Z.pos m' * 2 ^ (e' - e) ->
  binary_round_aux prec emax s (Z.pos M) e loc_Exact = S754_finite s m' e'.
Proof.
  intros Hc Hmax Hle HM.
  pose proof Hc as Hc'. unfold canonical_mantissa in Hc'.
  apply Z.eqb_eq in Hc'.
  pose proof (digits2_pos_shifted M m' (e' - e) ltac:(lia) HM) as Hd.
  unfold binary_round_aux, shr_fexp. cbn [Zdigits2 shr_record_of_loc].
  replace (Z.pos (digits2_pos M) + e) with (Z.pos (digits2_pos m') + e')
    by lia.
  rewrite Hc'. unfold shr.
  assert (Hsecond :
    (let '(mrs'', e'') :=
       shr_fexp prec emax
         (round_nearest_even (Z.pos m') loc_Exact) e' loc_Exact in
     match shr_m mrs'' with
     | 0 => S754_zero s
     | Z.pos m => if e'' <=? emax - prec then S754_finite s m e''
                  else S754_infinity s
     | Z.neg _ => S754_nan
     end) = S754_finite s m' e').
  { unfold shr_fexp. cbn [round_nearest_even Zdigits2 shr_record_of_loc].
    rewrite Hc', Z.sub_diag. cbn [shr shr_m].
    apply Z.leb_le in Hmax. now rewrite Hmax. }
  destruct (e' - e) as [|p|p] eqn:E; [| |lia].
  - change (2 ^ 0) with 1 in HM. rewrite Z.mul_1_r in HM.
    injection HM as ->. cbn [shr_m loc_of_shr_record].
    replace e with e' by lia. exact Hsecond.
  - rewrite HM, iter_shr_exact by lia.
    cbn [shr_m loc_of_shr_record].
    replace (e + Z.pos p) with e' by lia. exact Hsecond.
Qed.

(** A value that a canonical mantissa and exponent represent is rounded
    to them, whatever mantissa and exponent give the value. *)
Lemma binary_round_exact (s : bool) (m : positive) (e : Z)
    (m' : positive) (e' : Z) :
  canonical_mantissa prec emax m' e' = true -> e' <= emax - prec ->
  (e' <= e /\ Z.pos m' = Z.pos m * 2 ^ (e - e')) \/
  (e <= e' /\ Z.pos m = Z.pos m' * 2 ^ (e' - e)) ->
  binary_round prec emax s m e = S754_finite s m' e'.
Proof.
  intros Hc Hmax H.
  pose proof Hc as Hc'. unfold canonical_mantissa in Hc'.
  apply Z.eqb_eq in Hc'.
  unfold binary_round.
  destruct H as [[Hle Hm] | [Hle Hm]].
  - pose proof (digits2_pos_shifted m' m (e - e') ltac:(lia) Hm) as Hd.
    replace (Z.pos (digits2_pos m) + e) with (Z.pos (digits2_pos m') + e')
      by lia.
    rewrite Hc'. unfold shl_align.
    destruct (e' - e) as [|d|d] eqn:E; [| lia |].
    + replace (e - e') with 0 in Hm by lia.
      change (2 ^ 0) with 1 in Hm. rewrite Z.mul_1_r in Hm.
      injection Hm as ->.
      apply binary_round_aux_exact; [exact Hc | exact Hmax | lia |].
      replace (e' - e) with 0 by lia. change (2 ^ 0) with 1. lia.
    + assert (Em : Pos.iter xO m d = m').
      { apply Pos2Z.inj. rewrite pos_iter_xO, Hm. f_equal. f_equal. lia. }
      rewrite Em.
      apply binary_round_aux_exact; [exact Hc | exact Hmax | lia |].
      rewrite Z.sub_diag. change (2 ^ 0) with 1. lia.
  - pose proof (digits2_pos_shifted m m' (e' - e) ltac:(lia) Hm) as Hd.
    replace (Z.pos (digits2_pos m) + e) with (Z.pos (digits2_pos m') + e')
      by lia.
    rewrite Hc'. unfold shl_align.
    destruct (e' - e) as [|d|d] eqn:E; [| | lia].
    + apply binary_round_aux_exact; [exact Hc | exact Hmax | lia |].
      now rewrite E.
    + apply binary_round_aux_exact; [exact Hc | exact Hmax | lia |].
      now rewrite E.
Qed.

(** The normal representation of an integer from 1 to [2^prec - 1]. *)
Lemma int_float_canonical (n : Z) :
  0 < n < 2 ^ prec ->
  canonical_mantissa prec emax (int_mantissa prec n) (int_exponent prec n)
  = true /\
  int_exponent prec n <= emax - prec /\
  - prec < int_exponent prec n <= 0 /\
  Z.pos (int_mantissa prec n) = n * 2 ^ (- int_exponent prec n).
Proof.
  intros Hn. unfold int_mantissa, int_exponent.
  destruct (Z.log2_spec n ltac:(lia)) as [L1 L2].
  pose proof (Z.log2_nonneg n) as L0.
  assert (Llt : Z.log2 n < prec).
  { apply Z.log2_lt_pow2; lia. }
  set (l := Z.log2 n) in *.
  assert (Hp : 0 < 2 ^ (prec - 1 - l)) by (apply Z.pow_pos_nonneg; lia).
  assert (Hm : Z.pos (Z.to_pos (n * 2 ^ (prec - 1 - l)))
               = n * 2 ^ (prec - 1 - l))
    by (apply Z2Pos.id; nia).
  assert (Hd : Z.pos (digits2_pos (Z.to_pos (n * 2 ^ (prec - 1 - l))))
               = prec).
  { apply digits2_pos_unique. rewrite Hm.
    assert (P1 : 2 ^ (prec - 1) = 2 ^ l * 2 ^ (prec - 1 - l))
      by (rewrite <- Z.pow_add_r by lia; f_equal; lia).
    assert (P2 : 2 ^ prec = 2 ^ Z.succ l * 2 ^ (prec - 1 - l))
      by (rewrite <- Z.pow_add_r by lia; f_equal; lia).
    rewrite P1, P2. nia. }
  split.
  { unfold canonical_mantissa, fexp, emin. rewrite Hd.
    apply Z.eqb_eq. lia. }
  split; [lia|]. split; [lia|].
  rewrite Hm. f_equal. f_equal. lia.
Qed.

(** Rounding a mantissa and exponent whose value is the integer [n]. *)
Lemma binary_round_int (s : bool) (m : positive) (e n : Z) :
  0 < n < 2 ^ prec ->
  Z.pos m * 2 ^ Z.max e 0 = n * 2 ^ Z.max (- e) 0 ->
  binary_round prec emax s m e
  = S754_finite s (int_mantissa prec n) (int_exponent prec n).
Proof.
  intros Hn Hv.
  destruct (int_float_canonical n Hn) as (Hc & Hmax & He' & Hm').
  set (e' := int_exponent prec n) in *.
  set (m' := int_mantissa prec n) in *.
  apply binary_round_exact; [exact Hc | exact Hmax |].
  destruct (Z_le_gt_dec e' e) as [Hle|Hgt].
  - left. split; [exact Hle|]. rewrite Hm'.
    pose proof (dyadic_shift (Z.pos m) n e e' Hle Hv) as H.
    rewrite (Z.max_r e' 0), (Z.max_l (- e') 0) in H by lia.
    change (2 ^ 0) with 1 in H. rewrite Z.mul_1_r in H.
    symmetry. exact H.
  - right. split; [lia|]. rewrite Hm'.
    rewrite Z.max_r, Z.max_l in Hv by lia.
    change (2 ^ 0) with 1 in Hv. rewrite Z.mul_1_r in Hv.
    rewrite Hv, <- Z.mul_assoc, <- Z.pow_add_r by lia.
    replace (- e' + (e' - e)) with (- e) by lia. reflexivity.
Qed.

(** The same for the rounding that [SFmul] applies, which shifts to the
    right only. *)
Lemma binary_round_aux_int (s : bool) (M : positive) (e n : Z) :
  0 < n < 2 ^ prec -> e <= int_exponent prec n ->
  Z.pos M * 2 ^ Z.max e 0 = n * 2 ^ Z.max (- e) 0 ->
  binary_round_aux prec emax s (Z.pos M) e loc_Exact
  = S754_finite s (int_mantissa prec n) (int_exponent prec n).
Proof.
  intros Hn Hle Hv.
  destruct (int_float_canonical n Hn) as (Hc & Hmax & He' & Hm').
  set (e' := int_exponent prec n) in *.
  set (m' := int_mantissa prec n) in *.
  apply binary_round_aux_exact; [exact Hc | exact Hmax | exact Hle |].
  rewrite Hm'.
  rewrite Z.max_r, Z.max_l in Hv by lia.
  change (2 ^ 0) with 1 in Hv. rewrite Z.mul_1_r in Hv.
  rewrite Hv, <- Z.mul_assoc, <- Z.pow_add_r by lia.
  replace (- e' + (e' - e)) with (- e) by lia. reflexivity.
Qed.

End ExactRounding.

(** ** Integers as numbers and as elements *)

(** The sign of a number and of a positive multiple of it. *)
Lemma scaled_sign (M n K K' : Z) :
  0 < K -> 0 < K' -> M * K = n * K' ->
  (M = 0 -> n = 0) /\ (0 < M -> 0 < n) /\ (M < 0 -> n < 0).
Proof.
  intros HK HK' H.
  assert (Hpos : forall x y, 0 < y -> 0 < x -> 0 < x * y)
    by (intros; apply Z.mul_pos_pos; lia).
  assert (Hneg : forall x y, 0 < y -> x < 0 -> x * y < 0)
    by (intros; apply Z.mul_neg_pos; lia).
  split; [|split]; intros HM.
  - subst M. rewrite Z.mul_0_l in H.
    destruct (Z.lt_trichotomy n 0) as [Hn | [Hn | Hn]]; [|exact Hn|].
    + pose proof (Hneg n K' HK' Hn). lia.
    + pose proof (Hpos n K' HK' Hn). lia.
  - pose proof (Hpos M K HK HM).
    destruct (Z.lt_trichotomy n 0) as [Hn | [Hn | Hn]]; [| |exact Hn].
    + pose proof (Hneg n K' HK' Hn). lia.
    + subst n. lia.
  - pose proof (Hneg M K HK HM).
    destruct (Z.lt_trichotomy n 0) as [Hn | [Hn | Hn]]; [exact Hn| |].
    + subst n. lia.
    + pose proof (Hpos n K' HK' Hn). lia.
Qed.

Lemma cond_Zopp_value (s : bool) (m : positive) (n k k' : Z) :
  0 <= k -> 0 <= k' ->
  cond_Zopp s (Z.pos m) * 2 ^ k = n * 2 ^ k' ->
  n <> 0 /\ s = (n <? 0) /\ Z.pos m * 2 ^ k = Z.abs n * 2 ^ k'.
Proof.
  intros Hk Hk' H.
  assert (P : 0 < 2 ^ k) by (apply Z.pow_pos_nonneg; lia).
  assert (P' : 0 < 2 ^ k') by (apply Z.pow_pos_nonneg; lia).
  set (K := 2 ^ k) in *. set (K' := 2 ^ k') in *.
  clearbody K K'.
  destruct s; cbn [cond_Zopp] in H.
  - assert (Hn : n < 0).
    { destruct (Z_lt_le_dec n 0) as [|Hge]; [assumption|].
      assert (0 <= n * K') by (apply Z.mul_nonneg_nonneg; lia).
      assert (0 < Z.pos m * K) by (apply Z.mul_pos_pos; lia). lia. }
    split; [lia|]. split; [symmetry; apply Z.ltb_lt; lia|].
    rewrite Z.abs_neq by lia. lia.
  - assert (Hn : 0 < n).
    { destruct (Z_lt_le_dec 0 n) as [|Hge]; [assumption|].
      assert (n * K' <= 0) by (apply Z.mul_nonpos_nonneg; lia).
      assert (0 < Z.pos m * K) by (apply Z.mul_pos_pos; lia). lia. }
    split; [lia|]. split; [symmetry; apply Z.ltb_ge; lia|].
    rewrite Z.abs_eq by lia. lia.
Qed.

(** A finite number that is an integer is not zero. *)
Lemma num_is_Z_finite (s : bool) (m : positive) (e n : Z) :
  num_is_Z (S754_finite s m e) n ->
  n <> 0 /\ s = (n <? 0) /\
  Z.pos m * 2 ^ Z.max e 0 = Z.abs n * 2 ^ Z.max (- e) 0.
Proof. cbn [num_is_Z]. apply cond_Zopp_value; lia. Qed.

Lemma num_is_Z_int_float (prec emax n : Z) :
  0 < prec -> prec <= emax -> 2 <= emax ->
  n <> 0 -> Z.abs n < 2 ^ prec ->
  num_is_Z (int_float prec n) n.
Proof.
  intros Hp Hpe He Hn Hb. unfold int_float. cbn [num_is_Z].
  destruct (int_float_canonical prec emax Hp Hpe He (Z.abs n) ltac:(lia))
    as (_ & _ & He' & Hm).
  rewrite Hm, Z.max_r, Z.max_l by lia.
  change (2 ^ 0) with 1. rewrite Z.mul_1_r.
  destruct (Z.ltb_spec n 0); cbn [cond_Zopp].
  - rewrite Z.abs_neq by lia. lia.
  - rewrite Z.abs_eq by lia. lia.
Qed.

(** [num_of_Z] gives the binary64 representation of the integer. *)
Lemma num_of_Z_int_float (n : Z) :
  n <> 0 -> Z.abs n < 2 ^ 53 -> num_of_Z n = int_float 53 n.
Proof.
  intros Hn Hb. unfold num_of_Z, binary_normalize, int_float.
  destruct n as [|p|p]; [lia | |].
  - rewrite (binary_round_int 53 1024 ltac:(lia) ltac:(lia) ltac:(lia)
               false p 0 (Z.pos p)); [reflexivity | lia | reflexivity].
  - rewrite (binary_round_int 53 1024 ltac:(lia) ltac:(lia) ltac:(lia)
               true p 0 (Z.pos p)); [reflexivity | lia | reflexivity].
Qed.

(** Rounding to binary32 a number that is an integer below [2^24]. *)
Lemma f32_round_int (x : number) (n : Z) :
  num_is_Z x n -> n <> 0 -> Z.abs n < 2 ^ 24 ->
  f32_round x = int_float 24 n.
Proof.
  intros Hx Hn Hb. destruct x as [s | s | | s m e]; cbn [num_is_Z] in Hx;
    [contradiction | contradiction | contradiction |].
  destruct (num_is_Z_finite s m e n Hx) as (_ & -> & Hv).
  cbn [f32_round]. unfold int_float.
  apply (binary_round_int 24 128); lia.
Qed.

(** The element that holds the integer [n]. *)
Lemma f32_store_int (x : number) (n : Z) :
  num_is_Z x n -> n <> 0 -> Z.abs n < 2 ^ 24 ->
  f32_store x = f32_store (num_of_Z n).
Proof.
  intros Hx Hn Hb. unfold f32_store.
  rewrite (f32_round_int x n Hx Hn Hb).
  assert (Hb53 : Z.abs n < 2 ^ 53).
  { apply Z.lt_trans with (2 ^ 24); [exact Hb | reflexivity]. }
  rewrite (f32_round_int (num_of_Z n) n); [reflexivity | | exact Hn
                                           | exact Hb].
  rewrite num_of_Z_int_float by assumption.
  apply (num_is_Z_int_float 53 1024); lia.
Qed.

(** The sum of two finite numbers that are integers. *)
Lemma num_add_int (sx sy : bool) (mx my : positive) (ex ey a b : Z) :
  num_is_Z (S754_finite sx mx ex) a -> num_is_Z (S754_finite sy my ey) b ->
  Z.abs (a + b) < 2 ^ 53 ->
  num_add (S754_finite sx mx ex) (S754_finite sy my ey)
  = if a + b =? 0 then pos_zero else int_float 53 (a + b).
Proof.
  intros Ha Hb Hs. unfold num_add. cbn [SFadd num_is_Z] in *.
  set (ez := Z.min ex ey).
  rewrite !shl_align_fst by (unfold ez; lia).
  pose proof (dyadic_shift (cond_Zopp sx (Z.pos mx)) a ex ez
                ltac:(unfold ez; lia) Ha) as Va.
  pose proof (dyadic_shift (cond_Zopp sy (Z.pos my)) b ey ez
                ltac:(unfold ez; lia) Hb) as Vb.
  assert (Hc : forall s m k, cond_Zopp s (Z.pos m * k)
                             = cond_Zopp s (Z.pos m) * k)
    by (intros [] m k; cbn [cond_Zopp]; lia).
  rewrite !Hc.
  set (M := cond_Zopp sx (Z.pos mx) * 2 ^ (ex - ez)
            + cond_Zopp sy (Z.pos my) * 2 ^ (ey - ez)).
  assert (VM : M * 2 ^ Z.max ez 0 = (a + b) * 2 ^ Z.max (- ez) 0)
    by (unfold M; rewrite !Z.mul_add_distr_r, Va, Vb; reflexivity).
  assert (P : 0 < 2 ^ Z.max ez 0)
    by (apply Z.pow_pos_nonneg; [reflexivity | apply Z.le_max_r]).
  assert (P' : 0 < 2 ^ Z.max (- ez) 0)
    by (apply Z.pow_pos_nonneg; [reflexivity | apply Z.le_max_r]).
  unfold binary_normalize.
  destruct (scaled_sign M (a + b) _ _ P P' VM) as (S0 & S1 & S2).
  clearbody M. clear Va Vb Hc Ha Hb P P'.
  set (c := a + b) in *. clearbody c.
  destruct M as [|p|p].
  - rewrite (S0 eq_refl). reflexivity.
  - assert (Hc : 0 < c) by (apply S1; reflexivity).
    clear S0 S1 S2.
    replace (c =? 0) with false by (symmetry; apply Z.eqb_neq; lia).
    unfold int_float.
    replace (c <? 0) with false by (symmetry; apply Z.ltb_ge; lia).
    rewrite Z.abs_eq in * by lia.
    apply (binary_round_int 53 1024);
      [reflexivity | discriminate | discriminate | split; assumption
      | exact VM].
  - assert (Hc : c < 0) by (apply S2; reflexivity).
    clear S0 S1 S2.
    replace (c =? 0) with false by (symmetry; apply Z.eqb_neq; lia).
    unfold int_float.
    replace (c <? 0) with true by (symmetry; apply Z.ltb_lt; lia).
    rewrite Z.abs_neq in * by lia.
    apply (binary_round_int 53 1024);
      [reflexivity | discriminate | discriminate | split; lia |].
    rewrite Z.mul_opp_l, <- VM, <- Z.mul_opp_l. reflexivity.
Qed.

(** The double of a number that is an integer. *)
Lemma num_mul_2_int (delta : number) (d : Z) :
  num_is_Z delta d -> Z.abs d < 2 ^ 52 ->
  num_is_Z (num_mul num_2 delta) (2 * d) /\
  (d = 0 -> num_mul num_2 delta = delta).
Proof.
  intros Hd Hb.
  assert (E2 : num_2 = S754_finite false 4503599627370496 (-51))
    by (vm_compute; reflexivity).
  rewrite E2. unfold num_mul.
  destruct delta as [s | s | | s m e]; cbn [num_is_Z] in Hd;
    try contradiction.
  - subst d. cbn [SFmul xorb num_is_Z]. split; [reflexivity|].
    intros _. reflexivity.
  - destruct (num_is_Z_finite s m e d Hd) as (Hn & Hs & Hv).
    split; [|intros E0; contradiction].
    cbn [SFmul xorb].
    assert (Hb2 : 0 < Z.abs (2 * d) < 2 ^ 53).
    { change (2 ^ 53) with (2 * 2 ^ 52). lia. }
    assert (Hl : e <= Z.log2 (Z.abs d)).
    { destruct (Z_le_gt_dec e 0) as [H0|H0].
      - pose proof (Z.log2_nonneg (Z.abs d)). lia.
      - rewrite Z.max_l, Z.max_r in Hv by lia.
        change (2 ^ 0) with 1 in Hv. rewrite Z.mul_1_r in Hv.
        apply Z.log2_le_pow2; [lia|]. rewrite <- Hv.
        assert (0 < 2 ^ e) by (apply Z.pow_pos_nonneg; lia). nia. }
    assert (Hl2 : Z.log2 (Z.abs (2 * d)) = Z.succ (Z.log2 (Z.abs d))).
    { rewrite Z.abs_mul. change (Z.abs 2) with 2.
      apply Z.log2_double. lia. }
    rewrite (binary_round_aux_int 53 1024 ltac:(lia) ltac:(lia) ltac:(lia)
               s (4503599627370496 * m) (-51 + e) (Z.abs (2 * d))).
    + rewrite Hs.
      replace (d <? 0) with (2 * d <? 0)
        by (destruct (Z.ltb_spec (2 * d) 0), (Z.ltb_spec d 0);
            reflexivity || lia).
      apply (num_is_Z_int_float 53 1024); lia.
    + exact Hb2.
    + unfold int_exponent. rewrite Hl2. lia.
    + rewrite Pos2Z.inj_mul.
      change (Z.pos 4503599627370496) with (2 ^ 52).
      rewrite Z.abs_mul. change (Z.abs 2) with 2.
      destruct (Z_le_gt_dec 0 (-51 + e)) as [H0|H0].
      * rewrite Z.max_l, Z.max_r by lia.
        rewrite Z.max_l, Z.max_r in Hv by lia.
        change (2 ^ 0) with 1 in *. rewrite Z.mul_1_r in *.
        rewrite <- Hv.
        replace e with (51 + (-51 + e)) at 2 by lia.
        rewrite (Z.pow_add_r 2 51) by lia.
        change (2 ^ 52) with (2 * 2 ^ 51). lia.
      * rewrite Z.max_r, Z.max_l by lia.
        change (2 ^ 0) with 1. rewrite Z.mul_1_r.
        destruct (Z_le_gt_dec 0 e) as [He|He].
        -- rewrite Z.max_l, Z.max_r in Hv by lia.
           change (2 ^ 0) with 1 in Hv. rewrite Z.mul_1_r in Hv.
           rewrite <- Hv.
           replace 52 with (1 + e + - (-51 + e)) by lia.
           rewrite !Z.pow_add_r by lia. change (2 ^ 1) with 2. lia.
        -- rewrite Z.max_r, Z.max_l in Hv by lia.
           change (2 ^ 0) with 1 in Hv. rewrite Z.mul_1_r in Hv.
           rewrite Hv.
           replace (- (-51 + e)) with (- e + 51) by lia.
           rewrite Z.pow_add_r by lia.
           change (2 ^ 52) with (2 * 2 ^ 51). lia.
Qed.

(** ** Elements that hold integers *)

(** A normal binary32 value is read back from its bit pattern. *)
Lemma f32_decode_encode_normal (s : bool) (m : positive) (e : Z) :
  2 ^ 23 <= Z.pos m < 2 ^ 24 -> -149 <= e <= 104 ->
  f32_decode (f32_encode (S754_finite s m e)) = S754_finite s m e.
Proof.
  intros Hm He. cbn [f32_encode].
  destruct (Z.ltb_spec (Z.pos m) (2 ^ 23)) as [H|_]; [lia|].
  rewrite (Z.mod_small (e + 150) 256) by lia.
  assert (Hf : Z.pos m mod 2 ^ 23 = Z.pos m - 2 ^ 23).
  { symmetry. apply Z.mod_unique with (q := 1); lia. }
  rewrite Hf.
  set (w := sign_bit s + (e + 150) * 2 ^ 23 + (Z.pos m - 2 ^ 23)).
  assert (Hs : f32_sign w = s).
  { unfold f32_sign, w, sign_bit.
    destruct s; [apply Z.leb_le | apply Z.leb_gt]; lia. }
  assert (Hfr : f32_frac w = Z.pos m - 2 ^ 23).
  { unfold f32_frac, w. symmetry.
    apply Z.mod_unique
      with (q := (if s then 256 else 0) + (e + 150)); [lia|].
    unfold sign_bit. destruct s; lia. }
  assert (Hex : f32_expo w = e + 150).
  { unfold f32_expo.
    assert (Hq : w / 2 ^ 23 = (if s then 256 else 0) + (e + 150)).
    { symmetry. apply Z.div_unique with (r := Z.pos m - 2 ^ 23); [lia|].
      unfold w, sign_bit. destruct s; lia. }
    rewrite Hq. symmetry.
    apply Z.mod_unique with (q := if s then 1 else 0); [lia|].
    destruct s; lia. }
  unfold f32_decode. rewrite Hs, Hfr, Hex.
  destruct (Z.eqb_spec (e + 150) 0) as [E|_]; [lia|].
  destruct (Z.eqb_spec (e + 150) 255) as [E|_]; [lia|].
  f_equal.
  - replace (Z.pos m - 2 ^ 23 + 2 ^ 23) with (Z.pos m) by lia.
    reflexivity.
  - lia.
Qed.

(** The element that holds the integer [n] reads as [n]. *)
Lemma f32_decode_store_int (n : Z) :
  Z.abs n < 2 ^ 24 -> num_is_Z (f32_decode (f32_store (num_of_Z n))) n.
Proof.
  intros Hb. destruct (Z.eq_dec n 0) as [->|Hn]; [reflexivity|].
  assert (Hb53 : Z.abs n < 2 ^ 53)
    by (apply Z.lt_trans with (2 ^ 24); [exact Hb | reflexivity]).
  assert (Hi : num_is_Z (num_of_Z n) n).
  { rewrite num_of_Z_int_float by assumption.
    apply (num_is_Z_int_float 53 1024); lia. }
  unfold f32_store. rewrite (f32_round_int _ n Hi Hn Hb).
  destruct (int_float_canonical 24 128 ltac:(lia) ltac:(lia) ltac:(lia)
              (Z.abs n) ltac:(lia)) as (Hm1 & Hm2 & He & Hm).
  unfold int_float. rewrite f32_decode_encode_normal.
  - apply (num_is_Z_int_float 24 128); lia.
  - pose proof (digits2_pos_bounds (int_mantissa 24 (Z.abs n))) as B.
    unfold canonical_mantissa, fexp, emin in Hm1.
    apply Z.eqb_eq in Hm1.
    replace (Z.pos (digits2_pos (int_mantissa 24 (Z.abs n)))) with 24
      in B by lia.
    exact B.
  - unfold int_exponent in *.
    pose proof (Z.log2_nonneg (Z.abs n)).
    assert (Z.log2 (Z.abs n) < 24) by (apply Z.log2_lt_pow2; lia).
    lia.
Qed.

Lemma abs_sum_bound (a d k n B : Z) :
  0 <= k <= n -> Z.abs a + n * Z.abs d < B -> Z.abs (a + k * d) < B.
Proof.
  intros Hk Hb. pose proof (Z.abs_triangle a (k * d)) as T.
  rewrite Z.abs_mul, (Z.abs_eq k) in T by lia.
  assert (k * Z.abs d <= n * Z.abs d)
    by (apply Z.mul_le_mono_nonneg_r; [apply Z.abs_nonneg | lia]).
  lia.
Qed.

(** One [lut[i] += delta] on an element that holds the integer [a], for
    a non-zero integer [delta]: the element then holds [a + d]. *)
Lemma accumulate_int (w : Z) (delta : number) (a d : Z) :
  num_is_Z (f32_decode w) a -> num_is_Z delta d -> d <> 0 ->
  Z.abs (a + d) < 2 ^ 24 ->
  f32_accumulate w delta = f32_store (num_of_Z (a + d)).
Proof.
  intros Ha Hd Hd0 Hb. unfold f32_accumulate.
  destruct delta as [s | s | | s m e]; cbn [num_is_Z] in Hd;
    try contradiction.
  destruct (f32_decode w) as [s' | s' | | s' m' e']; cbn [num_is_Z] in Ha;
    try contradiction.
  - subst a. rewrite Z.add_0_l in *. unfold num_add. cbn [SFadd].
    apply f32_store_int; assumption.
  - assert (Hb53 : Z.abs (a + d) < 2 ^ 53)
      by (apply Z.lt_trans with (2 ^ 24); [exact Hb | reflexivity]).
    rewrite (num_add_int s' s m' m e' e a d Ha Hd Hb53).
    destruct (Z.eqb_spec (a + d) 0) as [E0|E0].
    + rewrite E0. reflexivity.
    + rewrite num_of_Z_int_float by assumption. reflexivity.
Qed.

(** [n] times [lut[i] += delta], [n] at least 1. *)
Lemma iter_accumulate_int (delta : number) (d w a : Z) (n : nat) :
  num_is_Z (f32_decode w) a -> num_is_Z delta d -> d <> 0 ->
  Z.abs a + Z.of_nat n * Z.abs d < 2 ^ 24 ->
  (0 < n)%nat ->
  Nat.iter n (fun x => f32_accumulate x delta) w
  = f32_store (num_of_Z (a + Z.of_nat n * d)).
Proof.
  intros Ha Hd Hd0. induction n as [|k IH]; intros Hb Hn; [lia|].
  rewrite Nat.iter_succ.
  replace (a + Z.of_nat (S k) * d) with (a + Z.of_nat k * d + d) by lia.
  assert (Hk : Z.abs (a + Z.of_nat k * d) < 2 ^ 24)
    by (apply abs_sum_bound with (n := Z.of_nat (S k)); [lia | exact Hb]).
  assert (Hk1 : Z.abs (a + Z.of_nat k * d + d) < 2 ^ 24).
  { replace (a + Z.of_nat k * d + d) with (a + Z.of_nat (S k) * d) by lia.
    apply abs_sum_bound with (n := Z.of_nat (S k)); [lia | exact Hb]. }
  destruct k as [|k].
  - cbn [Nat.iter]. replace (a + Z.of_nat 0 * d) with a in * by lia.
    apply accumulate_int; assumption.
  - rewrite IH.
    + apply accumulate_int; try assumption.
      now apply f32_decode_store_int.
    + assert (Z.of_nat (S k) * Z.abs d <= Z.of_nat (S (S k)) * Z.abs d)
        by (apply Z.mul_le_mono_nonneg_r; [apply Z.abs_nonneg | lia]).
      lia.
    + lia.
Qed.

(** Adding a zero a second time changes nothing. *)
Lemma accumulate_zero_idem (w : Z) (s : bool) (a : Z) :
  num_is_Z (f32_decode w) a -> Z.abs a < 2 ^ 24 ->
  f32_accumulate (f32_accumulate w (S754_zero s)) (S754_zero s)
  = f32_accumulate w (S754_zero s).
Proof.
  intros Ha Hb. unfold f32_accumulate.
  destruct (f32_decode w) as [s' | s' | | s' m' e']; cbn [num_is_Z] in Ha;
    try contradiction.
  - destruct s, s'; vm_compute; reflexivity.
  - destruct (num_is_Z_finite s' m' e' a Ha) as (Hn & _ & _).
    change (num_add (S754_finite s' m' e') (S754_zero s))
      with (S754_finite s' m' e').
    rewrite (f32_store_int (S754_finite s' m' e') a Ha Hn Hb).
    pose proof (f32_decode_store_int a Hb) as Hr.
    destruct (f32_decode (f32_store (num_of_Z a)))
      as [t | t | | t m e]; cbn [num_is_Z] in Hr; try contradiction.
    change (num_add (S754_finite t m e) (S754_zero s))
      with (S754_finite t m e).
    apply f32_store_int; assumption.
Qed.

Lemma iter_idem (f : Z -> Z) (w : Z) (n : nat) :
  f (f w) = f w -> (0 < n)%nat -> Nat.iter n f w = f w.
Proof.
  intros Hf Hn. destruct n as [|n]; [lia|]. clear Hn.
  induction n as [|n IH]; [reflexivity|].
  rewrite Nat.iter_succ, IH. exact Hf.
Qed.

(** ** Two updates by [delta] against one by [2 * delta] *)

Lemma count_hits_le (board : list Z) (len : Z)
    (vs : list (list cell_index)) (j : Z) :
  (count_hits board len vs j <= length vs)%nat.
Proof. apply filter_length_le. Qed.

Lemma count_hits_pos (board : list Z) (len : Z)
    (vs : list (list cell_index)) (j : Z) :
  (0 < count_hits board len vs j)%nat ->
  exists v, In v vs /\ _index board v = Some j /\ 0 <= j < len.
Proof.
  unfold count_hits. intros H.
  destruct (filter (fun v => hits board len v j) vs) as [|v l] eqn:E;
    [simpl in H; lia|].
  assert (Hin : In v (filter (fun v => hits board len v j) vs))
    by (rewrite E; now left).
  apply filter_In in Hin. destruct Hin as [Hin Hh].
  exists v. split; [exact Hin|]. unfold hits in Hh.
  destruct (_index board v) as [i|]; [|discriminate].
  apply andb_true_iff in Hh. destruct Hh as [Hh H2].
  apply andb_true_iff in Hh. destruct Hh as [H0 H1].
  apply Z.eqb_eq in H0. subst i.
  apply Z.leb_le in H1. apply Z.ltb_lt in H2. auto.
Qed.

Lemma lut_word_map (f : pattern_entry -> pattern_entry) (net : network)
    (k : nat) (j : Z) :
  lut_word (map f net) k j
  = match nth_error net k with
    | Some p => arr_get (lut (f p)) j
    | None => None
    end.
Proof.
  unfold lut_word. rewrite nth_error_map.
  destruct (nth_error net k); reflexivity.
Qed.

(** On an element that holds the integer [a] and is addressed [h] times,
    [2 * h] additions of the integer [d] store what [h] additions of
    [2 * d] store. *)
Lemma element_doubling (delta : number) (d w a : Z) (h : nat) :
  num_is_Z delta d -> num_is_Z (f32_decode w) a ->
  Z.abs a + 2 * Z.of_nat h * Z.abs d < 2 ^ 24 ->
  Nat.iter h (fun x => f32_accumulate x delta)
           (Nat.iter h (fun x => f32_accumulate x delta) w)
  = Nat.iter h (fun x => f32_accumulate x (num_mul num_2 delta)) w.
Proof.
  intros Hd Ha Hb. destruct (Nat.eq_dec h 0) as [->|Hh]; [reflexivity|].
  pose proof (Z.abs_nonneg a) as A0. pose proof (Z.abs_nonneg d) as D0.
  assert (Hd1 : Z.abs d * 1 <= Z.abs d * Z.of_nat h)
    by (apply Z.mul_le_mono_nonneg_l; lia).
  assert (Hd52 : Z.abs d < 2 ^ 52)
    by (apply Z.lt_trans with (2 ^ 24); [lia | reflexivity]).
  destruct (num_mul_2_int delta d Hd Hd52) as [H2 H0].
  rewrite <- Nat.iter_add.
  destruct (Z.eq_dec d 0) as [E|E].
  - rewrite (H0 E).
    destruct delta as [s | s | | s m e]; cbn [num_is_Z] in Hd;
      try contradiction.
    + assert (Hidem : f32_accumulate (f32_accumulate w (S754_zero s))
                                     (S754_zero s)
                      = f32_accumulate w (S754_zero s))
        by (apply (accumulate_zero_idem w s a Ha); lia).
      rewrite !iter_idem by (exact Hidem || lia). reflexivity.
    + destruct (num_is_Z_finite s m e d Hd) as (Hn & _). contradiction.
  - rewrite (iter_accumulate_int delta d w a (h + h) Ha Hd E)
      by (rewrite ?Nat2Z.inj_add; lia).
    rewrite (iter_accumulate_int (num_mul num_2 delta) (2 * d) w a h
               Ha H2)
      by (rewrite ?Z.abs_mul; change (Z.abs 2) with 2; lia).
    f_equal. f_equal. rewrite Nat2Z.inj_add. lia.
Qed.

Lemma update_twice_pattern (board : list Z) (delta : number) (d : Z)
    (p : pattern_entry) :
  num_is_Z delta d ->
  (forall j,
     (0 < count_hits board (arr_length (lut p)) (variants p) j)%nat ->
     exists a,
       num_is_Z (f32_decode (arr_at (lut p) j)) a /\
       Z.abs a
       + 2 * Z.of_nat (count_hits board (arr_length (lut p))
                         (variants p) j) * Z.abs d < 2 ^ 24) ->
  forall j,
    arr_at (lut (update_pattern board delta
                   (update_pattern board delta p))) j
    = arr_at (lut (update_pattern board (num_mul num_2 delta) p)) j.
Proof.
  intros Hd H j. cbn [update_pattern lut variants].
  destruct (lut_fold_at board delta (variants p) (lut p)) as [Hl Ha].
  destruct (lut_fold_at board delta (variants p)
              (fold_left (lut_add board delta) (variants p) (lut p)))
    as [_ Ha2].
  destruct (lut_fold_at board (num_mul num_2 delta) (variants p) (lut p))
    as [_ Ha3].
  rewrite Ha2, Ha, Ha3, Hl.
  specialize (H j).
  set (c := count_hits board (arr_length (lut p)) (variants p) j) in *.
  destruct (Nat.eq_dec c 0) as [E|E]; [now rewrite E|].
  destruct (H ltac:(lia)) as (a & Hw & Hb).
  exact (element_doubling delta d _ a c Hd Hw Hb).
Qed.

(** C3 (amended): for every network state, board and delta,
    [update(board, 0)] leaves [evaluate] unchanged on every board; and
    two calls of [update(board, delta)] leave the tables, and so
    [evaluate] on every board, as one call of [update(board, 2 * delta)]
    does whenever delta is an integer [d] and every table element the
    update addresses holds an integer [a] with
    [|a| + 2 * h * |d| < 2^24], [h] being the number of variants of the
    pattern that address the element on the board
    ([small_integer_sums]). *)
Theorem update_zero_and_doubling (net : network) (board : list Z)
    (delta : number) :
  lut_words_ok net ->
  (forall b, evaluate (update net board pos_zero) b = evaluate net b) /\
  (small_integer_sums net board delta ->
   same_tables (update (update net board delta) board delta)
               (update net board (num_mul num_2 delta)) /\
   forall b, evaluate (update (update net board delta) board delta) b
             = evaluate (update net board (num_mul num_2 delta)) b).
Proof.
  intros Hok. split.
  - intros b. apply evaluate_same_values.
    now apply update_zero_same_values.
  - intros (d & Hd & Hex).
    assert (Hp : forall p, In p net -> forall j,
              arr_at (lut (update_pattern board delta
                             (update_pattern board delta p))) j
              = arr_at (lut (update_pattern board (num_mul num_2 delta)
                               p)) j).
    { intros p Hin. apply (update_twice_pattern board delta d p Hd).
      intros j. now apply Hex. }
    clear Hex. split; [split|].
    + now rewrite !catalog_update.
    + intros k j. unfold update. rewrite map_map, !lut_word_map.
      destruct (nth_error net k) as [p|] eqn:E; [|reflexivity].
      unfold arr_get, in_range. rewrite (Hp p (nth_error_In _ _ E)).
      cbn [update_pattern lut variants].
      rewrite !(proj1 (lut_fold_at _ _ _ _)). reflexivity.
    + intros b. apply evaluate_same_values. unfold update.
      rewrite map_map. clear Hok.
      induction net as [|p net IH]; [constructor|].
      cbn [map]. constructor.
      * split; [reflexivity|]. split.
        -- cbn [update_pattern lut variants].
           now rewrite !(proj1 (lut_fold_at _ _ _ _)).
        -- intros j _. left. f_equal. apply Hp. now left.
      * apply IH. intros q Hq. apply Hp. now right.
Qed.

Lemma lut_words_ok_new : lut_words_ok NTupleNetwork_new.
Proof.
  intros p j Hp _. unfold NTupleNetwork_new, NTupleNetwork_over in Hp.
  apply in_map_iff in Hp. destruct Hp as (base & <- & _).
  cbn [lut new_Float32Array arr_at]. lia.
Qed.

(** On the fresh network every element is 0 and a pattern has at most 8
    variants. *)
Lemma small_integer_sums_new (board : list Z) :
  small_integer_sums NTupleNetwork_new board (num_of_Z 1).
Proof.
  exists 1. split; [vm_compute; reflexivity|].
  intros p j Hp _. exists 0.
  pose proof (count_hits_le board (arr_length (lut p)) (variants p) j)
    as Hc.
  assert (H8 : forallb (fun q => (length (variants q) <=? 8)%nat)
                       NTupleNetwork_new = true)
    by (vm_compute; reflexivity).
  rewrite forallb_forall in H8. specialize (H8 p Hp).
  apply Nat.leb_le in H8.
  unfold NTupleNetwork_new, NTupleNetwork_over in Hp.
  apply in_map_iff in Hp. destruct Hp as (base & <- & _).
  cbn [lut new_Float32Array arr_at arr_length] in *.
  split; [reflexivity|].
  change (Z.abs 0) with 0. change (Z.abs 1) with 1.
  apply Z.lt_le_trans with (2 * 8 * 1 + 1); [lia | discriminate].
Qed.

(** C3, applied to the fresh network, the corner board and delta 1:
    sums of ones are exact. *)
Lemma update_zero_and_doubling_witness :
  lut_words_ok NTupleNetwork_new /\
  small_integer_sums NTupleNetwork_new corner_board (num_of_Z 1) /\
  evaluate (update NTupleNetwork_new corner_board pos_zero) corner_board
  = evaluate NTupleNetwork_new corner_board /\
  evaluate (update (update NTupleNetwork_new corner_board (num_of_Z 1))
                   corner_board (num_of_Z 1)) corner_board
  = evaluate (update NTupleNetwork_new corner_board
                     (num_mul num_2 (num_of_Z 1))) corner_board.
Proof.
  split; [exact lut_words_ok_new|].
  split; [exact (small_integer_sums_new corner_board)|].
  destruct (update_zero_and_doubling NTupleNetwork_new corner_board
              (num_of_Z 1) lut_words_ok_new) as [H0 H2].
  split; [apply H0|].
  apply (proj2 (H2 (small_integer_sums_new corner_board))).
Defined.

(** C3 as stated fails in 32-bit floats: on the fresh network, two
    updates of the corner board by 0.1 and one update by 0.2 leave
    different tables and different values of [evaluate]. *)
Lemma update_doubling_counterexample :
  num_mul num_2 num_0_1 = num_0_2 /\
  lut_word (update (update NTupleNetwork_new corner_board num_0_1)
                   corner_board num_0_1) 0 0 = Some 1067030939 /\
  lut_word (update NTupleNetwork_new corner_board
                   (num_mul num_2 num_0_1)) 0 0 = Some 1067030938 /\
  evaluate (update (update NTupleNetwork_new corner_board num_0_1)
                   corner_board num_0_1) corner_board
  <> evaluate (update NTupleNetwork_new corner_board
                      (num_mul num_2 num_0_1)) corner_board.
Proof.
  split; [vm_compute; reflexivity|]. split; [vm_compute; reflexivity|].
  split; [vm_compute; reflexivity|]. vm_compute. discriminate.
Qed.

(** ** The binary format *)

Lemma le_bytes_word (v : Z) :
  le_byte v 0 + le_byte v 1 * 2 ^ 8 + le_byte v 2 * 2 ^ 16
  + le_byte v 3 * 2 ^ 24 = v mod 2 ^ 32.
Proof.
  unfold le_byte.
  change (2 ^ (8 * 0)) with 1. change (2 ^ (8 * 1)) with 256.
  change (2 ^ (8 * 2)) with (256 * 256).
  change (2 ^ (8 * 3)) with (256 * 256 * 256).
  rewrite Z.div_1_r.
  rewrite <- !Z.div_div by lia.
  pose proof (Z.div_mod v 256 ltac:(lia)) as H0.
  pose proof (Z.mod_pos_bound v 256 ltac:(lia)) as B0.
  set (q1 := v / 256) in *.
  pose proof (Z.div_mod q1 256 ltac:(lia)) as H1.
  pose proof (Z.mod_pos_bound q1 256 ltac:(lia)) as B1.
  set (q2 := q1 / 256) in *.
  pose proof (Z.div_mod q2 256 ltac:(lia)) as H2.
  pose proof (Z.mod_pos_bound q2 256 ltac:(lia)) as B2.
  set (q3 := q2 / 256) in *.
  pose proof (Z.div_mod q3 256 ltac:(lia)) as H3.
  pose proof (Z.mod_pos_bound q3 256 ltac:(lia)) as B3.
  apply Z.mod_unique with (q := q3 / 256); lia.
Qed.

Lemma to_int32_small (v : Z) :
  0 <= v < 2 ^ 31 -> to_int32 (v mod 2 ^ 32) = v.
Proof.
  intros H. unfold to_int32.
  rewrite (Z.mod_small v) by lia. rewrite Z.mod_small by lia. lia.
Qed.

Lemma le_word_bytes_are (buf : bytes) (off v : Z) :
  bytes_are buf off v -> le_word buf off = v mod 2 ^ 32.
Proof.
  intros H. unfold le_word.
  rewrite <- (Z.add_0_r off) at 1.
  rewrite !H by lia. apply le_bytes_word.
Qed.

Lemma totalSize_records (net : network) : totalSize net = 8 + records_size net.
Proof.
  unfold totalSize.
  assert (H : forall start,
            fold_left (fun total p => total + (8 + arr_length (lut p) * 4))
                      net start
            = start + records_size net).
  { induction net as [|p net IH]; intros start;
      cbn [fold_left records_size fold_right]; [lia|].
    rewrite IH. fold (records_size net). lia. }
  apply H.
Qed.

Lemma records_size_nonneg (ps : list pattern_entry) :
  (forall p, In p ps -> 0 <= arr_length (lut p)) -> 0 <= records_size ps.
Proof.
  induction ps as [|p ps IH]; intros H; cbn [records_size fold_right];
    [lia|].
  fold (records_size ps).
  pose proof (H p (or_introl eq_refl)).
  assert (0 <= records_size ps) by (apply IH; intros q Hq; apply H; now right).
  lia.
Qed.

(** What the loop of [saveBinary] has written below its offset stays. *)
Lemma saveBinary_fold_frame (ps : list pattern_entry) (buf : bytes)
    (off : Z) :
  (forall p, In p ps -> 0 <= arr_length (lut p)) ->
  arr_length (fst (fold_left saveBinary_step ps (buf, off)))
  = arr_length buf /\
  forall i, i < off ->
    arr_at (fst (fold_left saveBinary_step ps (buf, off))) i = arr_at buf i.
Proof.
  revert buf off. induction ps as [|p ps IH]; intros buf off Hlen;
    [split; reflexivity|].
  cbn [fold_left]. unfold saveBinary_step at 2 4.
  cbn [lut_bytes arr_length].
  pose proof (Hlen p (or_introl eq_refl)) as Hp.
  destruct (IH (set_bytes
                  (setInt32 (setInt32 buf off (tupleLen p)) (off + 4)
                            (arr_length (lut p)))
                  (off + 4 + 4) (lut_bytes (lut p)))
               (off + 4 + 4 + arr_length (lut p) * 4)
               (fun q Hq => Hlen q (or_intror Hq))) as [IHl IHa].
  cbn [lut_bytes arr_length] in *.
  split; [rewrite IHl; reflexivity|].
  intros i Hi. rewrite IHa by lia.
  cbn [set_bytes setInt32 arr_at arr_length lut_bytes].
  replace ((off + 4 + 4 <=? i)) with false by (symmetry; apply Z.leb_gt; lia).
  replace ((off + 4 <=? i)) with false by (symmetry; apply Z.leb_gt; lia).
  replace ((off <=? i)) with false by (symmetry; apply Z.leb_gt; lia).
  reflexivity.
Qed.

Lemma div4_mod4 (j t : Z) :
  0 <= t < 4 -> (4 * j + t) / 4 = j /\ (4 * j + t) mod 4 = t.
Proof.
  intros H. split.
  - symmetry. apply Z.div_unique with (r := t); lia.
  - symmetry. apply Z.mod_unique with (q := j); lia.
Qed.

(** What one step of the loop of [saveBinary] writes. *)
Lemma saveBinary_step_bytes (buf : bytes) (off : Z) (p : pattern_entry) :
  0 <= arr_length (lut p) ->
  let buf1 := fst (saveBinary_step (buf, off) p) in
  snd (saveBinary_step (buf, off) p) = off + 8 + arr_length (lut p) * 4 /\
  bytes_are buf1 (off + 4) (arr_length (lut p)) /\
  forall j, 0 <= j < arr_length (lut p) ->
            bytes_are buf1 (off + 8 + 4 * j) (arr_at (lut p) j).
Proof.
  intros Hlen buf1. unfold saveBinary_step in *.
  cbn [fst snd lut_bytes arr_length] in *.
  split; [lia|]. split.
  - intros t Ht. unfold buf1.
    cbn [set_bytes setInt32 arr_at arr_length lut_bytes].
    replace (off + 4 + 4 <=? off + 4 + t) with false
      by (symmetry; apply Z.leb_gt; lia).
    replace (off + 4 <=? off + 4 + t) with true
      by (symmetry; apply Z.leb_le; lia).
    replace (off + 4 + t <? off + 4 + 4) with true
      by (symmetry; apply Z.ltb_lt; lia).
    cbn [andb]. f_equal. lia.
  - intros j Hj t Ht. unfold buf1.
    cbn [set_bytes setInt32 arr_at arr_length lut_bytes].
    replace (off + 4 + 4 <=? off + 8 + 4 * j + t) with true
      by (symmetry; apply Z.leb_le; lia).
    replace (off + 8 + 4 * j + t <? off + 4 + 4 + arr_length (lut p) * 4)
      with true by (symmetry; apply Z.ltb_lt; lia).
    cbn [andb].
    replace (off + 8 + 4 * j + t - (off + 4 + 4)) with (4 * j + t) by lia.
    destruct (div4_mod4 j t Ht) as [-> ->]. reflexivity.
Qed.

Lemma bytes_are_frame (buf buf' : bytes) (off v bound : Z) :
  (forall i, i < bound -> arr_at buf' i = arr_at buf i) ->
  off + 4 <= bound -> bytes_are buf off v -> bytes_are buf' off v.
Proof.
  intros Hf Hb H t Ht. rewrite Hf by lia. now apply H.
Qed.

(** Reading back what the loop of [saveBinary] wrote. *)
Lemma loadBinary_from_saved (ps todo : list pattern_entry) :
  Forall2 (fun p q => arr_length (lut q) = arr_length (lut p)) ps todo ->
  forall (buf : bytes) (off : Z) (i : nat),
  (forall p, In p ps ->
     0 <= arr_length (lut p) < 2 ^ 31 /\
     forall j, 0 <= j < arr_length (lut p) ->
               0 <= arr_at (lut p) j < 2 ^ 32) ->
  0 <= off -> off mod 4 = 0 ->
  off + records_size ps <= arr_length buf ->
  let file := fst (fold_left saveBinary_step ps (buf, off)) in
  fst (loadBinary_from file i off todo) = Returned /\
  Forall2 (fun p q' =>
             arr_length (lut q') = arr_length (lut p) /\
             forall j, 0 <= j < arr_length (lut p) ->
                       arr_at (lut q') j = arr_at (lut p) j)
          ps (snd (loadBinary_from file i off todo)) /\
  Forall2 (fun q q' => tupleLen q' = tupleLen q /\
                       variants q' = variants q)
          todo (snd (loadBinary_from file i off todo)).
Proof.
  induction 1 as [|p q ps todo Hpq _ IH]; intros buf off i Hok Hoff Hal Hsz.
  - cbn. repeat split; constructor.
  - intros file.
    destruct (Hok p (or_introl eq_refl)) as [Hlen Hwords].
    assert (Hrest : 0 <= records_size ps).
    { apply records_size_nonneg. intros r Hr.
      destruct (Hok r (or_intror Hr)). lia. }
    cbn [records_size fold_right] in Hsz. fold (records_size ps) in Hsz.
    destruct (saveBinary_step_bytes buf off p ltac:(lia))
      as (Hoff1 & Hlenb & Hwb).
    unfold file. cbn [fold_left].
    destruct (saveBinary_step (buf, off) p) as [buf1 off1] eqn:Es.
    cbn [fst snd] in Hoff1, Hlenb, Hwb. subst off1.
    set (file' := fst (fold_left saveBinary_step ps
                         (buf1, off + 8 + arr_length (lut p) * 4))).
    assert (Hb1 : arr_length buf1 = arr_length buf).
    { unfold saveBinary_step in Es. injection Es as <- _. reflexivity. }
    destruct (saveBinary_fold_frame ps buf1
                (off + 8 + arr_length (lut p) * 4))
      as [Hfl Hfa].
    { intros r Hr. destruct (Hok r (or_intror Hr)). lia. }
    fold file' in Hfl, Hfa.
    cbn [loadBinary_from].
    assert (G0 : getInt32 file' off
                 = Some (to_int32 (le_word file' off))).
    { unfold getInt32.
      replace ((0 <=? off) && (off + 4 <=? arr_length file')) with true;
        [reflexivity|].
      symmetry. apply andb_true_iff.
      split; [apply Z.leb_le | apply Z.leb_le]; lia. }
    rewrite G0.
    assert (G1 : getInt32 file' (off + 4) = Some (arr_length (lut p))).
    { unfold getInt32.
      replace ((0 <=? off + 4) && (off + 4 + 4 <=? arr_length file'))
        with true
        by (symmetry; apply andb_true_iff;
            split; [apply Z.leb_le | apply Z.leb_le]; lia).
      rewrite (le_word_bytes_are file' (off + 4) (arr_length (lut p))).
      - now rewrite to_int32_small.
      - apply (bytes_are_frame buf1 file' _ _
                 (off + 8 + arr_length (lut p) * 4) Hfa); [lia | exact Hlenb]. }
    rewrite G1, Hpq, Z.eqb_refl. cbn [negb].
    unfold f32_view.
    replace (((off + 8) mod 4 =? 0) && (0 <=? arr_length (lut p))
             && (off + 8 + arr_length (lut p) * 4 <=? arr_length file'))
      with true.
    2:{ symmetry. apply andb_true_iff. split; [apply andb_true_iff; split|].
        - apply Z.eqb_eq.
          replace (off + 8) with (off + 2 * 4) by lia.
          now rewrite Z.mod_add by lia.
        - apply Z.leb_le. lia.
        - apply Z.leb_le. lia. }
    destruct (IH buf1 (off + 8 + arr_length (lut p) * 4) (S i))
      as (R1 & R2 & R3).
    { intros r Hr. apply Hok. now right. }
    { lia. }
    { replace (off + 8 + arr_length (lut p) * 4)
        with (off + (2 + arr_length (lut p)) * 4) by lia.
      now rewrite Z.mod_add by lia. }
    { lia. }
    fold file' in R1, R2, R3.
    destruct (loadBinary_from file' (S i)
                (off + 8 + arr_length (lut p) * 4) todo) as [o rest'].
    cbn [fst snd] in *.
    split; [exact R1|]. split.
    + constructor; [|exact R2].
      cbn [with_lut lut f32_set_typed arr_length arr_at].
      split; [exact Hpq|]. intros j Hj.
      unfold in_range. cbn [arr_length arr_at].
      replace ((0 <=? j) && (j <? arr_length (lut p))) with true
        by (symmetry; apply andb_true_iff;
            split; [apply Z.leb_le | apply Z.ltb_lt]; lia).
      rewrite (le_word_bytes_are file' (off + 8 + 4 * j) (arr_at (lut p) j)).
      * apply Z.mod_small. now apply Hwords.
      * apply (bytes_are_frame buf1 file' _ _
                 (off + 8 + arr_length (lut p) * 4) Hfa);
          [lia | now apply Hwb].
    + constructor; [|exact R3]. split; reflexivity.
Qed.

(** ** The text format *)

Lemma json_store (w : Z) :
  0 <= w < 2 ^ 32 -> f32_expo w <> 255 -> w <> 2 ^ 31 ->
  f32_store (match json_number (f32_decode w) with
             | Some x => x
             | None => pos_zero
             end) = w.
Proof.
  intros Hw He Hz.
  destruct (f32_decode w) as [s | s | | s m e] eqn:E; cbn [json_number].
  - (* a zero: the word is the sign bit alone *)
    destruct (f32_fields w Hw) as (Hf & Hexp & Hfrac).
    unfold f32_decode in E.
    destruct (Z.eqb_spec (f32_expo w) 0) as [E0|E0].
    + destruct (Z.eqb_spec (f32_frac w) 0) as [M0|M0]; [|discriminate].
      injection E as Es. unfold sign_bit in Hf. rewrite Es in Hf.
      destruct s; [lia|].
      replace w with 0 by lia. reflexivity.
    + destruct (f32_expo w =? 255); [destruct (f32_frac w =? 0)|];
        discriminate.
  - exfalso. unfold f32_decode in E.
    destruct (Z.eqb_spec (f32_expo w) 0) as [E0|E0].
    + destruct (f32_frac w =? 0); discriminate.
    + destruct (Z.eqb_spec (f32_expo w) 255); [contradiction | discriminate].
  - exfalso. unfold f32_decode in E.
    destruct (Z.eqb_spec (f32_expo w) 0) as [E0|E0].
    + destruct (f32_frac w =? 0); discriminate.
    + destruct (Z.eqb_spec (f32_expo w) 255); [contradiction | discriminate].
  - rewrite <- E. now apply f32_store_decode.
Qed.

(** Reading back what [save] wrote. *)
Lemma load_from_saved (ps todo : list pattern_entry) :
  Forall2 (fun p q => arr_length (lut q) = arr_length (lut p)) ps todo ->
  forall pre : list pattern_entry,
  (forall p j, In p ps -> 0 <= j < arr_length (lut p) ->
     0 <= arr_at (lut p) j < 2 ^ 32 /\
     f32_expo (arr_at (lut p) j) <> 255 /\ arr_at (lut p) j <> 2 ^ 31) ->
  let data := save (pre ++ ps) in
  fst (load_from data (length pre) todo) = Returned /\
  Forall2 (fun p q' =>
             arr_length (lut q') = arr_length (lut p) /\
             forall j, 0 <= j < arr_length (lut p) ->
                       arr_at (lut q') j = arr_at (lut p) j)
          ps (snd (load_from data (length pre) todo)) /\
  Forall2 (fun q q' => tupleLen q' = tupleLen q /\
                       variants q' = variants q)
          todo (snd (load_from data (length pre) todo)).
Proof.
  induction 1 as [|p q ps todo Hpq _ IH]; intros pre Hok data.
  - cbn. repeat split; constructor.
  - cbn [load_from].
    assert (Hn : nth_error (wd_patterns data) (length pre)
                 = Some {| sp_tupleLen := tupleLen p;
                           sp_numVariants := Z.of_nat (length (variants p));
                           sp_lutSize := arr_length (lut p);
                           sp_lut :=
                             {| arr_length := arr_length (lut p);
                                arr_at := fun i =>
                                  json_number
                                    (f32_decode (arr_at (lut p) i)) |} |}).
    { unfold data, save. cbn [wd_patterns].
      rewrite nth_error_map, nth_error_app2, Nat.sub_diag by lia.
      reflexivity. }
    rewrite Hn. cbn [sp_lutSize sp_lut].
    rewrite Hpq, Z.eqb_refl. cbn [negb].
    unfold f32_set_array. cbn [arr_length].
    rewrite Hpq, Z.ltb_irrefl.
    specialize (IH (pre ++ [p])).
    rewrite <- app_assoc in IH. cbn [app] in IH.
    rewrite length_app in IH. cbn [length] in IH.
    rewrite Nat.add_1_r in IH. fold data in IH.
    destruct IH as (R1 & R2 & R3).
    { intros r j Hr. apply Hok. now right. }
    destruct (load_from data (S (length pre)) todo) as [o rest'].
    cbn [fst snd] in *.
    split; [exact R1|]. split.
    + constructor; [|exact R2].
      cbn [with_lut lut arr_length arr_at].
      split; [first [exact Hpq | reflexivity]|]. intros j Hj.
      unfold in_range. cbn [arr_length arr_at].
      replace ((0 <=? j) && (j <? arr_length (lut p))) with true
        by (symmetry; apply andb_true_iff;
            split; [apply Z.leb_le | apply Z.ltb_lt]; lia).
      destruct (Hok p j (or_introl eq_refl) Hj) as (Hw & He & Hz).
      now apply json_store.
    + constructor; [|exact R3]. split; reflexivity.
Qed.

(** ** Round trips *)

Lemma catalog_Forall2 (net net0 : network) :
  catalog net0 = catalog net ->
  Forall2 (fun p q => tupleLen q = tupleLen p /\ variants q = variants p /\
                      arr_length (lut q) = arr_length (lut p)) net net0.
Proof.
  unfold catalog. revert net0.
  induction net as [|p net IH]; intros [|q net0] H; try discriminate;
    [constructor|].
  cbn [map] in H. injection H as H1 H2 H3 H4.
  constructor; [auto | now apply IH].
Qed.

(** A network that has the catalog of [net0] and the tables of [net]
    is [net] again when the catalogs agree. *)
Lemma restored_network (net net0 net' : network) :
  catalog net0 = catalog net ->
  Forall2 (fun p q' =>
             arr_length (lut q') = arr_length (lut p) /\
             forall j, 0 <= j < arr_length (lut p) ->
                       arr_at (lut q') j = arr_at (lut p) j) net net' ->
  Forall2 (fun q q' => tupleLen q' = tupleLen q /\
                       variants q' = variants q) net0 net' ->
  same_tables net' net /\
  forall b, evaluate net' b = evaluate net b.
Proof.
  intros Hcat H1 H2. apply catalog_Forall2 in Hcat.
  assert (H : Forall2 (fun q' p =>
                tupleLen q' = tupleLen p /\ variants q' = variants p /\
                arr_length (lut q') = arr_length (lut p) /\
                forall j, 0 <= j < arr_length (lut p) ->
                          arr_at (lut q') j = arr_at (lut p) j) net' net).
  { revert net0 net' Hcat H1 H2.
    induction net as [|p net IH]; intros net0 net' Hcat H1 H2.
    - inversion H1; subst. constructor.
    - inversion H1 as [|? q' ? rest' [Ha Hb] H1']; subst.
      inversion Hcat as [|? q ? rest0 (Hc & Hd & He) Hcat']; subst.
      inversion H2 as [|? ? ? ? [Hf Hg] H2']; subst.
      constructor; [|now apply (IH rest0)].
      repeat split; try congruence. exact Hb. }
  clear H1 H2 Hcat. split; [split|].
  - unfold catalog. induction H as [|q' p net' net (Ha & Hb & Hc & _) _ IH];
      [reflexivity|].
    cbn [map]. now rewrite Ha, Hb, Hc, IH.
  - intros k j. unfold lut_word. revert k.
    induction H as [|q' p net' net (_ & _ & Hc & Hd) _ IH]; intros k;
      [destruct k; reflexivity|].
    destruct k as [|k]; [|apply IH].
    cbn [nth_error]. unfold arr_get, in_range. rewrite Hc.
    destruct ((0 <=? j) && (j <? arr_length (lut p))) eqn:E; [|reflexivity].
    apply andb_true_iff in E. destruct E as [E1 E2].
    apply Z.leb_le in E1. apply Z.ltb_lt in E2.
    now rewrite Hd by lia.
  - intros b. apply evaluate_same_values.
    induction H as [|q' p net' net (_ & Hb & Hc & Hd) _ IH]; constructor;
      [|exact IH].
    split; [exact Hb|]. split; [exact Hc|].
    intros j Hj. left.
    unfold in_range in Hj. apply andb_true_iff in Hj.
    destruct Hj as [E1 E2]. apply Z.leb_le in E1. apply Z.ltb_lt in E2.
    rewrite Hd by lia. reflexivity.
Qed.

(** C4 (amended): for every network state, [saveBinary] followed by
    [loadBinary] into a network with the same catalog returns and
    restores the tables bit for bit, so [evaluate] is identical on every
    board; [save] followed by [load] does the same when every table
    element is finite and is not the negative zero. *)
Theorem save_load_round_trip (net net0 : network) :
  catalog net0 = catalog net -> lut_words_ok net -> int32_sized net ->
  (fst (loadBinary (saveBinary net) net0) = Returned /\
   same_tables (snd (loadBinary (saveBinary net) net0)) net /\
   forall b, evaluate (snd (loadBinary (saveBinary net) net0)) b
             = evaluate net b) /\
  (finite_tables net ->
   fst (load (save net) net0) = Returned /\
   same_tables (snd (load (save net) net0)) net /\
   forall b, evaluate (snd (load (save net) net0)) b = evaluate net b).
Proof.
  intros Hcat Hok [Hcount Hsizes].
  assert (Hlen : length net0 = length net).
  { apply (f_equal (@length _)) in Hcat. unfold catalog in Hcat.
    now rewrite !length_map in Hcat. }
  assert (Hshape : Forall2 (fun p q => arr_length (lut q) = arr_length (lut p))
                           net net0).
  { apply (Forall2_impl _ (fun p q H => proj2 (proj2 H))
             (catalog_Forall2 net net0 Hcat)). }
  assert (Hin : forall p j, In p net -> 0 <= j < arr_length (lut p) ->
                            in_range (lut p) j = true).
  { intros p j _ Hj. unfold in_range. apply andb_true_iff.
    split; [apply Z.leb_le | apply Z.ltb_lt]; lia. }
  split.
  - (* binary *)
    set (buffer := setInt32
                     (setInt32 {| arr_length := totalSize net;
                                  arr_at := fun _ => 0 |} 0 1)
                     4 (Z.of_nat (length net))).
    assert (Hsave : saveBinary net
                    = fst (fold_left saveBinary_step net (buffer, 8)))
      by reflexivity.
    destruct (saveBinary_fold_frame net buffer 8) as [Hfl Hfa].
    { intros p Hp. destruct (Hsizes p Hp). lia. }
    rewrite <- Hsave in Hfl, Hfa.
    assert (Hsize : arr_length (saveBinary net) = 8 + records_size net).
    { rewrite Hfl. unfold buffer. cbn [setInt32 arr_length].
      apply totalSize_records. }
    assert (Hrs : 0 <= records_size net).
    { apply records_size_nonneg. intros p Hp. destruct (Hsizes p Hp). lia. }
    unfold loadBinary.
    assert (G0 : getInt32 (saveBinary net) 0
                 = Some (to_int32 (le_word (saveBinary net) 0))).
    { unfold getInt32. rewrite Hsize.
      replace ((0 <=? 0) && (0 + 4 <=? 8 + records_size net)) with true;
        [reflexivity|].
      symmetry. apply andb_true_iff. split; apply Z.leb_le; lia. }
    rewrite G0.
    assert (G1 : getInt32 (saveBinary net) 4
                 = Some (Z.of_nat (length net))).
    { unfold getInt32. rewrite Hsize.
      replace ((0 <=? 4) && (4 + 4 <=? 8 + records_size net)) with true
        by (symmetry; apply andb_true_iff; split; apply Z.leb_le; lia).
      rewrite (le_word_bytes_are _ 4 (Z.of_nat (length net))).
      - rewrite to_int32_small by lia. reflexivity.
      - intros t Ht. rewrite Hfa by lia. unfold buffer.
        cbn [setInt32 arr_at].
        replace ((4 <=? 4 + t) && (4 + t <? 4 + 4)) with true
          by (symmetry; apply andb_true_iff;
              split; [apply Z.leb_le | apply Z.ltb_lt]; lia).
        f_equal. lia. }
    rewrite G1, Hlen, Z.eqb_refl. cbn [negb].
    destruct (loadBinary_from_saved net net0 Hshape buffer 8 0)
      as (R1 & R2 & R3).
    { intros p Hp. split; [now apply Hsizes|].
      intros j Hj. apply Hok; [exact Hp | now apply Hin]. }
    { lia. }
    { reflexivity. }
    { unfold buffer. cbn [setInt32 arr_length].
      rewrite totalSize_records. lia. }
    rewrite <- Hsave in R1, R2, R3.
    split; [exact R1|].
    exact (restored_network net net0 _ Hcat R2 R3).
  - (* text *)
    intros Hfin. unfold load. cbn [save wd_numPatterns].
    rewrite Hlen, Z.eqb_refl. cbn [negb].
    destruct (load_from_saved net net0 Hshape []) as (R1 & R2 & R3).
    { intros p j Hp Hj. pose proof (Hin p j Hp Hj) as Hr.
      split; [now apply Hok | now apply Hfin]. }
    cbn [app length] in R1, R2, R3.
    split; [exact R1|].
    exact (restored_network net net0 _ Hcat R2 R3).
Qed.

(** The methods keep the invariants of a network. *)
Lemma lut_words_ok_update (net : network) (board : list Z) (delta : number) :
  lut_words_ok net -> lut_words_ok (update net board delta).
Proof.
  intros Hok p' j Hp' Hj. unfold update in Hp'.
  apply in_map_iff in Hp'. destruct Hp' as (p & <- & Hp).
  cbn [update_pattern lut] in *.
  destruct (lut_fold_at board delta (variants p) (lut p)) as [Hl Ha].
  rewrite Ha.
  destruct (count_hits board (arr_length (lut p)) (variants p) j) as [|c].
  - apply (Hok p j Hp). unfold in_range in *. now rewrite <- Hl.
  - rewrite Nat.iter_succ. apply f32_accumulate_range.
Qed.

Lemma int32_sized_catalog (net : network) :
  catalog net = catalog NTupleNetwork_new -> int32_sized net.
Proof.
  intros Hcat. split.
  - apply (f_equal (@length _)) in Hcat. unfold catalog in Hcat.
    rewrite !length_map in Hcat. rewrite Hcat. vm_compute. reflexivity.
  - intros p Hp.
    assert (Hall : forallb (fun e => (0 <=? snd e) && (snd e <? 2 ^ 31))
                           (catalog NTupleNetwork_new) = true)
      by (vm_compute; reflexivity).
    rewrite <- Hcat in Hall. rewrite forallb_forall in Hall.
    specialize (Hall (tupleLen p, variants p, arr_length (lut p))).
    cbn [snd] in Hall.
    assert (Hin : In (tupleLen p, variants p, arr_length (lut p))
                     (catalog net))
      by (unfold catalog; apply in_map_iff; now exists p).
    specialize (Hall Hin). apply andb_true_iff in Hall.
    destruct Hall as [H0 H1]. apply Z.leb_le in H0. apply Z.ltb_lt in H1.
    lia.
Qed.

Lemma allSymmetries_bound (pattern : list cell_index) :
  (length (allSymmetries pattern) <= 8)%nat.
Proof.
  unfold allSymmetries, allSymmetries_over.
  rewrite (allSymmetries_fold pattern Symmetry4.SYMMETRY_MAPS [] []).
  - cbn [app].
    exact (dedup_after_length _ cell_index_list_eq_dec []
             (map (applySymmetry pattern) Symmetry4.SYMMETRY_MAPS)).
  - auto.
  - constructor.
  - intros k. split; [intros [] | intros (v & [] & _)].
Qed.

Lemma finite_tables_trained : finite_tables trained_network.
Proof.
  intros p' j Hp' _. unfold trained_network, update in Hp'.
  apply in_map_iff in Hp'. destruct Hp' as (p & <- & Hp).
  cbn [update_pattern lut].
  destruct (lut_fold_at corner_board num_0_1 (variants p) (lut p))
    as [_ Ha].
  rewrite Ha.
  pose proof (count_hits_le corner_board (arr_length (lut p)) (variants p) j)
    as Hc.
  assert (Hv : (length (variants p) <= 8)%nat /\ arr_at (lut p) j = 0).
  { unfold NTupleNetwork_new, NTupleNetwork_over in Hp.
    apply in_map_iff in Hp. destruct Hp as (base & <- & _).
    cbn [variants lut new_Float32Array arr_at].
    split; [|reflexivity].
    apply (allSymmetries_bound base). }
  destruct Hv as [Hv ->].
  set (c := count_hits corner_board (arr_length (lut p)) (variants p) j) in *.
  assert (Hc8 : (c <= 8)%nat) by lia. clear Hc Hv Ha.
  do 9 (destruct c as [|c]; [vm_compute; split; discriminate|]).
  lia.
Qed.

(** C4, applied: the network after one update, saved and loaded into a
    fresh network, in both formats. *)
Lemma save_load_round_trip_witness :
  catalog NTupleNetwork_new = catalog trained_network /\
  lut_words_ok trained_network /\ int32_sized trained_network /\
  finite_tables trained_network /\
  fst (loadBinary (saveBinary trained_network) NTupleNetwork_new)
  = Returned /\
  (forall b,
     evaluate (snd (loadBinary (saveBinary trained_network)
                               NTupleNetwork_new)) b
     = evaluate trained_network b) /\
  fst (load (save trained_network) NTupleNetwork_new) = Returned /\
  (forall b,
     evaluate (snd (load (save trained_network) NTupleNetwork_new)) b
     = evaluate trained_network b).
Proof.
  assert (Hcat : catalog NTupleNetwork_new = catalog trained_network).
  { symmetry. apply catalog_update. }
  assert (Hok : lut_words_ok trained_network)
    by apply lut_words_ok_update, lut_words_ok_new.
  assert (Hsz : int32_sized trained_network)
    by (apply int32_sized_catalog; now symmetry).
  destruct (save_load_round_trip trained_network NTupleNetwork_new
              Hcat Hok Hsz) as [(B1 & _ & B3) T].
  destruct (T finite_tables_trained) as (T1 & _ & T3).
  split; [exact Hcat|]. split; [exact Hok|]. split; [exact Hsz|].
  split; [exact finite_tables_trained|].
  auto.
Defined.

(** C4 as stated fails for the text format on a network whose tables hold
    an infinity: [JSON.stringify] writes [null] for it and [load] stores
    0, so [evaluate] changes from [Infinity] to a finite number. *)
Lemma save_load_text_counterexample :
  catalog NTupleNetwork_new = catalog overflowed_network /\
  lut_words_ok overflowed_network /\
  fst (load (save overflowed_network) NTupleNetwork_new) = Returned /\
  evaluate overflowed_network corner_board = pos_infinity /\
  evaluate (snd (load (save overflowed_network) NTupleNetwork_new))
           corner_board = pos_zero /\
  evaluate (snd (load (save overflowed_network) NTupleNetwork_new))
           corner_board
  <> evaluate overflowed_network corner_board.
Proof.
  split; [symmetry; apply catalog_update|].
  split; [apply lut_words_ok_update, lut_words_ok_new|].
  split; [vm_compute; reflexivity|]. split; [vm_compute; reflexivity|].
  split; [vm_compute; reflexivity|]. vm_compute. discriminate.
Qed.

(* ===================================================================== *)
(** * Part III: further properties of the engine, the players, the
      network, the weight files and the GIF encoder *)
(* ===================================================================== *)

(** ** Boards used as examples *)

Lemma board4_two_pairs : board4 two_pairs_board.
Proof.
  split; [reflexivity | repeat (apply Forall_cons; [lia|]); apply Forall_nil].
Defined.

Lemma codes_two_pairs (n : Z) : 3 <= n -> codes_at_most n two_pairs_board.
Proof.
  intros H. repeat (apply Forall_cons; [lia|]); apply Forall_nil.
Defined.

Lemma board4_stuck : board4 stuck_board.
Proof.
  split; [reflexivity | repeat (apply Forall_cons; [lia|]); apply Forall_nil].
Defined.

Lemma stuck_board_no_action : forall dir, ~ legal 4 stuck_board dir.
Proof.
  intros d [Hin Hm]. cbn [In] in Hin.
  destruct Hin as [<- | [<- | [<- | [<- | []]]]];
    vm_compute in Hm; discriminate Hm.
Defined.

Lemma two_pairs_left_legal : legal 4 two_pairs_board 3.
Proof. split; [cbn [In]; auto | reflexivity]. Defined.

(** ** The board after a move, line by line *)

Lemma differs4_iff (x y : list Z) :
  length x = 4%nat -> length y = 4%nat ->
  (differs 4 0 x y = false <-> x = y).
Proof.
  intros Hx Hy.
  destruct (length4_inv x Hx) as (x0 & x1 & x2 & x3 & ->).
  destruct (length4_inv y Hy) as (y0 & y1 & y2 & y3 & ->).
  split; [apply differs4_false|].
  intros E. injection E as -> -> -> ->.
  cbn [differs aget nth]. now rewrite !Z.eqb_refl.
Qed.

(** [move] slides every line toward the edge of the action, and nothing
    else: the lines of the board after the call are the slid lines of the
    board before it, [moved] tells whether a line changed, and the reward
    is the sum of the rewards of the lines. *)
Lemma move4_lines (b : list Z) (dir : Z) :
  board4 b -> 0 <= dir <= 3 ->
  board4 (mr_board (move 4 b dir)) /\
  lines_toward dir (mr_board (move 4 b dir))
  = map (fun l => fst (slideLine l 4)) (lines_toward dir b) /\
  moved (move 4 b dir)
  = existsb (fun l => differs 4 0 (fst (slideLine l 4)) l)
            (lines_toward dir b) /\
  reward (move 4 b dir)
  = sumZ (map (fun l => snd (slideLine l 4)) (lines_toward dir b)).
Proof.
  intros Hb Hdir.
  destruct (board4_inv b Hb) as
    (a0 & a1 & a2 & a3 & a4 & a5 & a6 & a7 & a8 & a9 & a10 & a11 & a12
     & a13 & a14 & a15 & -> & Hc).
  clear Hb. byte_facts.
  assert (Hd : dir = 0 \/ dir = 1 \/ dir = 2 \/ dir = 3) by lia.
  destruct Hd as [-> | [-> | [-> | ->]]].
  all: match goal with
       | |- context [lines_toward ?d (?x :: ?r)] =>
           let v := eval cbv in (lines_toward d (x :: r)) in
           change (lines_toward d (x :: r)) with v
       end; unfold sumZ; cbn [map existsb fold_right].
  all: unfold move; cbn [move_loop repeat].
  all: do 4 step_once.
  all: cbn [mr_board moved reward ms_board ms_reward ms_moved fst snd].
  all: split; [split; [reflexivity | byte_goal]|].
  all: split; [reflexivity|].
  all: split; [|lia].
  all: repeat match goal with
       | |- context [differs 4 0 ?l ?o] => destruct (differs 4 0 l o)
       end; reflexivity.
Qed.

Lemma lines_toward_shape (b : list Z) (dir : Z) :
  board4 b -> 0 <= dir <= 3 ->
  Forall (fun l => length l = 4%nat /\ byte_cells l) (lines_toward dir b).
Proof.
  intros Hb Hdir.
  destruct (board4_inv b Hb) as
    (a0 & a1 & a2 & a3 & a4 & a5 & a6 & a7 & a8 & a9 & a10 & a11 & a12
     & a13 & a14 & a15 & -> & Hc).
  clear Hb. byte_facts.
  assert (Hd : dir = 0 \/ dir = 1 \/ dir = 2 \/ dir = 3) by lia.
  destruct Hd as [-> | [-> | [-> | ->]]].
  all: cbv [lines_toward rows4 cols4 map firstn skipn nth rev app].
  all: repeat (apply Forall_cons; [split; [reflexivity | byte_goal]|]);
    apply Forall_nil.
Qed.

(** A board is determined by its lines. *)
Lemma lines_toward_inj (b b' : list Z) (dir : Z) :
  length b = 16%nat -> length b' = 16%nat -> 0 <= dir <= 3 ->
  lines_toward dir b = lines_toward dir b' -> b = b'.
Proof.
  intros Hl Hl' Hdir.
  do 16 (destruct b as [|? b]; [discriminate|]).
  destruct b; [|discriminate].
  do 16 (destruct b' as [|? b']; [discriminate|]).
  destruct b'; [|discriminate].
  assert (Hd : dir = 0 \/ dir = 1 \/ dir = 2 \/ dir = 3) by lia.
  destruct Hd as [-> | [-> | [-> | ->]]].
  all: cbv [lines_toward rows4 cols4 map firstn skipn nth rev app].
  all: intros E; injection E; intros; subst; reflexivity.
Qed.

Lemma slideLine4_length (l : list Z) :
  length l = 4%nat -> byte_cells l -> length (fst (slideLine l 4)) = 4%nat.
Proof.
  intros Hl Hb. pose proof (slideLine_length l Hb) as H.
  rewrite Hl in H. exact H.
Qed.

(** X1: the flag [moved] returned by [move] is true exactly when the call
    changed the board, for every direction, the ones outside 0..3
    included. *)
Theorem move_moved_iff_changed (b : list Z) (dir : Z) :
  board4 b ->
  (moved (move 4 b dir) = true <-> mr_board (move 4 b dir) <> b).
Proof.
  intros Hb.
  destruct (Z_le_dec 0 dir) as [H0|H0];
    [destruct (Z_le_dec dir 3) as [H3|H3]|].
  2, 3: rewrite move4_no_direction by lia; cbn [moved mr_board];
    split; [discriminate | congruence].
  destruct (move4_lines b dir Hb (conj H0 H3)) as (Hb' & Hl & Hm & _).
  pose proof (lines_toward_shape b dir Hb (conj H0 H3)) as Hs.
  rewrite Hm. split.
  - intros He Heq. apply existsb_exists in He.
    destruct He as (l & Hin & Hd).
    rewrite Heq in Hl.
    assert (Hfix : fst (slideLine l 4) = l).
    { clear - Hl Hin. revert Hl Hin.
      generalize (lines_toward dir b). intros ls.
      induction ls as [|x ls IH]; intros E Hin; [destruct Hin|].
      cbn [map] in E. injection E as E1 E2.
      destruct Hin as [->|Hin]; [now symmetry | now apply IH]. }
    rewrite Forall_forall in Hs. destruct (Hs l Hin) as [L B].
    rewrite Hfix in Hd.
    assert (differs 4 0 l l = false) by (apply differs4_iff; auto).
    congruence.
  - intros Hne.
    destruct (existsb _ (lines_toward dir b)) eqn:E; [reflexivity|].
    exfalso. apply Hne.
    apply (lines_toward_inj _ _ dir);
      [apply Hb' | apply Hb | lia |].
    rewrite Hl. clear - E Hs. revert E Hs.
    generalize (lines_toward dir b). intros ls.
    induction ls as [|x ls IH]; intros E Hs; [reflexivity|].
    cbn [existsb map] in *. apply orb_false_iff in E. destruct E as [E1 E2].
    apply Forall_cons_iff in Hs. destruct Hs as [[L B] Hs].
    f_equal; [|now apply IH].
    apply differs4_iff; [now apply slideLine4_length | exact L | exact E1].
Qed.

(** X1, applied to a move to the left that merges two pairs. *)
Lemma move_moved_iff_changed_witness :
  board4 two_pairs_board /\
  (moved (move 4 two_pairs_board 3) = true
   <-> mr_board (move 4 two_pairs_board 3) <> two_pairs_board).
Proof.
  split; [exact board4_two_pairs|].
  exact (move_moved_iff_changed two_pairs_board 3 board4_two_pairs).
Defined.

(** ** Lines of four cells, case by case *)

Lemma slideLine4_fst (y0 y1 y2 y3 : Z) :
  0 <= y0 < 256 -> 0 <= y1 < 256 -> 0 <= y2 < 256 -> 0 <= y3 < 256 ->
  fst (slideLine [y0; y1; y2; y3] 4)
  = (let p := nonzero [y0; y1; y2; y3]
              ++ repeat 0 (4 - length (nonzero [y0; y1; y2; y3])) in
     nonzero (merge_inplace p)
     ++ repeat 0 (4 - length (nonzero (merge_inplace p)))).
Proof.
  intros H0 H1 H2 H3.
  assert (Hb : byte_cells [y0; y1; y2; y3]) by byte_goal.
  pose proof (slideLine_spec [y0; y1; y2; y3] Hb) as H.
  cbn [length] in H. cbv zeta in H. rewrite H. reflexivity.
Qed.

(** Decide every comparison of two cells that the goal meets, simplifying
    in between. *)
Ltac eqb_cases :=
  repeat (cbn [negb andb orb nonzero filter merge_inplace created_tiles
               app repeat length Nat.sub map fold_right];
          match goal with
          | H : (?a =? ?b) = _ |- context [?a =? ?b] => rewrite H
          | |- context [?a =? ?b] => destruct (a =? b) eqn:?
          end);
  cbn [negb andb orb nonzero filter merge_inplace created_tiles app repeat
       length Nat.sub map fold_right].

Ltac eqb_hyps :=
  repeat match goal with
  | H : (_ =? _) = true |- _ => apply Z.eqb_eq in H
  | H : (_ =? _) = false |- _ => apply Z.eqb_neq in H
  end.

Ltac list_eq := repeat (apply f_equal2; [lia|]); reflexivity.

(** A line that neither action along it changes is empty, or full with no
    two equal neighbours. *)
Lemma slide4_fixed_both (y0 y1 y2 y3 : Z) :
  0 <= y0 < 256 -> 0 <= y1 < 256 -> 0 <= y2 < 256 -> 0 <= y3 < 256 ->
  (fst (slideLine [y0; y1; y2; y3] 4) = [y0; y1; y2; y3] /\
   fst (slideLine [y3; y2; y1; y0] 4) = [y3; y2; y1; y0])
  <-> (y0 = 0 /\ y1 = 0 /\ y2 = 0 /\ y3 = 0) \/
      (y0 <> 0 /\ y1 <> 0 /\ y2 <> 0 /\ y3 <> 0 /\
       y0 <> y1 /\ y1 <> y2 /\ y2 <> y3).
Proof.
  intros H0 H1 H2 H3.
  rewrite !slideLine4_fst by assumption. cbv zeta.
  eqb_cases; eqb_hyps; unfold u8 in *.
  all: split;
    [intros [E1 E2]; try discriminate E1; try discriminate E2;
     try (injection E1; intros); try (injection E2; intros);
     first [lia | Z.div_mod_to_equations; lia]
    | intros [?|?];
      first [ exfalso; lia | exfalso; Z.div_mod_to_equations; lia
            | split; list_eq ]].
Qed.

(** A line that the slide changes has an empty cell afterwards. *)
Lemma slide4_changed_has_zero (y0 y1 y2 y3 : Z) :
  0 <= y0 < 256 -> 0 <= y1 < 256 -> 0 <= y2 < 256 -> 0 <= y3 < 256 ->
  fst (slideLine [y0; y1; y2; y3] 4) <> [y0; y1; y2; y3] ->
  1 <= zero_count (fst (slideLine [y0; y1; y2; y3] 4)).
Proof.
  intros H0 H1 H2 H3.
  rewrite !slideLine4_fst by assumption. cbv zeta.
  unfold zero_count, sumZ.
  eqb_cases; eqb_hyps; intros Hne; try lia.
  all: exfalso; apply Hne; list_eq.
Qed.

(** Each merge frees one cell, and the greatest code grows by at most one,
    when no code is 255. *)
Lemma slide4_counts (y0 y1 y2 y3 : Z) :
  0 <= y0 <= 254 -> 0 <= y1 <= 254 -> 0 <= y2 <= 254 -> 0 <= y3 <= 254 ->
  zero_count (fst (slideLine [y0; y1; y2; y3] 4))
  = zero_count [y0; y1; y2; y3]
    + Z.of_nat (length (created_tiles (nonzero [y0; y1; y2; y3]))) /\
  max_code [y0; y1; y2; y3]
  <= max_code (fst (slideLine [y0; y1; y2; y3] 4))
  <= max_code [y0; y1; y2; y3] + 1.
Proof.
  intros H0 H1 H2 H3.
  rewrite !slideLine4_fst by lia. cbv zeta.
  unfold zero_count, max_code, sumZ.
  repeat (cbn [negb andb orb nonzero filter merge_inplace created_tiles
               app repeat length Nat.sub map fold_right];
          rewrite ?u8_id by lia;
          match goal with
          | H : (?a =? ?b) = _ |- context [?a =? ?b] => rewrite H
          | |- context [?a =? ?b] => destruct (a =? b) eqn:?
          end).
  all: cbn [negb andb orb nonzero filter merge_inplace created_tiles app
            repeat length Nat.sub map fold_right Z.of_nat].
  all: rewrite ?u8_id by lia; eqb_hyps; lia.
Qed.

(** ** Counting loops *)

Lemma zero_count_app (l1 l2 : list Z) :
  zero_count (l1 ++ l2) = zero_count l1 + zero_count l2.
Proof. unfold zero_count. rewrite map_app. apply sumZ_app. Qed.

Lemma zero_count_nonneg (l : list Z) : 0 <= zero_count l.
Proof.
  induction l as [|a l IH]; [reflexivity|].
  unfold zero_count, sumZ in *. cbn [map fold_right].
  destruct (a =? 0); lia.
Qed.

Lemma emptyCount_loop_spec (pre rest : list Z) (n : nat) (count : Z) :
  (n <= length rest)%nat ->
  emptyCount_loop n (length pre) (pre ++ rest) count
  = count + zero_count (firstn n rest).
Proof.
  revert pre rest count. induction n as [|n IH]; intros pre rest count Hn.
  - cbn [emptyCount_loop firstn]. unfold zero_count, sumZ. cbn. lia.
  - destruct rest as [|a rest]; [cbn [length] in Hn; lia|].
    cbn [emptyCount_loop firstn]. rewrite aget_app_len.
    cbn [aget nth].
    replace (pre ++ a :: rest) with ((pre ++ [a]) ++ rest)
      by (rewrite <- app_assoc; reflexivity).
    replace (S (length pre)) with (length (pre ++ [a]))
      by (rewrite length_app; cbn [length]; lia).
    rewrite IH by (cbn [length] in Hn; lia).
    unfold zero_count, sumZ. cbn [map fold_right].
    destruct (a =? 0); lia.
Qed.

Lemma emptyCount_zero_count (SIZE : nat) (b : list Z) :
  length b = TOTAL SIZE -> emptyCount SIZE b = zero_count b.
Proof.
  intros Hl. unfold emptyCount.
  pose proof (emptyCount_loop_spec [] b (TOTAL SIZE) 0) as H.
  cbn [length app] in H. rewrite H by lia.
  rewrite <- Hl, firstn_all. lia.
Qed.

Lemma max_code_nonneg (l : list Z) : 0 <= max_code l.
Proof. induction l as [|a l IH]; cbn [max_code fold_right]; [lia|].
       fold (max_code l). lia. Qed.

Lemma max_code_app (l1 l2 : list Z) :
  max_code (l1 ++ l2) = Z.max (max_code l1) (max_code l2).
Proof.
  induction l1 as [|a l1 IH]; cbn [app max_code fold_right].
  - fold (max_code l2). pose proof (max_code_nonneg l2). lia.
  - fold (max_code (l1 ++ l2)) (max_code l1). rewrite IH. lia.
Qed.

Lemma maxTile_loop_spec (pre rest : list Z) (n : nat) (max : Z) :
  (n <= length rest)%nat -> 0 <= max ->
  maxTile_loop n (length pre) (pre ++ rest) max
  = Z.max max (max_code (firstn n rest)).
Proof.
  revert pre rest max. induction n as [|n IH]; intros pre rest max Hn Hm.
  - cbn [maxTile_loop firstn max_code fold_right]. lia.
  - destruct rest as [|a rest]; [cbn [length] in Hn; lia|].
    cbn [maxTile_loop firstn]. rewrite aget_app_len.
    cbn [aget nth].
    replace (pre ++ a :: rest) with ((pre ++ [a]) ++ rest)
      by (rewrite <- app_assoc; reflexivity).
    replace (S (length pre)) with (length (pre ++ [a]))
      by (rewrite length_app; cbn [length]; lia).
    rewrite IH by (cbn [length] in Hn; destruct (a >? max) eqn:E; lia).
    cbn [max_code fold_right]. fold (max_code (firstn n rest)).
    destruct (a >? max) eqn:E; lia.
Qed.

Lemma maxTile_max_code (SIZE : nat) (b : list Z) :
  length b = TOTAL SIZE -> maxTile SIZE b = max_code b.
Proof.
  intros Hl. unfold maxTile.
  pose proof (maxTile_loop_spec [] b (TOTAL SIZE) 0) as H.
  cbn [length app] in H. rewrite H by lia.
  rewrite <- Hl, firstn_all. pose proof (max_code_nonneg b). lia.
Qed.

(** ** Sums over the lines of a board *)

Lemma codes_at_most_4 (top : Z) (l : list Z) :
  length l = 4%nat -> byte_cells l -> codes_at_most top l ->
  exists y0 y1 y2 y3,
    l = [y0; y1; y2; y3] /\
    0 <= y0 < 256 /\ 0 <= y1 < 256 /\ 0 <= y2 < 256 /\ 0 <= y3 < 256 /\
    y0 <= top /\ y1 <= top /\ y2 <= top /\ y3 <= top.
Proof.
  intros Hl Hb Hc.
  destruct (length4_inv l Hl) as (y0 & y1 & y2 & y3 & ->).
  unfold codes_at_most in Hc. byte_facts.
  exists y0, y1, y2, y3. repeat split; auto; lia.
Qed.

Lemma codes_at_most_top (top : Z) (l : list Z) :
  codes_at_most top l -> codes_at_most (Z.max top 255) l.
Proof.
  unfold codes_at_most. apply Forall_impl. intros a Ha. lia.
Qed.

Lemma byte_cells_codes (l : list Z) : byte_cells l -> codes_at_most 255 l.
Proof. unfold byte_cells, codes_at_most. apply Forall_impl. intros a Ha. lia. Qed.

Lemma max_code_le (m : Z) (l : list Z) :
  0 <= m -> (max_code l <= m <-> codes_at_most m l).
Proof.
  intros Hm. unfold codes_at_most.
  induction l as [|a l IH]; cbn [max_code fold_right].
  - split; [constructor | lia].
  - fold (max_code l). rewrite Forall_cons_iff, <- IH. lia.
Qed.

Lemma empty_cells_count (pre rest : list Z) :
  Z.of_nat (length (filter (fun i => aget (pre ++ rest) i =? 0)
                           (seq (length pre) (length rest))))
  = zero_count rest.
Proof.
  revert pre. induction rest as [|a rest IH]; intros pre; [reflexivity|].
  cbn [length seq filter]. rewrite aget_app_len. cbn [aget nth].
  replace (pre ++ a :: rest) with ((pre ++ [a]) ++ rest)
    by (rewrite <- app_assoc; reflexivity).
  replace (S (length pre)) with (length (pre ++ [a]))
    by (rewrite length_app; cbn [length]; lia).
  unfold zero_count, sumZ. cbn [map fold_right].
  specialize (IH (pre ++ [a])). unfold zero_count, sumZ in IH.
  destruct (a =? 0); cbn [length]; lia.
Qed.

Lemma empty_cells_length (SIZE : nat) (b : list Z) :
  length b = TOTAL SIZE ->
  Z.of_nat (length (empty_cells SIZE b)) = zero_count b.
Proof.
  intros Hl. unfold empty_cells. rewrite <- Hl.
  exact (empty_cells_count [] b).
Qed.

Lemma slide_line_counts (l : list Z) :
  length l = 4%nat -> byte_cells l -> codes_at_most 254 l ->
  zero_count (fst (slideLine l 4))
  = zero_count l + Z.of_nat (length (created_tiles (nonzero l))) /\
  max_code l <= max_code (fst (slideLine l 4)) <= max_code l + 1.
Proof.
  intros Hl Hb Hc.
  destruct (codes_at_most_4 254 l Hl Hb Hc)
    as (y0 & y1 & y2 & y3 & -> & ? & ? & ? & ? & ? & ? & ? & ?).
  apply slide4_counts; lia.
Qed.

Lemma slide_line_changed_has_zero (l : list Z) :
  length l = 4%nat -> byte_cells l ->
  fst (slideLine l 4) <> l -> 1 <= zero_count (fst (slideLine l 4)).
Proof.
  intros Hl Hb.
  destruct (codes_at_most_4 255 l Hl Hb (byte_cells_codes l Hb))
    as (y0 & y1 & y2 & y3 & -> & ? & ? & ? & ? & _).
  now apply slide4_changed_has_zero.
Qed.

(** X2: each merge of a move frees exactly one cell: after [move], the
    number of empty cells is the number before plus the number of tiles
    the merges created (on boards with no tile of code 255, which a merge
    would wrap to an empty cell). *)
Theorem move_frees_one_cell_per_merge (b : list Z) (dir : Z) :
  board4 b -> codes_at_most 254 b ->
  emptyCount 4 (mr_board (move 4 b dir))
  = emptyCount 4 b + Z.of_nat (length (tiles_created_by_move dir b)).
Proof.
  intros Hb Hc.
  destruct (Z_le_dec 0 dir) as [H0|H0];
    [destruct (Z_le_dec dir 3) as [H3|H3]|].
  2, 3: rewrite move4_no_direction, tiles_created_no_direction by lia;
    cbn [mr_board length Z.of_nat]; lia.
  destruct (move4_lines b dir Hb (conj H0 H3)) as (Hb' & _).
  rewrite !emptyCount_zero_count by (apply Hb' || apply Hb).
  destruct (move4_lines_summary b dir 254 Hb (conj H0 H3))
    as (l0 & l1 & l2 & l3 & Hl & (L0 & L1 & L2 & L3) & (B0 & B1 & B2 & B3)
        & Hcam & Hsum & _ & _ & Hsum').
  destruct (Hcam Hc) as (C0 & C1 & C2 & C3).
  unfold tiles_created_by_move. rewrite Hl. cbn [flat_map].
  rewrite app_nil_r, !length_app, !Nat2Z.inj_add.
  unfold zero_count at 1 2. rewrite Hsum, Hsum'.
  fold (zero_count (fst (slideLine l0 4) ++ fst (slideLine l1 4)
                    ++ fst (slideLine l2 4) ++ fst (slideLine l3 4))).
  fold (zero_count (l0 ++ l1 ++ l2 ++ l3)).
  rewrite !zero_count_app.
  rewrite (proj1 (slide_line_counts l0 L0 B0 C0)).
  rewrite (proj1 (slide_line_counts l1 L1 B1 C1)).
  rewrite (proj1 (slide_line_counts l2 L2 B2 C2)).
  rewrite (proj1 (slide_line_counts l3 L3 B3 C3)).
  lia.
Qed.

(** X2, applied: two merges, two more empty cells. *)
Lemma move_frees_one_cell_per_merge_witness :
  board4 two_pairs_board /\ codes_at_most 254 two_pairs_board /\
  length (tiles_created_by_move 3 two_pairs_board) = 2%nat /\
  emptyCount 4 (mr_board (move 4 two_pairs_board 3))
  = emptyCount 4 two_pairs_board
    + Z.of_nat (length (tiles_created_by_move 3 two_pairs_board)).
Proof.
  split; [exact board4_two_pairs|].
  split; [apply codes_two_pairs; lia|].
  split; [reflexivity|].
  exact (move_frees_one_cell_per_merge two_pairs_board 3 board4_two_pairs
           (codes_two_pairs 254 ltac:(lia))).
Defined.

(** A move that changed the board leaves an empty cell. *)
Lemma legal_move_zero_count (b : list Z) (dir : Z) :
  board4 b -> moved (move 4 b dir) = true ->
  board4 (mr_board (move 4 b dir)) /\
  1 <= zero_count (mr_board (move 4 b dir)).
Proof.
  intros Hb Hm.
  destruct (Z_le_dec 0 dir) as [H0|H0];
    [destruct (Z_le_dec dir 3) as [H3|H3]|].
  2, 3: rewrite move4_no_direction in Hm by lia; discriminate Hm.
  destruct (move4_lines b dir Hb (conj H0 H3)) as (Hb' & _ & Hmv & _).
  split; [exact Hb'|].
  destruct (move4_lines_summary b dir 255 Hb (conj H0 H3))
    as (l0 & l1 & l2 & l3 & Hl & (L0 & L1 & L2 & L3) & (B0 & B1 & B2 & B3)
        & _ & _ & _ & _ & Hsum').
  unfold zero_count. rewrite Hsum'.
  fold (zero_count (fst (slideLine l0 4) ++ fst (slideLine l1 4)
                    ++ fst (slideLine l2 4) ++ fst (slideLine l3 4))).
  rewrite !zero_count_app.
  pose proof (zero_count_nonneg (fst (slideLine l0 4))).
  pose proof (zero_count_nonneg (fst (slideLine l1 4))).
  pose proof (zero_count_nonneg (fst (slideLine l2 4))).
  pose proof (zero_count_nonneg (fst (slideLine l3 4))).
  rewrite Hmv, Hl in Hm. cbn [existsb] in Hm.
  assert (Hch : forall l, length l = 4%nat -> byte_cells l ->
                  differs 4 0 (fst (slideLine l 4)) l = true ->
                  1 <= zero_count (fst (slideLine l 4))).
  { intros l L B D. apply slide_line_changed_has_zero; auto.
    intros E. rewrite E in D.
    assert (differs 4 0 l l = false) by (apply differs4_iff; auto).
    congruence. }
  apply orb_true_iff in Hm. destruct Hm as [D|Hm];
    [specialize (Hch l0 L0 B0 D); lia|].
  apply orb_true_iff in Hm. destruct Hm as [D|Hm];
    [specialize (Hch l1 L1 B1 D); lia|].
  apply orb_true_iff in Hm. destruct Hm as [D|Hm];
    [specialize (Hch l2 L2 B2 D); lia|].
  apply orb_true_iff in Hm. destruct Hm as [D|Hm];
    [specialize (Hch l3 L3 B3 D); lia | discriminate Hm].
Qed.

(** X3: a move that changed the board leaves at least one empty cell, so
    the [addRandomTile] that follows it in every game loop always finds
    room and returns true. *)
Theorem legal_move_leaves_room (b : list Z) (dir : Z) (g : rng) :
  board4 b -> moved (move 4 b dir) = true ->
  1 <= emptyCount 4 (mr_board (move 4 b dir)) /\
  fst (fst (addRandomTile 4 (mr_board (move 4 b dir)) g)) = true.
Proof.
  intros Hb Hm.
  destruct (legal_move_zero_count b dir Hb Hm) as [Hb' Hz].
  split; [rewrite emptyCount_zero_count by apply Hb'; exact Hz|].
  unfold addRandomTile.
  pose proof (empty_cells_length 4 (mr_board (move 4 b dir)) (proj1 Hb'))
    as He.
  destruct (length (empty_cells 4 (mr_board (move 4 b dir)))) as [|n] eqn:E;
    [cbn [Z.of_nat] in He; lia|].
  cbn [Nat.eqb].
  destruct (random_below (S n) g) as [k g1].
  destruct (random_chance g1) as [small g2]. reflexivity.
Qed.

(** X3, applied to the same move. *)
Lemma legal_move_leaves_room_witness :
  board4 two_pairs_board /\ moved (move 4 two_pairs_board 3) = true /\
  1 <= emptyCount 4 (mr_board (move 4 two_pairs_board 3)) /\
  fst (fst (addRandomTile 4 (mr_board (move 4 two_pairs_board 3)) [5; 9]%nat))
  = true.
Proof.
  split; [exact board4_two_pairs|]. split; [reflexivity|].
  exact (legal_move_leaves_room two_pairs_board 3 [5%nat; 9%nat]
           board4_two_pairs eq_refl).
Defined.

(** X4: on boards with no tile of code 255, a move never lowers the
    greatest tile code and raises it by at most one. *)
Theorem move_maxTile_bounds (b : list Z) (dir : Z) :
  board4 b -> codes_at_most 254 b ->
  maxTile 4 b <= maxTile 4 (mr_board (move 4 b dir)) <= maxTile 4 b + 1.
Proof.
  intros Hb Hc.
  destruct (Z_le_dec 0 dir) as [H0|H0];
    [destruct (Z_le_dec dir 3) as [H3|H3]|].
  2, 3: rewrite move4_no_direction by lia; cbn [mr_board]; lia.
  destruct (move4_lines b dir Hb (conj H0 H3)) as (Hb' & _).
  rewrite !maxTile_max_code by (apply Hb' || apply Hb).
  pose proof (max_code_nonneg b) as HM.
  assert (Hline : forall top, 0 <= top -> codes_at_most top b ->
            top <= 254 ->
            codes_at_most (top + 1) (mr_board (move 4 b dir))).
  { intros top Ht Hcb Htop.
    destruct (move4_lines_summary b dir top Hb (conj H0 H3))
      as (l0 & l1 & l2 & l3 & Hl & (L0 & L1 & L2 & L3)
          & (B0 & B1 & B2 & B3) & Hcam & _ & _ & _ & Hsum').
    destruct (Hcam Hcb) as (C0 & C1 & C2 & C3).
    apply (codes_at_most_perm_sum (top + 1) _ _ (fun f => eq_sym (Hsum' f))).
    assert (Hone : forall l, length l = 4%nat -> byte_cells l ->
                     codes_at_most top l ->
                     codes_at_most (top + 1) (fst (slideLine l 4))).
    { intros l L B C. apply max_code_le; [lia|].
      assert (C' : codes_at_most 254 l).
      { revert C. unfold codes_at_most. apply Forall_impl. intros; lia. }
      pose proof (proj2 (slide_line_counts l L B C')) as Hx.
      apply (max_code_le top l Ht) in C. lia. }
    repeat (apply codes_at_most_app; split); auto. }
  split.
  - destruct (Z_le_dec (max_code b) (max_code (mr_board (move 4 b dir))))
      as [|Hlt]; [assumption|exfalso].
    pose proof (max_code_nonneg (mr_board (move 4 b dir))) as HM'.
    set (m := max_code (mr_board (move 4 b dir))) in *.
    assert (Hcm : codes_at_most m (mr_board (move 4 b dir)))
      by (apply max_code_le; [lia | unfold m; lia]).
    destruct (move4_lines_summary b dir 254 Hb (conj H0 H3))
      as (l0 & l1 & l2 & l3 & Hl & (L0 & L1 & L2 & L3)
          & (B0 & B1 & B2 & B3) & Hcam & Hsum & _ & _ & Hsum').
    destruct (Hcam Hc) as (C0 & C1 & C2 & C3).
    pose proof (codes_at_most_perm_sum m _ _ Hsum' Hcm) as Hs.
    apply codes_at_most_app in Hs. destruct Hs as [S0 Hs].
    apply codes_at_most_app in Hs. destruct Hs as [S1 Hs].
    apply codes_at_most_app in Hs. destruct Hs as [S2 S3].
    assert (Hone : forall l, length l = 4%nat -> byte_cells l ->
                     codes_at_most 254 l ->
                     codes_at_most m (fst (slideLine l 4)) ->
                     codes_at_most m l).
    { intros l L B C S. apply max_code_le; [lia|].
      pose proof (proj2 (slide_line_counts l L B C)) as Hx.
      apply (max_code_le m _ HM') in S. lia. }
    assert (Hb0 : codes_at_most m b).
    { apply (codes_at_most_perm_sum m _ _ (fun f => eq_sym (Hsum f))).
      repeat (apply codes_at_most_app; split); auto. }
    apply (max_code_le m b HM') in Hb0. lia.
  - apply max_code_le; [lia|].
    apply Hline; [lia | apply max_code_le; lia |].
    apply (max_code_le 254 b ltac:(lia)) in Hc. lia.
Qed.

(** X4, applied to the same move. *)
Lemma move_maxTile_bounds_witness :
  board4 two_pairs_board /\ codes_at_most 254 two_pairs_board /\
  maxTile 4 two_pairs_board
  <= maxTile 4 (mr_board (move 4 two_pairs_board 3))
  <= maxTile 4 two_pairs_board + 1.
Proof.
  split; [exact board4_two_pairs|].
  split; [apply codes_two_pairs; lia|].
  exact (move_maxTile_bounds two_pairs_board 3 board4_two_pairs
           (codes_two_pairs 254 ltac:(lia))).
Defined.

(** ** When no action moves the board *)

Lemma slide_line_fixed_both (y0 y1 y2 y3 : Z) :
  byte_cells [y0; y1; y2; y3] ->
  (differs 4 0 (fst (slideLine [y0; y1; y2; y3] 4)) [y0; y1; y2; y3]
   = false /\
   differs 4 0 (fst (slideLine [y3; y2; y1; y0] 4)) [y3; y2; y1; y0]
   = false)
  <-> (y0 = 0 /\ y1 = 0 /\ y2 = 0 /\ y3 = 0) \/
      (y0 <> 0 /\ y1 <> 0 /\ y2 <> 0 /\ y3 <> 0 /\
       y0 <> y1 /\ y1 <> y2 /\ y2 <> y3).
Proof.
  intros Hb. byte_facts.
  rewrite <- slide4_fixed_both by assumption.
  rewrite !differs4_iff;
    try reflexivity; try (apply slideLine4_length; [reflexivity | byte_goal]).
Qed.

(** The four flags [moved] of a board, by its rows and columns. *)
Lemma no_move_by_lines
    (a0 a1 a2 a3 a4 a5 a6 a7 a8 a9 a10 a11 a12 a13 a14 a15 : Z) :
  let b := [a0; a1; a2; a3; a4; a5; a6; a7; a8; a9; a10; a11; a12; a13;
            a14; a15] in
  let free (y0 y1 y2 y3 : Z) :=
    (y0 = 0 /\ y1 = 0 /\ y2 = 0 /\ y3 = 0) \/
    (y0 <> 0 /\ y1 <> 0 /\ y2 <> 0 /\ y3 <> 0 /\
     y0 <> y1 /\ y1 <> y2 /\ y2 <> y3) in
  byte_cells b ->
  ((forall dir, 0 <= dir <= 3 -> moved (move 4 b dir) = false)
   <-> (free a0 a1 a2 a3 /\ free a4 a5 a6 a7 /\ free a8 a9 a10 a11 /\
        free a12 a13 a14 a15) /\
       (free a0 a4 a8 a12 /\ free a1 a5 a9 a13 /\ free a2 a6 a10 a14 /\
        free a3 a7 a11 a15)).
Proof.
  intros b free Hc.
  assert (Hb : board4 b) by (split; [reflexivity | exact Hc]).
  assert (Hm : forall dir, 0 <= dir <= 3 ->
             moved (move 4 b dir)
             = existsb (fun l => differs 4 0 (fst (slideLine l 4)) l)
                       (lines_toward dir b)).
  { intros dir Hd. apply (move4_lines b dir Hb Hd). }
  unfold b in Hc. byte_facts.
  unfold free.
  rewrite <- !slide_line_fixed_both by byte_goal.
  split.
  - intros H.
    pose proof (H 0 ltac:(lia)) as M0. pose proof (H 1 ltac:(lia)) as M1.
    pose proof (H 2 ltac:(lia)) as M2. pose proof (H 3 ltac:(lia)) as M3.
    rewrite Hm in M0, M1, M2, M3 by lia.
    cbv [lines_toward rows4 cols4 map firstn skipn nth rev app b existsb]
      in M0, M1, M2, M3.
    repeat match goal with
    | H : (_ || _) = false |- _ =>
        apply orb_false_iff in H; destruct H
    end.
    repeat split; assumption.
  - intros [(R0 & R1 & R2 & R3) (C0 & C1 & C2 & C3)] dir Hd.
    rewrite Hm by lia.
    assert (Hdir : dir = 0 \/ dir = 1 \/ dir = 2 \/ dir = 3) by lia.
    destruct R0, R1, R2, R3, C0, C1, C2, C3.
    destruct Hdir as [-> | [-> | [-> | ->]]];
      cbv [lines_toward rows4 cols4 map firstn skipn nth rev app b existsb];
      repeat match goal with
      | H : ?x = false |- context [?x] => rewrite H
      end; reflexivity.
Qed.

Lemma any_from_false (n i : nat) (f : nat -> bool) :
  any_from n i f = false <-> forall j, (i <= j < i + n)%nat -> f j = false.
Proof.
  split.
  - intros H j Hj. destruct (f j) eqn:E; [|reflexivity].
    assert (any_from n i f = true) by (apply any_from_true; eauto).
    congruence.
  - intros H. destruct (any_from n i f) eqn:E; [|reflexivity].
    apply any_from_true in E. destruct E as (j & Hj & Hf).
    rewrite H in Hf by exact Hj. discriminate.
Qed.

(** What [canMove] computes on a board given cell by cell. *)
Lemma canMove4_false
    (a0 a1 a2 a3 a4 a5 a6 a7 a8 a9 a10 a11 a12 a13 a14 a15 : Z) :
  let b := [a0; a1; a2; a3; a4; a5; a6; a7; a8; a9; a10; a11; a12; a13;
            a14; a15] in
  let full (y0 y1 y2 y3 : Z) :=
    y0 <> 0 /\ y1 <> 0 /\ y2 <> 0 /\ y3 <> 0 /\
    y0 <> y1 /\ y1 <> y2 /\ y2 <> y3 in
  canMove 4 b = false
  <-> (full a0 a1 a2 a3 /\ full a4 a5 a6 a7 /\ full a8 a9 a10 a11 /\
       full a12 a13 a14 a15) /\
      (full a0 a4 a8 a12 /\ full a1 a5 a9 a13 /\ full a2 a6 a10 a14 /\
       full a3 a7 a11 a15).
Proof.
  intros b full. unfold canMove, TOTAL.
  change (4 * 4)%nat with 16%nat. change (4 - 1)%nat with 3%nat.
  set (F := fun r : nat => any_from 4 0 _).
  assert (H1 : any_from 16 0 (fun i => aget b i =? 0) = false
               <-> a0 <> 0 /\ a1 <> 0 /\ a2 <> 0 /\ a3 <> 0 /\
                   a4 <> 0 /\ a5 <> 0 /\ a6 <> 0 /\ a7 <> 0 /\
                   a8 <> 0 /\ a9 <> 0 /\ a10 <> 0 /\ a11 <> 0 /\
                   a12 <> 0 /\ a13 <> 0 /\ a14 <> 0 /\ a15 <> 0).
  { rewrite any_from_false. split.
    - intros H.
      repeat split;
        match goal with
        | |- ?x <> 0 => apply Z.eqb_neq
        end.
      + exact (H 0%nat ltac:(lia)).
      + exact (H 1%nat ltac:(lia)).
      + exact (H 2%nat ltac:(lia)).
      + exact (H 3%nat ltac:(lia)).
      + exact (H 4%nat ltac:(lia)).
      + exact (H 5%nat ltac:(lia)).
      + exact (H 6%nat ltac:(lia)).
      + exact (H 7%nat ltac:(lia)).
      + exact (H 8%nat ltac:(lia)).
      + exact (H 9%nat ltac:(lia)).
      + exact (H 10%nat ltac:(lia)).
      + exact (H 11%nat ltac:(lia)).
      + exact (H 12%nat ltac:(lia)).
      + exact (H 13%nat ltac:(lia)).
      + exact (H 14%nat ltac:(lia)).
      + exact (H 15%nat ltac:(lia)).
    - intros H j Hj. decompose [and] H. clear H.
      do 16 (destruct j as [|j];
             [cbn [aget nth b]; now apply Z.eqb_neq|]).
      clear - Hj. lia. }
  assert (H2 : any_from 4 0 F = false
               <-> (a0 <> a1 /\ a1 <> a2 /\ a2 <> a3 /\
                    a4 <> a5 /\ a5 <> a6 /\ a6 <> a7 /\
                    a8 <> a9 /\ a9 <> a10 /\ a10 <> a11 /\
                    a12 <> a13 /\ a13 <> a14 /\ a14 <> a15) /\
                   (a0 <> a4 /\ a4 <> a8 /\ a8 <> a12 /\
                    a1 <> a5 /\ a5 <> a9 /\ a9 <> a13 /\
                    a2 <> a6 /\ a6 <> a10 /\ a10 <> a14 /\
                    a3 <> a7 /\ a7 <> a11 /\ a11 <> a15)).
  { rewrite any_from_false. unfold F. split.
    - intros H.
      pose proof (H 0%nat ltac:(lia)) as R0.
      pose proof (H 1%nat ltac:(lia)) as R1.
      pose proof (H 2%nat ltac:(lia)) as R2.
      pose proof (H 3%nat ltac:(lia)) as R3.
      clear H.
      cbn [any_from aget nth b Nat.mul Nat.add Nat.ltb Nat.leb andb]
        in R0, R1, R2, R3.
      repeat match goal with
      | H : context [?x =? ?y] |- _ =>
          destruct (Z.eqb_spec x y); cbn [andb orb] in H;
          [discriminate H|]
      end.
      repeat split; assumption.
    - intros [Hh Hv] r Hr. decompose [and] Hh. decompose [and] Hv.
      clear Hh Hv.
      repeat match goal with
      | H : ?x <> ?y |- _ => apply Z.eqb_neq in H
      end.
      do 4 (destruct r as [|r];
            [cbn [any_from aget nth b Nat.mul Nat.add Nat.ltb Nat.leb andb];
             repeat match goal with
             | H : ?x = false |- context [?x] => rewrite H
             end; reflexivity|]).
      clear - Hr. lia. }
  destruct (any_from 16 0 (fun i => aget b i =? 0)) eqn:E0.
  - split; [discriminate|]. intros [(R0 & R1 & R2 & R3) _].
    unfold full in *.
    assert (true = false); [|discriminate].
    apply H1. decompose [and] R0. decompose [and] R1.
    decompose [and] R2. decompose [and] R3. repeat split; assumption.
  - rewrite H2. pose proof (proj1 H1 eq_refl) as Hn.
    unfold full. decompose [and] Hn. clear Hn H1 H2.
    split.
    + intros [Hh Hv]. decompose [and] Hh. decompose [and] Hv.
      repeat split; assumption.
    + intros [(R0 & R1 & R2 & R3) (C0 & C1 & C2 & C3)].
      decompose [and] R0. decompose [and] R1. decompose [and] R2.
      decompose [and] R3. decompose [and] C0. decompose [and] C1.
      decompose [and] C2. decompose [and] C3.
      repeat split; assumption.
Qed.

Lemma some_action_moves (b : list Z) :
  (exists dir, legal 4 b dir)
  <-> ~ (forall dir, 0 <= dir <= 3 -> moved (move 4 b dir) = false).
Proof.
  unfold legal, cloneBoard. split.
  - intros (dir & Hin & Hm) H.
    rewrite H in Hm; [discriminate|].
    cbn [In] in Hin. lia.
  - intros H.
    destruct (moved (move 4 b 0)) eqn:M0;
      [exists 0; split; [cbn [In]; tauto | exact M0]|].
    destruct (moved (move 4 b 1)) eqn:M1;
      [exists 1; split; [cbn [In]; tauto | exact M1]|].
    destruct (moved (move 4 b 2)) eqn:M2;
      [exists 2; split; [cbn [In]; tauto | exact M2]|].
    destruct (moved (move 4 b 3)) eqn:M3;
      [exists 3; split; [cbn [In]; tauto | exact M3]|].
    exfalso. apply H. intros dir Hd.
    assert (Hdir : dir = 0 \/ dir = 1 \/ dir = 2 \/ dir = 3) by lia.
    destruct Hdir as [-> | [-> | [-> | ->]]]; assumption.
Qed.

(** A line that is empty or full, and holds a tile, is full. *)
Lemma free_line_full (y0 y1 y2 y3 : Z) :
  (y0 = 0 /\ y1 = 0 /\ y2 = 0 /\ y3 = 0) \/
  (y0 <> 0 /\ y1 <> 0 /\ y2 <> 0 /\ y3 <> 0 /\
   y0 <> y1 /\ y1 <> y2 /\ y2 <> y3) ->
  y0 <> 0 \/ y1 <> 0 \/ y2 <> 0 \/ y3 <> 0 ->
  y0 <> 0 /\ y1 <> 0 /\ y2 <> 0 /\ y3 <> 0 /\
  y0 <> y1 /\ y1 <> y2 /\ y2 <> y3.
Proof.
  intros [(-> & -> & -> & ->) | H] Hn; [|exact H].
  exfalso. destruct Hn as [N | [N | [N | N]]]; now apply N.
Qed.

(** X5: on every board that holds a tile, [canMove] is true exactly when
    some action 0..3 moves the board; on the empty board [canMove] is true
    although no action changes anything. *)
Theorem canMove_iff_some_action_moves (b : list Z) :
  board4 b ->
  ((exists i, (i < 16)%nat /\ nth i b 0 <> 0) ->
   (canMove 4 b = true <-> exists dir, legal 4 b dir)) /\
  ((forall i, (i < 16)%nat -> nth i b 0 = 0) ->
   canMove 4 b = true /\ forall dir, ~ legal 4 b dir).
Proof.
  intros Hb.
  destruct (board4_inv b Hb) as
    (a0 & a1 & a2 & a3 & a4 & a5 & a6 & a7 & a8 & a9 & a10 & a11 & a12
     & a13 & a14 & a15 & -> & Hc).
  pose proof (no_move_by_lines a0 a1 a2 a3 a4 a5 a6 a7 a8 a9 a10 a11 a12
                a13 a14 a15 Hc) as Hno.
  pose proof (canMove4_false a0 a1 a2 a3 a4 a5 a6 a7 a8 a9 a10 a11 a12
                a13 a14 a15) as Hcm.
  cbv zeta in Hno, Hcm.
  set (b := [a0; a1; a2; a3; a4; a5; a6; a7; a8; a9; a10; a11; a12; a13;
             a14; a15]) in *.
  clear Hb Hc.
  split.
  - intros (i & Hi & Hnz).
    rewrite some_action_moves, Hno.
    assert (Hrow : (i < 4)%nat \/ (4 <= i < 8)%nat \/ (8 <= i < 12)%nat
                   \/ (12 <= i < 16)%nat) by lia.
    destruct (canMove 4 b) eqn:E.
    + split; [intros _ | reflexivity].
      intros [(R0 & R1 & R2 & R3) (C0 & C1 & C2 & C3)].
      assert (Hfull : false = true); [|discriminate].
      symmetry. apply Hcm. clear Hcm Hno E.
      (* the row of the tile is full, so every column holds a tile *)
      assert (Hcols : (a0 <> 0 \/ a4 <> 0 \/ a8 <> 0 \/ a12 <> 0) /\
                      (a1 <> 0 \/ a5 <> 0 \/ a9 <> 0 \/ a13 <> 0) /\
                      (a2 <> 0 \/ a6 <> 0 \/ a10 <> 0 \/ a14 <> 0) /\
                      (a3 <> 0 \/ a7 <> 0 \/ a11 <> 0 \/ a15 <> 0)).
      { destruct Hrow as [Hr | [Hr | [Hr | Hr]]].
        - assert (Hn : a0 <> 0 \/ a1 <> 0 \/ a2 <> 0 \/ a3 <> 0).
          { clear - Hr Hnz.
            do 4 (destruct i as [|i]; [cbn [nth b] in Hnz; tauto|]). lia. }
          destruct (free_line_full _ _ _ _ R0 Hn) as (? & ? & ? & ? & _).
          repeat split; left; assumption.
        - assert (Hn : a4 <> 0 \/ a5 <> 0 \/ a6 <> 0 \/ a7 <> 0).
          { clear - Hr Hnz.
            do 4 (destruct i as [|i]; [lia|]).
            do 4 (destruct i as [|i]; [cbn [nth b] in Hnz; tauto|]). lia. }
          destruct (free_line_full _ _ _ _ R1 Hn) as (? & ? & ? & ? & _).
          repeat split; right; left; assumption.
        - assert (Hn : a8 <> 0 \/ a9 <> 0 \/ a10 <> 0 \/ a11 <> 0).
          { clear - Hr Hnz.
            do 8 (destruct i as [|i]; [lia|]).
            do 4 (destruct i as [|i]; [cbn [nth b] in Hnz; tauto|]). lia. }
          destruct (free_line_full _ _ _ _ R2 Hn) as (? & ? & ? & ? & _).
          repeat split; right; right; left; assumption.
        - assert (Hn : a12 <> 0 \/ a13 <> 0 \/ a14 <> 0 \/ a15 <> 0).
          { clear - Hr Hnz.
            do 12 (destruct i as [|i]; [lia|]).
            do 4 (destruct i as [|i]; [cbn [nth b] in Hnz; tauto|]). lia. }
          destruct (free_line_full _ _ _ _ R3 Hn) as (? & ? & ? & ? & _).
          repeat split; right; right; right; assumption. }
      destruct Hcols as (N0 & N1 & N2 & N3).
      pose proof (free_line_full _ _ _ _ C0 N0) as F0.
      pose proof (free_line_full _ _ _ _ C1 N1) as F1.
      pose proof (free_line_full _ _ _ _ C2 N2) as F2.
      pose proof (free_line_full _ _ _ _ C3 N3) as F3.
      split; [|auto].
      repeat split;
        (apply (free_line_full _ _ _ _ R0)
         || apply (free_line_full _ _ _ _ R1)
         || apply (free_line_full _ _ _ _ R2)
         || apply (free_line_full _ _ _ _ R3));
        left; (apply F0 || apply F1 || apply F2 || apply F3).
    + split; [discriminate|]. intros H. exfalso. apply H.
      destruct (proj1 Hcm eq_refl)
        as [(R0 & R1 & R2 & R3) (C0 & C1 & C2 & C3)].
      repeat split; right; assumption.
  - intros Hz.
    pose proof (Hz 0%nat ltac:(lia)) as Z0.
    pose proof (Hz 1%nat ltac:(lia)) as Z1.
    pose proof (Hz 2%nat ltac:(lia)) as Z2.
    pose proof (Hz 3%nat ltac:(lia)) as Z3.
    pose proof (Hz 4%nat ltac:(lia)) as Z4.
    pose proof (Hz 5%nat ltac:(lia)) as Z5.
    pose proof (Hz 6%nat ltac:(lia)) as Z6.
    pose proof (Hz 7%nat ltac:(lia)) as Z7.
    pose proof (Hz 8%nat ltac:(lia)) as Z8.
    pose proof (Hz 9%nat ltac:(lia)) as Z9.
    pose proof (Hz 10%nat ltac:(lia)) as Z10.
    pose proof (Hz 11%nat ltac:(lia)) as Z11.
    pose proof (Hz 12%nat ltac:(lia)) as Z12.
    pose proof (Hz 13%nat ltac:(lia)) as Z13.
    pose proof (Hz 14%nat ltac:(lia)) as Z14.
    pose proof (Hz 15%nat ltac:(lia)) as Z15.
    cbn [nth b] in Z0, Z1, Z2, Z3, Z4, Z5, Z6, Z7, Z8, Z9, Z10, Z11, Z12,
      Z13, Z14, Z15.
    clear Hz. split.
    + destruct (canMove 4 b) eqn:E; [reflexivity|].
      destruct (proj1 Hcm eq_refl) as [((N & _) & _) _]. contradiction.
    + intros dir Hl.
      apply (proj1 (some_action_moves b) (ex_intro _ dir Hl)).
      apply Hno. repeat split; left; repeat split; assumption.
Qed.

(** X5, applied to a full board with no equal neighbours and to the empty
    board. *)
Lemma canMove_iff_some_action_moves_witness :
  (board4 stuck_board /\
   (exists i, (i < 16)%nat /\ nth i stuck_board 0 <> 0) /\
   (canMove 4 stuck_board = true <-> exists dir, legal 4 stuck_board dir)) /\
  (board4 (repeat 0 16) /\
   (forall i, (i < 16)%nat -> nth i (repeat 0 16) 0 = 0) /\
   canMove 4 (repeat 0 16) = true /\
   forall dir, ~ legal 4 (repeat 0 16) dir).
Proof.
  assert (He : board4 (repeat 0 16)).
  { split; [reflexivity
           | repeat (apply Forall_cons; [lia|]); apply Forall_nil]. }
  assert (Hz : forall i, (i < 16)%nat -> nth i (repeat 0 16) 0 = 0).
  { intros i _. apply nth_repeat. }
  assert (Ht : exists i, (i < 16)%nat /\ nth i stuck_board 0 <> 0).
  { exists 0%nat. split; [lia | cbn; lia]. }
  split.
  - split; [exact board4_stuck|]. split; [exact Ht|].
    exact (proj1 (canMove_iff_some_action_moves stuck_board board4_stuck)
             Ht).
  - split; [exact He|]. split; [exact Hz|].
    exact (proj2 (canMove_iff_some_action_moves (repeat 0 16) He) Hz).
Defined.

(** ** Moves and the symmetries of the board *)

Lemma length16_inv (x : list Z) :
  length x = 16%nat ->
  exists a0 a1 a2 a3 a4 a5 a6 a7 a8 a9 a10 a11 a12 a13 a14 a15,
    x = [a0; a1; a2; a3; a4; a5; a6; a7; a8; a9; a10; a11; a12; a13; a14;
         a15].
Proof.
  intros Hl.
  do 16 (destruct x as [|? x]; [discriminate|]).
  destruct x; [|discriminate].
  do 16 eexists. reflexivity.
Qed.

(** The lines of the image of a board, toward an edge, are the lines of
    the board toward the corresponding edge, in the same or in the
    opposite order. *)
Lemma lines_of_transformed_board (k : nat) (dir : Z) :
  (k < 8)%nat -> 0 <= dir <= 3 ->
  let s := nth k Symmetry4.SYMMETRY_MAPS [] in
  (forall x, length x = 16%nat ->
     lines_toward dir (transformed_board s x)
     = lines_toward (transformed_dir k dir) x) \/
  (forall x, length x = 16%nat ->
     lines_toward dir (transformed_board s x)
     = rev (lines_toward (transformed_dir k dir) x)).
Proof.
  intros Hk Hd.
  assert (Hdir : dir = 0 \/ dir = 1 \/ dir = 2 \/ dir = 3) by lia.
  destruct k as [|[|[|[|[|[|[|[|k]]]]]]]]; [..|lia].
  all: destruct Hdir as [-> | [-> | [-> | ->]]].
  all: first
    [ left; intros x Hx;
      destruct (length16_inv x Hx) as
        (a0 & a1 & a2 & a3 & a4 & a5 & a6 & a7 & a8 & a9 & a10 & a11 & a12
         & a13 & a14 & a15 & ->);
      vm_compute; reflexivity
    | right; intros x Hx;
      destruct (length16_inv x Hx) as
        (a0 & a1 & a2 & a3 & a4 & a5 & a6 & a7 & a8 & a9 & a10 & a11 & a12
         & a13 & a14 & a15 & ->);
      vm_compute; reflexivity ].
Qed.

Lemma transformed_board_board4 (k : nat) (b : list Z) :
  (k < 8)%nat -> board4 b ->
  board4 (transformed_board (nth k Symmetry4.SYMMETRY_MAPS []) b).
Proof.
  intros Hk Hb.
  destruct (board4_inv b Hb) as
    (a0 & a1 & a2 & a3 & a4 & a5 & a6 & a7 & a8 & a9 & a10 & a11 & a12
     & a13 & a14 & a15 & -> & Hc).
  clear Hb. byte_facts.
  destruct k as [|[|[|[|[|[|[|[|k]]]]]]]]; [..|lia].
  all: split; [reflexivity|].
  all: vm_compute transformed_board; byte_goal.
Qed.

Lemma existsb_rev {A} (f : A -> bool) (l : list A) :
  existsb f (rev l) = existsb f l.
Proof.
  destruct (existsb f l) eqn:E.
  - apply existsb_exists in E. destruct E as (x & Hin & Hf).
    apply existsb_exists. exists x. split; [now apply in_rev in Hin | exact Hf].
  - destruct (existsb f (rev l)) eqn:E'; [|reflexivity].
    apply existsb_exists in E'. destruct E' as (x & Hin & Hf).
    apply in_rev in Hin.
    assert (existsb f l = true) by (apply existsb_exists; eauto).
    congruence.
Qed.

Lemma sumZ_rev (l : list Z) : sumZ (rev l) = sumZ l.
Proof.
  induction l as [|a l IH]; [reflexivity|].
  cbn [rev]. rewrite sumZ_app, IH. unfold sumZ. cbn [fold_right]. lia.
Qed.

(** X6: the engine treats the eight images of a board alike: a move on
    the image of a board under a symmetry map gives the image of the board
    moved in the corresponding direction, with the same [moved] flag and
    the same reward. *)
Theorem move_commutes_with_symmetry (b : list Z) (k : nat) (dir : Z) :
  board4 b -> (k < 8)%nat -> 0 <= dir <= 3 ->
  let s := nth k Symmetry4.SYMMETRY_MAPS [] in
  let dir' := transformed_dir k dir in
  0 <= dir' <= 3 /\
  mr_board (move 4 (transformed_board s b) dir)
  = transformed_board s (mr_board (move 4 b dir')) /\
  moved (move 4 (transformed_board s b) dir) = moved (move 4 b dir') /\
  reward (move 4 (transformed_board s b) dir) = reward (move 4 b dir').
Proof.
  intros Hb Hk Hd s dir'.
  assert (Hd' : 0 <= dir' <= 3).
  { unfold dir', transformed_dir.
    destruct k as [|[|[|[|[|[|[|[|k]]]]]]]];
      match goal with
      | |- 0 <= ?x mod 4 <= 3 =>
          pose proof (Z.mod_pos_bound x 4 ltac:(lia)); lia
      | _ => lia
      end. }
  split; [exact Hd'|].
  pose proof (transformed_board_board4 k b Hk Hb) as Hb1. fold s in Hb1.
  destruct (move4_lines b dir' Hb Hd') as (Hb2 & Hl2 & Hm2 & Hr2).
  destruct (move4_lines _ dir Hb1 Hd) as (Hb3 & Hl3 & Hm3 & Hr3).
  pose proof (transformed_board_board4 k _ Hk Hb2) as Hb4. fold s in Hb4.
  rewrite Hm3, Hr3, Hm2, Hr2.
  destruct (lines_of_transformed_board k dir Hk Hd) as [Hx | Hx];
    fold s dir' in Hx.
  - rewrite (Hx b (proj1 Hb)) in *.
    split; [|split; reflexivity].
    apply (lines_toward_inj _ _ dir); [apply Hb3 | apply Hb4 | exact Hd |].
    rewrite Hl3, (Hx _ (proj1 Hb2)), Hl2. reflexivity.
  - rewrite (Hx b (proj1 Hb)) in *.
    split; [|split].
    + apply (lines_toward_inj _ _ dir); [apply Hb3 | apply Hb4 | exact Hd |].
      rewrite Hl3, (Hx _ (proj1 Hb2)), Hl2. apply map_rev.
    + apply existsb_rev.
    + rewrite map_rev. apply sumZ_rev.
Qed.

(** X6, applied to the board turned by the second symmetry map and moved
    to the left. *)
Lemma move_commutes_with_symmetry_witness :
  let s := nth 1 Symmetry4.SYMMETRY_MAPS [] in
  board4 two_pairs_board /\
  transformed_dir 1 3 = 0 /\
  mr_board (move 4 (transformed_board s two_pairs_board) 3)
  = transformed_board s (mr_board (move 4 two_pairs_board 0)) /\
  moved (move 4 (transformed_board s two_pairs_board) 3)
  = moved (move 4 two_pairs_board 0) /\
  reward (move 4 (transformed_board s two_pairs_board) 3)
  = reward (move 4 two_pairs_board 0).
Proof.
  intros s.
  split; [exact board4_two_pairs|]. split; [reflexivity|].
  exact (proj2 (move_commutes_with_symmetry two_pairs_board 1 3
                  board4_two_pairs ltac:(lia) ltac:(lia))).
Defined.

(** ** Tile values and codes *)

Lemma to_int32_id (v : Z) : - 2 ^ 31 <= v < 2 ^ 31 -> to_int32 v = v.
Proof.
  intros H. unfold to_int32. rewrite Z.mod_small by lia. lia.
Qed.

(** Below [2^31] the loop counts the halvings of [v]. *)
Lemma toLog2_loop_small (fuel : nat) (v n : Z) :
  1 <= v < 2 ^ Z.of_nat fuel -> v < 2 ^ 31 ->
  toLog2_loop fuel v n = n + Z.log2 v.
Proof.
  revert v n. induction fuel as [|fuel IH]; intros v n Hv H31.
  - cbn [Z.of_nat] in Hv. change (2 ^ 0) with 1 in Hv. lia.
  - cbn [toLog2_loop]. destruct (v >? 1) eqn:E.
    + assert (H1 : 1 < v) by lia.
      rewrite to_int32_id by lia. rewrite Z.shiftr_div_pow2 by lia.
      change (2 ^ 1) with 2.
      assert (Hh : 1 <= v / 2) by (apply Z.div_le_lower_bound; lia).
      rewrite IH.
      * assert (HL : 1 <= Z.log2 v) by (apply Z.log2_le_pow2; lia).
        pose proof (Z.log2_shiftr v 1 ltac:(lia)) as Hs.
        rewrite Z.shiftr_div_pow2 in Hs by lia. change (2 ^ 1) with 2 in Hs.
        rewrite Hs. lia.
      * split; [exact Hh|].
        apply Z.div_lt_upper_bound; [lia|].
        rewrite Nat2Z.inj_succ, Z.pow_succ_r in Hv by lia. lia.
      * apply Z.div_lt_upper_bound; lia.
    + assert (v = 1) by lia. subst v. cbn. lia.
Qed.

(** The loop of [toLog2] ends within 32 iterations, whatever [val]. *)
Lemma toLog2_loop_fuel (extra : nat) (v n : Z) :
  toLog2_loop (32 + extra) v n = toLog2_loop 32 v n.
Proof.
  assert (Hstop : forall f w m, w <= 1 -> toLog2_loop f w m = m).
  { intros f w m Hw. destruct f; [reflexivity|]. cbn [toLog2_loop].
    destruct (w >? 1) eqn:E; [lia | reflexivity]. }
  assert (P30 : 2 ^ 30 = 1073741824) by reflexivity.
  assert (P31 : 2 ^ 31 = 2147483648) by reflexivity.
  assert (P32 : 2 ^ 32 = 4294967296) by reflexivity.
  assert (Hrun : forall f w m, (31 <= f)%nat -> w < 2 ^ 30 ->
                   toLog2_loop f w m = toLog2_loop 31 w m).
  { intros f w m Hf Hw.
    destruct (Z_le_gt_dec w 1) as [Hle|Hgt]; [now rewrite !Hstop|].
    assert (Hpow : 2 ^ 31 <= 2 ^ Z.of_nat f)
      by (apply Z.pow_le_mono_r; lia).
    rewrite (toLog2_loop_small f w m) by lia.
    rewrite (toLog2_loop_small 31 w m);
      [reflexivity | change (2 ^ Z.of_nat 31) with (2 ^ 31); lia | lia]. }
  change (32 + extra)%nat with (S (31 + extra)).
  change 32%nat with (S 31).
  cbn [toLog2_loop]. destruct (v >? 1); [|reflexivity].
  assert (Hw : Z.shiftr (to_int32 v) 1 < 2 ^ 30).
  { rewrite Z.shiftr_div_pow2 by lia. change (2 ^ 1) with 2.
    apply Z.div_lt_upper_bound; [lia|].
    unfold to_int32. rewrite P31, P32, P30.
    pose proof (Z.mod_pos_bound (v + 2147483648) 4294967296 ltac:(lia)).
    lia. }
  apply Hrun; [lia | exact Hw].
Qed.

Lemma tileValue_pow (k : Z) : 1 <= k <= 30 -> tileValue k = 2 ^ k.
Proof.
  intros Hk. unfold tileValue.
  destruct (Z.eqb_spec k 0); [lia|]. apply js_shl_1_small. lia.
Qed.

(** X7: [toLog2] is the binary logarithm on the tile values: it returns
    [log2 v] rounded down for every [v] from 1 to [2^31 - 1], 0 for 0 and
    for negative numbers, and it undoes [tileValue] on every code up to 30
    (code 31 is lost: [tileValue(31)] is negative). *)
Theorem toLog2_is_log2 (v k : Z) :
  (1 <= v < 2 ^ 31 -> toLog2 v = Z.log2 v) /\
  (v <= 0 -> toLog2 v = 0) /\
  (0 <= k <= 30 -> toLog2 (tileValue k) = k) /\
  (1 <= k <= 30 -> tileValue (toLog2 (2 ^ k)) = 2 ^ k) /\
  toLog2 (tileValue 31) = 0.
Proof.
  assert (H1 : forall w, 1 <= w < 2 ^ 31 -> toLog2 w = Z.log2 w).
  { intros w Hw. unfold toLog2. destruct (Z.eqb_spec w 0); [lia|].
    rewrite toLog2_loop_small; [lia | | lia].
    split; [lia|]. change (2 ^ Z.of_nat 32) with (2 ^ 32). lia. }
  assert (Hp : forall j, 1 <= j <= 30 -> 1 <= 2 ^ j < 2 ^ 31).
  { intros j Hj. split.
    - apply (Z.pow_le_mono_r 2 0 j); lia.
    - apply Z.pow_lt_mono_r; lia. }
  split; [apply H1|]. split; [|split; [|split]].
  - intros Hv. unfold toLog2. destruct (Z.eqb_spec v 0); [reflexivity|].
    cbn [toLog2_loop]. destruct (v >? 1) eqn:E; [lia | reflexivity].
  - intros Hk. destruct (Z.eq_dec k 0) as [->|Hne]; [reflexivity|].
    rewrite tileValue_pow by lia. rewrite H1 by (apply Hp; lia).
    apply Z.log2_pow2. lia.
  - intros Hk. rewrite H1 by (apply Hp; lia).
    rewrite Z.log2_pow2 by lia. apply tileValue_pow. exact Hk.
  - reflexivity.
Qed.

(** X7, applied to the tile 8 and the code 3. *)
Lemma toLog2_is_log2_witness :
  toLog2 8 = Z.log2 8 /\ toLog2 (-3) = 0 /\
  toLog2 (tileValue 3) = 3 /\ tileValue (toLog2 (2 ^ 3)) = 2 ^ 3.
Proof.
  split; [apply (proj1 (toLog2_is_log2 8 3)); split; [lia | reflexivity]|].
  split; [apply (proj1 (proj2 (toLog2_is_log2 (-3) 3))); lia|].
  split; [apply (proj1 (proj2 (proj2 (toLog2_is_log2 8 3)))); lia|].
  apply (proj1 (proj2 (proj2 (proj2 (toLog2_is_log2 8 3))))); lia.
Defined.

Lemma toLog2_tileValue (k : Z) : 0 <= k <= 30 -> toLog2 (tileValue k) = k.
Proof.
  intros Hk. destruct (Z.eq_dec k 0) as [->|Hne]; [reflexivity|].
  rewrite tileValue_pow by lia.
  assert (Hp : 1 <= 2 ^ k < 2 ^ 31).
  { split; [apply (Z.pow_le_mono_r 2 0 k); lia
           | apply Z.pow_lt_mono_r; lia]. }
  unfold toLog2. destruct (Z.eqb_spec (2 ^ k) 0); [lia|].
  rewrite toLog2_loop_small;
    [rewrite Z.log2_pow2 by lia; lia | | lia].
  split; [lia|]. change (2 ^ Z.of_nat 32) with (2 ^ 32).
  apply Z.lt_trans with (2 ^ 31); [lia | reflexivity].
Qed.

(** X8: a board converted to a grid of tile values and back is the same
    board, when its codes are at most 30; and [fromGrid] throws on a grid
    with fewer rows than the board. *)
Theorem fromGrid_toGrid (b : list Z) (grid : list (list Z)) :
  (board4 b -> codes_at_most 30 b -> fromGrid 4 (toGrid 4 b) = Some b) /\
  ((length grid < 4)%nat -> fromGrid 4 grid = None).
Proof.
  split.
  - intros Hb Hc.
    destruct (board4_inv b Hb) as
      (a0 & a1 & a2 & a3 & a4 & a5 & a6 & a7 & a8 & a9 & a10 & a11 & a12
       & a13 & a14 & a15 & -> & Hbc).
    clear Hb. unfold codes_at_most in Hc. byte_facts.
    unfold fromGrid, toGrid, TOTAL.
    cbn [seq map cell_value nth_error Nat.mul Nat.add repeat fromGrid_rows
         fromGrid_cells aset].
    rewrite !toLog2_tileValue by lia.
    rewrite !u8_id by lia. reflexivity.
  - intros Hl. unfold fromGrid.
    destruct grid as [|r0 [|r1 [|r2 [|r3 grid]]]];
      [reflexivity..|cbn [length] in Hl; lia].
Qed.

(** X8, applied to a board and to a grid of two rows. *)
Lemma fromGrid_toGrid_witness :
  fromGrid 4 (toGrid 4 two_pairs_board) = Some two_pairs_board /\
  fromGrid 4 [[2; 2; 4; 4]; [0; 0; 0; 0]] = None.
Proof.
  split.
  - exact (proj1 (fromGrid_toGrid two_pairs_board [])
             board4_two_pairs (codes_two_pairs 30 ltac:(lia))).
  - apply (proj2 (fromGrid_toGrid two_pairs_board
                    [[2; 2; 4; 4]; [0; 0; 0; 0]])).
    cbn [length]. lia.
Defined.

Lemma tileValue_toLog2 (v : Z) :
  tile_value v ->
  0 <= toLog2 v <= 30 /\ tileValue (toLog2 v) = v.
Proof.
  intros [-> | (k & Hk & ->)]; [split; [cbn; lia | reflexivity]|].
  assert (Hp : 1 <= 2 ^ k < 2 ^ 31).
  { split; [apply (Z.pow_le_mono_r 2 0 k); lia
           | apply Z.pow_lt_mono_r; lia]. }
  assert (E : toLog2 (2 ^ k) = k).
  { rewrite <- (tileValue_pow k) by lia. apply toLog2_tileValue. lia. }
  rewrite E. split; [lia | now apply tileValue_pow].
Qed.

(** X9: a 4x4 grid of tile values converted to a board and back is the
    same grid, and the board holds the binary logarithm of each value. *)
Theorem toGrid_fromGrid (grid : list (list Z)) :
  length grid = 4%nat ->
  Forall (fun row => length row = 4%nat /\ Forall tile_value row) grid ->
  exists b,
    fromGrid 4 grid = Some b /\ board4 b /\ codes_at_most 30 b /\
    toGrid 4 b = grid /\
    b = map toLog2 (concat grid).
Proof.
  intros Hl Hrows.
  destruct grid as [|r0 [|r1 [|r2 [|r3 [|r4 grid]]]]]; try discriminate Hl.
  clear Hl.
  repeat match goal with
  | H : Forall _ (_ :: _) |- _ =>
      let H1 := fresh "R" in let H2 := fresh "H" in
      apply Forall_cons_iff in H; destruct H as [H1 H2]
  | H : Forall _ [] |- _ => clear H
  | H : length ?r = 4%nat /\ _ |- _ =>
      let L := fresh "L" in let T := fresh "T" in
      destruct H as [L T];
      destruct (length4_inv r L) as (? & ? & ? & ? & ->); clear L
  end.
  repeat match goal with
  | H : tile_value ?v |- _ =>
      let B := fresh "B" in let E := fresh "E" in
      destruct (tileValue_toLog2 v H) as [B E]; clear H
  end.
  eexists. split; [|split; [|split; [|split]]].
  - unfold fromGrid, TOTAL.
    cbn [seq map nth_error Nat.mul Nat.add repeat fromGrid_rows
         fromGrid_cells aset].
    rewrite !u8_id by lia. reflexivity.
  - split; [reflexivity | byte_goal].
  - unfold codes_at_most. repeat (apply Forall_cons; [lia|]). apply Forall_nil.
  - unfold toGrid.
    cbn [seq map cell_value nth_error Nat.mul Nat.add].
    repeat match goal with
    | H : tileValue _ = _ |- _ => rewrite H; clear H
    end.
    reflexivity.
  - reflexivity.
Qed.

(** X9, applied to a grid. *)
Lemma toGrid_fromGrid_witness :
  let grid := [[2; 2; 4; 4]; [0; 0; 0; 0]; [0; 8; 0; 0]; [0; 0; 0; 1024]] in
  exists b,
    fromGrid 4 grid = Some b /\ board4 b /\ codes_at_most 30 b /\
    toGrid 4 b = grid /\
    b = map toLog2 (concat grid).
Proof.
  intros grid.
  assert (T0 : tile_value 0) by (left; reflexivity).
  assert (T2 : tile_value 2) by (right; exists 1; split; [lia|reflexivity]).
  assert (T4 : tile_value 4) by (right; exists 2; split; [lia|reflexivity]).
  assert (T8 : tile_value 8) by (right; exists 3; split; [lia|reflexivity]).
  assert (T1024 : tile_value 1024)
    by (right; exists 10; split; [lia|reflexivity]).
  apply (toGrid_fromGrid grid eq_refl).
  repeat (apply Forall_cons;
          [split; [reflexivity
                  | repeat (apply Forall_cons; [assumption|]);
                    apply Forall_nil]|]).
  apply Forall_nil.
Defined.

(** ** Random tiles *)

Lemma random_below_lt (n : nat) (g : rng) :
  (0 < n)%nat -> (fst (random_below n g) < n)%nat.
Proof.
  intros Hn. destruct g as [|r g]; cbn [random_below fst]; [exact Hn|].
  apply Nat.mod_upper_bound. lia.
Qed.

Lemma empty_cells_In (SIZE : nat) (b : list Z) (i : nat) :
  In i (empty_cells SIZE b) <-> (i < TOTAL SIZE)%nat /\ aget b i = 0.
Proof.
  unfold empty_cells. rewrite filter_In, in_seq, Z.eqb_eq. lia.
Qed.

Lemma aset_split (b : list Z) (i : nat) (v : Z) :
  (i < length b)%nat ->
  b = firstn i b ++ nth i b 0 :: skipn (S i) b /\
  aset b i v = firstn i b ++ u8 v :: skipn (S i) b.
Proof.
  revert i. induction b as [|a b IH]; intros i Hi; [cbn [length] in Hi; lia|].
  destruct i as [|i]; [split; reflexivity|].
  cbn [length] in Hi. destruct (IH i ltac:(lia)) as [E1 E2].
  cbn [firstn nth skipn aset app]. split; [f_equal; exact E1 | f_equal; exact E2].
Qed.

Lemma aset_nth (b : list Z) (i j : nat) (v : Z) :
  (i < length b)%nat ->
  nth j (aset b i v) 0 = if (j =? i)%nat then u8 v else nth j b 0.
Proof.
  revert i j. induction b as [|a b IH]; intros i j Hi;
    [cbn [length] in Hi; lia|].
  destruct i as [|i], j as [|j]; cbn [aset nth Nat.eqb]; try reflexivity.
  cbn [length] in Hi. apply IH. lia.
Qed.

Lemma total_value_app (l1 l2 : list Z) :
  total_value (l1 ++ l2) = total_value l1 + total_value l2.
Proof. unfold total_value. rewrite map_app. apply sumZ_app. Qed.

(** Putting a tile on an empty cell. *)
Lemma aset_empty_cell (b : list Z) (i : nat) (v : Z) :
  (i < length b)%nat -> nth i b 0 = 0 -> 1 <= v < 256 ->
  zero_count (aset b i v) = zero_count b - 1 /\
  total_value (aset b i v) = total_value b + 2 ^ v /\
  (byte_cells b -> byte_cells (aset b i v)).
Proof.
  intros Hi Hz Hv. destruct (aset_split b i v Hi) as [E1 E2].
  rewrite Hz in E1. rewrite u8_id in E2 by lia.
  set (pre := firstn i b) in *. set (suf := skipn (S i) b) in *.
  split; [|split].
  - rewrite E2.
    replace (zero_count b) with (zero_count (pre ++ 0 :: suf))
      by (now rewrite <- E1).
    rewrite !zero_count_app.
    unfold zero_count, sumZ. cbn [map fold_right].
    destruct (Z.eqb_spec v 0); [lia|]. cbn [Z.eqb]. lia.
  - rewrite E2.
    replace (total_value b) with (total_value (pre ++ 0 :: suf))
      by (now rewrite <- E1).
    rewrite !total_value_app.
    unfold total_value, sumZ, actual_value. cbn [map fold_right].
    destruct (Z.eqb_spec v 0); [lia|]. cbn [Z.eqb]. lia.
  - intros Hb. apply byte_cells_aset. exact Hb.
Qed.

Lemma addRandomTile_full (SIZE : nat) (b : list Z) (g : rng) :
  length b = TOTAL SIZE -> zero_count b = 0 ->
  addRandomTile SIZE b g = (false, b, g).
Proof.
  intros Hl Hz. unfold addRandomTile.
  pose proof (empty_cells_length SIZE b Hl) as He.
  destruct (length (empty_cells SIZE b)); [reflexivity|].
  rewrite Hz in He. lia.
Qed.

Lemma addRandomTile_room (SIZE : nat) (b : list Z) (g : rng) :
  length b = TOTAL SIZE -> 0 < zero_count b ->
  exists idx v g',
    addRandomTile SIZE b g = (true, aset b idx v, g') /\
    (idx < TOTAL SIZE)%nat /\ nth idx b 0 = 0 /\ (v = 1 \/ v = 2).
Proof.
  intros Hl Hz. unfold addRandomTile.
  pose proof (empty_cells_length SIZE b Hl) as He.
  destruct (length (empty_cells SIZE b)) as [|n] eqn:E;
    [cbn [Z.of_nat] in He; lia|].
  cbn [Nat.eqb].
  pose proof (random_below_lt (S n) g ltac:(lia)) as Hk.
  destruct (random_below (S n) g) as [k g1]. cbn [fst] in Hk.
  assert (Hin : In (nth k (empty_cells SIZE b) 0%nat) (empty_cells SIZE b))
    by (apply nth_In; lia).
  apply empty_cells_In in Hin. destruct Hin as [Hi Ha].
  destruct (random_chance g1) as [small g2].
  exists (nth k (empty_cells SIZE b) 0%nat), (if small then 1 else 2), g2.
  split; [reflexivity|]. split; [exact Hi|]. split; [exact Ha|].
  destruct small; auto.
Qed.

(** X10: [addRandomTile] returns false and changes nothing exactly on a
    board with no empty cell; otherwise it returns true after putting one
    tile of code 1 or 2 on a cell that was empty, every other cell kept:
    one empty cell fewer, and 2 or 4 more in total value. *)
Theorem addRandomTile_adds_one_tile (SIZE : nat) (b : list Z) (g : rng) :
  length b = TOTAL SIZE ->
  let '(ok, b', g') := addRandomTile SIZE b g in
  (zero_count b = 0 -> ok = false /\ b' = b /\ g' = g) /\
  (0 < zero_count b ->
   ok = true /\
   exists idx v,
     (idx < TOTAL SIZE)%nat /\ nth idx b 0 = 0 /\ (v = 1 \/ v = 2) /\
     nth idx b' 0 = v /\
     (forall j, j <> idx -> nth j b' 0 = nth j b 0) /\
     length b' = length b /\
     zero_count b' = zero_count b - 1 /\
     total_value b' = total_value b + 2 ^ v).
Proof.
  intros Hl.
  destruct (Z_le_gt_dec (zero_count b) 0) as [Hz|Hz].
  - pose proof (zero_count_nonneg b).
    rewrite addRandomTile_full by lia.
    split; [auto | lia].
  - destruct (addRandomTile_room SIZE b g Hl ltac:(lia))
      as (idx & v & g' & -> & Hi & Ha & Hv).
    split; [lia|]. intros _. split; [reflexivity|].
    exists idx, v.
    assert (Hv' : 1 <= v < 256) by lia.
    destruct (aset_empty_cell b idx v ltac:(lia) Ha Hv') as (Z1 & T1 & _).
    split; [exact Hi|]. split; [exact Ha|]. split; [exact Hv|].
    split; [rewrite aset_nth, Nat.eqb_refl, u8_id by lia; reflexivity|].
    split.
    { intros j Hj. rewrite aset_nth by lia.
      destruct (Nat.eqb_spec j idx); [contradiction | reflexivity]. }
    split; [apply aset_length|]. split; assumption.
Qed.

(** X10, applied to a full 2x2 board and to one with an empty cell. *)
Lemma addRandomTile_adds_one_tile_witness :
  (length [1; 2; 1; 2] = TOTAL 2 /\ zero_count [1; 2; 1; 2] = 0 /\
   addRandomTile 2 [1; 2; 1; 2] [0; 3]%nat
   = (false, [1; 2; 1; 2], [0; 3]%nat)) /\
  (length [0; 2; 1; 2] = TOTAL 2 /\ 0 < zero_count [0; 2; 1; 2] /\
   let '(ok, b', g') := addRandomTile 2 [0; 2; 1; 2] [0; 3]%nat in
   ok = true /\
   zero_count b' = zero_count [0; 2; 1; 2] - 1 /\
   exists v, (v = 1 \/ v = 2) /\
             total_value b' = total_value [0; 2; 1; 2] + 2 ^ v).
Proof.
  split.
  - split; [reflexivity|]. split; [reflexivity|].
    pose proof (addRandomTile_adds_one_tile 2 [1; 2; 1; 2] [0; 3]%nat
                  eq_refl) as H.
    destruct (addRandomTile 2 [1; 2; 1; 2] [0; 3]%nat) as [[ok b'] g'].
    destruct (proj1 H eq_refl) as (-> & -> & ->). reflexivity.
  - split; [reflexivity|]. split; [reflexivity|].
    pose proof (addRandomTile_adds_one_tile 2 [0; 2; 1; 2] [0; 3]%nat
                  eq_refl) as H.
    destruct (addRandomTile 2 [0; 2; 1; 2] [0; 3]%nat) as [[ok b'] g'].
    destruct (proj2 H eq_refl)
      as (Hok & idx & v & _ & _ & Hv & _ & _ & _ & Hz & Ht).
    split; [exact Hok|]. split; [exact Hz|].
    exists v. split; [exact Hv | exact Ht].
Defined.

(** X11: [createBoard] returns a board of [SIZE * SIZE] cells holding
    exactly two tiles, each of code 1 or 2 (for [SIZE >= 2]). *)
Theorem createBoard_two_tiles (SIZE : nat) (g : rng) :
  (2 <= SIZE)%nat ->
  let b := fst (createBoard SIZE g) in
  length b = TOTAL SIZE /\ byte_cells b /\ codes_at_most 2 b /\
  zero_count b = Z.of_nat (TOTAL SIZE) - 2 /\
  4 <= total_value b <= 8.
Proof.
  intros HS.
  assert (HT : (4 <= TOTAL SIZE)%nat) by (unfold TOTAL; nia).
  unfold createBoard.
  set (b0 := repeat 0 (TOTAL SIZE)).
  assert (L0 : length b0 = TOTAL SIZE) by apply repeat_length.
  assert (Z0 : zero_count b0 = Z.of_nat (TOTAL SIZE)).
  { unfold b0. generalize (TOTAL SIZE). intros n.
    induction n as [|n IH]; [reflexivity|].
    cbn [repeat]. change (0 :: repeat 0 n) with ([0] ++ repeat 0 n).
    rewrite zero_count_app, IH, Nat2Z.inj_succ.
    unfold zero_count, sumZ. cbn [map fold_right Z.eqb]. lia. }
  assert (T0 : total_value b0 = 0).
  { unfold b0. generalize (TOTAL SIZE). intros n.
    induction n as [|n IH]; [reflexivity|].
    cbn [repeat]. change (0 :: repeat 0 n) with ([0] ++ repeat 0 n).
    rewrite total_value_app, IH. reflexivity. }
  assert (B0 : byte_cells b0) by apply byte_cells_repeat0.
  assert (C0 : codes_at_most 2 b0).
  { unfold b0, codes_at_most. generalize (TOTAL SIZE). intros n.
    induction n as [|n IH]; constructor; [lia | exact IH]. }
  assert (Hset : forall b idx v,
            codes_at_most 2 b -> (v = 1 \/ v = 2) ->
            codes_at_most 2 (aset b idx v)).
  { intros b idx v Hc Hv. revert idx.
    unfold codes_at_most in *.
    induction Hc as [|a l Ha Hl IH]; intros [|idx]; cbn [aset];
      try constructor; auto.
    rewrite u8_id by lia. lia. }
  destruct (addRandomTile_room SIZE b0 g L0 ltac:(lia))
    as (i1 & v1 & g1 & -> & Hi1 & Ha1 & Hv1).
  assert (Hv1' : 1 <= v1 < 256) by lia.
  destruct (aset_empty_cell b0 i1 v1 ltac:(lia) Ha1 Hv1') as (Z1 & T1 & B1).
  set (b1 := aset b0 i1 v1) in *.
  assert (L1 : length b1 = TOTAL SIZE)
    by (unfold b1; rewrite aset_length; exact L0).
  destruct (addRandomTile_room SIZE b1 g1 L1 ltac:(lia))
    as (i2 & v2 & g2 & -> & Hi2 & Ha2 & Hv2).
  assert (Hv2' : 1 <= v2 < 256) by lia.
  destruct (aset_empty_cell b1 i2 v2 ltac:(lia) Ha2 Hv2') as (Z2 & T2 & B2).
  cbn [fst].
  split; [rewrite aset_length; exact L1|].
  split; [auto|].
  split; [apply Hset; [apply Hset; assumption | assumption]|].
  split; [lia|].
  rewrite T2, T1, T0.
  destruct Hv1 as [-> | ->], Hv2 as [-> | ->]; cbn; lia.
Qed.

(** X11, applied to the 4x4 board. *)
Lemma createBoard_two_tiles_witness :
  let b := fst (createBoard 4 [3; 7; 5; 9]%nat) in
  (2 <= 4)%nat /\
  length b = TOTAL 4 /\ byte_cells b /\ codes_at_most 2 b /\
  zero_count b = Z.of_nat (TOTAL 4) - 2 /\
  4 <= total_value b <= 8.
Proof.
  intros b. split; [lia|].
  exact (createBoard_two_tiles 4 [3; 7; 5; 9]%nat ltac:(lia)).
Defined.

(** ** One step of a game: a move, then a random tile *)

Lemma move4_total_value (b : list Z) (dir : Z) :
  board4 b -> codes_at_most 254 b ->
  total_value (mr_board (move 4 b dir)) = total_value b.
Proof.
  intros Hb Hcodes.
  destruct (Z_le_dec 0 dir) as [H0|H0];
    [destruct (Z_le_dec dir 3) as [H3|H3]|].
  2, 3: rewrite move4_no_direction by lia; reflexivity.
  destruct (move4_lines_summary b dir 254 Hb (conj H0 H3))
    as (l0 & l1 & l2 & l3 & _ & (L0 & L1 & L2 & L3) & (B0 & B1 & B2 & B3)
        & Hc & Hsum & _ & _ & Hsum').
  destruct (Hc Hcodes) as (C0 & C1 & C2 & C3).
  unfold total_value. rewrite Hsum, Hsum', !map_app, !sumZ_app.
  pose proof (tot_slideLine actual_value 254 ltac:(lia) eq_refl
                actual_value_doubles) as T.
  rewrite <- (T l0 B0 C0), <- (T l1 B1 C1), <- (T l2 B2 C2),
    <- (T l3 B3 C3).
  now rewrite L0, L1, L2, L3.
Qed.

(** X12: one step of a game (a move that changes the board, then
    [addRandomTile]) leaves a well-formed board whose total tile value is
    the total before the step plus the value, 2 or 4, of the tile that
    appeared. *)
Theorem game_step_adds_new_tile (b : list Z) (dir : Z) (g : rng) :
  board4 b -> codes_at_most 254 b -> moved (move 4 b dir) = true ->
  let '(ok, b', g') := addRandomTile 4 (mr_board (move 4 b dir)) g in
  ok = true /\ board4 b' /\
  (total_value b' = total_value b + 2 \/
   total_value b' = total_value b + 4).
Proof.
  intros Hb Hc Hm.
  destruct (legal_move_zero_count b dir Hb Hm) as [Hb' Hz'].
  pose proof (move4_total_value b dir Hb Hc) as Ht.
  set (after := mr_board (move 4 b dir)) in *.
  assert (Hz : 0 < zero_count after) by lia.
  destruct (addRandomTile_room 4 after g (proj1 Hb') Hz)
    as (idx & v & g' & -> & Hi & Ha & Hv).
  assert (Hv' : 1 <= v < 256) by lia.
  destruct (aset_empty_cell after idx v
              ltac:(rewrite (proj1 Hb'); exact Hi) Ha Hv')
    as (_ & T1 & B1).
  split; [reflexivity|]. split.
  - split; [rewrite aset_length; apply Hb' | apply B1, Hb'].
  - rewrite T1, Ht. destruct Hv as [-> | ->]; [left | right]; reflexivity.
Qed.

(** X12, applied to a move with two merges. *)
Lemma game_step_adds_new_tile_witness :
  board4 two_pairs_board /\ codes_at_most 254 two_pairs_board /\
  moved (move 4 two_pairs_board 3) = true /\
  let '(ok, b', g') :=
    addRandomTile 4 (mr_board (move 4 two_pairs_board 3)) [5; 9]%nat in
  ok = true /\ board4 b' /\
  (total_value b' = total_value two_pairs_board + 2 \/
   total_value b' = total_value two_pairs_board + 4).
Proof.
  split; [exact board4_two_pairs|].
  split; [apply codes_two_pairs; lia|]. split; [reflexivity|].
  exact (game_step_adds_new_tile two_pairs_board 3 [5; 9]%nat
           board4_two_pairs (codes_two_pairs 254 ltac:(lia)) eq_refl).
Defined.

(** ** Players *)

(** X13: the benchmark's [RandomPlayer] returns -1, drawing nothing, when
    no action moves the board, and otherwise an action that moves it. *)
Theorem Random_selectMove_legal (SIZE : nat) (board : list Z) (g : rng) :
  ((forall dir, ~ legal SIZE board dir) ->
   Random_selectMove SIZE board g = (-1, g)) /\
  ((exists dir, legal SIZE board dir) ->
   legal SIZE board (fst (Random_selectMove SIZE board g))).
Proof.
  unfold Random_selectMove.
  set (dirs := filter (fun dir => moved (move SIZE (cloneBoard board) dir))
                      [0; 1; 2; 3]).
  assert (Hin : forall d, In d dirs <-> legal SIZE board d).
  { intros d. unfold dirs, legal. rewrite filter_In. reflexivity. }
  split.
  - intros Hno. destruct dirs as [|d ds]; [reflexivity|].
    exfalso. apply (Hno d). apply Hin. now left.
  - intros (d & Hd). apply Hin in Hd.
    destruct dirs as [|d0 ds] eqn:E; [destruct Hd|].
    cbn [length Nat.eqb].
    pose proof (random_below_lt (S (length ds)) g ltac:(lia)) as Hk.
    destruct (random_below (S (length ds)) g) as [k g'].
    cbn [fst] in *. apply Hin. apply nth_In. cbn [length]. exact Hk.
Qed.

(** X13, applied to a board on which nothing moves and to one on which
    the move to the left does. *)
Lemma Random_selectMove_legal_witness :
  ((forall dir, ~ legal 4 stuck_board dir) /\
   Random_selectMove 4 stuck_board [2]%nat = (-1, [2]%nat)) /\
  ((exists dir, legal 4 two_pairs_board dir) /\
   legal 4 two_pairs_board
         (fst (Random_selectMove 4 two_pairs_board [2]%nat))).
Proof.
  split.
  - split; [exact stuck_board_no_action|].
    exact (proj1 (Random_selectMove_legal 4 stuck_board [2]%nat)
             stuck_board_no_action).
  - assert (H : exists dir, legal 4 two_pairs_board dir)
      by (exists 3; exact two_pairs_left_legal).
    split; [exact H|].
    exact (proj2 (Random_selectMove_legal 4 two_pairs_board [2]%nat) H).
Defined.

(** ** The players return legal actions *)

(** The greedy player keeps the two variables of the selection loop of
    the learning loop that it has. *)
Lemma greedy_step_select_step (SIZE : nat) (ev : list Z -> number)
    (board : list Z) (st : choice) (dir : Z) :
  greedy_step SIZE ev board (bestDir st, bestValue st) dir
  = (bestDir (select_step SIZE ev board st dir),
     bestValue (select_step SIZE ev board st dir)).
Proof.
  unfold greedy_step, select_step.
  destruct (moved (move SIZE (cloneBoard board) dir)); cbn [negb];
    [|reflexivity].
  destruct (num_gt _ (bestValue st)); reflexivity.
Qed.

Lemma greedy_is_select_best (SIZE : nat) (ev : list Z -> number)
    (board : list Z) :
  Greedy_selectMove SIZE ev board = bestDir (select_best SIZE ev board).
Proof.
  unfold Greedy_selectMove, select_best.
  change (-1, neg_infinity) with (bestDir no_choice, bestValue no_choice).
  generalize no_choice. generalize [0; 1; 2; 3].
  intros l. induction l as [|d l IH]; intros st; [reflexivity|].
  cbn [fold_left]. rewrite greedy_step_select_step. apply IH.
Qed.

(** X14: [GreedyPlayer.selectMove] (and the identical loops of
    [playEvalGame] and [_playRecordedGame]) chooses as the learning loop
    does; it returns -1 or an action that moves the board, and -1 when no
    action moves it. *)
Theorem greedy_selects_like_learning_loop (SIZE : nat)
    (ev : list Z -> number) (board : list Z) :
  Greedy_selectMove SIZE ev board = bestDir (select_best SIZE ev board) /\
  (Greedy_selectMove SIZE ev board = -1 \/
   legal SIZE board (Greedy_selectMove SIZE ev board)) /\
  ((forall dir, ~ legal SIZE board dir) ->
   Greedy_selectMove SIZE ev board = -1).
Proof.
  split; [apply greedy_is_select_best|]. split.
  - rewrite greedy_is_select_best.
    destruct (selected_end SIZE ev board)
      as [(Hd & _) | (Hd & Hm & _)]; [left; exact Hd | right].
    split; [cbn [In]; lia | exact Hm].
  - apply greedy_no_move.
Qed.

(** X14, applied to a board on which nothing moves. *)
Lemma greedy_selects_like_learning_loop_witness :
  (forall dir, ~ legal 4 stuck_board dir) /\
  Greedy_selectMove 4 (evaluate NTupleNetwork_new) stuck_board = -1.
Proof.
  split; [exact stuck_board_no_action|].
  exact (proj2 (proj2 (greedy_selects_like_learning_loop 4
                         (evaluate NTupleNetwork_new) stuck_board))
           stuck_board_no_action).
Defined.

(** The variables of the loop of [ExpectimaxPlayer.selectMove]: the best
    direction is -1 or one that moved the board. *)
Lemma expectimax_step_legal (SIZE : nat) (ev : list Z -> number)
    (depth : Z) (board : list Z) (st : Z * number * rng) (dir : Z) :
  In dir [0; 1; 2; 3] ->
  (fst (fst st) = -1 \/ legal SIZE board (fst (fst st))) ->
  let st' := expectimax_step SIZE ev depth board st dir in
  fst (fst st') = -1 \/ legal SIZE board (fst (fst st')).
Proof.
  intros Hin Hst. destruct st as [[bd bv] g]. cbn [fst] in Hst.
  unfold expectimax_step.
  destruct (moved (move SIZE (cloneBoard board) dir)) eqn:Em; cbn [negb];
    [|exact Hst].
  destruct (chanceNode SIZE ev (Z.to_nat depth) _ (depth - 1) g) as [v g'].
  destruct (num_gt _ bv); cbn [fst]; [right; now split | exact Hst].
Qed.

Lemma expectimax_step_no_move (SIZE : nat) (ev : list Z -> number)
    (depth : Z) (board : list Z) (st : Z * number * rng) (dir : Z) :
  moved (move SIZE (cloneBoard board) dir) = false ->
  expectimax_step SIZE ev depth board st dir = st.
Proof.
  intros Hm. destruct st as [[bd bv] g]. unfold expectimax_step.
  now rewrite Hm.
Qed.

(** X15: for every search depth and every state of the random source,
    [ExpectimaxPlayer.selectMove] returns -1 or an action that moves the
    board; when no action moves the board it returns -1 and draws
    nothing. *)
Theorem expectimax_selects_legal (SIZE : nat) (ev : list Z -> number)
    (depth : Z) (board : list Z) (g : rng) :
  (fst (Expectimax_selectMove SIZE ev depth board g) = -1 \/
   legal SIZE board (fst (Expectimax_selectMove SIZE ev depth board g))) /\
  ((forall dir, ~ legal SIZE board dir) ->
   Expectimax_selectMove SIZE ev depth board g = (-1, g)).
Proof.
  unfold Expectimax_selectMove. split.
  - assert (H : forall l st,
              (forall d, In d l -> In d [0; 1; 2; 3]) ->
              (fst (fst st) = -1 \/ legal SIZE board (fst (fst st))) ->
              let st' := fold_left (expectimax_step SIZE ev depth board) l st
              in fst (fst st') = -1 \/ legal SIZE board (fst (fst st'))).
    { intros l. induction l as [|d l IH]; intros st Hl Hst; [exact Hst|].
      cbn [fold_left]. apply IH.
      - intros d' Hd'. apply Hl. now right.
      - apply expectimax_step_legal; [apply Hl; now left | exact Hst]. }
    specialize (H [0; 1; 2; 3] (-1, neg_infinity, g) (fun d Hd => Hd)
                  (or_introl eq_refl)).
    cbv zeta in H.
    destruct (fold_left _ [0; 1; 2; 3] (-1, neg_infinity, g))
      as [[bd bv] g'].
    exact H.
  - intros Hno. cbn [fold_left].
    rewrite !expectimax_step_no_move; [reflexivity | ..].
    all: match goal with
         | |- moved (move _ _ ?d) = false =>
             destruct (moved (move SIZE (cloneBoard board) d)) eqn:E;
             [exfalso; apply (Hno d); split; [cbn [In]; auto 6 | exact E]
             | reflexivity]
         end.
Qed.

(** X15, applied to the same board at depth 3. *)
Lemma expectimax_selects_legal_witness :
  (forall dir, ~ legal 4 stuck_board dir) /\
  Expectimax_selectMove 4 (evaluate NTupleNetwork_new) 3 stuck_board
                        [2; 5]%nat
  = (-1, [2; 5]%nat).
Proof.
  split; [exact stuck_board_no_action|].
  exact (proj2 (expectimax_selects_legal 4 (evaluate NTupleNetwork_new) 3
                  stuck_board [2; 5]%nat) stuck_board_no_action).
Defined.

(** X16: a search depth of 1 buys nothing: for every depth up to 1 the
    expectimax player evaluates the afterstates as the greedy player does,
    selects the same action and draws no random number. *)
Theorem expectimax_depth1_is_greedy (SIZE : nat) (ev : list Z -> number)
    (depth : Z) (board : list Z) (g : rng) :
  depth <= 1 ->
  Expectimax_selectMove SIZE ev depth board g
  = (Greedy_selectMove SIZE ev board, g).
Proof. apply expectimax_shallow. Qed.

(** X16, applied at depth 1. *)
Lemma expectimax_depth1_is_greedy_witness :
  1 <= 1 /\
  Expectimax_selectMove 4 (evaluate NTupleNetwork_new) 1 two_pairs_board
                        [2; 5]%nat
  = (Greedy_selectMove 4 (evaluate NTupleNetwork_new) two_pairs_board,
     [2; 5]%nat).
Proof.
  split; [lia|].
  exact (expectimax_depth1_is_greedy 4 (evaluate NTupleNetwork_new) 1
           two_pairs_board [2; 5]%nat ltac:(lia)).
Defined.

(** ** Sampling cells *)

Lemma swap_cells_length (l : list nat) (i j : nat) :
  length (swap_cells l i j) = length l.
Proof. unfold swap_cells. now rewrite length_map, length_seq. Qed.

Lemma swap_cells_nth (l : list nat) (i j k : nat) :
  (k < length l)%nat ->
  nth k (swap_cells l i j) 0%nat
  = if (k =? i)%nat then nth j l 0%nat
    else if (k =? j)%nat then nth i l 0%nat else nth k l 0%nat.
Proof.
  intros Hk. unfold swap_cells.
  set (f := fun k : nat => if (k =? i)%nat then nth j l 0%nat
                           else if (k =? j)%nat then nth i l 0%nat
                                else nth k l 0%nat).
  rewrite (nth_indep (map f (seq 0 (length l))) 0%nat (f 0%nat))
    by (now rewrite length_map, length_seq).
  rewrite (map_nth f), seq_nth by exact Hk. reflexivity.
Qed.

Lemma swap_cells_same (l : list nat) (i : nat) :
  (i < length l)%nat -> swap_cells l i i = l.
Proof.
  intros Hi. apply (nth_ext _ _ 0%nat 0%nat); [apply swap_cells_length|].
  intros k Hk. rewrite swap_cells_length in Hk.
  rewrite swap_cells_nth by exact Hk.
  destruct (Nat.eqb_spec k i); [now subst | reflexivity].
Qed.

(** Exchanging two elements, the earlier one at [j]. *)
Lemma swap_cells_split (l1 l2 l3 : list nat) (a b : nat) :
  swap_cells (l1 ++ a :: l2 ++ b :: l3) (length l1 + S (length l2))
             (length l1)
  = l1 ++ b :: l2 ++ a :: l3.
Proof.
  set (l := l1 ++ a :: l2 ++ b :: l3).
  set (i := (length l1 + S (length l2))%nat).
  assert (Hl : length l = (length l1 + S (length l2 + S (length l3)))%nat).
  { unfold l. rewrite length_app. cbn [length]. rewrite length_app.
    cbn [length]. reflexivity. }
  assert (Hni : nth i l 0%nat = b).
  { unfold l, i. rewrite app_nth2 by lia.
    replace (length l1 + S (length l2) - length l1)%nat
      with (S (length l2)) by lia.
    cbn [nth]. rewrite app_nth2 by lia. now rewrite Nat.sub_diag. }
  assert (Hnj : nth (length l1) l 0%nat = a).
  { unfold l. rewrite app_nth2 by lia. now rewrite Nat.sub_diag. }
  apply (nth_ext _ _ 0%nat 0%nat).
  - rewrite swap_cells_length, Hl, length_app. cbn [length].
    rewrite length_app. cbn [length]. reflexivity.
  - intros k Hk. rewrite swap_cells_length in Hk.
    rewrite swap_cells_nth by exact Hk. rewrite Hni, Hnj.
    destruct (Nat.eqb_spec k i) as [->|Hki].
    + unfold i. rewrite app_nth2 by lia.
      replace (length l1 + S (length l2) - length l1)%nat
        with (S (length l2)) by lia.
      cbn [nth]. rewrite app_nth2 by lia. now rewrite Nat.sub_diag.
    + destruct (Nat.eqb_spec k (length l1)) as [->|Hkj].
      * rewrite app_nth2 by lia. now rewrite Nat.sub_diag.
      * unfold l.
        destruct (Nat.lt_ge_cases k (length l1)) as [Hlt|Hge].
        { now rewrite !app_nth1 by exact Hlt. }
        rewrite !(app_nth2 l1) by lia.
        destruct (k - length l1)%nat as [|m] eqn:Em; [lia|].
        cbn [nth].
        destruct (Nat.lt_ge_cases m (length l2)) as [Hlt|Hge2].
        { now rewrite !app_nth1 by exact Hlt. }
        rewrite !(app_nth2 l2) by lia.
        destruct (m - length l2)%nat as [|m'] eqn:Em'; [unfold i in Hki; lia|].
        reflexivity.
Qed.

Lemma exchange_perm (l1 l2 l3 : list nat) (a b : nat) :
  Permutation (l1 ++ b :: l2 ++ a :: l3) (l1 ++ a :: l2 ++ b :: l3).
Proof.
  apply Permutation_app_head.
  apply Permutation_trans with (a :: b :: l2 ++ l3).
  - apply Permutation_trans with (b :: a :: l2 ++ l3);
      [|apply perm_swap].
    apply perm_skip. apply Permutation_sym, Permutation_middle.
  - apply perm_skip. apply Permutation_middle.
Qed.

Lemma swap_cells_perm (l : list nat) (i j : nat) :
  (j <= i < length l)%nat -> Permutation (swap_cells l i j) l.
Proof.
  intros Hij.
  destruct (Nat.eq_dec j i) as [->|Hne];
    [rewrite swap_cells_same by lia; apply Permutation_refl|].
  destruct (nth_split l 0%nat (proj2 Hij)) as (p & s & El & Lp).
  assert (Hj : (j < length p)%nat) by lia.
  destruct (nth_split p 0%nat Hj) as (l1 & l2 & Ep & L1).
  generalize dependent (nth i l 0%nat). intros b El.
  generalize dependent (nth j p 0%nat). intros a Ep.
  subst p. subst l. subst j.
  subst i.
  rewrite <- app_assoc. cbn [app].
  replace (length (l1 ++ a :: l2)) with (length l1 + S (length l2))%nat
    by (rewrite length_app; reflexivity).
  rewrite swap_cells_split. apply exchange_perm.
Qed.

Lemma shuffle_loop_perm (i n : nat) (sampled : list nat) (g : rng) :
  (i < length sampled)%nat ->
  Permutation (fst (shuffle_loop i n sampled g)) sampled.
Proof.
  revert sampled g. induction i as [|i IH]; intros sampled g Hi;
    [apply Permutation_refl|].
  cbn [shuffle_loop]. destruct (n <? length sampled)%nat;
    [|apply Permutation_refl].
  pose proof (random_below_lt (S (S i)) g ltac:(lia)) as Hj.
  destruct (random_below (S (S i)) g) as [j g']. cbn [fst] in Hj.
  assert (Hp : Permutation (swap_cells sampled (S i) j) sampled)
    by (apply swap_cells_perm; lia).
  apply Permutation_trans with (swap_cells sampled (S i) j); [|exact Hp].
  apply IH. rewrite swap_cells_length. lia.
Qed.

(** X17: [sampleCells(cells, n)] draws without replacement: it returns
    [min n (length cells)] cells, each one of [cells] and no cell twice
    when [cells] holds none twice; and when [cells] has at most [n]
    elements it returns them all, in order, drawing nothing. *)
Theorem sampleCells_without_replacement (cells : list nat) (n : nat)
    (g : rng) :
  length (fst (sampleCells cells n g)) = Nat.min n (length cells) /\
  (forall c, In c (fst (sampleCells cells n g)) -> In c cells) /\
  (NoDup cells -> NoDup (fst (sampleCells cells n g))) /\
  ((length cells <= n)%nat -> sampleCells cells n g = (cells, g)).
Proof.
  unfold sampleCells.
  assert (Hp : Permutation
                 (fst (shuffle_loop (length cells - 1) n cells g)) cells).
  { destruct cells as [|c cells]; [apply Permutation_refl|].
    apply shuffle_loop_perm. cbn [length]. lia. }
  assert (Hid : (length cells <= n)%nat ->
                shuffle_loop (length cells - 1) n cells g = (cells, g)).
  { intros Hle. destruct (length cells - 1)%nat; [reflexivity|].
    cbn [shuffle_loop].
    destruct (Nat.ltb_spec n (length cells)); [lia | reflexivity]. }
  destruct (shuffle_loop (length cells - 1) n cells g) as [sampled g']
    eqn:E.
  cbn [fst] in *.
  split; [|split; [|split]].
  - rewrite length_firstn, (Permutation_length Hp). reflexivity.
  - intros c Hc. apply (Permutation_in c Hp).
    rewrite <- (firstn_skipn n sampled). apply in_or_app. now left.
  - intros Hnd.
    assert (Hnd' : NoDup sampled)
      by (apply (Permutation_NoDup (Permutation_sym Hp) Hnd)).
    rewrite <- (firstn_skipn n sampled) in Hnd'.
    now apply NoDup_app_remove_r in Hnd'.
  - intros Hle. specialize (Hid Hle). injection Hid as -> ->.
    now rewrite firstn_all2.
Qed.

(** X17, applied: two of three cells are drawn, and three of three are
    returned as they are. *)
Lemma sampleCells_without_replacement_witness :
  NoDup [3; 5; 7]%nat /\
  NoDup (fst (sampleCells [3; 5; 7]%nat 2 [1; 0]%nat)) /\
  length (fst (sampleCells [3; 5; 7]%nat 2 [1; 0]%nat)) = 2%nat /\
  (length [3; 5; 7]%nat <= 3)%nat /\
  sampleCells [3; 5; 7]%nat 3 [1; 0]%nat = ([3; 5; 7]%nat, [1; 0]%nat).
Proof.
  assert (Hn : NoDup [3; 5; 7]%nat).
  { repeat (apply NoDup_cons; [cbn [In]; lia|]). apply NoDup_nil. }
  split; [exact Hn|].
  split; [exact (proj1 (proj2 (proj2
            (sampleCells_without_replacement [3; 5; 7]%nat 2 [1; 0]%nat)))
            Hn)|].
  split; [exact (proj1
            (sampleCells_without_replacement [3; 5; 7]%nat 2 [1; 0]%nat))|].
  split; [cbn [length]; lia|].
  apply (proj2 (proj2 (proj2
           (sampleCells_without_replacement [3; 5; 7]%nat 3 [1; 0]%nat)))).
  cbn [length]. lia.
Defined.

(** ** Updates are local *)

Lemma count_hits_none (board : list Z) (len : Z)
    (vs : list (list cell_index)) (j : Z) :
  (forall v, In v vs -> _index board v <> Some j) ->
  count_hits board len vs j = 0%nat.
Proof.
  intros H. unfold count_hits.
  induction vs as [|v vs IH]; [reflexivity|].
  cbn [filter].
  assert (Hv : hits board len v j = false).
  { unfold hits. destruct (_index board v) as [i|] eqn:E; [|reflexivity].
    destruct (Z.eqb_spec i j) as [->|]; [|reflexivity].
    exfalso. apply (H v); [now left | exact E]. }
  rewrite Hv. apply IH. intros v' Hv'. apply H. now right.
Qed.

(** X18: [update(board, delta)] changes only the table elements that a
    variant addresses on the board: every other element of every table is
    left as it was, and tuple lengths, variants and table lengths never
    change. *)
Theorem update_changes_only_addressed (net : network) (board : list Z)
    (delta : number) :
  catalog (update net board delta) = catalog net /\
  forall k p j,
    nth_error net k = Some p ->
    (forall v, In v (variants p) -> _index board v <> Some j) ->
    lut_word (update net board delta) k j = lut_word net k j.
Proof.
  split; [apply catalog_update|].
  intros k p j Hp Hno. unfold update.
  rewrite lut_word_map. unfold lut_word. rewrite Hp.
  cbn [update_pattern lut].
  destruct (lut_fold_at board delta (variants p) (lut p)) as [Hl Ha].
  unfold arr_get, in_range. rewrite Hl, Ha.
  now rewrite (count_hits_none _ _ _ _ Hno).
Qed.

(** X18, applied to the fresh network updated on the corner board: the
    element 5 of the first table is addressed by no variant. *)
Lemma update_changes_only_addressed_witness :
  exists p,
    nth_error NTupleNetwork_new 0 = Some p /\
    (forall v, In v (variants p) -> _index corner_board v <> Some 5) /\
    lut_word (update NTupleNetwork_new corner_board (num_of_Z 1)) 0 5
    = lut_word NTupleNetwork_new 0 5.
Proof.
  destruct (nth_error NTupleNetwork_new 0) as [p|] eqn:E;
    [|discriminate E].
  exists p.
  assert (Hv : forall v, In v (variants p) ->
                         _index corner_board v <> Some 5).
  { injection E as <-. intros v Hv. vm_compute in Hv.
    repeat (destruct Hv as [<-|Hv]; [vm_compute; discriminate|]).
    destruct Hv. }
  split; [reflexivity|]. split; [exact Hv|].
  exact (proj2 (update_changes_only_addressed NTupleNetwork_new
                  corner_board (num_of_Z 1)) 0%nat p 5 E Hv).
Defined.

(** ** The loaders keep the catalog and read only the lengths and the
       tables *)

Lemma load_from_catalog (data : weight_data) (todo : list pattern_entry)
    (i : nat) :
  catalog (snd (load_from data i todo)) = catalog todo.
Proof.
  revert i. induction todo as [|p rest IH]; intros i; [reflexivity|].
  cbn [load_from].
  destruct (nth_error (wd_patterns data) i) as [saved|]; [|reflexivity].
  destruct (sp_lutSize saved =? arr_length (lut p)); cbn [negb];
    [|reflexivity].
  unfold f32_set_array.
  destruct (arr_length (lut p) <? arr_length (sp_lut saved));
    [reflexivity|].
  specialize (IH (S i)).
  destruct (load_from data (S i) rest) as [o rest']. cbn [snd] in *.
  unfold catalog in *. cbn [map with_lut tupleLen variants lut arr_length].
  now rewrite IH.
Qed.

Lemma loadBinary_from_catalog (buf : bytes) (todo : list pattern_entry)
    (i : nat) (offset : Z) :
  catalog (snd (loadBinary_from buf i offset todo)) = catalog todo.
Proof.
  revert i offset. induction todo as [|p rest IH]; intros i offset;
    [reflexivity|].
  cbn [loadBinary_from].
  destruct (getInt32 buf offset); [|reflexivity].
  destruct (getInt32 buf (offset + 4)) as [lutLen|]; [|reflexivity].
  destruct (lutLen =? arr_length (lut p)); cbn [negb]; [|reflexivity].
  destruct (f32_view buf (offset + 8) lutLen); [|reflexivity].
  specialize (IH (S i) (offset + 8 + lutLen * 4)).
  destruct (loadBinary_from buf (S i) (offset + 8 + lutLen * 4) rest)
    as [o rest']. cbn [snd] in *.
  unfold catalog in *.
  cbn [map with_lut tupleLen variants lut arr_length f32_set_typed].
  now rewrite IH.
Qed.

Lemma load_catalog (data : weight_data) (net : network) :
  catalog (snd (load data net)) = catalog net.
Proof.
  unfold load.
  destruct (wd_numPatterns data =? Z.of_nat (length net)); cbn [negb];
    [apply load_from_catalog | reflexivity].
Qed.

Lemma loadBinary_catalog (buf : bytes) (net : network) :
  catalog (snd (loadBinary buf net)) = catalog net.
Proof.
  unfold loadBinary.
  destruct (getInt32 buf 0); [|reflexivity].
  destruct (getInt32 buf 4) as [n|]; [|reflexivity].
  destruct (n =? Z.of_nat (length net)); cbn [negb];
    [apply loadBinary_from_catalog | reflexivity].
Qed.

(** X19: whatever the file holds and however the call ends, [load] and
    [loadBinary] never change the tuple lengths, the variants or the
    table lengths of the network. *)
Theorem loaders_keep_catalog (data : weight_data) (buf : bytes)
    (net : network) :
  catalog (snd (load data net)) = catalog net /\
  catalog (snd (loadBinary buf net)) = catalog net.
Proof. split; [apply load_catalog | apply loadBinary_catalog]. Qed.

Lemma load_from_same_weights (data data' : weight_data)
    (todo : list pattern_entry) (i : nat) :
  map (fun sp => (sp_lutSize sp, sp_lut sp)) (wd_patterns data)
  = map (fun sp => (sp_lutSize sp, sp_lut sp)) (wd_patterns data') ->
  load_from data i todo = load_from data' i todo.
Proof.
  intros Hm. revert i. induction todo as [|p rest IH]; intros i;
    [reflexivity|].
  cbn [load_from].
  assert (Hn : option_map (fun sp => (sp_lutSize sp, sp_lut sp))
                          (nth_error (wd_patterns data) i)
               = option_map (fun sp => (sp_lutSize sp, sp_lut sp))
                            (nth_error (wd_patterns data') i)).
  { rewrite <- !nth_error_map. now rewrite Hm. }
  destruct (nth_error (wd_patterns data) i) as [s|],
           (nth_error (wd_patterns data') i) as [s'|];
    cbn [option_map] in Hn; try discriminate; [|reflexivity].
  injection Hn as -> ->. now rewrite IH.
Qed.

Lemma getInt32_same (buf buf' : bytes) (off : Z) :
  same_but_version buf buf' -> 4 <= off ->
  getInt32 buf' off = getInt32 buf off.
Proof.
  intros [Hl Ha] Ho. unfold getInt32, le_word.
  now rewrite Hl, !Ha by lia.
Qed.

Lemma loadBinary_from_same (buf buf' : bytes) (todo : list pattern_entry)
    (i : nat) (offset : Z) :
  same_but_version buf buf' -> 4 <= offset ->
  fst (loadBinary_from buf' i offset todo)
  = fst (loadBinary_from buf i offset todo) /\
  forall k j, lut_word (snd (loadBinary_from buf' i offset todo)) k j
              = lut_word (snd (loadBinary_from buf i offset todo)) k j.
Proof.
  intros Hs. revert i offset.
  induction todo as [|p rest IH]; intros i offset Ho;
    [split; reflexivity|].
  cbn [loadBinary_from].
  rewrite !(getInt32_same buf buf') by (exact Hs || lia).
  destruct (getInt32 buf offset); [|split; reflexivity].
  destruct (getInt32 buf (offset + 4)) as [lutLen|]; [|split; reflexivity].
  destruct (lutLen =? arr_length (lut p)); cbn [negb]; [|split; reflexivity].
  unfold f32_view. rewrite (proj1 Hs).
  destruct ((offset + 8) mod 4 =? 0); cbn [andb]; [|split; reflexivity].
  destruct (Z.leb_spec 0 lutLen); cbn [andb]; [|split; reflexivity].
  destruct (offset + 8 + lutLen * 4 <=? arr_length buf);
    [|split; reflexivity].
  destruct (IH (S i) (offset + 8 + lutLen * 4) ltac:(lia)) as [IH1 IH2].
  destruct (loadBinary_from buf' (S i) (offset + 8 + lutLen * 4) rest)
    as [o' rest'].
  destruct (loadBinary_from buf (S i) (offset + 8 + lutLen * 4) rest)
    as [o rest0].
  cbn [fst snd] in *. split; [exact IH1|].
  intros k j. destruct k as [|k]; [|exact (IH2 k j)].
  unfold lut_word. cbn [nth_error with_lut lut].
  unfold arr_get, in_range, f32_set_typed. cbn [arr_length arr_at].
  destruct ((0 <=? j) && (j <? arr_length (lut p))) eqn:Ej; [|reflexivity].
  f_equal. unfold in_range. cbn [arr_length].
  destruct ((0 <=? j) && (j <? lutLen)) eqn:Ej'; [|reflexivity].
  apply andb_true_iff in Ej'. destruct Ej' as [Hj0 _].
  apply Z.leb_le in Hj0. unfold le_word.
  now rewrite !(proj2 Hs) by lia.
Qed.

(** X20: the loaders read the pattern count, the LUT lengths and the
    LUTs, and nothing else: [load] ends the same way and leaves the same
    network for two text files that differ only in the version, the board
    size, the tuple lengths or the variant counts, and [loadBinary] ends
    the same way and leaves the same tables for two files that differ
    only in the version field. *)
Theorem loaders_ignore_version (data data' : weight_data)
    (buf buf' : bytes) (net : network) :
  (same_weights data data' -> load data net = load data' net) /\
  (same_but_version buf buf' ->
   fst (loadBinary buf' net) = fst (loadBinary buf net) /\
   same_tables (snd (loadBinary buf' net)) (snd (loadBinary buf net))).
Proof.
  split.
  - intros [Hn Hm]. unfold load. rewrite Hn.
    destruct (wd_numPatterns data' =? Z.of_nat (length net)); cbn [negb];
      [now apply load_from_same_weights | reflexivity].
  - intros Hs.
    assert (Hc : catalog (snd (loadBinary buf' net))
                 = catalog (snd (loadBinary buf net))).
    { now rewrite !loadBinary_catalog. }
    unfold same_tables. rewrite Hc. clear Hc.
    unfold loadBinary.
    assert (H0 : getInt32 buf' 0 = None <-> getInt32 buf 0 = None).
    { unfold getInt32. rewrite (proj1 Hs).
      destruct ((0 <=? 0) && (0 + 4 <=? arr_length buf));
        split; congruence. }
    rewrite (getInt32_same buf buf' 4 Hs) by lia.
    destruct (getInt32 buf' 0) as [v'|], (getInt32 buf 0) as [v|];
      try (exfalso; destruct H0 as [H1 H2];
           solve [discriminate (H1 eq_refl) | discriminate (H2 eq_refl)]).
    + destruct (getInt32 buf 4) as [n|]; [|now repeat split].
      destruct (n =? Z.of_nat (length net)); cbn [negb];
        [|now repeat split].
      destruct (loadBinary_from_same buf buf' net 0 8 Hs ltac:(lia))
        as [E1 E2].
      split; [exact E1|]. split; [reflexivity | exact E2].
    + now repeat split.
Qed.

Lemma same_weights_with_version (data : weight_data) (v size : Z) :
  same_weights data (with_version data v size).
Proof. split; reflexivity. Qed.

Lemma same_but_version_setInt32 (buf : bytes) (v : Z) :
  same_but_version buf (setInt32 buf 0 v).
Proof.
  unfold same_but_version, setInt32. cbn [arr_length arr_at].
  split; [reflexivity|]. intros i Hi.
  destruct (i <? 0 + 4) eqn:E; [apply Z.ltb_lt in E; lia|].
  now rewrite andb_false_r.
Qed.

(** X20, applied: the files written for the trained network, with another
    version (and another board size in the text file). *)
Lemma loaders_ignore_version_witness :
  same_weights (save trained_network)
               (with_version (save trained_network) 7 5) /\
  same_but_version (saveBinary trained_network)
                   (setInt32 (saveBinary trained_network) 0 7) /\
  load (save trained_network) NTupleNetwork_new
  = load (with_version (save trained_network) 7 5) NTupleNetwork_new /\
  fst (loadBinary (setInt32 (saveBinary trained_network) 0 7)
                  NTupleNetwork_new)
  = fst (loadBinary (saveBinary trained_network) NTupleNetwork_new) /\
  same_tables (snd (loadBinary (setInt32 (saveBinary trained_network) 0 7)
                               NTupleNetwork_new))
              (snd (loadBinary (saveBinary trained_network)
                               NTupleNetwork_new)).
Proof.
  pose proof (same_weights_with_version (save trained_network) 7 5) as Hd.
  pose proof (same_but_version_setInt32 (saveBinary trained_network) 7)
    as Hb.
  destruct (loaders_ignore_version
              (save trained_network)
              (with_version (save trained_network) 7 5)
              (saveBinary trained_network)
              (setInt32 (saveBinary trained_network) 0 7)
              NTupleNetwork_new) as [H1 H2].
  split; [exact Hd|]. split; [exact Hb|].
  split; [exact (H1 Hd) | exact (H2 Hb)].
Defined.

(** ** The network on the images of a board *)

Lemma closed_under_perm (symMap : list Z) (vs : list (list cell_index)) :
  closed_under symMap vs = true ->
  Forall (fun v => forallb board_index v = true) vs /\
  Permutation (map (fun v => applySymmetry v symMap) vs) vs.
Proof.
  unfold closed_under. intros H. apply andb_true_iff in H.
  destruct H as [H1 H2]. split; [now apply forallb_forall, Forall_forall in H1
                                 || (apply Forall_forall;
                                     now apply forallb_forall)|].
  apply (Permutation_count_occ cell_index_list_eq_dec). intros v.
  rewrite forallb_forall in H2.
  destruct (in_dec cell_index_list_eq_dec v
              (vs ++ map (fun v => applySymmetry v symMap) vs)) as [Hin|Hn].
  - now apply Nat.eqb_eq, H2.
  - rewrite (proj1 (count_occ_not_In _ _ _)), (proj1 (count_occ_not_In _ _ _));
      [reflexivity | |]; intros Hc; apply Hn, in_or_app; auto.
Qed.

Lemma catalog_closed_under :
  forallb (fun s => forallb (fun p => closed_under s (variants p))
                            NTupleNetwork_new)
          Symmetry4.SYMMETRY_MAPS = true.
Proof. vm_compute. reflexivity. Qed.

(** A cell of the image of a board is the cell of the board that the
    symmetry map names. *)
Lemma board_get_transformed (b : list Z) (k : nat) (x : cell_index) :
  length b = 16%nat -> (k < 8)%nat -> board_index x = true ->
  let s := nth k Symmetry4.SYMMETRY_MAPS [] in
  board_get (transformed_board s b) x = board_get b (map_get s x).
Proof.
  intros Hl Hk Hx.
  destruct (length16_inv b Hl) as
    (a0 & a1 & a2 & a3 & a4 & a5 & a6 & a7 & a8 & a9 & a10 & a11 & a12
     & a13 & a14 & a15 & ->).
  destruct x as [j|]; [|discriminate Hx].
  cbn [board_index] in Hx. apply andb_true_iff in Hx.
  destruct Hx as [H0 H1]. apply Z.leb_le in H0. apply Z.ltb_lt in H1.
  assert (Hj : j = 0 \/ j = 1 \/ j = 2 \/ j = 3 \/ j = 4 \/ j = 5 \/ j = 6
               \/ j = 7 \/ j = 8 \/ j = 9 \/ j = 10 \/ j = 11 \/ j = 12
               \/ j = 13 \/ j = 14 \/ j = 15) by lia.
  clear H0 H1.
  destruct k as [|[|[|[|[|[|[|[|k]]]]]]]]; [..|lia].
  all: repeat (destruct Hj as [-> | Hj]; [vm_compute; reflexivity|]).
  all: subst j; vm_compute; reflexivity.
Qed.

Lemma index_loop_transformed (b : list Z) (k : nat) (v : list cell_index)
    (acc : option Z) :
  length b = 16%nat -> (k < 8)%nat -> forallb board_index v = true ->
  let s := nth k Symmetry4.SYMMETRY_MAPS [] in
  index_loop (transformed_board s b) v acc
  = index_loop b (applySymmetry v s) acc.
Proof.
  intros Hl Hk. cbv zeta. revert acc.
  induction v as [|x v IH]; intros acc Hv; [reflexivity|].
  cbn [forallb] in Hv. apply andb_true_iff in Hv. destruct Hv as [Hx Hv].
  cbn [index_loop applySymmetry map].
  fold (applySymmetry v (nth k Symmetry4.SYMMETRY_MAPS [])).
  rewrite (board_get_transformed b k x Hl Hk Hx). apply IH. exact Hv.
Qed.

Lemma filter_length_perm {A} (f : A -> bool) (l l' : list A) :
  Permutation l l' -> length (filter f l) = length (filter f l').
Proof.
  induction 1 as [|x l l' _ IH|x y l|l l' l'' _ IH1 _ IH2];
    cbn [filter]; try reflexivity.
  - destruct (f x); cbn [length]; now rewrite IH.
  - destruct (f x), (f y); reflexivity.
  - now rewrite IH1.
Qed.

Lemma filter_map_length {A B} (f : B -> bool) (g : A -> B) (l : list A) :
  length (filter f (map g l)) = length (filter (fun x => f (g x)) l).
Proof.
  induction l as [|a l IH]; [reflexivity|].
  cbn [map filter]. destruct (f (g a)); cbn [length]; now rewrite IH.
Qed.

Lemma variants_of_catalog (net : network) (p : pattern_entry) :
  catalog net = catalog NTupleNetwork_new -> In p net ->
  exists p0, In p0 NTupleNetwork_new /\ variants p = variants p0.
Proof.
  intros Hc Hp.
  assert (Hin : In (tupleLen p, variants p, arr_length (lut p))
                   (catalog net))
    by (unfold catalog; apply in_map_iff; now exists p).
  rewrite Hc in Hin. unfold catalog in Hin. apply in_map_iff in Hin.
  destruct Hin as (p0 & E & Hp0). exists p0. split; [exact Hp0|].
  now injection E.
Qed.

Lemma variants_closed (net : network) (p : pattern_entry) (k : nat) :
  catalog net = catalog NTupleNetwork_new -> In p net -> (k < 8)%nat ->
  closed_under (nth k Symmetry4.SYMMETRY_MAPS []) (variants p) = true.
Proof.
  intros Hc Hp Hk.
  destruct (variants_of_catalog net p Hc Hp) as (p0 & Hp0 & ->).
  pose proof catalog_closed_under as H.
  rewrite forallb_forall in H.
  specialize (H (nth k Symmetry4.SYMMETRY_MAPS [])
                ltac:(apply nth_In; exact Hk)).
  rewrite forallb_forall in H. now apply H.
Qed.

Lemma index_perm_transformed (net : network) (p : pattern_entry)
    (b : list Z) (k : nat) :
  catalog net = catalog NTupleNetwork_new -> In p net ->
  length b = 16%nat -> (k < 8)%nat ->
  let s := nth k Symmetry4.SYMMETRY_MAPS [] in
  map (_index (transformed_board s b)) (variants p)
  = map (_index b) (map (fun v => applySymmetry v s) (variants p)) /\
  Permutation (map (fun v => applySymmetry v s) (variants p)) (variants p).
Proof.
  intros Hc Hp Hl Hk s.
  destruct (closed_under_perm s (variants p)
              (variants_closed net p k Hc Hp Hk)) as [Hr Hperm].
  split; [|exact Hperm].
  rewrite map_map. apply map_ext_in. intros v Hv.
  rewrite Forall_forall in Hr. unfold _index.
  apply index_loop_transformed; auto.
Qed.

(** X21: the network treats the eight images of a board alike: on the
    image of a board under a symmetry map, [evaluate] reads the table
    elements it reads on the board itself (in another order), and
    [update] changes the tables exactly as it does on the board itself. *)
Theorem network_symmetric (net : network) (b : list Z) (k : nat)
    (delta : number) :
  catalog net = catalog NTupleNetwork_new ->
  length b = 16%nat -> (k < 8)%nat ->
  let b' := transformed_board (nth k Symmetry4.SYMMETRY_MAPS []) b in
  (forall p, In p net ->
     Permutation (map (_index b') (variants p))
                 (map (_index b) (variants p))) /\
  same_tables (update net b' delta) (update net b delta).
Proof.
  intros Hc Hl Hk b'. split.
  - intros p Hp.
    destruct (index_perm_transformed net p b k Hc Hp Hl Hk) as [E Hperm].
    fold b' in E. rewrite E. now apply Permutation_map.
  - split; [now rewrite !catalog_update|].
    intros i j. unfold update. rewrite !lut_word_map.
    destruct (nth_error net i) as [p|] eqn:Ep; [|reflexivity].
    assert (Hp : In p net) by (eapply nth_error_In; exact Ep).
    cbn [update_pattern lut].
    destruct (lut_fold_at b' delta (variants p) (lut p)) as [L1 A1].
    destruct (lut_fold_at b delta (variants p) (lut p)) as [L2 A2].
    unfold arr_get, in_range. rewrite L1, L2, A1, A2.
    destruct ((0 <=? j) && (j <? arr_length (lut p))); [|reflexivity].
    f_equal. f_equal.
    destruct (index_perm_transformed net p b k Hc Hp Hl Hk) as [E Hperm].
    fold b' in E.
    unfold count_hits.
    assert (Hh : forall v, In v (variants p) ->
               hits b' (arr_length (lut p)) v j
               = hits b (arr_length (lut p))
                      (applySymmetry v (nth k Symmetry4.SYMMETRY_MAPS [])) j).
    { intros v Hv. unfold hits.
      assert (Ev : _index b' v
                   = _index b (applySymmetry v
                                 (nth k Symmetry4.SYMMETRY_MAPS []))).
      { destruct (closed_under_perm _ (variants p)
                    (variants_closed net p k Hc Hp Hk)) as [Hr _].
        rewrite Forall_forall in Hr. unfold _index, b'.
        apply index_loop_transformed; auto. }
      now rewrite Ev. }
    rewrite (filter_ext_in _ _ _ Hh).
    rewrite <- (filter_map_length
                  (fun v => hits b (arr_length (lut p)) v j)
                  (fun v => applySymmetry v
                              (nth k Symmetry4.SYMMETRY_MAPS []))).
    now apply filter_length_perm.
Qed.

(** X21, applied to the fresh network and a board turned by the second
    symmetry map. *)
Lemma network_symmetric_witness :
  let b' := transformed_board (nth 1 Symmetry4.SYMMETRY_MAPS [])
                              two_pairs_board in
  length two_pairs_board = 16%nat /\
  (forall p, In p NTupleNetwork_new ->
     Permutation (map (_index b') (variants p))
                 (map (_index two_pairs_board) (variants p))) /\
  same_tables (update NTupleNetwork_new b' (num_of_Z 1))
              (update NTupleNetwork_new two_pairs_board (num_of_Z 1)).
Proof.
  intros b'. split; [reflexivity|].
  exact (network_symmetric NTupleNetwork_new two_pairs_board 1
           (num_of_Z 1) eq_refl eq_refl ltac:(lia)).
Defined.

(** ** Table indices tell the codes apart *)





(** ** The layout of a binary weight file *)

Lemma setInt32_bytes_are (buf : bytes) (off v : Z) :
  bytes_are (setInt32 buf off v) off v.
Proof.
  intros t Ht. cbn [setInt32 arr_at].
  replace (off <=? off + t) with true by (symmetry; apply Z.leb_le; lia).
  replace (off + t <? off + 4) with true by (symmetry; apply Z.ltb_lt; lia).
  cbn [andb]. f_equal. lia.
Qed.

Lemma setInt32_frame (buf : bytes) (off v off' w : Z) :
  off' + 4 <= off -> bytes_are buf off' w ->
  bytes_are (setInt32 buf off v) off' w.
Proof.
  intros Ho H t Ht. cbn [setInt32 arr_at].
  replace (off <=? off' + t) with false by (symmetry; apply Z.leb_gt; lia).
  cbn [andb]. now apply H.
Qed.

Lemma saveBinary_step_tupleLen (buf : bytes) (off : Z) (p : pattern_entry) :
  0 <= arr_length (lut p) ->
  bytes_are (fst (saveBinary_step (buf, off) p)) off (tupleLen p).
Proof.
  intros Hlen t Ht. unfold saveBinary_step.
  cbn [fst set_bytes setInt32 arr_at arr_length lut_bytes].
  replace (off + 4 + 4 <=? off + t) with false
    by (symmetry; apply Z.leb_gt; lia).
  replace (off + 4 <=? off + t) with false
    by (symmetry; apply Z.leb_gt; lia).
  replace (off <=? off + t) with true by (symmetry; apply Z.leb_le; lia).
  replace (off + t <? off + 4) with true by (symmetry; apply Z.ltb_lt; lia).
  cbn [andb]. f_equal. lia.
Qed.

(** The record of a pattern in the buffer that the loop of [saveBinary]
    leaves. *)
Lemma saveBinary_fold_record (pre rest : list pattern_entry)
    (p : pattern_entry) (buf : bytes) (off : Z) :
  (forall q, In q (pre ++ p :: rest) -> 0 <= arr_length (lut q)) ->
  let file := fst (fold_left saveBinary_step (pre ++ p :: rest) (buf, off))
  in
  let start := off + records_size pre in
  bytes_are file start (tupleLen p) /\
  bytes_are file (start + 4) (arr_length (lut p)) /\
  forall j, 0 <= j < arr_length (lut p) ->
            bytes_are file (start + 8 + 4 * j) (arr_at (lut p) j).
Proof.
  revert buf off. induction pre as [|q pre IH]; intros buf off Hlen.
  - cbn [app fold_left records_size fold_right]. rewrite Z.add_0_r.
    pose proof (Hlen p (or_introl eq_refl)) as Hp.
    destruct (saveBinary_step_bytes buf off p Hp) as (Hs & Hn & Hw).
    pose proof (saveBinary_step_tupleLen buf off p Hp) as Ht.
    destruct (saveBinary_step (buf, off) p) as [buf1 off1] eqn:E.
    cbn [fst snd] in *. subst off1.
    destruct (saveBinary_fold_frame rest buf1
                (off + 8 + arr_length (lut p) * 4)
                (fun r Hr => Hlen r (or_intror Hr))) as [_ Hf].
    split; [|split].
    + apply (bytes_are_frame buf1 _ _ _ _ Hf); [lia | exact Ht].
    + apply (bytes_are_frame buf1 _ _ _ _ Hf); [lia | exact Hn].
    + intros j Hj.
      apply (bytes_are_frame buf1 _ _ _ _ Hf); [lia | now apply Hw].
  - change (records_size (q :: pre))
      with (8 + arr_length (lut q) * 4 + records_size pre).
    cbn [app fold_left].
    pose proof (Hlen q (or_introl eq_refl)) as Hq.
    destruct (saveBinary_step_bytes buf off q Hq) as (Hs & _).
    destruct (saveBinary_step (buf, off) q) as [buf1 off1] eqn:E.
    cbn [snd] in Hs. subst off1.
    specialize (IH buf1 (off + 8 + arr_length (lut q) * 4)
                   (fun r Hr => Hlen r (or_intror Hr))).
    cbv zeta in IH.
    assert (Hx : off + (8 + arr_length (lut q) * 4 + records_size pre)
                 = off + 8 + arr_length (lut q) * 4 + records_size pre)
      by (clear; lia).
    rewrite Hx. exact IH.
Qed.

Lemma records_size_app (ps qs : list pattern_entry) :
  records_size (ps ++ qs) = records_size ps + records_size qs.
Proof.
  induction ps as [|p ps IH];
    [cbn [app]; change (records_size []) with 0; lia|].
  cbn [app].
  change (records_size (p :: ps ++ qs))
    with (8 + arr_length (lut p) * 4 + records_size (ps ++ qs)).
  change (records_size (p :: ps))
    with (8 + arr_length (lut p) * 4 + records_size ps).
  lia.
Qed.

(** X23: the file written by [saveBinary] has the documented layout: its
    length is 8 bytes plus, for each pattern, 8 bytes and 4 bytes per
    table element; it starts with the version 1 and the pattern count;
    and the record of each pattern, found after the records of the
    patterns before it, holds the tuple length, the table length and the
    table elements bit for bit, all little-endian. *)
Theorem saveBinary_layout (net : network) :
  lut_words_ok net -> int32_sized net ->
  arr_length (saveBinary net) = 8 + records_size net /\
  getInt32 (saveBinary net) 0 = Some 1 /\
  getInt32 (saveBinary net) 4 = Some (Z.of_nat (length net)) /\
  forall k p,
    nth_error net k = Some p ->
    let start := 8 + records_size (firstn k net) in
    le_word (saveBinary net) start = tupleLen p mod 2 ^ 32 /\
    getInt32 (saveBinary net) (start + 4) = Some (arr_length (lut p)) /\
    forall j, 0 <= j < arr_length (lut p) ->
              le_word (saveBinary net) (start + 8 + 4 * j)
              = arr_at (lut p) j.
Proof.
  intros Hok [Hn Hsz].
  assert (Hlen : forall q, In q net -> 0 <= arr_length (lut q))
    by (intros q Hq; apply (Hsz q Hq)).
  unfold saveBinary.
  set (buf0 := {| arr_length := totalSize net; arr_at := fun _ => 0 |}).
  set (buf2 := setInt32 (setInt32 buf0 0 1) 4 (Z.of_nat (length net))).
  destruct (saveBinary_fold_frame net buf2 8 Hlen) as [Hl Hf].
  assert (Hsize : arr_length (fst (fold_left saveBinary_step net (buf2, 8)))
                  = 8 + records_size net).
  { rewrite Hl. unfold buf2, buf0. cbn [setInt32 arr_length].
    apply totalSize_records. }
  pose proof (records_size_nonneg net Hlen) as Hrs.
  assert (P31 : 2 ^ 31 = 2147483648) by reflexivity.
  split; [exact Hsize|]. split; [|split].
  - unfold getInt32. rewrite Hsize.
    replace ((0 <=? 0) && (0 + 4 <=? 8 + records_size net)) with true
      by (symmetry; apply andb_true_iff; split; apply Z.leb_le; lia).
    f_equal.
    rewrite (le_word_bytes_are _ 0 1).
    + reflexivity.
    + apply (bytes_are_frame buf2 _ _ _ 8 Hf); [lia|].
      unfold buf2. apply setInt32_frame; [lia|]. apply setInt32_bytes_are.
  - unfold getInt32. rewrite Hsize.
    replace ((0 <=? 4) && (4 + 4 <=? 8 + records_size net)) with true
      by (symmetry; apply andb_true_iff; split; apply Z.leb_le; lia).
    f_equal.
    rewrite (le_word_bytes_are _ 4 (Z.of_nat (length net))).
    + apply to_int32_small. lia.
    + apply (bytes_are_frame buf2 _ _ _ 8 Hf); [lia|].
      unfold buf2. apply setInt32_bytes_are.
  - intros k p Hp. cbv zeta.
    destruct (nth_error_split net k Hp) as (pre & rest & E & Lk).
    assert (Epre : firstn k net = pre).
    { rewrite E, <- Lk. rewrite firstn_app, Nat.sub_diag, firstn_all.
      cbn [firstn]. apply app_nil_r. }
    rewrite Epre.
    assert (Hlen' : forall q, In q (pre ++ p :: rest) ->
                              0 <= arr_length (lut q))
      by (rewrite <- E; exact Hlen).
    pose proof (saveBinary_fold_record pre rest p buf2 8 Hlen') as H.
    cbv zeta in H. rewrite <- E in H. destruct H as (Ht & Hc & Hw).
    assert (Hin : In p net) by (eapply nth_error_In; exact Hp).
    pose proof (Hsz p Hin) as Hp31.
    assert (Hpre : 0 <= records_size pre).
    { apply records_size_nonneg. intros q Hq. apply Hlen.
      rewrite E. apply in_or_app. now left. }
    assert (Hfit : 8 + records_size pre + 8 + arr_length (lut p) * 4
                   <= 8 + records_size net).
    { replace (records_size net) with (records_size (pre ++ p :: rest))
        by (now rewrite <- E).
      rewrite records_size_app.
      change (records_size (p :: rest))
        with (8 + arr_length (lut p) * 4 + records_size rest).
      assert (0 <= records_size rest).
      { apply records_size_nonneg. intros q Hq. apply Hlen.
        rewrite E. apply in_or_app. right. now right. }
      lia. }
    split; [now apply le_word_bytes_are|]. split.
    + unfold getInt32. rewrite Hsize.
      replace ((0 <=? 8 + records_size pre + 4)
               && (8 + records_size pre + 4 + 4 <=? 8 + records_size net))
        with true
        by (symmetry; apply andb_true_iff; split; apply Z.leb_le; lia).
      f_equal. rewrite (le_word_bytes_are _ _ _ Hc).
      apply to_int32_small. lia.
    + intros j Hj. rewrite (le_word_bytes_are _ _ _ (Hw j Hj)).
      apply Z.mod_small. apply (Hok p j Hin).
      unfold in_range. apply andb_true_iff.
      split; [apply Z.leb_le | apply Z.ltb_lt]; lia.
Qed.

(** X23, applied to the file of the fresh network. *)
Lemma saveBinary_layout_witness :
  lut_words_ok NTupleNetwork_new /\ int32_sized NTupleNetwork_new /\
  arr_length (saveBinary NTupleNetwork_new)
  = 8 + records_size NTupleNetwork_new /\
  getInt32 (saveBinary NTupleNetwork_new) 0 = Some 1 /\
  getInt32 (saveBinary NTupleNetwork_new) 4
  = Some (Z.of_nat (length NTupleNetwork_new)).
Proof.
  assert (Hs : int32_sized NTupleNetwork_new)
    by (apply int32_sized_catalog; reflexivity).
  split; [exact lut_words_ok_new|]. split; [exact Hs|].
  destruct (saveBinary_layout NTupleNetwork_new lut_words_ok_new Hs)
    as (H1 & H2 & H3 & _).
  auto.
Defined.

(** ** The palette *)

Lemma palette_size_spec (fuel : nat) (k len : Z) :
  1 <= k -> len <= Z.of_nat fuel + 2 ^ k ->
  (2 <= k -> 2 ^ (k - 1) < len) ->
  exists k', k <= k' /\ palette_size fuel (2 ^ k) len = 2 ^ k' /\
             len <= 2 ^ k' /\ (2 <= k' -> 2 ^ (k' - 1) < len).
Proof.
  revert k. induction fuel as [|fuel IH]; intros k Hk Hlen Hmin.
  - exists k. cbn [palette_size]. split; [lia|]. split; [reflexivity|].
    split; [cbn [Z.of_nat] in Hlen; lia | exact Hmin].
  - cbn [palette_size]. destruct (2 ^ k <? len) eqn:E.
    + apply Z.ltb_lt in E.
      assert (Hp : 2 ^ (k + 1) = 2 ^ k * 2)
        by (rewrite Z.pow_add_r by lia; reflexivity).
      rewrite <- Hp.
      destruct (IH (k + 1)) as (k' & Hk' & Hs & Hl & Hm).
      * lia.
      * rewrite Hp. assert (0 < 2 ^ k) by (apply Z.pow_pos_nonneg; lia).
        lia.
      * intros _. replace (k + 1 - 1) with k by lia. exact E.
      * exists k'. split; [lia|]. auto.
    + apply Z.ltb_ge in E. exists k. split; [lia|]. auto.
Qed.

(** X24: [setGlobalPalette] stores the least power of two of colours, at
    least 2, that holds the colours given: the colours themselves, in
    order, followed by black entries.  Nothing caps the size at the 256
    entries of a GIF colour table. *)
Theorem setGlobalPalette_pads_to_power_of_two (colors : list (list Z)) :
  exists k,
    1 <= k /\
    Z.of_nat (length (setGlobalPalette colors)) = 2 ^ k /\
    Z.of_nat (length colors) <= 2 ^ k /\
    (2 <= k -> 2 ^ (k - 1) < Z.of_nat (length colors)) /\
    (forall i, (i < length colors)%nat ->
               nth_error (setGlobalPalette colors) i = nth_error colors i) /\
    (forall i, (length colors <= i)%nat -> Z.of_nat i < 2 ^ k ->
               nth_error (setGlobalPalette colors) i = Some [0; 0; 0]).
Proof.
  destruct (palette_size_spec (length colors) 1 (Z.of_nat (length colors)))
    as (k & Hk & Hs & Hl & Hm); [lia | lia | lia |].
  change (2 ^ 1) with 2 in Hs.
  assert (Hpos : 0 < 2 ^ k) by (apply Z.pow_pos_nonneg; lia).
  assert (Hnth : forall i, Z.of_nat i < 2 ^ k ->
            nth_error (setGlobalPalette colors) i
            = Some match nth_error colors i with
                   | Some c => c
                   | None => [0; 0; 0]
                   end).
  { intros i Hi. unfold setGlobalPalette. rewrite Hs.
    rewrite nth_error_map, nth_error_seq.
    destruct (i <? Z.to_nat (2 ^ k))%nat eqn:E; [reflexivity|].
    apply Nat.ltb_ge in E. lia. }
  exists k. split; [exact Hk|]. split.
  { unfold setGlobalPalette. rewrite Hs, length_map, length_seq. lia. }
  split; [exact Hl|]. split; [exact Hm|]. split.
  - intros i Hi. rewrite Hnth by lia.
    destruct (nth_error colors i) eqn:E; [reflexivity|].
    apply nth_error_None in E. lia.
  - intros i Hi Hlt. rewrite Hnth by lia.
    destruct (nth_error colors i) eqn:E; [|reflexivity].
    assert (nth_error colors i <> None) by congruence.
    apply nth_error_Some in H. lia.
Qed.

(** X24, applied to three colours: a fourth, black, is added. *)
Lemma setGlobalPalette_pads_to_power_of_two_witness :
  length (setGlobalPalette [[1; 2; 3]; [4; 5; 6]; [7; 8; 9]]) = 4%nat /\
  nth_error (setGlobalPalette [[1; 2; 3]; [4; 5; 6]; [7; 8; 9]]) 1
  = Some [4; 5; 6] /\
  nth_error (setGlobalPalette [[1; 2; 3]; [4; 5; 6]; [7; 8; 9]]) 3
  = Some [0; 0; 0].
Proof.
  destruct (setGlobalPalette_pads_to_power_of_two
              [[1; 2; 3]; [4; 5; 6]; [7; 8; 9]])
    as (k & Hk & Hlen & Hle & Hmin & Hkeep & Hpad).
  split; [reflexivity|].
  split; [apply (Hkeep 1%nat); cbn [length]; lia|].
  apply (Hpad 3%nat); [cbn [length]; lia|].
  rewrite <- Hlen. reflexivity.
Defined.

(** ** The renderer *)

Lemma aset_Forall (P : Z -> Prop) (a : list Z) (i : nat) (v : Z) :
  Forall P a -> P (u8 v) -> Forall P (aset a i v).
Proof.
  intros Ha Hv. revert i. induction Ha as [|h t Hh Ht IH]; intros i.
  - destruct i; constructor.
  - destruct i; cbn [aset]; constructor; auto.
Qed.

Lemma pset_ok (n : nat) (pixels : list Z) (i v : Z) :
  pixels_ok n pixels -> 0 <= v <= 20 -> pixels_ok n (Renderer.pset pixels i v).
Proof.
  intros [Hl Hf] Hv. unfold Renderer.pset.
  destruct (i <? 0); [split; assumption|].
  split; [rewrite aset_length; exact Hl|].
  apply aset_Forall; [exact Hf|]. unfold u8.
  rewrite Z.mod_small by lia. exact Hv.
Qed.

Lemma fold_left_keeps {A B : Type} (P : A -> Prop) (f : A -> B -> A)
    (l : list B) (a : A) :
  (forall a x, P a -> P (f a x)) -> P a -> P (fold_left f l a).
Proof.
  intros Hf. revert a. induction l as [|x l IH]; intros a Ha;
    [exact Ha|].
  cbn [fold_left]. apply IH, Hf, Ha.
Qed.

Lemma drawChar_ok (n : nat) (pixels : list Z) (width : Z) (ch : ascii)
    (x y colorIdx : Z) :
  pixels_ok n pixels -> 0 <= colorIdx <= 20 ->
  pixels_ok n (Renderer.drawChar pixels width ch x y colorIdx).
Proof.
  intros Hp Hc. unfold Renderer.drawChar.
  destruct (Renderer.FONT_3x5 ch) as [bitmap|]; [|exact Hp].
  apply fold_left_keeps; [|exact Hp].
  intros a row Ha. apply fold_left_keeps; [|exact Ha].
  intros a' col Ha'.
  destruct (negb _); [|exact Ha'].
  destruct (_ && _); [|exact Ha'].
  apply pset_ok; assumption.
Qed.

Lemma drawText_ok (n : nat) (pixels : list Z) (width : Z)
    (text : String.string) (cx cy colorIdx : Z) :
  pixels_ok n pixels -> 0 <= colorIdx <= 20 ->
  pixels_ok n (Renderer.drawText pixels width text cx cy colorIdx).
Proof.
  intros Hp Hc. unfold Renderer.drawText.
  apply (fold_left_keeps (fun st => pixels_ok n (fst st))); [|exact Hp].
  intros [a i] ch Ha. cbn [fst] in *. now apply drawChar_ok.
Qed.

Lemma tile_color_range (t : option Z) :
  0 <= Renderer.or_default (Renderer.TILE_COLORS t) 0 <= 15.
Proof.
  unfold Renderer.or_default, Renderer.TILE_COLORS.
  destruct t as [t|]; [|lia].
  destruct (0 <=? t) eqn:E1; destruct (t <=? 15) eqn:E2; cbn [andb];
    try lia.
  apply Z.leb_le in E1, E2. destruct (t =? 0); lia.
Qed.

Lemma text_color_range (t : option Z) :
  16 <= Renderer.or_default (Renderer.TEXT_COLOR t) 17 <= 17.
Proof.
  unfold Renderer.or_default, Renderer.TEXT_COLOR.
  destruct t as [t|]; [|lia].
  destruct ((0 <=? t) && (t <=? 15)); [|lia].
  destruct ((t =? 1) || (t =? 2)); cbn; lia.
Qed.

Lemma draw_tile_ok (n : nat) (board pixels : list Z) (r c : Z) :
  pixels_ok n pixels -> pixels_ok n (Renderer.draw_tile board pixels r c).
Proof.
  intros Hp. unfold Renderer.draw_tile. cbv zeta.
  set (t := nth_error board _).
  pose proof (tile_color_range t) as Htc.
  pose proof (text_color_range t) as Hxc.
  set (filled := fold_left _ (Renderer.upto Renderer.TILE_SIZE) pixels).
  assert (Hf : pixels_ok n filled).
  { apply fold_left_keeps; [|exact Hp].
    intros a dy Ha. apply fold_left_keeps; [|exact Ha].
    intros a' dx Ha'. apply pset_ok; [exact Ha' | lia]. }
  destruct t as [t|]; [|exact Hf].
  destruct (0 <? t); [|exact Hf].
  apply drawText_ok; [exact Hf | lia].
Qed.

Lemma renderBoard_pixels_ok (board : list Z) (score : Z) :
  pixels_ok (Z.to_nat (Renderer.IMAGE_WIDTH * Renderer.IMAGE_HEIGHT))
            (Renderer.renderBoard board score).
Proof.
  unfold Renderer.renderBoard.
  apply fold_left_keeps.
  { intros a r Ha. apply fold_left_keeps; [|exact Ha].
    intros a' c Ha'. now apply draw_tile_ok. }
  apply drawText_ok; [|lia].
  apply fold_left_keeps.
  { intros a y Ha. apply fold_left_keeps; [|exact Ha].
    intros a' x Ha'. apply pset_ok; [exact Ha' | lia]. }
  split; [apply repeat_length|].
  apply Forall_forall. intros p Hp. apply repeat_spec in Hp. lia.
Qed.

(** ** The compression loop, whatever [writeBits] writes to *)

Lemma lzw_run_keeps (sink : Type) (write : option Z -> Z -> sink -> sink)
    (m : Z) (I : sink -> Prop) (pixels : list Z) (w0 : sink) :
  (forall c s w, I w -> I (write c s w)) -> I w0 ->
  I (lzw_run sink write m pixels w0).
Proof.
  intros Hw H0. unfold lzw_run. cbv zeta. apply Hw, Hw.
  apply (fold_left_keeps (fun st => I (written st))).
  - intros st p Hst. unfold lzw_step. cbv zeta.
    destruct (dict_has _ _); cbn [written]; [exact Hst|].
    destruct (_ <? _); cbn [written]; auto.
  - cbn [written]. auto.
Qed.

(** Two runs of the loop over different sinks take the same steps. *)
Lemma lzw_run_sim (A B : Type) (wa : option Z -> Z -> A -> A)
    (wb : option Z -> Z -> B -> B) (m : Z) (R : A -> B -> Prop)
    (pixels : list Z) (a0 : A) (b0 : B) :
  (forall c s a b, R a b -> R (wa c s a) (wb c s b)) -> R a0 b0 ->
  R (lzw_run A wa m pixels a0) (lzw_run B wb m pixels b0).
Proof.
  intros Hw H0.
  set (SR := fun (sa : lzw_state A) (sb : lzw_state B) =>
               codeSize sa = codeSize sb /\ nextCode sa = nextCode sb /\
               dict sa = dict sb /\ current sa = current sb /\
               R (written sa) (written sb)).
  assert (Hstep : forall sa sb p, SR sa sb ->
                    SR (lzw_step A wa m sa p) (lzw_step B wb m sb p)).
  { intros [csa na da ca wsa] [csb nb db cb wsb] p.
    unfold SR. cbn [codeSize nextCode dict current written].
    intros (-> & -> & -> & -> & Hr).
    unfold lzw_step. cbv zeta.
    cbn [codeSize nextCode dict current written].
    destruct (dict_has _ _);
      cbn [codeSize nextCode dict current written]; [auto 6|].
    destruct (_ <? _);
      cbn [codeSize nextCode dict current written]; auto 8. }
  assert (Hfold : forall l sa sb, SR sa sb ->
                    SR (fold_left (lzw_step A wa m) l sa)
                       (fold_left (lzw_step B wb m) l sb)).
  { induction l as [|p l IH]; intros sa sb Hs; [exact Hs|].
    cbn [fold_left]. apply IH, Hstep, Hs. }
  unfold lzw_run. cbv zeta.
  match goal with
  | |- R (wa _ _ (wa _ _ (written (fold_left _ _ ?sa))))
         (wb _ _ (wb _ _ (written (fold_left _ _ ?sb)))) =>
      destruct (Hfold (tl pixels) sa sb) as (E1 & E2 & E3 & E4 & Hr)
  end.
  { unfold SR. cbn [codeSize nextCode dict current written]. auto 8. }
  rewrite E1, E3, E4. auto.
Qed.

(** ** Sub-blocks *)

Lemma land_255_byte (x : Z) : byte (Z.land x 255).
Proof.
  unfold byte. change 255 with (Z.ones 8). rewrite Z.land_ones by lia.
  apply Z.mod_pos_bound. lia.
Qed.

Lemma drain_bytes (fuel : nat) (w : bit_writer) :
  Forall byte (output w) -> Forall byte (output (drain fuel w)).
Proof.
  revert w. induction fuel as [|fuel IH]; intros w Hw; [exact Hw|].
  cbn [drain]. destruct (8 <=? bitsInBuffer w); [|exact Hw].
  apply IH. cbn [output]. apply Forall_app. split; [exact Hw|].
  constructor; [apply land_255_byte | constructor].
Qed.

Lemma writeBits_bytes (c : option Z) (s : Z) (w : bit_writer) :
  Forall byte (output w) -> Forall byte (output (writeBits c s w)).
Proof. intros Hw. unfold writeBits. cbv zeta. now apply drain_bytes. Qed.

Lemma lzw_output_bytes (pixels : list Z) (m : Z) :
  Forall byte (lzw_output pixels m).
Proof.
  unfold lzw_output. cbv zeta.
  set (w := lzw_run _ _ _ _ _).
  assert (Hw : Forall byte (output w)).
  { apply (lzw_run_keeps _ _ _ (fun w => Forall byte (output w))).
    - intros c s w0. apply writeBits_bytes.
    - constructor. }
  destruct (0 <? bitsInBuffer w); [|exact Hw].
  apply Forall_app. split; [exact Hw|].
  constructor; [apply land_255_byte | constructor].
Qed.

Lemma map_u8_bytes (l : list Z) : Forall byte l -> map u8 l = l.
Proof.
  induction 1 as [|b l Hb Hl IH]; [reflexivity|].
  cbn [map]. rewrite IH. unfold u8. now rewrite Z.mod_small.
Qed.

Lemma pack_blocks_framed (fuel : nat) (bytes : list Z) :
  (length bytes <= fuel)%nat ->
  exists chunks,
    pack_blocks fuel bytes = framed chunks /\
    concat chunks = bytes /\
    Forall (fun c => (1 <= length c <= 255)%nat) chunks /\
    full_but_last chunks.
Proof.
  revert bytes. induction fuel as [|fuel IH]; intros bytes Hl.
  - destruct bytes; [|cbn [length] in Hl; lia].
    exists []. repeat split; constructor.
  - cbn [pack_blocks]. destruct bytes as [|b rest].
    { exists []. repeat split; constructor. }
    set (bs := b :: rest) in *.
    set (n := Nat.min 255 (length bs)).
    assert (Hn : (1 <= n <= 255)%nat).
    { unfold n, bs. cbn [length]. lia. }
    assert (Hfl : length (firstn n bs) = n).
    { rewrite length_firstn. unfold n. lia. }
    destruct (IH (skipn n bs)) as (chunks & Hp & Hc & Hf & Hfull).
    { rewrite length_skipn. lia. }
    exists (firstn n bs :: chunks). split; [|split; [|split]].
    + unfold framed in *. cbn [map concat]. rewrite Hfl, Hp.
      reflexivity.
    + cbn [concat]. rewrite Hc. apply firstn_skipn.
    + constructor; [rewrite Hfl; exact Hn | exact Hf].
    + destruct chunks as [|c chunks']; [exact I|].
      split; [|exact Hfull].
      rewrite Hfl. unfold n.
      assert (Hne : skipn n bs <> []).
      { rewrite <- Hc. cbn [concat].
        inversion Hf as [|? ? Hc1 _]; subst.
        destruct c; [cbn [length] in Hc1; lia | discriminate]. }
      destruct (Nat.le_gt_cases (length bs) 255) as [Hle|Hgt]; [|lia].
      exfalso. apply Hne. apply skipn_all2. unfold n. lia.
Qed.

Lemma framed_bytes (chunks : list (list Z)) :
  Forall (fun c => (1 <= length c <= 255)%nat) chunks ->
  Forall byte (concat chunks) -> Forall byte (framed chunks).
Proof.
  induction 1 as [|c chunks Hc Hcs IH]; intros Hb; [constructor|].
  unfold framed in *. cbn [map concat] in *.
  apply Forall_app in Hb. destruct Hb as [Hb1 Hb2].
  constructor; [unfold byte; lia|].
  apply Forall_app. split; [exact Hb1 | apply IH, Hb2].
Qed.

(** X26: whatever the pixels and the code size, [_lzwCompress] returns a
    well-formed sequence of data sub-blocks that carries the compressed
    bytes unchanged: each block is a size byte followed by that many
    bytes, every block holds from 1 to 255 bytes, every block but the
    last holds 255, and every number written is a byte; so the first
    block of size 0 a reader meets is the terminator that [encode]
    appends. *)
Theorem lzwCompress_sub_blocks (pixels : list Z) (minCodeSize : Z) :
  exists chunks,
    _lzwCompress pixels minCodeSize = framed chunks /\
    concat chunks = lzw_output pixels minCodeSize /\
    Forall (fun c => (1 <= length c <= 255)%nat) chunks /\
    full_but_last chunks /\
    Forall (fun b => 0 <= b < 256) (_lzwCompress pixels minCodeSize).
Proof.
  unfold _lzwCompress. cbv zeta.
  set (out := lzw_output pixels minCodeSize).
  pose proof (lzw_output_bytes pixels minCodeSize) as Hb. fold out in Hb.
  destruct (pack_blocks_framed (length out) out (le_n _))
    as (chunks & Hp & Hc & Hf & Hfull).
  assert (Hfb : Forall byte (framed chunks)).
  { apply framed_bytes; [exact Hf | now rewrite Hc]. }
  rewrite Hp, map_u8_bytes by exact Hfb.
  exists chunks. auto 6.
Qed.

(** ** The dictionary *)

Lemma dict_has_get (d : dictionary) (key : String.string) :
  dict_has d key = true ->
  exists v, dict_get d key = Some v /\ In v (map snd d).
Proof.
  unfold dict_has, dict_get. induction d as [|[k v] d IH]; intros H;
    [discriminate H|].
  cbn [existsb find fst] in *.
  destruct (String.eqb k key).
  - exists v. split; [reflexivity | now left].
  - destruct (IH H) as (v' & E & Hin). exists v'.
    split; [exact E | now right].
Qed.

Lemma dict_has_set (d : dictionary) (key key' : String.string) (v : Z) :
  dict_has d key = true -> dict_has (dict_set d key' v) key = true.
Proof.
  intros H. unfold dict_has, dict_set in *. cbn [existsb].
  rewrite H. apply orb_true_r.
Qed.

Lemma fold_left_cons {A B : Type} (f : B -> A) (l : list B)
    (acc : list A) :
  fold_left (fun d i => f i :: d) l acc = rev (map f l) ++ acc.
Proof.
  revert acc. induction l as [|x l IH]; intros acc; [reflexivity|].
  cbn [fold_left map rev]. rewrite IH, <- app_assoc. reflexivity.
Qed.

Lemma initial_dict_entries (n : Z) :
  initial_dict n
  = rev (map (fun i => (String_of (Z.of_nat i), Z.of_nat i))
             (seq 0 (Z.to_nat n))).
Proof.
  unfold initial_dict, dict_set.
  rewrite (fold_left_cons
             (fun i => (String_of (Z.of_nat i), Z.of_nat i))).
  apply app_nil_r.
Qed.

Lemma initial_dict_values (n v : Z) :
  In v (map snd (initial_dict n)) -> 0 <= v < n.
Proof.
  rewrite initial_dict_entries, map_rev, map_map. cbn [snd].
  intros H. apply in_rev, in_map_iff in H.
  destruct H as (i & <- & Hi). apply in_seq in Hi. lia.
Qed.

Lemma initial_dict_has (n p : Z) :
  0 <= p < n -> dict_has (initial_dict n) (String_of p) = true.
Proof.
  intros Hp. unfold dict_has. apply existsb_exists.
  exists (String_of p, p). split.
  - rewrite initial_dict_entries. apply -> in_rev. apply in_map_iff.
    exists (Z.to_nat p). rewrite Z2Nat.id by lia.
    split; [reflexivity|]. apply in_seq. lia.
  - cbn [fst]. apply String.eqb_refl.
Qed.

(** ** The codes written *)

Lemma pow2_facts (m cs : Z) :
  1 <= m -> m + 1 <= cs <= 12 ->
  2 <= 2 ^ m /\ 2 * 2 ^ m <= 2 ^ cs /\ 2 ^ cs <= 4096 /\
  2 ^ (cs + 1) = 2 * 2 ^ cs.
Proof.
  intros Hm Hcs.
  assert (H1 : 2 ^ 1 <= 2 ^ m) by (apply Z.pow_le_mono_r; lia).
  assert (H2 : 2 ^ (m + 1) <= 2 ^ cs) by (apply Z.pow_le_mono_r; lia).
  assert (H3 : 2 ^ cs <= 2 ^ 12) by (apply Z.pow_le_mono_r; lia).
  rewrite Z.pow_add_r in H2 by lia.
  rewrite (Z.pow_add_r 2 cs 1) by lia.
  change (2 ^ 1) with 2 in *. change (2 ^ 12) with 4096 in H3. lia.
Qed.

Lemma clearCode_pow (m : Z) : 1 <= m <= 11 -> clearCode_of m = 2 ^ m.
Proof. intros H. apply js_shl_1_small. lia. Qed.

Lemma lzw_inv_initial (m p0 : Z) :
  1 <= m <= 11 -> 0 <= p0 < 2 ^ m ->
  lzw_inv m
    {| codeSize := m + 1;
       nextCode := eoiCode_of m + 1;
       dict := initial_dict (clearCode_of m);
       current := String_of p0;
       written := record_code (Some (clearCode_of m)) (m + 1) [] |}.
Proof.
  intros Hm Hp. unfold lzw_inv, eoiCode_of, record_code.
  cbn [codeSize nextCode dict current written app].
  rewrite clearCode_pow by exact Hm.
  destruct (pow2_facts m (m + 1)) as (P1 & P2 & P3 & P4); [lia | lia |].
  split; [lia|]. split; [lia|]. split.
  { intros v Hv. apply initial_dict_values in Hv. lia. }
  split; [intros p Hp'; now apply initial_dict_has|].
  split; [now apply initial_dict_has|].
  split; [|now exists []].
  constructor; [|constructor].
  split; [|cbn [snd]; lia].
  exists (2 ^ m). cbn [fst snd]. split; [reflexivity | lia].
Qed.

Lemma lzw_inv_step (m p : Z) (st : lzw_state (list (option Z * Z))) :
  1 <= m <= 11 -> 0 <= p < 2 ^ m -> lzw_inv m st ->
  lzw_inv m (lzw_step _ record_code m st p).
Proof.
  intros Hm Hp (Hcs & Hn & Hv & Hs & Hc & Hw & rest & Hfirst).
  destruct (pow2_facts m (codeSize st)) as (P1 & P2 & P3 & P4);
    [lia | lia |].
  unfold lzw_step. cbv zeta.
  destruct (dict_has (dict st) (String.append _ _)) eqn:Ehas.
  { unfold lzw_inv. cbn [codeSize nextCode dict current written].
    split; [exact Hcs|]. split; [exact Hn|]. split; [exact Hv|].
    split; [exact Hs|]. split; [exact Ehas|]. split; [exact Hw|].
    now exists rest. }
  destruct (dict_has_get _ _ Hc) as (v & Eget & Hin).
  pose proof (Hv v Hin) as Hvr.
  assert (Hw1 : Forall (code_ok m)
                       (record_code (dict_get (dict st) (current st))
                                    (codeSize st) (written st))).
  { unfold record_code. apply Forall_app. split; [exact Hw|].
    constructor; [|constructor]. split; [|cbn [snd]; lia].
    exists v. cbn [fst snd]. split; [exact Eget | lia]. }
  assert (Hf1 : exists rest',
             record_code (dict_get (dict st) (current st)) (codeSize st)
                         (written st)
             = (Some (2 ^ m), m + 1) :: rest').
  { unfold record_code. rewrite Hfirst. now eexists. }
  destruct (nextCode st <? maxDictSize) eqn:Efull.
  - apply Z.ltb_lt in Efull. unfold maxDictSize in Efull.
    unfold lzw_inv. cbn [codeSize nextCode dict current written].
    rewrite js_shl_1_small by lia.
    assert (Hcs' : m + 1
                   <= (if (2 ^ codeSize st <? nextCode st + 1)
                          && (codeSize st <? 12)
                       then codeSize st + 1 else codeSize st) <= 12
                   /\ nextCode st + 1
                      <= 2 ^ (if (2 ^ codeSize st <? nextCode st + 1)
                                 && (codeSize st <? 12)
                              then codeSize st + 1 else codeSize st)).
    { destruct (2 ^ codeSize st <? nextCode st + 1) eqn:E1;
        destruct (codeSize st <? 12) eqn:E2; cbn [andb];
        try apply Z.ltb_lt in E1; try apply Z.ltb_ge in E1;
        try apply Z.ltb_lt in E2; try apply Z.ltb_ge in E2.
      - rewrite P4. lia.
      - assert (codeSize st = 12) as E12 by lia.
        rewrite E12 in *. change (2 ^ 12) with 4096 in *. lia.
      - lia.
      - lia. }
    split; [apply Hcs'|]. split; [lia|]. split.
    { intros v' [<-|Hv']; [cbn [snd]; lia|]. specialize (Hv v' Hv'). lia. }
    split; [intros q Hq; apply dict_has_set, Hs, Hq|].
    split; [apply dict_has_set, Hs, Hp|].
    split; [exact Hw1 | exact Hf1].
  - destruct (lzw_inv_initial m p Hm Hp)
      as (I1 & I2 & I3 & I4 & I5 & _ & _).
    cbn [codeSize nextCode dict current written] in I1, I2, I3, I4, I5.
    unfold lzw_inv. cbn [codeSize nextCode dict current written].
    split; [exact I1|]. split; [exact I2|]. split; [exact I3|].
    split; [exact I4|]. split; [exact I5|]. split.
    + unfold record_code at 1. apply Forall_app. split; [exact Hw1|].
      constructor; [|constructor]. split; [|cbn [snd]; lia].
      exists (2 ^ m). cbn [fst snd].
      rewrite clearCode_pow by exact Hm. split; [reflexivity | lia].
    + destruct Hf1 as [rest' ->]. unfold record_code at 1.
      now eexists.
Qed.

Lemma lzw_codes_run (pixels : list Z) (m : Z) :
  lzw_codes pixels m = lzw_run _ record_code m pixels [].
Proof. reflexivity. Qed.

(** All the facts about the codes of a frame at once. *)
Lemma lzw_codes_ok (pixels : list Z) (m : Z) :
  1 <= m <= 11 -> pixels <> [] ->
  Forall (fun p => 0 <= p < 2 ^ m) pixels ->
  Forall (code_ok m) (lzw_codes pixels m) /\
  exists mid s,
    lzw_codes pixels m
    = (Some (2 ^ m), m + 1) :: mid ++ [(Some (2 ^ m + 1), s)].
Proof.
  intros Hm Hne Hpx. rewrite lzw_codes_run. unfold lzw_run. cbv zeta.
  destruct pixels as [|p0 rest]; [congruence|]. cbn [tl].
  inversion Hpx as [|? ? Hp0 Hrest]; subst.
  match goal with
  | |- context [fold_left _ rest ?s0] => set (st0 := s0)
  end.
  assert (H0 : lzw_inv m st0) by (apply lzw_inv_initial; assumption).
  assert (Hfold : forall l st, Forall (fun p => 0 <= p < 2 ^ m) l ->
                    lzw_inv m st ->
                    lzw_inv m (fold_left (lzw_step _ record_code m) l st)).
  { induction l as [|p l IH]; intros st Hl Hst; [exact Hst|].
    inversion Hl; subst. cbn [fold_left]. apply IH; [assumption|].
    now apply lzw_inv_step. }
  specialize (Hfold rest st0 Hrest H0).
  set (st := fold_left _ rest st0) in *.
  destruct Hfold as (Hcs & Hn & Hv & Hs & Hc & Hw & mid & Hfirst).
  destruct (pow2_facts m (codeSize st)) as (P1 & P2 & P3 & P4);
    [lia | lia |].
  destruct (dict_has_get _ _ Hc) as (v & Eget & Hin).
  pose proof (Hv v Hin) as Hvr.
  unfold eoiCode_of. rewrite clearCode_pow by exact Hm.
  split.
  - unfold record_code. apply Forall_app. split.
    + apply Forall_app. split; [exact Hw|].
      constructor; [|constructor]. split; [|cbn [snd]; lia].
      exists v. cbn [fst snd]. split; [exact Eget | lia].
    + constructor; [|constructor]. split; [|cbn [snd]; lia].
      exists (2 ^ m + 1). cbn [fst snd]. split; [reflexivity | lia].
  - unfold record_code. rewrite Hfirst.
    exists (mid ++ [(dict_get (dict st) (current st), codeSize st)]),
      (codeSize st).
    cbn [app]. now rewrite <- app_assoc.
Qed.

(** X27: when the minimum code size is from 1 to 11 and every pixel of a
    non-empty frame is below [2^minCodeSize], every code that
    [_lzwCompress] writes is a number that fits the code size it is
    written with, the sizes run from [minCodeSize + 1] to 12, the first
    code is the clear code and the last the end-of-information code. *)
Theorem lzw_codes_fit (pixels : list Z) (minCodeSize : Z) :
  1 <= minCodeSize <= 11 -> pixels <> [] ->
  Forall (fun p => 0 <= p < 2 ^ minCodeSize) pixels ->
  Forall (fun cs => code_fits cs /\ minCodeSize + 1 <= snd cs <= 12)
         (lzw_codes pixels minCodeSize) /\
  exists mid s,
    lzw_codes pixels minCodeSize
    = (Some (2 ^ minCodeSize), minCodeSize + 1)
      :: mid ++ [(Some (2 ^ minCodeSize + 1), s)].
Proof. apply lzw_codes_ok. Qed.

Lemma striped_frame_pixels : Forall (fun p => 0 <= p < 2 ^ 2) striped_frame.
Proof.
  repeat (apply Forall_cons; [split; [lia | reflexivity]|]).
  apply Forall_nil.
Defined.

Lemma striped_frame_nonempty : striped_frame <> [].
Proof. discriminate. Defined.

(** X27, applied to the frame of twelve pixels. *)
Lemma lzw_codes_fit_witness :
  1 <= 2 <= 11 /\ striped_frame <> [] /\
  Forall (fun p => 0 <= p < 2 ^ 2) striped_frame /\
  Forall (fun cs => code_fits cs /\ 2 + 1 <= snd cs <= 12)
         (lzw_codes striped_frame 2).
Proof.
  split; [lia|]. split; [exact striped_frame_nonempty|].
  split; [exact striped_frame_pixels|].
  exact (proj1 (lzw_codes_fit striped_frame 2 ltac:(lia)
                  striped_frame_nonempty striped_frame_pixels)).
Defined.

(** ** The bit buffer *)

Lemma le_value_app (l1 l2 : list Z) :
  le_value (l1 ++ l2)
  = le_value l1 + 256 ^ Z.of_nat (length l1) * le_value l2.
Proof.
  induction l1 as [|b l1 IH].
  - unfold le_value. cbn [app length fold_right Z.of_nat].
    change (256 ^ 0) with 1. lia.
  - cbn [app length]. unfold le_value in *. cbn [fold_right].
    rewrite IH, Nat2Z.inj_succ, Z.pow_succ_r by lia. lia.
Qed.

Lemma pow256 (n : Z) : 0 <= n -> 256 ^ n = 2 ^ (8 * n).
Proof.
  intros H. change 256 with (2 ^ 8). rewrite <- Z.pow_mul_r by lia.
  reflexivity.
Qed.

Lemma total_bits_app (l1 l2 : list (option Z * Z)) :
  total_bits (l1 ++ l2) = total_bits l1 + total_bits l2.
Proof. unfold total_bits. rewrite map_app. apply sumZ_app. Qed.

Lemma total_bits_cons (c : option Z) (s : Z) (l : list (option Z * Z)) :
  total_bits ((c, s) :: l) = s + total_bits l.
Proof. reflexivity. Qed.

Lemma pack_value_cons (c : option Z) (s : Z) (l : list (option Z * Z)) :
  pack_value ((c, s) :: l) = code_of c + 2 ^ s * pack_value l.
Proof. reflexivity. Qed.

Lemma total_bits_nil : total_bits [] = 0.
Proof. reflexivity. Qed.

Lemma pack_value_nil : pack_value [] = 0.
Proof. reflexivity. Qed.

Lemma total_bits_nonneg (l : list (option Z * Z)) :
  Forall code_sized l -> 0 <= total_bits l.
Proof.
  induction 1 as [|[c s] l [_ Hs] _ IH];
    [rewrite total_bits_nil; lia|].
  rewrite total_bits_cons. cbn [snd] in Hs. lia.
Qed.

Lemma pack_value_app (l1 l2 : list (option Z * Z)) :
  Forall code_sized l1 ->
  pack_value (l1 ++ l2)
  = pack_value l1 + 2 ^ total_bits l1 * pack_value l2.
Proof.
  induction 1 as [|[c s] l1 [_ Hs] Hl IH].
  - cbn [app]. rewrite pack_value_nil, total_bits_nil.
    change (2 ^ 0) with 1. lia.
  - pose proof (total_bits_nonneg l1 Hl) as Hn. cbn [snd] in Hs.
    cbn [app]. rewrite !pack_value_cons, total_bits_cons, IH.
    rewrite Z.pow_add_r by lia. lia.
Qed.

Lemma pack_value_bound (l : list (option Z * Z)) :
  Forall code_sized l -> 0 <= pack_value l < 2 ^ total_bits l.
Proof.
  induction 1 as [|[c s] l [(v & Ev & Hv) Hs] Hl IH].
  - rewrite pack_value_nil, total_bits_nil. change (2 ^ 0) with 1. lia.
  - pose proof (total_bits_nonneg l Hl) as Hn. cbn [fst snd] in *.
    subst c. rewrite pack_value_cons, total_bits_cons. cbn [code_of].
    rewrite Z.pow_add_r by lia.
    set (P := pack_value l) in *. set (T := 2 ^ total_bits l) in *.
    assert (0 < 2 ^ s) by (apply Z.pow_pos_nonneg; lia).
    nia.
Qed.

Lemma lor_disjoint (a c n : Z) :
  0 <= n -> 0 <= a < 2 ^ n -> Z.lor a (c * 2 ^ n) = a + c * 2 ^ n.
Proof.
  intros Hn Ha.
  assert (Hland : Z.land a (c * 2 ^ n) = 0).
  { apply Z.bits_inj'. intros i Hi. rewrite Z.land_spec, Z.bits_0.
    destruct (Z_lt_dec i n) as [Hlt|Hge].
    - rewrite (Z.mul_pow2_bits_low c n i) by lia. apply andb_false_r.
    - destruct (Z.eq_dec a 0) as [->|Hne];
        [rewrite Z.bits_0; reflexivity|].
      rewrite (Z.bits_above_log2 a i); [reflexivity | lia |].
      apply Z.log2_lt_pow2; [lia|].
      apply Z.lt_le_trans with (2 ^ n); [lia|].
      apply Z.pow_le_mono_r; lia. }
  rewrite <- Z.lxor_lor by exact Hland.
  symmetry. apply Z.add_nocarry_lxor. exact Hland.
Qed.

Lemma js_shl_small (a b : Z) :
  0 <= b < 32 -> 0 <= a * 2 ^ b < 2 ^ 31 -> js_shl a b = a * 2 ^ b.
Proof.
  intros Hb Ha. unfold js_shl.
  change 31 with (Z.ones 5). rewrite Z.land_ones by lia.
  change (2 ^ 5) with 32. rewrite Z.mod_small by lia.
  rewrite Z.shiftl_mul_pow2 by lia. apply to_int32_id. lia.
Qed.

Lemma drain_holds (fuel : nat) (w : bit_writer) (V B : Z) :
  0 <= bitsInBuffer w -> 0 <= bitBuffer w < 2 ^ bitsInBuffer w ->
  le_value (output w)
  + 256 ^ Z.of_nat (length (output w)) * bitBuffer w = V ->
  8 * Z.of_nat (length (output w)) + bitsInBuffer w = B ->
  bitsInBuffer w / 8 <= Z.of_nat fuel ->
  holds (drain fuel w) V B.
Proof.
  revert w. induction fuel as [|fuel IH];
    intros [bb nb out]; cbn [bitBuffer bitsInBuffer output];
    intros Hnb Hbb HV HB Hf.
  - cbn [drain]. unfold holds. cbn [bitBuffer bitsInBuffer output].
    cbn [Z.of_nat] in Hf.
    assert (nb < 8).
    { destruct (Z_lt_dec nb 8); [assumption|].
      assert (1 <= nb / 8) by (apply Z.div_le_lower_bound; lia). lia. }
    auto with zarith.
  - cbn [drain bitsInBuffer bitBuffer output].
    destruct (8 <=? nb) eqn:E.
    + apply Z.leb_le in E. apply IH;
        cbn [bitBuffer bitsInBuffer output].
      * lia.
      * rewrite Z.shiftr_div_pow2 by lia. change (2 ^ 8) with 256.
        split; [apply Z.div_pos; lia|].
        apply Z.div_lt_upper_bound; [lia|].
        replace nb with (8 + (nb - 8)) in Hbb by lia.
        rewrite Z.pow_add_r in Hbb by lia.
        change (2 ^ 8) with 256 in Hbb. lia.
      * rewrite le_value_app, length_app. cbn [length].
        rewrite Nat2Z.inj_add. change (Z.of_nat 1) with 1.
        rewrite Z.pow_add_r by lia. change (256 ^ 1) with 256.
        unfold le_value at 2. cbn [fold_right].
        change 255 with (Z.ones 8). rewrite Z.land_ones by lia.
        rewrite Z.shiftr_div_pow2 by lia. change (2 ^ 8) with 256.
        pose proof (Z.div_mod bb 256 ltac:(lia)) as Hdm.
        rewrite <- HV.
        set (P := 256 ^ Z.of_nat (length out)). nia.
      * rewrite length_app. cbn [length]. lia.
      * replace nb with ((nb - 8) + 1 * 8) in Hf by lia.
        rewrite Z.div_add in Hf by lia. lia.
    + apply Z.leb_gt in E. unfold holds.
      cbn [bitBuffer bitsInBuffer output]. auto with zarith.
Qed.

Lemma writeBits_holds (w : bit_writer) (V B c s : Z) :
  holds w V B -> 0 <= c < 2 ^ s -> 0 <= s <= 24 ->
  holds (writeBits (Some c) s w) (V + 2 ^ B * c) (B + s).
Proof.
  intros (Hnb & Hbb & HV & HB) Hc Hs. unfold writeBits. cbv zeta.
  assert (Hp : 0 < 2 ^ bitsInBuffer w) by (apply Z.pow_pos_nonneg; lia).
  assert (Hcs : c * 2 ^ bitsInBuffer w + 2 ^ bitsInBuffer w
                <= 2 ^ (bitsInBuffer w + s)).
  { rewrite Z.pow_add_r by lia. nia. }
  assert (H31 : 2 ^ (bitsInBuffer w + s) <= 2 ^ 31)
    by (apply Z.pow_le_mono_r; lia).
  rewrite js_shl_small by nia.
  rewrite lor_disjoint by lia.
  apply drain_holds; cbn [bitBuffer bitsInBuffer output].
  - lia.
  - nia.
  - rewrite <- HV, <- HB.
    rewrite Z.pow_add_r, <- pow256 by lia. nia.
  - lia.
  - rewrite Z2Nat.id; [lia|]. apply Z.div_pos; lia.
Qed.

Lemma packs_write (c : option Z) (s : Z) (w : bit_writer)
    (l : list (option Z * Z)) :
  packs w l -> packs (writeBits c s w) (record_code c s l).
Proof.
  unfold packs, record_code. intros Hw Hl.
  apply Forall_app in Hl. destruct Hl as [Hl Hc].
  inversion Hc as [|? ? [(v & Ev & Hv) Hs] _]; subst.
  cbn [fst snd] in *. subst c.
  rewrite pack_value_app, total_bits_app by exact Hl.
  rewrite pack_value_cons, total_bits_cons, pack_value_nil,
    total_bits_nil.
  cbn [code_of].
  replace (v + 2 ^ s * 0) with v by lia.
  replace (s + 0) with s by lia.
  apply writeBits_holds; auto.
Qed.

Lemma code_ok_sized (m : Z) (cs : option Z * Z) :
  1 <= m -> code_ok m cs -> code_sized cs.
Proof. intros Hm [Hf Hs]. split; [exact Hf | lia]. Qed.

(** The bytes of a frame hold the codes of the frame. *)
Lemma lzw_output_value (pixels : list Z) (m : Z) :
  1 <= m <= 11 -> pixels <> [] ->
  Forall (fun p => 0 <= p < 2 ^ m) pixels ->
  le_value (lzw_output pixels m) = pack_value (lzw_codes pixels m) /\
  Z.of_nat (length (lzw_output pixels m))
  = (total_bits (lzw_codes pixels m) + 7) / 8.
Proof.
  intros Hm Hne Hpx.
  destruct (lzw_codes_ok pixels m Hm Hne Hpx) as [Hok _].
  assert (Hsz : Forall code_sized (lzw_codes pixels m)).
  { eapply Forall_impl; [|exact Hok].
    intros cs. apply code_ok_sized. lia. }
  assert (Hp : packs (lzw_run bit_writer writeBits m pixels
                        {| bitBuffer := 0; bitsInBuffer := 0;
                           output := [] |})
                     (lzw_codes pixels m)).
  { rewrite lzw_codes_run. apply lzw_run_sim.
    - intros c s a b. apply packs_write.
    - intros _. rewrite pack_value_nil, total_bits_nil. unfold holds.
      cbn [bitBuffer bitsInBuffer output length le_value fold_right
           Z.of_nat].
      change (2 ^ 0) with 1. lia. }
  destruct (Hp Hsz) as (Hnb & Hbb & HV & HB).
  unfold lzw_output. cbv zeta.
  set (w := lzw_run bit_writer writeBits m pixels _) in *.
  destruct (0 <? bitsInBuffer w) eqn:E.
  - apply Z.ltb_lt in E.
    assert (H128 : 2 ^ bitsInBuffer w <= 2 ^ 7)
      by (apply Z.pow_le_mono_r; lia).
    change (2 ^ 7) with 128 in H128.
    change 255 with (Z.ones 8). rewrite Z.land_ones by lia.
    change (2 ^ 8) with 256. rewrite Z.mod_small by lia.
    rewrite le_value_app, length_app. cbn [length].
    unfold le_value at 2. cbn [fold_right].
    split; [rewrite <- HV; lia|].
    rewrite <- HB.
    replace (8 * Z.of_nat (length (output w)) + bitsInBuffer w + 7)
      with ((bitsInBuffer w + 7) + Z.of_nat (length (output w)) * 8)
      by lia.
    rewrite Z.div_add by lia.
    assert ((bitsInBuffer w + 7) / 8 = 1).
    { symmetry. apply Z.div_unique with (r := bitsInBuffer w - 1); lia. }
    lia.
  - apply Z.ltb_ge in E.
    assert (E0 : bitsInBuffer w = 0) by lia. rewrite E0 in *.
    change (2 ^ 0) with 1 in Hbb.
    assert (Eb : bitBuffer w = 0) by lia. rewrite Eb in HV.
    split; [rewrite <- HV; lia|].
    rewrite <- HB.
    replace (8 * Z.of_nat (length (output w)) + 0 + 7)
      with (7 + Z.of_nat (length (output w)) * 8) by lia.
    rewrite Z.div_add by lia. change (7 / 8) with 0. lia.
Qed.

Lemma pack_value_read (pre post : list (option Z * Z)) (c : option Z)
    (s : Z) :
  Forall code_sized (pre ++ (c, s) :: post) ->
  (pack_value (pre ++ (c, s) :: post) / 2 ^ total_bits pre) mod 2 ^ s
  = code_of c.
Proof.
  intros H. apply Forall_app in H. destruct H as [Hpre Hrest].
  inversion Hrest as [|? ? [(v & Ev & Hv) Hs] Hpost]; subst.
  cbn [fst snd] in *. subst c. cbn [code_of].
  rewrite pack_value_app by exact Hpre.
  pose proof (pack_value_bound pre Hpre) as Hb.
  pose proof (total_bits_nonneg pre Hpre) as Hn.
  assert (Hp : 0 < 2 ^ total_bits pre) by (apply Z.pow_pos_nonneg; lia).
  rewrite Z.mul_comm, Z.div_add by lia.
  rewrite Z.div_small by lia. rewrite Z.add_0_l.
  rewrite pack_value_cons. cbn [code_of].
  assert (0 < 2 ^ s) by (apply Z.pow_pos_nonneg; lia).
  rewrite Z.mul_comm, Z.mod_add by lia.
  apply Z.mod_small. exact Hv.
Qed.

(** X28: under the same conditions the bytes that [_lzwCompress] packs
    into sub-blocks hold exactly the codes written, first code in the
    lowest bits: as a little-endian number they are the sum of the codes,
    each shifted by the sizes of the codes before it; there are as many
    bytes as the bits need; and the bits read at the place of a code give
    the code back. *)
Theorem lzw_output_packs_codes (pixels : list Z) (minCodeSize : Z) :
  1 <= minCodeSize <= 11 -> pixels <> [] ->
  Forall (fun p => 0 <= p < 2 ^ minCodeSize) pixels ->
  le_value (lzw_output pixels minCodeSize)
  = pack_value (lzw_codes pixels minCodeSize) /\
  Z.of_nat (length (lzw_output pixels minCodeSize))
  = (total_bits (lzw_codes pixels minCodeSize) + 7) / 8 /\
  forall pre c s post,
    lzw_codes pixels minCodeSize = pre ++ (c, s) :: post ->
    (le_value (lzw_output pixels minCodeSize) / 2 ^ total_bits pre)
    mod 2 ^ s
    = code_of c.
Proof.
  intros Hm Hne Hpx.
  destruct (lzw_output_value pixels minCodeSize Hm Hne Hpx) as [HV HL].
  split; [exact HV|]. split; [exact HL|].
  intros pre c s post E. rewrite HV, E. apply pack_value_read.
  rewrite <- E.
  destruct (lzw_codes_ok pixels minCodeSize Hm Hne Hpx) as [Hok _].
  eapply Forall_impl; [|exact Hok].
  intros cs. apply code_ok_sized. lia.
Qed.

(** X28, applied to the same frame. *)
Lemma lzw_output_packs_codes_witness :
  1 <= 2 <= 11 /\ striped_frame <> [] /\
  Forall (fun p => 0 <= p < 2 ^ 2) striped_frame /\
  le_value (lzw_output striped_frame 2)
  = pack_value (lzw_codes striped_frame 2) /\
  Z.of_nat (length (lzw_output striped_frame 2))
  = (total_bits (lzw_codes striped_frame 2) + 7) / 8.
Proof.
  split; [lia|]. split; [exact striped_frame_nonempty|].
  split; [exact striped_frame_pixels|].
  destruct (lzw_output_packs_codes striped_frame 2 ltac:(lia)
              striped_frame_nonempty striped_frame_pixels)
    as (H1 & H2 & _).
  split; [exact H1 | exact H2].
Defined.

(** ** Frames of the renderer in the encoder *)

Lemma renderBoard_frame_ok (board : list Z) (score : Z) :
  frame_ok (Renderer.renderBoard board score).
Proof.
  destruct (renderBoard_pixels_ok board score) as [Hl Hf].
  split; [|exact Hf]. rewrite Hl. apply Z2Nat.id. vm_compute.
  discriminate.
Qed.

(** X25: whatever the board and the score, [renderBoard] returns a frame
    of [IMAGE_WIDTH * IMAGE_HEIGHT] pixels, each a palette index from 0
    to 20, and [addFrame] of an encoder of that size accepts it: it does
    not throw and appends the frame unchanged. *)
Theorem renderBoard_frame_accepted (board : list Z) (score delay : Z)
    (enc : GifEncoder) :
  width enc = Renderer.IMAGE_WIDTH -> height enc = Renderer.IMAGE_HEIGHT ->
  frame_ok (Renderer.renderBoard board score) /\
  addFrame enc (Renderer.renderBoard board score) delay
  = Some {| width := width enc; height := height enc;
            frames := frames enc
                      ++ [(Renderer.renderBoard board score, delay)];
            globalPalette := globalPalette enc |}.
Proof.
  intros Hw Hh.
  pose proof (renderBoard_frame_ok board score) as [Hl Hf].
  split; [split; assumption|].
  unfold addFrame. rewrite Hw, Hh, Hl, Z.eqb_refl. cbn [negb].
  rewrite map_u8_bytes; [reflexivity|].
  eapply Forall_impl; [|exact Hf]. intros p Hp. cbv beta in Hp.
  unfold byte. lia.
Qed.

(** X25, applied to a fresh encoder of the image size. *)
Lemma renderBoard_frame_accepted_witness :
  let enc := GifEncoder_new Renderer.IMAGE_WIDTH Renderer.IMAGE_HEIGHT in
  width enc = Renderer.IMAGE_WIDTH /\ height enc = Renderer.IMAGE_HEIGHT /\
  frame_ok (Renderer.renderBoard two_pairs_board 8) /\
  addFrame enc (Renderer.renderBoard two_pairs_board 8) 15
  = Some {| width := width enc; height := height enc;
            frames := frames enc
                      ++ [(Renderer.renderBoard two_pairs_board 8, 15)];
            globalPalette := globalPalette enc |}.
Proof.
  intros enc. split; [reflexivity|]. split; [reflexivity|].
  exact (renderBoard_frame_accepted two_pairs_board 8 15 enc
           eq_refl eq_refl).
Defined.

(** X29: every frame of the renderer goes through the compression
    intact: for every board and score and every minimum code size from 5
    (the palette of 32 colours) to 11, each code written for the frame
    fits its size, and the bytes written hold exactly those codes. *)
Theorem rendered_frame_codes_fit (board : list Z) (score m : Z) :
  5 <= m <= 11 ->
  Forall code_fits (lzw_codes (Renderer.renderBoard board score) m) /\
  le_value (lzw_output (Renderer.renderBoard board score) m)
  = pack_value (lzw_codes (Renderer.renderBoard board score) m).
Proof.
  intros Hm.
  pose proof (renderBoard_frame_ok board score) as [Hl Hf].
  set (px := Renderer.renderBoard board score) in *.
  assert (Hne : px <> []).
  { intros E. rewrite E in Hl. vm_compute in Hl. discriminate Hl. }
  assert (Hpx : Forall (fun p => 0 <= p < 2 ^ m) px).
  { eapply Forall_impl; [|exact Hf]. intros p Hp. cbv beta in Hp.
    assert (2 ^ 5 <= 2 ^ m) by (apply Z.pow_le_mono_r; lia).
    change (2 ^ 5) with 32 in *. lia. }
  destruct (lzw_codes_ok px m ltac:(lia) Hne Hpx) as [Hok _].
  split.
  - eapply Forall_impl; [|exact Hok]. intros cs [H _]. exact H.
  - apply (lzw_output_value px m ltac:(lia) Hne Hpx).
Qed.

(** X29, applied to a board at the minimum code size of the palette. *)
Lemma rendered_frame_codes_fit_witness :
  5 <= 5 <= 11 /\
  Forall code_fits (lzw_codes (Renderer.renderBoard two_pairs_board 8) 5) /\
  le_value (lzw_output (Renderer.renderBoard two_pairs_board 8) 5)
  = pack_value (lzw_codes (Renderer.renderBoard two_pairs_board 8) 5).
Proof.
  split; [lia|].
  exact (rendered_frame_codes_fit two_pairs_board 8 5 ltac:(lia)).
Defined.
